(** * The blob URL manager and its React hooks, verified against their design notes

    Source files embedded here:
    - [new frontend/src/utils/blobUrlManager.js]  (class [BlobUrlManager])
    - [new frontend/src/hooks/useBlobUrl.js]      (hooks [useBlobUrl] and
      [useMultipleBlobUrls])
    - [new frontend/src/components/BlobUrlErrorBoundary.jsx]  (class
      [BlobUrlErrorBoundary])

    The manager is a JavaScript object holding three [Map]s.  Its methods
    mutate those maps, call the browser ([URL.createObjectURL],
    [URL.revokeObjectURL], [setTimeout], [Date.now], [console]) and may run
    caller supplied callbacks that throw.  The embedding threads one
    [Browser] record through a state-and-exception monad [Js]: the record
    carries the manager, the pending timers, the clock, the serial of the
    next object URL, the trace of effects the browser has seen and the time
    at which the half-hourly [setInterval] sweep of the module is next due.
    Numbers are integers, but for the sums of [getStats], which are rounded
    as IEEE doubles are. *)

From stdpp Require Import base tactics option list strings pretty gmap.
From Stdlib Require Import ZArith Lia.

Open Scope string_scope.
Open Scope Z_scope.
Open Scope list_scope.

(** ** JavaScript [Map] and [Set] with string keys

    A JS [Map] iterates in insertion order; [set] on a key that is present
    keeps its position, [delete] removes it.  The tables of the manager are
    iterated by the code ([Array.from], [for ... of]), so the order is kept:
    a [Map] is the list of its entries in insertion order. *)

Module JsMap.
Section with_value.
Context {V : Type}.

Fixpoint get (k : string) (m : list (string * V)) : option V :=
  match m with
  | [] => None
  | (k', v) :: m' => if decide (k = k') then Some v else get k m'
  end.

Definition has (k : string) (m : list (string * V)) : bool :=
  match get k m with Some _ => true | None => false end.

Fixpoint set (k : string) (v : V) (m : list (string * V)) : list (string * V) :=
  match m with
  | [] => [(k, v)]
  | (k', v') :: m' =>
      if decide (k = k') then (k, v) :: m' else (k', v') :: set k v m'
  end.

Fixpoint delete (k : string) (m : list (string * V)) : list (string * V) :=
  match m with
  | [] => []
  | (k', v') :: m' =>
      if decide (k = k') then delete k m' else (k', v') :: delete k m'
  end.

Definition keys (m : list (string * V)) : list string := m.*1.
Definition values (m : list (string * V)) : list V := m.*2.
Definition size (m : list (string * V)) : nat := length m.
Definition clear (m : list (string * V)) : list (string * V) := [].
End with_value.
End JsMap.

Module JsSet.
Definition has (x : string) (s : list string) : bool := bool_decide (x ∈ s).

Definition add (x : string) (s : list string) : list string :=
  if has x s then s else s ++ [x].

Fixpoint delete (x : string) (s : list string) : list string :=
  match s with
  | [] => []
  | y :: s' => if decide (x = y) then delete x s' else y :: delete x s'
  end.

Definition size (s : list string) : nat := length s.
End JsSet.

Abbreviation JsMapOf V := (list (string * V)).
Abbreviation JsSetOfString := (list string).

(** ** Data model *)

(** What a caller may hand to [createBlobUrl] as [blob]: a [Blob] or [File],
    or any other object.  [blob_size = None] is an object without a [size]
    property; [is_blob = false] is an object [URL.createObjectURL] refuses
    with a [TypeError]. *)
Record BlobLike := mkBlob {
  blob_size : option Z;
  blob_type : string;
  is_blob : bool
}.

(** The optional [metadata] argument.  It is spread last into the object
    literal of [createBlobUrl], so a key that names a tracked field replaces
    that field ([Some v], with a value of the type of the field); keys that
    name no tracked field are kept in [m_extra].  The two blob references of
    an entry are read by no code and their replacement is left out. *)
Record Metadata := mkMetadata {
  m_componentId : option string;
  m_createdAt : option Z;
  m_lastAccessed : option Z;
  m_accessCount : option Z;
  m_size : option Z;
  m_type : option string;
  m_isActive : option bool;
  m_extra : list (string * string)
}.

(** [metadata = {}] *)
Definition noMetadata : Metadata :=
  mkMetadata None None None None None None None [].

(** The value stored in [activeUrls] for a URL. *)
Record UrlMetadata := mkUrlMetadata {
  blob : BlobLike;
  originalBlob : BlobLike;
  componentId : string;
  createdAt : Z;
  lastAccessed : Z;
  accessCount : Z;
  size : Z;
  type : string;
  isActive : bool;
  extra : list (string * string)
}.

(** A cleanup callback is opaque to the manager: all the manager can see
    is that the call returns or throws.  [cb_id] names the function.  The
    function is taken not to call back into the manager while it runs. *)
Record Callback := mkCallback {
  cb_id : nat;
  cb_throws : bool
}.

(** The second argument of [registerCleanupCallback] is any JS value. *)
Inductive JsValue :=
| JsFunction (f : Callback)
| JsOther.

Record BlobUrlManager := mkManager {
  activeUrls : JsMapOf UrlMetadata;
  urlsByComponent : JsMapOf JsSetOfString;
  cleanupCallbacks : JsMapOf Callback
}.

(** [constructor()] *)
Definition newBlobUrlManager : BlobUrlManager := mkManager [] [] [].

(** Bodies of the two [setTimeout] callbacks of the manager.  The release
    closure captures [url] and the [metadata] object; of the object it reads
    [componentId], which no code assigns after creation, so the closure is
    represented by the value of that field. *)
Inductive Task :=
| ValidateTask (url : string)
| ReleaseTask (url : string) (owner : string).

Record Timer := mkTimer { due : Z; task : Task }.

Inductive Level := LogLevel | WarnLevel | ErrorLevel.

Inductive Event :=
| CreateObjectURL (url : string)
| RevokeObjectURL (url : string)
| CallbackRun (id : nat)
| Console (lvl : Level) (msg : string).

Inductive JsError :=
| TypeError
| CallbackThrew (id : nat)
| Error (msg : string).

(** The page: the singleton manager, the pending [setTimeout] timers, the
    clock, the serial of the next object URL, the trace of effects, and the
    time at which the next tick of the sweep interval is due. *)
Record Browser := mkBrowser {
  manager : BlobUrlManager;
  timers : list Timer;
  clock : Z;
  nextObjectUrl : N;
  trace : list Event;
  nextSweep : Z
}.

(** The period of [setInterval(() => { blobUrlManager.cleanupOldUrls(); },
    30 * 60 * 1000)], blobUrlManager.js lines 336-341. *)
Definition sweepInterval : Z := 30 * 60 * 1000.

(** The page when the module has been loaded: [new BlobUrlManager()] and the
    interval armed, its first tick due half an hour later. *)
Definition startBrowser : Browser := mkBrowser newBlobUrlManager [] 0 0 [] sweepInterval.

(** ** The monad: state and exceptions *)

Inductive Completion (A : Type) :=
| Normal (a : A)
| Throw (e : JsError).
Arguments Normal {A} a.
Arguments Throw {A} e.

Definition Js (S A : Type) : Type := S → Completion A * S.

Definition ret {S A} (a : A) : Js S A := λ s, (Normal a, s).

Definition bind {S A B} (m : Js S A) (f : A → Js S B) : Js S B :=
  λ s, match m s with
       | (Normal a, s') => f a s'
       | (Throw e, s') => (Throw e, s')
       end.

Definition throw {S A} (e : JsError) : Js S A := λ s, (Throw e, s).

(** [try { body } catch (error) { handler }]: what the body changed before
    it threw stays changed. *)
Definition try_catch {S A} (body : Js S A) (handler : JsError → Js S A) : Js S A :=
  λ s, match body s with
       | (Normal a, s') => (Normal a, s')
       | (Throw e, s') => handler e s'
       end.

Definition gets {S A} (f : S → A) : Js S A := λ s, (Normal (f s), s).
Definition modify {S} (f : S → S) : Js S unit := λ s, (Normal tt, f s).

Definition exec {S A} (m : Js S A) (s : S) : S := (m s).2.
Definition result {S A} (m : Js S A) (s : S) : Completion A := (m s).1.

Notation "'let*' x ':=' m 'in' k" := (bind m (λ x, k))
  (at level 10, x name, m at level 100, k at level 200, only parsing).
Notation "'do*' m 'in' k" := (bind m (λ _, k))
  (at level 10, m at level 100, k at level 200, only parsing).

(** [forEach] and [for ... of] over an array taken beforehand. *)
Fixpoint forEach {S A} (f : A → Js S unit) (l : list A) : Js S unit :=
  match l with
  | [] => ret tt
  | x :: l' => do* f x in forEach f l'
  end.

(** ** The browser primitives the manager calls *)

Definition withManager (f : BlobUrlManager → BlobUrlManager) : Js Browser unit :=
  modify (λ w, mkBrowser (f (manager w)) (timers w) (clock w) (nextObjectUrl w) (trace w) (nextSweep w)).

Definition emit (e : Event) : Js Browser unit :=
  modify (λ w, mkBrowser (manager w) (timers w) (clock w) (nextObjectUrl w) (trace w ++ [e]) (nextSweep w)).

Definition console (lvl : Level) (msg : string) : Js Browser unit :=
  emit (Console lvl msg).

(** [Date.now()].  The clock stands still during a call and moves with
    [advance]. *)
Definition Date_now : Js Browser Z := gets clock.

(** Pending timers are kept in firing order: by due time, and in the order
    of the [setTimeout] calls among equal due times. *)
Fixpoint insertTimer (t : Timer) (l : list Timer) : list Timer :=
  match l with
  | [] => [t]
  | t' :: l' => if decide (due t' ≤ due t) then t' :: insertTimer t l' else t :: l
  end.

Definition setTimeout (k : Task) (delay : Z) : Js Browser unit :=
  modify (λ w, mkBrowser (manager w)
                 (insertTimer (mkTimer (clock w + delay) k) (timers w))
                 (clock w) (nextObjectUrl w) (trace w) (nextSweep w)).

(** The URL the browser mints for its [n]-th object URL.  Browsers issue
    [blob:<origin>/<uuid>]; what the manager relies on is the scheme prefix
    and that no two live URLs are equal, which a serial number gives. *)
Definition objectUrl (n : N) : string := "blob:" +:+ pretty n.

(** [URL.createObjectURL(blob)]: a [TypeError] on what is not a [Blob]. *)
Definition URL_createObjectURL (b : BlobLike) : Js Browser string :=
  if is_blob b then
    let* n := gets nextObjectUrl in
    do* modify (λ w, mkBrowser (manager w) (timers w) (clock w) (N.succ n) (trace w) (nextSweep w)) in
    do* emit (CreateObjectURL (objectUrl n)) in
    ret (objectUrl n)
  else throw TypeError.

(** [URL.revokeObjectURL(url)] never throws, also on an unknown URL. *)
Definition URL_revokeObjectURL (url : string) : Js Browser unit :=
  emit (RevokeObjectURL url).

(** [new Blob([blob], { type: blob.type })] *)
Definition newBlobOf (b : BlobLike) : BlobLike :=
  mkBlob (blob_size b) (blob_type b) true.

(** Calling a cleanup callback. *)
Definition call (cb : Callback) : Js Browser unit :=
  do* emit (CallbackRun (cb_id cb)) in
  if cb_throws cb then throw (CallbackThrew (cb_id cb)) else ret tt.

(** ** [class BlobUrlManager] *)

(** The object literal stored by [createBlobUrl]; [...metadata] comes last. *)
Definition trackedMetadata (blobRef b : BlobLike) (owner : string)
    (created accessed : Z) (sz : Z) (metadata : Metadata) : UrlMetadata :=
  {| blob := blobRef;
     originalBlob := b;
     componentId := default owner (m_componentId metadata);
     createdAt := default created (m_createdAt metadata);
     lastAccessed := default accessed (m_lastAccessed metadata);
     accessCount := default 0 (m_accessCount metadata);
     size := default sz (m_size metadata);
     type := default (blob_type b) (m_type metadata);
     isActive := default true (m_isActive metadata);
     extra := m_extra metadata |}.

(** [this.activeUrls.set(url, metadata)]; also the model of an assignment
    to a field of the object stored under [url], which the map holds by
    reference. *)
Definition trackUrl (url : string) (md : UrlMetadata) (m : BlobUrlManager) : BlobUrlManager :=
  mkManager (JsMap.set url md (activeUrls m)) (urlsByComponent m) (cleanupCallbacks m).

(** [if (!has(componentId)) set(componentId, new Set()); get(componentId).add(url)] *)
Definition trackByComponent (owner url : string) (m : BlobUrlManager) : BlobUrlManager :=
  let index := if JsMap.has owner (urlsByComponent m) then urlsByComponent m
               else JsMap.set owner [] (urlsByComponent m) in
  mkManager (activeUrls m)
    (JsMap.set owner (JsSet.add url (default [] (JsMap.get owner index))) index)
    (cleanupCallbacks m).

(** [validateBlobUrl(url)], blobUrlManager.js lines 95-103. *)
Definition validateBlobUrl (url : string) : Js Browser bool :=
  let* tracked := gets (λ w, JsMap.has url (activeUrls (manager w))) in
  if negb tracked then ret false
  else do* console LogLevel "URL is being tracked" in ret true.

(** [createBlobUrl(blob, componentId = 'unknown', metadata = {})], lines
    34-89.  [None] for [blob] is a falsy value, [None] for [componentId] an
    omitted argument; the result [None] is [null]. *)
Definition createBlobUrl (blob : option BlobLike) (componentId : option string)
    (metadata : Metadata) : Js Browser (option string) :=
  let componentId := default "unknown" componentId in
  try_catch
    (match blob with
     | None => do* console ErrorLevel "Invalid blob provided" in ret None
     | Some b =>
         match blob_size b with
         | None => do* console ErrorLevel "Invalid blob provided" in ret None
         | Some sz =>
             if decide (sz = 0) then
               do* console WarnLevel "Empty blob provided" in ret None
             else
               let* url := URL_createObjectURL b in
               let blobRef := newBlobOf b in
               let* created := Date_now in
               let* accessed := Date_now in
               do* withManager
                     (trackUrl url (trackedMetadata blobRef b componentId created accessed sz metadata)) in
               do* withManager (trackByComponent componentId url) in
               do* console LogLevel "Created URL" in
               do* setTimeout (ValidateTask url) 100 in
               ret (Some url)
         end
     end)
    (λ _, do* console ErrorLevel "Error creating blob URL" in ret None).

(** [metadata.lastAccessed = Date.now(); metadata.accessCount++] *)
Definition touch (now : Z) (md : UrlMetadata) : UrlMetadata :=
  {| blob := blob md; originalBlob := originalBlob md; componentId := componentId md;
     createdAt := createdAt md; lastAccessed := now; accessCount := accessCount md + 1;
     size := size md; type := type md; isActive := isActive md; extra := extra md |}.

(** [markUrlAccessed(url)], lines 109-115. *)
Definition markUrlAccessed (url : string) : Js Browser unit :=
  let* metadata := gets (λ w, JsMap.get url (activeUrls (manager w))) in
  match metadata with
  | Some md =>
      let* now := Date_now in
      withManager (trackUrl url (touch now md))
  | None => ret tt
  end.

(** [metadata.isActive = false] *)
Definition deactivated (md : UrlMetadata) : UrlMetadata :=
  {| blob := blob md; originalBlob := originalBlob md; componentId := componentId md;
     createdAt := createdAt md; lastAccessed := lastAccessed md; accessCount := accessCount md;
     size := size md; type := type md; isActive := false; extra := extra md |}.

(** [this.cleanupCallbacks.delete(url)] *)
Definition dropCallback (url : string) (m : BlobUrlManager) : BlobUrlManager :=
  mkManager (activeUrls m) (urlsByComponent m) (JsMap.delete url (cleanupCallbacks m)).

(** [revokeBlobUrl(url)], lines 121-181.  [None] is [null] or
    [undefined].  The function handed to [setTimeout] is [delayedRevoke]
    below. *)
Definition revokeBlobUrl (url : option string) : Js Browser unit :=
  match url with
  | None => ret tt
  | Some url =>
      if decide (url = "") then ret tt
      else if negb (String.prefix "blob:" url) then ret tt
      else
        try_catch
          (let* metadata := gets (λ w, JsMap.get url (activeUrls (manager w))) in
           match metadata with
           | None => console WarnLevel "Attempted to revoke unknown URL"
           | Some md =>
               do* withManager (trackUrl url (deactivated md)) in
               let* cleanupCallback := gets (λ w, JsMap.get url (cleanupCallbacks (manager w))) in
               do* match cleanupCallback with
                   | Some cb =>
                       do* try_catch (call cb)
                             (λ _, console WarnLevel "Error in cleanup callback") in
                       withManager (dropCallback url)
                   | None => ret tt
                   end in
               setTimeout (ReleaseTask url (componentId md)) 50
           end)
          (λ _, console ErrorLevel "Error revoking blob URL")
  end.

Arguments revokeBlobUrl : simpl never.
Arguments createBlobUrl : simpl never.

(** What the delayed function of [revokeBlobUrl] does to the owner index. *)
Definition untrackByComponent (owner url : string) (m : BlobUrlManager) : BlobUrlManager :=
  match JsMap.get owner (urlsByComponent m) with
  | Some componentUrls =>
      let rest := JsSet.delete url componentUrls in
      mkManager (activeUrls m)
        (if decide (JsSet.size rest = 0%nat) then JsMap.delete owner (urlsByComponent m)
         else JsMap.set owner rest (urlsByComponent m))
        (cleanupCallbacks m)
  | None => m
  end.

(** [this.activeUrls.delete(url)] *)
Definition untrackUrl (url : string) (m : BlobUrlManager) : BlobUrlManager :=
  mkManager (JsMap.delete url (activeUrls m)) (urlsByComponent m) (cleanupCallbacks m).

(** The function [revokeBlobUrl] hands to [setTimeout(..., 50)], lines
    149-176. *)
Definition delayedRevoke (url owner : string) : Js Browser unit :=
  try_catch
    (do* URL_revokeObjectURL url in
     do* withManager (untrackUrl url) in
     do* withManager (untrackByComponent owner url) in
     console LogLevel "Revoked URL")
    (λ _, console ErrorLevel "Error during delayed revoke").

(** [revokeComponentUrls(componentId)], lines 187-197;
    [urlsToRevoke = Array.from(componentUrls)] is the value of the set at
    that point. *)
Definition revokeComponentUrls (componentId : string) : Js Browser unit :=
  let* componentUrls := gets (λ w, JsMap.get componentId (urlsByComponent (manager w))) in
  match componentUrls with
  | None => ret tt
  | Some componentUrls =>
      let urlsToRevoke := componentUrls in
      do* forEach (λ url, revokeBlobUrl (Some url)) urlsToRevoke in
      console LogLevel "Cleaned up URLs for component"
  end.

(** [registerCleanupCallback(url, callback)], lines 204-208. *)
Definition registerCleanupCallback (url : string) (callback : JsValue) : Js Browser unit :=
  match callback with
  | JsFunction f =>
      withManager (λ m, mkManager (activeUrls m) (urlsByComponent m)
                          (JsMap.set url f (cleanupCallbacks m)))
  | JsOther => ret tt
  end.

(** [isUrlActive(url)], [getUrlMetadata(url)] and
    [getComponentUrls(componentId)], lines 215-236; they read and change
    nothing. *)
Definition isUrlActive (url : string) (w : Browser) : bool :=
  JsMap.has url (activeUrls (manager w)).

Definition getUrlMetadata (url : string) (w : Browser) : option UrlMetadata :=
  JsMap.get url (activeUrls (manager w)).

Definition getComponentUrls (componentId : string) (w : Browser) : list string :=
  default [] (JsMap.get componentId (urlsByComponent (manager w))).

(** *** [getStats] *)

(** The sums of [getStats] are sums of JS numbers, which are doubles: an
    integer of more than 53 bits is rounded, and past the largest double the
    sum is [Infinity]. *)
Inductive JsNumber :=
| Finite (z : Z)
| PosInfinity
| NegInfinity.

(** The double nearest to the integer [z], ties to the even significand. *)
Definition toDouble (z : Z) : JsNumber :=
  let a := Z.abs z in
  if decide (a < 2 ^ 53) then Finite z
  else
    let e := Z.log2 a - 52 in
    let q := a `div` 2 ^ e in
    let r := a `mod` 2 ^ e in
    let half := 2 ^ (e - 1) in
    let q' := if decide (r < half) then q
              else if decide (half < r) then q + 1
              else if Z.even q then q else q + 1 in
    let m := q' * 2 ^ e in
    if decide (2 ^ 1024 ≤ m) then (if decide (z < 0) then NegInfinity else PosInfinity)
    else Finite (Z.sgn z * m).

(** [x + y], for an integer [y] that a double holds exactly, as the size
    of a [Blob] is. *)
Definition numAdd (x : JsNumber) (y : Z) : JsNumber :=
  match x with
  | Finite a => toDouble (a + y)
  | PosInfinity => PosInfinity
  | NegInfinity => NegInfinity
  end.

Module Bucket.
(** [{ count: 0, size: 0 }] *)
Record t := mk { count : nat; size : JsNumber }.
Definition zero : t := mk 0 (Finite 0).
End Bucket.

(** The value [getStats] returns; [byComponent] and [byType] are the own
    properties of the two objects. *)
Record Stats := mkStats {
  totalUrls : nat;
  totalComponents : nat;
  totalSize : JsNumber;
  byComponent : gmap string Bucket.t;
  byType : gmap string Bucket.t
}.

(** [x || 0] on numbers and [s || 'unknown'] on strings. *)
Definition orZero (x : Z) : Z := if decide (x = 0) then 0 else x.
Definition orUnknown (s : string) : string := if decide (s = "") then "unknown" else s.

(** The names of the members of [Object.prototype], which every object
    literal inherits. *)
Definition prototypeMembers : list string :=
  ["constructor"; "__proto__"; "hasOwnProperty"; "isPrototypeOf"; "propertyIsEnumerable";
   "toLocaleString"; "toString"; "valueOf"; "__defineGetter__"; "__defineSetter__";
   "__lookupGetter__"; "__lookupSetter__"].

Definition inherited (k : string) : bool := bool_decide (k ∈ prototypeMembers).

(** [if (!o[k]) o[k] = { count: 0, size: 0 }; o[k].count++; o[k].size += sz]
    on an object literal [o].  For a key that names a member of
    [Object.prototype], [o[k]] is that member, which is truthy: no bucket is
    made, and [count] and [size] are set on the member, not on [o]. *)
Definition tally (k : string) (sz : Z) (o : gmap string Bucket.t) : gmap string Bucket.t :=
  if inherited k then o
  else
    let b := default Bucket.zero (o !! k) in
    <[k := Bucket.mk (S (Bucket.count b)) (numAdd (Bucket.size b) sz)]> o.

(** One turn of the loop [for (const [url, metadata] of this.activeUrls)]. *)
Definition countEntry (stats : Stats) (entry : string * UrlMetadata) : Stats :=
  let metadata := entry.2 in
  mkStats (totalUrls stats) (totalComponents stats)
    (numAdd (totalSize stats) (orZero (size metadata)))
    (tally (componentId metadata) (orZero (size metadata)) (byComponent stats))
    (tally (orUnknown (type metadata)) (orZero (size metadata)) (byType stats)).

(** [getStats()], lines 242-271. *)
Definition getStats (w : Browser) : Stats :=
  let m := manager w in
  foldl countEntry
    (mkStats (JsMap.size (activeUrls m)) (JsMap.size (urlsByComponent m)) (Finite 0) ∅ ∅)
    (activeUrls m).

(** *** [cleanup] *)

(** [cleanup()], lines 297-317. *)
Definition cleanup : Js Browser unit :=
  let* totalUrls := gets (λ w, JsMap.size (activeUrls (manager w))) in
  let* urls := gets (λ w, JsMap.keys (activeUrls (manager w))) in
  do* forEach
        (λ url, try_catch (URL_revokeObjectURL url)
                  (λ _, console WarnLevel "Error during cleanup")) urls in
  do* withManager (λ m, mkManager (JsMap.clear (activeUrls m))
                          (JsMap.clear (urlsByComponent m))
                          (JsMap.clear (cleanupCallbacks m))) in
  if decide (0 < totalUrls)%nat then console LogLevel "Cleaned up URLs on shutdown"
  else ret tt.

(** *** [cleanupOldUrls] *)

(** The loop that fills [urlsToRevoke]: the URLs, in the order of the map,
    whose entry has [now - metadata.createdAt > maxAge]. *)
Definition oldUrls (maxAge now : Z) (entries : JsMapOf UrlMetadata) : list string :=
  (filter (λ e : string * UrlMetadata, maxAge < now - createdAt e.2) entries).*1.

(** [cleanupOldUrls(maxAge = 60 * 60 * 1000)], lines 277-292; [None] is an
    omitted argument. *)
Definition cleanupOldUrls (maxAge : option Z) : Js Browser unit :=
  let maxAge := default (60 * 60 * 1000) maxAge in
  let* now := Date_now in
  let* urlsToRevoke := gets (λ w, oldUrls maxAge now (activeUrls (manager w))) in
  do* forEach (λ url, revokeBlobUrl (Some url)) urlsToRevoke in
  if decide (0 < length urlsToRevoke)%nat then console LogLevel "Cleaned up old URLs"
  else ret tt.

(** ** The event loop: time passes and due timers fire *)

(** Running the function of a timer. *)
Definition fireTask (k : Task) : Js Browser unit :=
  match k with
  | ValidateTask url => do* validateBlobUrl url in ret tt
  | ReleaseTask url owner => delayedRevoke url owner
  end.

(** The [setTimeout] timers due by [now] run, in firing order.  Neither
    timer function sets a timer or reads the clock, so the due timers are
    taken out first. *)
Definition runTimers (now : Z) : Js Browser unit :=
  let* pending := gets timers in
  do* modify (λ w, mkBrowser (manager w) (filter (λ t, now < due t) pending)
                     (clock w) (nextObjectUrl w) (trace w) (nextSweep w)) in
  forEach (λ t, fireTask (task t)) (filter (λ t, due t ≤ now) pending).

Definition setClock (now : Z) : Js Browser unit :=
  modify (λ w, mkBrowser (manager w) (timers w) now (nextObjectUrl w) (trace w) (nextSweep w)).

(** One tick of the sweep interval, at time [s]: [cleanupOldUrls()] with
    its default age.  The interval was armed before every timer that is
    pending, so of the timers due at [s] none runs before it; those due
    earlier have run.  The next tick is due half an hour later. *)
Definition sweepTick (s : Z) : Js Browser unit :=
  do* runTimers (s - 1) in
  do* setClock s in
  do* cleanupOldUrls None in
  modify (λ w, mkBrowser (manager w) (timers w) (clock w) (nextObjectUrl w) (trace w)
                 (s + sweepInterval)).

(** [n] ticks of the interval, the first at [first]. *)
Fixpoint ticksFrom (first : Z) (n : nat) : list Z :=
  match n with
  | O => []
  | S n' => first :: ticksFrom (first + sweepInterval) n'
  end.

(** The ticks of the interval in a wait that ends at [target], when the
    next one is due at [first]: [first], [first + 30 min], ... up to
    [target]; none when [first] is later than [target]. *)
Definition sweepTicks (first target : Z) : list Z :=
  ticksFrom first (Z.to_nat ((target - first) `div` sweepInterval + 1)).

(** [advance dt]: [dt] milliseconds pass without a call from the page.
    The ticks of the sweep interval that fall in the wait run, each at its
    time, the timers due before a tick ahead of it; a tick that was overdue
    runs at once.  At the end the clock stands [dt] later and every timer due
    by then has run. *)
Definition advance (dt : N) : Js Browser unit :=
  let* target := gets (λ w, clock w + Z.of_N dt) in
  let* first := gets (λ w, Z.max (clock w) (nextSweep w)) in
  do* forEach sweepTick (sweepTicks first target) in
  do* setClock target in
  runTimers target.

(** ** [useMultipleBlobUrls] (hooks/useBlobUrl.js) *)

(** An element of the [blobs] array: [{ blob, id, metadata }], or a falsy
    value ([None]).  An absent [id] is the empty string here: both are
    falsy. *)
Record BlobData := mkBlobData {
  bd_blob : option BlobLike;
  bd_id : string;
  bd_metadata : Metadata
}.

(** The state of one mounted hook: the React state [urls], [isLoading],
    [errors] and the two refs. *)
Record MultipleBlobUrls := mkHook {
  urls : JsMapOf string;
  isLoading : bool;
  errors : JsMapOf string;
  componentIdRef : string;
  urlsRef : JsMapOf string
}.

Record Page := mkPage {
  browser : Browser;
  hook : MultipleBlobUrls
}.

Definition mountMultipleBlobUrls (componentId : string) : MultipleBlobUrls :=
  mkHook [] false [] componentId [].

(** A call into the manager from the hook. *)
Definition inBrowser {A} (m : Js Browser A) : Js Page A :=
  λ p, let r := m (browser p) in (r.1, mkPage r.2 (hook p)).

Definition withHook (f : MultipleBlobUrls → MultipleBlobUrls) : Js Page unit :=
  modify (λ p, mkPage (browser p) (f (hook p))).

Definition setUrls (u : JsMapOf string) (h : MultipleBlobUrls) : MultipleBlobUrls :=
  mkHook u (isLoading h) (errors h) (componentIdRef h) (urlsRef h).
Definition setIsLoading (b : bool) (h : MultipleBlobUrls) : MultipleBlobUrls :=
  mkHook (urls h) b (errors h) (componentIdRef h) (urlsRef h).
Definition setErrors (e : JsMapOf string) (h : MultipleBlobUrls) : MultipleBlobUrls :=
  mkHook (urls h) (isLoading h) e (componentIdRef h) (urlsRef h).
Definition withUrlsRef (f : JsMapOf string → JsMapOf string) (h : MultipleBlobUrls) : MultipleBlobUrls :=
  mkHook (urls h) (isLoading h) (errors h) (componentIdRef h) (f (urlsRef h)).

(** [{ ...blobData.metadata, blobId: blobData.id }] *)
Definition withBlobId (metadata : Metadata) (id : string) : Metadata :=
  mkMetadata (m_componentId metadata) (m_createdAt metadata) (m_lastAccessed metadata)
    (m_accessCount metadata) (m_size metadata) (m_type metadata) (m_isActive metadata)
    (JsMap.set "blobId" id (m_extra metadata)).

(** The option [onError]: an opaque function that returns or throws. *)
Definition callOnError (onError : option Callback) : Js Page unit :=
  match onError with
  | Some f => inBrowser (call f)
  | None => ret tt
  end.

(** The [try]/[catch] of the loop body of [createUrls], for an element
    that passed the guard; [newUrls] and [newErrors] are the two local
    maps. *)
Definition createOne (onError : option Callback) (blobData : BlobData)
    (newUrls newErrors : JsMapOf string) : Js Page (JsMapOf string * JsMapOf string) :=
  let* owner := gets (λ p, componentIdRef (hook p)) in
  try_catch
    (let* url := inBrowser (createBlobUrl (bd_blob blobData) (Some owner)
                             (withBlobId (bd_metadata blobData) (bd_id blobData))) in
     match url with
     | Some url =>
         let newUrls := JsMap.set (bd_id blobData) url newUrls in
         do* withHook (withUrlsRef (JsMap.set (bd_id blobData) url)) in
         ret (newUrls, newErrors)
     | None => throw (Error ("Failed to create blob URL for " +:+ bd_id blobData))
     end)
    (λ _,
       do* inBrowser (console ErrorLevel "Error creating URL") in
       let newErrors :=
         JsMap.set (bd_id blobData)
           ("Failed to create blob URL for " +:+ bd_id blobData) newErrors in
       do* callOnError onError in
       ret (newUrls, newErrors)).

(** [if (!blobData || !blobData.blob || !blobData.id) continue] *)
Definition skipped (blobData : option BlobData) : bool :=
  match blobData with
  | None => true
  | Some blobData =>
      match bd_blob blobData with
      | None => true
      | Some _ => bool_decide (bd_id blobData = "")
      end
  end.

(** The loop [for (const blobData of blobArray)] of [createUrls]. *)
Fixpoint createEach (onError : option Callback) (blobArray : list (option BlobData))
    (newUrls newErrors : JsMapOf string) : Js Page (JsMapOf string * JsMapOf string) :=
  match blobArray with
  | [] => ret (newUrls, newErrors)
  | blobData :: rest =>
      match blobData with
      | Some blobData' =>
          if skipped blobData then createEach onError rest newUrls newErrors
          else
            let* acc := createOne onError blobData' newUrls newErrors in
            createEach onError rest acc.1 acc.2
      | None => createEach onError rest newUrls newErrors
      end
  end.

(** [createUrls(blobArray)] of [useMultipleBlobUrls], useBlobUrl.js lines
    124-168.  The function is [async] and awaits nothing, so it runs to its
    end in one go; a [Throw] is the rejection of its promise. *)
Definition createUrls (onError : option Callback) (blobArray : list (option BlobData)) : Js Page unit :=
  do* withHook (setIsLoading true) in
  do* withHook (setErrors []) in
  let* current := gets (λ p, JsMap.values (urlsRef (hook p))) in
  do* forEach (λ url, inBrowser (revokeBlobUrl (Some url))) current in
  do* withHook (withUrlsRef JsMap.clear) in
  let* acc := createEach onError blobArray [] [] in
  do* withHook (setUrls acc.1) in
  do* withHook (setErrors acc.2) in
  withHook (setIsLoading false).

(** ** Definitions the properties are stated with *)

(** The events a cleanup callback leaves: its run, and the warning when it
    threw. *)
Definition callbackEvents (cb : option Callback) : list Event :=
  match cb with
  | Some cb =>
      CallbackRun (cb_id cb) ::
      (if cb_throws cb then [Console WarnLevel "Error in cleanup callback"] else [])
  | None => []
  end.

(** The inputs the guard of [revokeBlobUrl] turns away: [null], the empty
    string, a string without the scheme prefix. *)
Definition foreign (url : option string) : Prop :=
  match url with
  | None => True
  | Some s => s = "" ∨ String.prefix "blob:" s = false
  end.

(** The events a timer function leaves. *)
Definition taskEvents (k : Task) (w : Browser) : list Event :=
  match k with
  | ValidateTask url =>
      if isUrlActive url w then [Console LogLevel "URL is being tracked"] else []
  | ReleaseTask url _ => [RevokeObjectURL url; Console LogLevel "Revoked URL"]
  end.

(** What a timer function makes of the manager. *)
Definition taskManager (k : Task) (m : BlobUrlManager) : BlobUrlManager :=
  match k with
  | ValidateTask _ => m
  | ReleaseTask url owner => untrackByComponent owner url (untrackUrl url m)
  end.

(** Running a list of due timers. *)
Definition fireAll (l : list Timer) (w : Browser) : Browser :=
  foldl (λ w t, exec (fireTask (task t)) w) w l.

(** [w] with the clock at [now]. *)
Definition atTime (now : Z) (w : Browser) : Browser :=
  mkBrowser (manager w) (timers w) now (nextObjectUrl w) (trace w) (nextSweep w).

(** The state in the wait [advance dt] when the ticks of the interval have
    run and the clock has reached its end, before the last timers run. *)
Definition ticked (dt : N) (w : Browser) : Browser :=
  let target := clock w + Z.of_N dt in
  atTime target
    (foldl (λ w s, exec (sweepTick s) w) w
       (sweepTicks (Z.max (clock w) (nextSweep w)) target)).

(** Scenario A of the design notes: one 1024-byte blob created for
    [comp1] on a fresh page.  The browser mints [blob:0] for it. *)
Definition wavBlob : BlobLike := mkBlob (Some 1024) "audio/wav" true.

(** The browser after that creation. *)
Definition oneUrlBrowser : Browser :=
  exec (createBlobUrl (Some wavBlob) (Some "comp1") noMetadata) startBrowser.

(** The entry [createBlobUrl] stored for [blob:0] in scenario A. *)
Definition wavMetadata : UrlMetadata :=
  trackedMetadata (newBlobOf wavBlob) wavBlob "comp1" 0 0 1024 noMetadata.

(** Events are compared when runs of a callback are counted in a trace. *)
Global Instance Level_eq_dec : EqDecision Level.
Proof. solve_decision. Defined.

Global Instance Event_eq_dec : EqDecision Event.
Proof. solve_decision. Defined.

(** How often the callback [id] has run, by the trace. *)
Definition runsOf (id : nat) (tr : list Event) : nat :=
  length (filter (λ e, e = CallbackRun id) tr).

(** Scenario E of the design notes: a callback that throws is registered
    for the handle of scenario A. *)
Definition throwingCallback : Callback := mkCallback 7 true.

(** The browser of scenario E before the revocation. *)
Definition scenarioE : Browser :=
  exec (registerCleanupCallback "blob:0" (JsFunction throwingCallback)) oneUrlBrowser.

(** The one event a refused creation logs. *)
Definition refusal (blob : option BlobLike) : option Event :=
  match blob with
  | None => Some (Console ErrorLevel "Invalid blob provided")
  | Some b =>
      match blob_size b with
      | None => Some (Console ErrorLevel "Invalid blob provided")
      | Some sz =>
          if decide (sz = 0) then Some (Console WarnLevel "Empty blob provided")
          else if is_blob b then None
          else Some (Console ErrorLevel "Error creating blob URL")
      end
  end.

(** A manager that has just been constructed, in a browser whose clock and
    URL supply stand where those of [w] stand. *)
Definition freshManagerIn (w : Browser) : Browser :=
  mkBrowser newBlobUrlManager [] (clock w) (nextObjectUrl w) [] (nextSweep w).

(** The number of tracked entries whose [isActive] flag is [true]. *)
Definition flaggedActive (w : Browser) : nat :=
  length (filter (λ e : string * UrlMetadata, isActive e.2 = true) (activeUrls (manager w))).

(** The sizes of the entries of [l] added up in the order of [l], as JS
    adds them, and as integers. *)
Definition sumSizes (l : list (string * UrlMetadata)) : JsNumber :=
  foldl (λ acc e, numAdd acc (size e.2)) (Finite 0) l.


(** The bucket of key [k] when the entries [sel] are those filed under it:
    none for a key that names a member of [Object.prototype]. *)
Definition bucketOf (k : string) (sel : list (string * UrlMetadata)) : option Bucket.t :=
  if inherited k then None
  else match sel with
       | [] => None
       | _ => Some (Bucket.mk (length sel) (sumSizes sel))
       end.

Definition filedUnder (key : UrlMetadata → string) (k : string)
    (l : list (string * UrlMetadata)) : list (string * UrlMetadata) :=
  filter (λ e, key e.2 = k) l.

(** The buckets of [getStats] after the loop has gone through [l], keyed by
    [key]. *)
Definition tallyAll (key : UrlMetadata → string) (o : gmap string Bucket.t)
    (l : list (string * UrlMetadata)) : gmap string Bucket.t :=
  foldl (λ o e, tally (key e.2) (orZero (size e.2)) o) o l.

(** The loop [urlsToRevoke.forEach(url => this.revokeBlobUrl(url))]. *)
Definition revokeAll (l : list string) (w : Browser) : Browser :=
  foldl (λ w url, exec (revokeBlobUrl (Some url)) w) w l.

(** Whether a release of [u] is among the pending timers. *)
Definition isReleaseOf (u : string) (k : Task) : bool :=
  match k with
  | ReleaseTask u' _ => bool_decide (u' = u)
  | ValidateTask _ => false
  end.

Definition releasePending (u : string) (w : Browser) : bool :=
  existsb (λ t, isReleaseOf u (task t)) (timers w).

(** The owner index agrees with the entries: a URL listed under a
    component has, when it is tracked, that component in its entry. *)
Definition indexMatchesEntries (w : Browser) : bool :=
  forallb
    (λ cs : string * list string,
       forallb (λ u, match getUrlMetadata u w with
                     | Some md => bool_decide (componentId md = cs.1)
                     | None => true
                     end) cs.2)
    (urlsByComponent (manager w)).

(** Scenario with two owners: [blob:0] belongs to [comp1], [blob:1] to
    [comp2]. *)
Definition twoOwners : Browser :=
  exec (createBlobUrl (Some wavBlob) (Some "comp2") noMetadata) oneUrlBrowser.

(** Whether the browser has minted [u] already. *)
Definition minted (w : Browser) (u : string) : bool :=
  bool_decide (u ∈ (λ k, objectUrl (N.of_nat k)) <$> seq 0 (N.to_nat (nextObjectUrl w))).

(** [grownFrom p p']: the page [p'] comes from [p] by creations only.  The
    URL supply moved on; entries of URLs not minted in between are as they
    were; every handle in [urlsRef] was there before or was minted in
    between. *)
Definition grownFrom (p p' : Page) : Prop :=
  (nextObjectUrl (browser p) ≤ nextObjectUrl (browser p'))%N ∧
  clock (browser p') = clock (browser p) ∧
  componentIdRef (hook p') = componentIdRef (hook p) ∧
  (∀ t, t ∈ timers (browser p) → t ∈ timers (browser p')) ∧
  (∀ u, (∀ k, (nextObjectUrl (browser p) ≤ k < nextObjectUrl (browser p'))%N → u ≠ objectUrl k) →
        getUrlMetadata u (browser p') = getUrlMetadata u (browser p)) ∧
  (∀ id u, JsMap.get id (urlsRef (hook p')) = Some u →
        JsMap.get id (urlsRef (hook p)) = Some u ∨
        ∃ k, (nextObjectUrl (browser p) ≤ k < nextObjectUrl (browser p'))%N ∧ u = objectUrl k ∧
             is_Some (getUrlMetadata u (browser p'))) ∧
  (∀ id, is_Some (JsMap.get id (urlsRef (hook p))) → is_Some (JsMap.get id (urlsRef (hook p')))).

(** An element for which [createBlobUrl] succeeds. *)
Definition creatable (blobData : BlobData) : bool :=
  negb (skipped (Some blobData)) &&
  match refusal (bd_blob blobData) with None => true | Some _ => false end.

(** An element that passes the guard and for which [createBlobUrl]
    returns [null]: the [catch] block of the loop body runs for it. *)
Definition refusedItem (item : option BlobData) : bool :=
  match item with
  | Some blobData => negb (skipped item) && negb (creatable blobData)
  | None => false
  end.

Definition creatableItem (item : option BlobData) : bool :=
  match item with
  | Some blobData => creatable blobData
  | None => false
  end.

(** The ids of the refused elements. *)
Definition refusedIds (blobArray : list (option BlobData)) : list string :=
  omap (λ item, match item with
                | Some blobData => if refusedItem item then Some (bd_id blobData) else None
                | None => None
                end) blobArray.

(** Whether the option [onError] is a function that throws. *)
Definition onErrorThrows (onError : option Callback) : bool :=
  match onError with
  | Some f => cb_throws f
  | None => false
  end.

(** The elements the loop of [createUrls] gets to.  [onError] is called
    in the [catch] block, so when it throws the exception leaves the loop:
    the loop then ends with the first refused element. *)
Fixpoint processed (onError : option Callback) (blobArray : list (option BlobData))
    : list (option BlobData) :=
  match blobArray with
  | [] => []
  | item :: rest =>
      if refusedItem item && onErrorThrows onError then [item]
      else item :: processed onError rest
  end.

(** Whether the loop of [createUrls] is left by an exception. *)
Definition aborted (onError : option Callback) (blobArray : list (option BlobData)) : bool :=
  onErrorThrows onError && existsb refusedItem blobArray.

(** [err.message] of the error the loop body throws for an element. *)
Definition creationFailure (id : string) : string :=
  "Failed to create blob URL for " +:+ id.

(** The page on which the creation loop of [createUrls] starts: every
    handle of the item map revoked, the map cleared. *)
Definition tornDown (p : Page) : Page :=
  mkPage (revokeAll (JsMap.values (urlsRef (hook p))) (browser p))
    (withUrlsRef JsMap.clear (setErrors [] (setIsLoading true (hook p)))).

(** The items of scenario "same item twice": the hook holds the handle
    [blob:0] for item [a], and [createUrls] is called again with item [a]. *)
Definition itemA : option BlobData := Some (mkBlobData (Some wavBlob) "a" noMetadata).

(** The page after the first [createUrls] with item [a]. *)
Definition pageWithA : Page :=
  exec (createUrls None [itemA]) (mkPage startBrowser (mountMultipleBlobUrls "gallery")).

(** The items of scenario "a refused item ahead of a good one": item [r]
    carries an empty blob, which [createBlobUrl] refuses; item [b] is
    fine. *)
Definition itemR : option BlobData :=
  Some (mkBlobData (Some (mkBlob (Some 0) "audio/wav" true)) "r" noMetadata).
Definition itemB : option BlobData := Some (mkBlobData (Some wavBlob) "b" noMetadata).


(** *** Histories of calls

    A page uses the manager through its methods, and time passes in
    between; the page also logs to the console and runs callbacks of its
    own.  The states the manager can be in are those a list of such calls
    leads to from a new manager. *)
Inductive Call :=
| CreateBlobUrl (blob : option BlobLike) (componentId : option string) (metadata : Metadata)
| MarkUrlAccessed (url : string)
| RevokeBlobUrl (url : option string)
| RevokeComponentUrls (componentId : string)
| RegisterCleanupCallback (url : string) (callback : JsValue)
| Cleanup
| CleanupOldUrls (maxAge : option Z)
| Advance (dt : N)
| ConsoleCall (lvl : Level) (msg : string)
| CallbackCall (cb : Callback).

Definition perform (c : Call) : Js Browser unit :=
  match c with
  | CreateBlobUrl blob componentId metadata =>
      do* createBlobUrl blob componentId metadata in ret tt
  | MarkUrlAccessed url => markUrlAccessed url
  | RevokeBlobUrl url => revokeBlobUrl url
  | RevokeComponentUrls componentId => revokeComponentUrls componentId
  | RegisterCleanupCallback url callback => registerCleanupCallback url callback
  | Cleanup => cleanup
  | CleanupOldUrls maxAge => cleanupOldUrls maxAge
  | Advance dt => advance dt
  | ConsoleCall lvl msg => console lvl msg
  | CallbackCall cb => call cb
  end.

Definition history (cs : list Call) : Browser :=
  foldl (λ w c, exec (perform c) w) startBrowser cs.

(** A call that leaves [componentId] to the manager: its [metadata], if it
    names [componentId] at all, names the owner the URL is created for. *)
Definition plain (c : Call) : bool :=
  match c with
  | CreateBlobUrl _ componentId metadata =>
      match m_componentId metadata with
      | None => true
      | Some c' => bool_decide (c' = default "unknown" componentId)
      end
  | _ => true
  end.

(** [mintedUrl w u]: the browser has issued [u]. *)
Definition mintedUrl (w : Browser) (u : string) : Prop :=
  ∃ k, (k < nextObjectUrl w)%N ∧ u = objectUrl k.

(** Every tracked URL and every indexed URL was issued by the browser. *)
Definition urlsMinted (w : Browser) : Prop :=
  (∀ u md, getUrlMetadata u w = Some md → mintedUrl w u) ∧
  (∀ c s u, (c, s) ∈ urlsByComponent (manager w) → u ∈ s → mintedUrl w u).

(** The owner index and the [componentId] fields say the same. *)
Definition indexAgrees (w : Browser) : Prop :=
  ∀ c s u md, (c, s) ∈ urlsByComponent (manager w) → u ∈ s →
              getUrlMetadata u w = Some md → componentId md = c.

(** [shrinks w w']: from [w] to [w'] nothing was created: every entry of
    [w'] comes from an entry of [w] with the same [componentId], and every
    set of the index comes from a set of [w] that includes it. *)
Definition shrinks (w w' : Browser) : Prop :=
  nextObjectUrl w' = nextObjectUrl w ∧
  (∀ u md', getUrlMetadata u w' = Some md' →
            ∃ md, getUrlMetadata u w = Some md ∧ componentId md' = componentId md) ∧
  (∀ c s', (c, s') ∈ urlsByComponent (manager w') →
           ∃ s, (c, s) ∈ urlsByComponent (manager w) ∧ ∀ u, u ∈ s' → u ∈ s).

(** A URL the browser was told to release is no longer tracked, and the
    releases still pending are releases of URLs the browser issued. *)
Definition releasedUntracked (w : Browser) : Prop :=
  (∀ u, RevokeObjectURL u ∈ trace w → getUrlMetadata u w = None ∧ mintedUrl w u) ∧
  (∀ t u o, t ∈ timers w → task t = ReleaseTask u o → mintedUrl w u).

(** *** The shape of the owner index

    [indexSound w]: no component is listed twice, no set is empty or lists
    a URL twice, and no URL is in the sets of two components. *)
Definition indexSound (w : Browser) : Prop :=
  NoDup (JsMap.keys (urlsByComponent (manager w))) ∧
  (∀ c s, (c, s) ∈ urlsByComponent (manager w) → s ≠ [] ∧ NoDup s) ∧
  (∀ c1 s1 c2 s2 u,
     (c1, s1) ∈ urlsByComponent (manager w) → (c2, s2) ∈ urlsByComponent (manager w) →
     u ∈ s1 → u ∈ s2 → c1 = c2).

(** [ownersSound w]: the owner index and the entries describe the same
    ownership.  Every indexed URL is tracked, every tracked URL is in the set
    of the component its entry names, and a pending release carries the
    component of the entry it will release. *)
Definition ownersSound (w : Browser) : Prop :=
  (∀ c s u, (c, s) ∈ urlsByComponent (manager w) → u ∈ s → is_Some (getUrlMetadata u w)) ∧
  (∀ u md, getUrlMetadata u w = Some md → u ∈ getComponentUrls (componentId md) w) ∧
  (∀ t u o md, t ∈ timers w → task t = ReleaseTask u o →
               getUrlMetadata u w = Some md → componentId md = o).

(** [touches w w']: from [w] to [w'] the same URLs are tracked, each under
    the same component, the owner index and the URL supply are the same, and
    a timer of [w'] was pending in [w] or is the release of a URL tracked in
    [w], carrying the component of its entry. *)
Definition touches (w w' : Browser) : Prop :=
  urlsByComponent (manager w') = urlsByComponent (manager w) ∧
  nextObjectUrl w' = nextObjectUrl w ∧
  (∀ u md', getUrlMetadata u w' = Some md' →
            ∃ md, getUrlMetadata u w = Some md ∧ componentId md' = componentId md) ∧
  (∀ u md, getUrlMetadata u w = Some md →
           ∃ md', getUrlMetadata u w' = Some md' ∧ componentId md' = componentId md) ∧
  (∀ t, t ∈ timers w' →
        t ∈ timers w ∨
        ∃ u md, task t = ReleaseTask u (componentId md) ∧ getUrlMetadata u w = Some md).

(** No release is among the pending timers. *)
Definition noReleasePending (w : Browser) : bool :=
  forallb (λ t, match task t with ValidateTask _ => true | ReleaseTask _ _ => false end)
    (timers w).

(** A call that leaves [isActive] to the manager: its [metadata] does not
    create the entry flagged inactive. *)
Definition keepsFlag (c : Call) : bool :=
  match c with
  | CreateBlobUrl _ _ metadata =>
      match m_isActive metadata with Some false => false | _ => true end
  | _ => true
  end.

(** [flagSound w]: an entry is flagged inactive exactly when its release is
    pending, and every pending release is due within 50 ms. *)
Definition flagSound (w : Browser) : Prop :=
  (∀ u md, getUrlMetadata u w = Some md →
           (isActive md = false ↔ releasePending u w = true)) ∧
  (∀ t u o, t ∈ timers w → task t = ReleaseTask u o → due t ≤ clock w + 50).

(** ** More of the hooks (hooks/useBlobUrl.js) *)

(** [try { body } finally { fin }]: [fin] runs however [body] ends, and
    the completion of [body] stands unless [fin] throws. *)
Definition try_finally {S A} (body : Js S A) (fin : Js S unit) : Js S A :=
  λ s, match body s with
       | (r, s') =>
           match fin s' with
           | (Normal _, s'') => (r, s'')
           | (Throw e, s'') => (Throw e, s'')
           end
       end.

(** A call of an [async] function whose promise is dropped.  The body has
    no [await], so it runs to its end during the call; a throw rejects the
    promise, nobody handles the rejection, and the caller goes on. *)
Definition detached {S} (m : Js S unit) : Js S unit := try_catch m (λ _, ret tt).

(** Truthiness of a value that is [null] or a string. *)
Definition truthy (s : option string) : bool :=
  match s with
  | Some s => negb (bool_decide (s = ""))
  | None => false
  end.

(** [err.message].  The hooks read it of the [Error] they have thrown
    themselves; the manager lets no other exception out. *)
Definition errorMessage (e : JsError) : string :=
  match e with
  | Error msg => msg
  | TypeError => "TypeError"
  | CallbackThrew _ => "callback threw"
  end.

(** *** [useMultipleBlobUrls]: [addBlob], [removeBlob] and the unmount *)

(** [addBlob(blobData)], useBlobUrl.js lines 171-201.  The state setters
    take functions of the previous state; React applies them in order. *)
Definition addBlob (onError : option Callback) (blobData : option BlobData) : Js Page unit :=
  match blobData with
  | None => ret tt
  | Some blobData' =>
      if skipped blobData then ret tt
      else
        let id := bd_id blobData' in
        let* owner := gets (λ p, componentIdRef (hook p)) in
        try_catch
          (let* url := inBrowser (createBlobUrl (bd_blob blobData') (Some owner)
                                   (withBlobId (bd_metadata blobData') id)) in
           if truthy url then
             let url := default "" url in
             do* withHook (λ h, setUrls (JsMap.set id url (urls h)) h) in
             do* withHook (withUrlsRef (JsMap.set id url)) in
             withHook (λ h, setErrors (JsMap.delete id (errors h)) h)
           else throw (Error ("Failed to create blob URL for " +:+ id)))
          (λ err,
             do* inBrowser (console ErrorLevel "Error adding blob") in
             do* withHook (λ h, setErrors (JsMap.set id (errorMessage err) (errors h)) h) in
             callOnError onError)
  end.

(** [removeBlob(blobId)], lines 204-222. *)
Definition removeBlob (blobId : string) : Js Page unit :=
  let* url := gets (λ p, JsMap.get blobId (urlsRef (hook p))) in
  do* (if truthy url then
         do* inBrowser (revokeBlobUrl url) in
         withHook (withUrlsRef (JsMap.delete blobId))
       else ret tt) in
  do* withHook (λ h, setUrls (JsMap.delete blobId (urls h)) h) in
  withHook (λ h, setErrors (JsMap.delete blobId (errors h)) h).

(** The cleanup of the unmount effect, lines 235-241. *)
Definition unmountMultipleBlobUrls (autoCleanup : bool) : Js Page unit :=
  if autoCleanup then
    let* owner := gets (λ p, componentIdRef (hook p)) in
    inBrowser (revokeComponentUrls owner)
  else ret tt.

(** *** [useBlobUrl], lines 19-102 *)

Module UseBlobUrl.

(** The [options] argument with its defaults filled in. *)
Record Options := mkOptions {
  autoCleanup : bool;
  metadata : Metadata;
  onError : option Callback
}.

(** [options = {}] *)
Definition defaultOptions : Options := mkOptions true noMetadata None.

(** The state of one mounted hook: the React state [url], [isLoading],
    [error] and the two refs. *)
Record Hook := mkHook {
  url : option string;
  isLoading : bool;
  error : option string;
  currentUrlRef : option string;
  componentIdRef : string
}.

Record Page := mkPage {
  browser : Browser;
  hook : Hook
}.

(** The first render: [useRef(componentId || `component-${Date.now()}`)]. *)
Definition mount (componentId : option string) (w : Browser) : Hook :=
  mkHook None false None None
    (if truthy componentId then default "" componentId
     else "component-" +:+ pretty (clock w)).

Definition inBrowser {A} (m : Js Browser A) : Js Page A :=
  λ p, let r := m (browser p) in (r.1, mkPage r.2 (hook p)).

Definition withHook (f : Hook → Hook) : Js Page unit :=
  modify (λ p, mkPage (browser p) (f (hook p))).

Definition setUrl (u : option string) (h : Hook) : Hook :=
  mkHook u (isLoading h) (error h) (currentUrlRef h) (componentIdRef h).
Definition setIsLoading (b : bool) (h : Hook) : Hook :=
  mkHook (url h) b (error h) (currentUrlRef h) (componentIdRef h).
Definition setError (e : option string) (h : Hook) : Hook :=
  mkHook (url h) (isLoading h) e (currentUrlRef h) (componentIdRef h).
Definition setCurrentUrlRef (u : option string) (h : Hook) : Hook :=
  mkHook (url h) (isLoading h) (error h) u (componentIdRef h).

(** [if (onError) onError(err)] *)
Definition callOnError (onError : option Callback) : Js Page unit :=
  match onError with
  | Some f => inBrowser (call f)
  | None => ret tt
  end.

(** [createUrl(blobData)], lines 33-72; [None] is a falsy [blobData]. *)
Definition createUrl (opts : Options) (blobData : option BlobLike) : Js Page unit :=
  match blobData with
  | None =>
      do* withHook (setUrl None) in
      withHook (setError None)
  | Some _ =>
      do* withHook (setIsLoading true) in
      do* withHook (setError None) in
      try_finally
        (try_catch
           (let* current := gets (λ p, currentUrlRef (hook p)) in
            do* (if truthy current then
                   do* inBrowser (revokeBlobUrl current) in
                   withHook (setCurrentUrlRef None)
                 else ret tt) in
            let* owner := gets (λ p, componentIdRef (hook p)) in
            let* newUrl := inBrowser (createBlobUrl blobData (Some owner) (metadata opts)) in
            if truthy newUrl then
              do* withHook (setCurrentUrlRef newUrl) in
              withHook (setUrl newUrl)
            else throw (Error "Failed to create blob URL"))
           (λ err,
              do* inBrowser (console ErrorLevel "useBlobUrl: Error creating blob URL") in
              do* withHook (setError (Some (errorMessage err))) in
              callOnError (onError opts)))
        (withHook (setIsLoading false))
  end.

(** [refresh()], lines 75-79, for the [blob] the hook was rendered with. *)
Definition refresh (opts : Options) (blob : option BlobLike) : Js Page unit :=
  match blob with
  | Some _ => detached (createUrl opts blob)
  | None => ret tt
  end.

(** The effect that runs when [blob] changes, lines 82-84. *)
Definition blobEffect (opts : Options) (blob : option BlobLike) : Js Page unit :=
  detached (createUrl opts blob).

(** The cleanup of the unmount effect, lines 87-93. *)
Definition unmount (opts : Options) : Js Page unit :=
  let* current := gets (λ p, currentUrlRef (hook p)) in
  if autoCleanup opts && truthy current then inBrowser (revokeBlobUrl current)
  else ret tt.

(** The field [isActive] of the value the hook returns, line 100. *)
Definition isActive (p : Page) : bool :=
  if truthy (currentUrlRef (hook p))
  then isUrlActive (default "" (currentUrlRef (hook p))) (browser p)
  else false.

(** What a component does with the hook while it is mounted: it is
    rendered with a new [blob], it calls [refresh], and time passes. *)
Inductive HookCall :=
| Render (blob : option BlobLike)
| Refresh (blob : option BlobLike)
| Tick (dt : N).

Definition performHook (opts : Options) (c : HookCall) : Js Page unit :=
  match c with
  | Render blob => blobEffect opts blob
  | Refresh blob => refresh opts blob
  | Tick dt => inBrowser (advance dt)
  end.

(** The page after the hook was mounted in the browser [w] and the
    component did [cs]. *)
Definition mounted (opts : Options) (componentId : option string) (w : Browser)
    (cs : list HookCall) : Page :=
  foldl (λ p c, exec (performHook opts c) p) (mkPage w (mount componentId w)) cs.

End UseBlobUrl.

(** [holdsOne n0 p]: of the URLs the browser issued from serial [n0] on,
    the hook holds one or none, and every other one that is still tracked has
    its release pending, due within 50 ms. *)
Definition holdsOne (n0 : N) (p : UseBlobUrl.Page) : Prop :=
  let w := UseBlobUrl.browser p in
  urlsMinted w ∧
  (n0 ≤ nextObjectUrl w)%N ∧
  (∀ u, UseBlobUrl.currentUrlRef (UseBlobUrl.hook p) = Some u →
        ∃ k, (n0 ≤ k < nextObjectUrl w)%N ∧ u = objectUrl k) ∧
  (∀ k md, (n0 ≤ k)%N → getUrlMetadata (objectUrl k) w = Some md →
           UseBlobUrl.currentUrlRef (UseBlobUrl.hook p) = Some (objectUrl k) ∨
           releasePending (objectUrl k) w = true) ∧
  (∀ t k o, (n0 ≤ k)%N → t ∈ timers w → task t = ReleaseTask (objectUrl k) o →
            due t ≤ clock w + 50).

(** ** [BlobUrlErrorBoundary] (components/BlobUrlErrorBoundary.jsx) *)

(** [s.includes(sub)] *)
Definition includes (sub s : string) : bool :=
  match String.index 0 sub s with
  | Some _ => true
  | None => false
  end.

Module ErrorBoundary.

(** What the boundary reads of the value it catches: [error.message] and
    [error.stack]; [None] is [undefined] or [null]. *)
Record ErrorValue := mkError {
  message : option string;
  stack : option string
}.

(** [this.props]: [componentId] and the three callbacks, opaque functions
    that return or throw. *)
Record Props := mkProps {
  componentId : option string;
  onError : option Callback;
  onRetry : option Callback;
  onReset : option Callback
}.

(** [this.state].  [isBlobError] is absent until
    [getDerivedStateFromError] sets it; an absent value and [false] are both
    falsy, and the code looks at no more than that. *)
Record State := mkState {
  hasError : bool;
  error : option ErrorValue;
  errorInfo : option string;
  retryCount : nat;
  isBlobError : bool
}.

(** The state the constructor sets. *)
Definition initialState : State := mkState false None None 0 false.

Record Page := mkPage {
  browser : Browser;
  state : State
}.

Definition inBrowser {A} (m : Js Browser A) : Js Page A :=
  λ p, let r := m (browser p) in (r.1, mkPage r.2 (state p)).

(** [this.setState(...)], with the update applied.  React applies it
    after the handler has returned; no handler of the boundary reads a field
    it has set, so the order makes no difference to what the handlers do. *)
Definition setState (f : State → State) : Js Page unit :=
  modify (λ p, mkPage (browser p) (f (state p))).

(** [text?.includes(sub)] *)
Definition mentions (sub : string) (text : option string) : bool :=
  match text with
  | Some s => includes sub s
  | None => false
  end.

(** The test of [getDerivedStateFromError], lines 26-29. *)
Definition blobError (e : ErrorValue) : bool :=
  mentions "blob:" (message e) || mentions "ERR_FILE_NOT_FOUND" (message e) ||
  mentions "Failed to fetch" (message e) || mentions "blob:" (stack e).

(** [static getDerivedStateFromError(error)], lines 24-35; React merges the
    object it returns into the state. *)
Definition getDerivedStateFromError (e : ErrorValue) (st : State) : State :=
  mkState true (error st) (errorInfo st) (retryCount st) (blobError e).

(** [if (this.props.f) this.props.f(...)] *)
Definition callProp (f : option Callback) : Js Page unit :=
  match f with
  | Some f => inBrowser (call f)
  | None => ret tt
  end.

(** [handleBlobUrlError(error)], lines 56-70. *)
Definition handleBlobUrlError (props : Props) : Js Page unit :=
  do* inBrowser (console LogLevel "Attempting to recover from blob URL error") in
  do* (if truthy (componentId props)
       then inBrowser (revokeComponentUrls (default "" (componentId props)))
       else ret tt) in
  do* inBrowser (cleanupOldUrls (Some (5 * 60 * 1000))) in
  let* stats := gets (λ p, getStats (browser p)) in
  inBrowser (console LogLevel "Blob URL stats after cleanup").

(** [componentDidCatch(error, errorInfo)], lines 37-54. *)
Definition componentDidCatch (props : Props) (e : ErrorValue) (info : string) : Js Page unit :=
  do* inBrowser (console ErrorLevel "BlobUrlErrorBoundary caught an error") in
  do* setState (λ st, mkState (hasError st) (Some e) (Some info) (retryCount st)
                        (isBlobError st)) in
  let* blob := gets (λ p, isBlobError (state p)) in
  do* (if blob then handleBlobUrlError props else ret tt) in
  callProp (onError props).

(** [handleRetry()], lines 72-87. *)
Definition handleRetry (props : Props) : Js Page unit :=
  do* setState (λ prevState, mkState false None None (S (retryCount prevState))
                               (isBlobError prevState)) in
  do* handleBlobUrlError props in
  callProp (onRetry props).

(** [handleReset()], lines 89-103. *)
Definition handleReset (props : Props) : Js Page unit :=
  do* inBrowser cleanup in
  do* setState (λ st, mkState false None None 0 (isBlobError st)) in
  callProp (onReset props).

(** [disabled={retryCount >= 3}] on the retry button of the default error
    view, line 156. *)
Definition retryDisabled (st : State) : bool := bool_decide (3 ≤ retryCount st)%nat.

(** The calls [handleBlobUrlError] makes, as a history. *)
Definition recoveryCalls (props : Props) : list Call :=
  [ConsoleCall LogLevel "Attempting to recover from blob URL error"] ++
  (if truthy (componentId props)
   then [RevokeComponentUrls (default "" (componentId props))] else []) ++
  [CleanupOldUrls (Some (5 * 60 * 1000));
   ConsoleCall LogLevel "Blob URL stats after cleanup"].

(** The calls a callback prop makes. *)
Definition propCalls (f : option Callback) : list Call :=
  match f with
  | Some f => [CallbackCall f]
  | None => []
  end.

(** The calls [componentDidCatch] makes; [blob] is [this.state.isBlobError]. *)
Definition catchCalls (props : Props) (blob : bool) : list Call :=
  [ConsoleCall ErrorLevel "BlobUrlErrorBoundary caught an error"] ++
  (if blob then recoveryCalls props else []) ++ propCalls (onError props).

End ErrorBoundary.

(** How a call of an optional callback ends. *)
Definition outcome (f : option Callback) : Completion unit :=
  match f with
  | Some f => if cb_throws f then Throw (CallbackThrew (cb_id f)) else Normal tt
  | None => Normal tt
  end.

(** A call that creates nothing, empties nothing and lets no time pass. *)
Definition quiet (c : Call) : bool :=
  match c with
  | CreateBlobUrl _ _ _ | Cleanup | Advance _ => false
  | _ => true
  end.

(** Running a list of calls. *)
Definition performAll (cs : list Call) (w : Browser) : Browser :=
  foldl (λ w c, exec (perform c) w) w cs.

(** [twinTimers l1 l2]: [l2] is [l1], or [l1] with one release timer set
    twice, the two copies side by side. *)
Definition twinTimers (l1 l2 : list Timer) : Prop :=
  l2 = l1 ∨
  ∃ before after t u o,
    task t = ReleaseTask u o ∧ l1 = before ++ t :: after ∧ l2 = before ++ t :: t :: after.

(** [twin w1 w2]: the two pages have the same manager, clock, URL supply
    and interval; their pending timers are the same but for one release that
    may be set twice in [w2]; their traces may differ. *)
Definition twin (w1 w2 : Browser) : Prop :=
  manager w2 = manager w1 ∧ clock w2 = clock w1 ∧ nextObjectUrl w2 = nextObjectUrl w1 ∧
  nextSweep w2 = nextSweep w1 ∧ twinTimers (timers w1) (timers w2).

(** * Properties *)

(** Unfolds the monad and the browser primitives. *)
Ltac run_js :=
  unfold bind, ret, gets, modify, try_catch, throw, emit, console, withManager,
    setTimeout, Date_now, URL_revokeObjectURL, call; simpl.


(** ** Laws of [Map] and [Set] *)

Section map_laws.
Context {V : Type}.
Implicit Types (m : list (string * V)) (k : string) (v : V).

Lemma get_set_eq m k v : JsMap.get k (JsMap.set k v m) = Some v.
Proof.
  induction m as [|[k' v'] m IH]; simpl.
  - by rewrite decide_True.
  - destruct (decide (k = k')) as [->|Hne]; simpl.
    + by rewrite decide_True.
    + by rewrite decide_False.
Qed.

Lemma get_set_ne m k k' v : k ≠ k' → JsMap.get k' (JsMap.set k v m) = JsMap.get k' m.
Proof.
  intros Hne. induction m as [|[k0 v0] m IH]; simpl.
  - rewrite decide_False; [done | congruence].
  - destruct (decide (k = k0)) as [->|Hk]; simpl.
    + rewrite !decide_False; [done | congruence | congruence].
    + destruct (decide (k' = k0)); done.
Qed.

Lemma get_delete_eq m k : JsMap.get k (JsMap.delete k m) = None.
Proof.
  induction m as [|[k' v'] m IH]; simpl; [done|].
  destruct (decide (k = k')); simpl; [done|]. by rewrite decide_False.
Qed.

Lemma get_delete_ne m k k' : k ≠ k' → JsMap.get k' (JsMap.delete k m) = JsMap.get k' m.
Proof.
  intros Hne. induction m as [|[k0 v0] m IH]; simpl; [done|].
  destruct (decide (k = k0)) as [->|Hk]; simpl.
  - rewrite decide_False; [done | congruence].
  - destruct (decide (k' = k0)); done.
Qed.

(** Storing the value a key already has changes nothing. *)
Lemma set_same m k v : JsMap.get k m = Some v → JsMap.set k v m = m.
Proof.
  induction m as [|[k' v'] m IH]; simpl; [done|].
  destruct (decide (k = k')) as [->|Hk]; [congruence|].
  intros H. by rewrite IH.
Qed.

Lemma set_set m k v v' : JsMap.set k v (JsMap.set k v' m) = JsMap.set k v m.
Proof.
  induction m as [|[k0 v0] m IH]; simpl.
  - by rewrite decide_True.
  - destruct (decide (k = k0)) as [->|Hk]; simpl.
    + by rewrite decide_True.
    + rewrite decide_False; [|done]. by rewrite IH.
Qed.

Lemma delete_absent m k : JsMap.get k m = None → JsMap.delete k m = m.
Proof.
  induction m as [|[k' v'] m IH]; simpl; [done|].
  destruct (decide (k = k')); [done|]. intros H. by rewrite IH.
Qed.

Lemma has_true m k : JsMap.has k m = true ↔ is_Some (JsMap.get k m).
Proof.
  unfold JsMap.has. destruct (JsMap.get k m); split; done.
Qed.

Lemma has_false m k : JsMap.has k m = false ↔ JsMap.get k m = None.
Proof. unfold JsMap.has. destruct (JsMap.get k m); split; done. Qed.

Lemma get_Some_key m k v : JsMap.get k m = Some v → k ∈ JsMap.keys m.
Proof.
  unfold JsMap.keys. induction m as [|[k' v'] m IH]; simpl; [done|].
  destruct (decide (k = k')) as [->|Hk]; intros H.
  - apply list_elem_of_here.
  - apply list_elem_of_further. by apply IH.
Qed.

End map_laws.

Lemma set_delete_not_elem x s : x ∉ JsSet.delete x s.
Proof.
  induction s as [|y s IH]; simpl.
  - apply not_elem_of_nil.
  - destruct (decide (x = y)); [done|].
    apply not_elem_of_cons. split; done.
Qed.

Lemma set_delete_elem x y s : y ∈ JsSet.delete x s ↔ y ∈ s ∧ y ≠ x.
Proof.
  induction s as [|z s IH]; simpl.
  - split; [by intros ?%elem_of_nil | by intros [?%elem_of_nil _]].
  - destruct (decide (x = z)) as [->|Hne].
    + rewrite IH, elem_of_cons. intuition congruence.
    + rewrite !elem_of_cons, IH. intuition congruence.
Qed.

Lemma set_delete_absent x s : x ∉ s → JsSet.delete x s = s.
Proof.
  induction s as [|y s IH]; simpl; [done|].
  intros [Hne Hs]%not_elem_of_cons.
  rewrite decide_False; [|done]. by rewrite IH.
Qed.

(** ** The scheme prefix *)

Lemma objectUrl_prefix n : String.prefix "blob:" (objectUrl n) = true.
Proof. unfold objectUrl. simpl. by destruct (pretty n). Qed.

Lemma objectUrl_inj n n' : objectUrl n = objectUrl n' → n = n'.
Proof.
  unfold objectUrl. intros H. apply (inj pretty).
  by simplify_eq/=.
Qed.

Lemma prefix_blob_nonempty url : String.prefix "blob:" url = true → url ≠ "".
Proof. by intros H ->. Qed.

(** ** What one call of [revokeBlobUrl] does *)

Lemma revokeBlobUrl_tracked url md w :
  String.prefix "blob:" url = true →
  getUrlMetadata url w = Some md →
  revokeBlobUrl (Some url) w =
    (Normal tt,
     mkBrowser
       (mkManager (JsMap.set url (deactivated md) (activeUrls (manager w)))
          (urlsByComponent (manager w))
          (JsMap.delete url (cleanupCallbacks (manager w))))
       (insertTimer (mkTimer (clock w + 50) (ReleaseTask url (componentId md))) (timers w))
       (clock w) (nextObjectUrl w)
       (trace w ++ callbackEvents (JsMap.get url (cleanupCallbacks (manager w)))) (nextSweep w)).
Proof.
  intros Hpre Hget. unfold getUrlMetadata in Hget. unfold revokeBlobUrl.
  rewrite decide_False by (by apply prefix_blob_nonempty).
  rewrite Hpre. run_js. rewrite Hget. run_js.
  destruct (JsMap.get url (cleanupCallbacks (manager w))) as [cb|] eqn:Hcb; run_js.
  - destruct (cb_throws cb); run_js; unfold dropCallback, trackUrl; simpl.
    + by rewrite <- app_assoc.
    + done.
  - rewrite app_nil_r, (delete_absent _ _ Hcb). done.
Qed.

Lemma revokeBlobUrl_untracked url w :
  String.prefix "blob:" url = true →
  getUrlMetadata url w = None →
  revokeBlobUrl (Some url) w =
    (Normal tt,
     mkBrowser (manager w) (timers w) (clock w) (nextObjectUrl w)
       (trace w ++ [Console WarnLevel "Attempted to revoke unknown URL"]) (nextSweep w)).
Proof.
  intros Hpre Hget. unfold getUrlMetadata in Hget. unfold revokeBlobUrl.
  rewrite decide_False by (by apply prefix_blob_nonempty).
  rewrite Hpre. run_js. by rewrite Hget.
Qed.

Lemma revokeBlobUrl_foreign url w : foreign url → revokeBlobUrl url w = (Normal tt, w).
Proof.
  destruct url as [s|]; simpl; [|done].
  intros [->|Hpre]; unfold revokeBlobUrl.
  - by rewrite decide_True.
  - destruct (decide (s = "")); [done|]. by rewrite Hpre.
Qed.

Lemma revokeBlobUrl_cases url w :
  foreign (Some url) ∨
  (String.prefix "blob:" url = true ∧ getUrlMetadata url w = None) ∨
  (String.prefix "blob:" url = true ∧ ∃ md, getUrlMetadata url w = Some md).
Proof.
  simpl. destruct (String.prefix "blob:" url) eqn:Hpre; [|by left; right].
  right. destruct (getUrlMetadata url w) as [md|]; [right|left]; eauto.
Qed.

Lemma revokeBlobUrl_returns url w : result (revokeBlobUrl url) w = Normal tt.
Proof.
  unfold result. destruct url as [url|]; [|done].
  destruct (revokeBlobUrl_cases url w) as [Hf|[[Hpre Hget]|[Hpre [md Hget]]]].
  - by rewrite revokeBlobUrl_foreign.
  - by rewrite revokeBlobUrl_untracked.
  - by rewrite (revokeBlobUrl_tracked _ md).
Qed.


Lemma revokeBlobUrl_manager_twice url w :
  manager (exec (revokeBlobUrl url) (exec (revokeBlobUrl url) w))
  = manager (exec (revokeBlobUrl url) w).
Proof.
  unfold exec. destruct url as [url|]; [|done].
  destruct (revokeBlobUrl_cases url w) as [Hf|[[Hpre Hget]|[Hpre [md Hget]]]].
  - by rewrite !revokeBlobUrl_foreign.
  - rewrite (revokeBlobUrl_untracked _ w) by done. cbn [snd].
    by rewrite revokeBlobUrl_untracked.
  - rewrite (revokeBlobUrl_tracked _ md w) by done. cbn [snd].
    rewrite (revokeBlobUrl_tracked _ (deactivated md)); cbn [snd manager].
    + simpl. rewrite set_set. f_equal.
      by rewrite (delete_absent (JsMap.delete _ _)) by apply get_delete_eq.
    + done.
    + unfold getUrlMetadata. simpl. apply get_set_eq.
Qed.

Lemma getStats_manager w w' : manager w = manager w' → getStats w = getStats w'.
Proof. unfold getStats. by intros ->. Qed.

(** ** What the timer functions do *)

Lemma delayedRevoke_eq url owner w :
  delayedRevoke url owner w =
    (Normal tt,
     mkBrowser (untrackByComponent owner url (untrackUrl url (manager w)))
       (timers w) (clock w) (nextObjectUrl w)
       (trace w ++ [RevokeObjectURL url; Console LogLevel "Revoked URL"]) (nextSweep w)).
Proof. unfold delayedRevoke. run_js. by rewrite <- app_assoc. Qed.

Lemma validateBlobUrl_eq url w :
  validateBlobUrl url w =
    (Normal (isUrlActive url w),
     mkBrowser (manager w) (timers w) (clock w) (nextObjectUrl w)
       (trace w ++ if isUrlActive url w then [Console LogLevel "URL is being tracked"] else []) (nextSweep w)).
Proof.
  unfold validateBlobUrl, isUrlActive. run_js.
  destruct (JsMap.has url (activeUrls (manager w))); simpl; [done|].
  rewrite app_nil_r. by destruct w.
Qed.

Lemma fireTask_eq k w :
  fireTask k w =
    (Normal tt,
     mkBrowser (taskManager k (manager w)) (timers w) (clock w) (nextObjectUrl w)
       (trace w ++ taskEvents k w) (nextSweep w)).
Proof.
  destruct k as [url|url owner]; simpl.
  - unfold bind. rewrite validateBlobUrl_eq. done.
  - apply delayedRevoke_eq.
Qed.

Lemma getComponentUrls_untrack owner url o (m : BlobUrlManager) x :
  x ∈ default [] (JsMap.get o (urlsByComponent (untrackByComponent owner url m))) →
  x ∈ default [] (JsMap.get o (urlsByComponent m)) ∧ (o = owner → x ≠ url).
Proof.
  unfold untrackByComponent.
  destruct (JsMap.get owner (urlsByComponent m)) as [s|] eqn:Hs; simpl.
  - destruct (decide (JsSet.size (JsSet.delete url s) = 0%nat)) as [Hz|Hz].
    + destruct (decide (owner = o)) as [<-|Hne].
      * rewrite get_delete_eq. by intros ?%elem_of_nil.
      * rewrite get_delete_ne by done. intros Hx. split; [done | congruence].
    + destruct (decide (owner = o)) as [<-|Hne].
      * rewrite get_set_eq, Hs. simpl. intros [Hx Hne]%set_delete_elem. done.
      * rewrite get_set_ne by done. intros Hx. split; [done | congruence].
  - intros Hx. split; [done|]. intros ->. rewrite Hs in Hx. by apply elem_of_nil in Hx.
Qed.

(** A timer function never tracks anything: what is absent stays absent. *)
Lemma fireTask_untracked k url w :
  getUrlMetadata url w = None → getUrlMetadata url (exec (fireTask k) w) = None.
Proof.
  unfold exec, getUrlMetadata. rewrite fireTask_eq. simpl.
  destruct k as [u|u o]; simpl; [done|].
  intros H. assert (JsMap.get url (JsMap.delete u (activeUrls (manager w))) = None) as Hd.
  { destruct (decide (u = url)) as [->|Hne];
      [apply get_delete_eq | by rewrite get_delete_ne]. }
  unfold untrackByComponent, untrackUrl. simpl.
  by destruct (JsMap.get o (urlsByComponent (manager w))).
Qed.

Lemma fireTask_unindexed k url o w :
  url ∉ getComponentUrls o w → url ∉ getComponentUrls o (exec (fireTask k) w).
Proof.
  unfold exec, getComponentUrls. rewrite fireTask_eq. simpl.
  destruct k as [u|u o']; simpl; [done|].
  intros H Hin. apply getComponentUrls_untrack in Hin as [Hin _]. done.
Qed.

(** The release of [url] takes it out of the table and out of the set of
    the owner the closure captured. *)
Lemma delayedRevoke_removes url owner w :
  let w' := exec (delayedRevoke url owner) w in
  getUrlMetadata url w' = None ∧ url ∉ getComponentUrls owner w'.
Proof.
  unfold exec, getUrlMetadata, getComponentUrls. rewrite delayedRevoke_eq. simpl. split.
  - unfold untrackByComponent, untrackUrl. simpl.
    destruct (JsMap.get owner (urlsByComponent (manager w))); simpl; apply get_delete_eq.
  - intros Hin. apply getComponentUrls_untrack in Hin as [_ Hne]. by apply Hne.
Qed.

Lemma forEach_fireTask l w :
  forEach (λ t, fireTask (task t)) l w = (Normal tt, fireAll l w).
Proof.
  revert w. induction l as [|t l IH]; intros w; simpl; [done|].
  unfold bind. rewrite fireTask_eq. simpl. rewrite IH. unfold fireAll. simpl.
  unfold exec. by rewrite fireTask_eq.
Qed.

Lemma runTimers_eq now w :
  runTimers now w =
    (Normal tt,
     fireAll (filter (λ t, due t ≤ now) (timers w))
       (mkBrowser (manager w) (filter (λ t, now < due t) (timers w))
          (clock w) (nextObjectUrl w) (trace w) (nextSweep w))).
Proof. unfold runTimers. run_js. by rewrite forEach_fireTask. Qed.


Lemma fireAll_removes l url owner w :
  (∃ t, t ∈ l ∧ task t = ReleaseTask url owner) ∨
    (getUrlMetadata url w = None ∧ url ∉ getComponentUrls owner w) →
  getUrlMetadata url (fireAll l w) = None ∧ url ∉ getComponentUrls owner (fireAll l w).
Proof.
  revert w. induction l as [|t l IH]; intros w; simpl.
  - intros [[t [Ht _]]|H]; [by apply elem_of_nil in Ht | done].
  - intros [[t' [Ht' Htask]]|[Hg Hi]]; apply IH.
    + apply elem_of_cons in Ht' as [->|Ht']; [|left; eauto].
      right. rewrite Htask. simpl. apply delayedRevoke_removes.
    + right. split; [by apply fireTask_untracked | by apply fireTask_unindexed].
Qed.

Lemma elem_of_insertTimer t l : t ∈ insertTimer t l.
Proof.
  induction l as [|t' l IH]; simpl.
  - apply list_elem_of_here.
  - destruct (decide (due t' ≤ due t)).
    + by apply list_elem_of_further.
    + apply list_elem_of_here.
Qed.

Lemma elem_of_insertTimer_iff t t0 l : t ∈ insertTimer t0 l ↔ t = t0 ∨ t ∈ l.
Proof.
  induction l as [|t' l IH]; simpl.
  - rewrite list_elem_of_singleton. split; [by left | intros [?|?%elem_of_nil]; done].
  - destruct (decide (due t' ≤ due t0)).
    + rewrite !elem_of_cons, IH. tauto.
    + rewrite !elem_of_cons. tauto.
Qed.

(** ** Two revocations, later *)

Lemma fireAll_manager l w :
  manager (fireAll l w) = foldl (λ m t, taskManager (task t) m) (manager w) l.
Proof.
  revert w. induction l as [|t l IH]; intros w; [done|].
  unfold fireAll in *. simpl. rewrite IH. unfold exec. by rewrite fireTask_eq.
Qed.

(** Setting the same timer twice puts the two copies side by side. *)
Lemma insertTimer_twice t l :
  ∃ before after,
    insertTimer t l = before ++ t :: after ∧
    insertTimer t (insertTimer t l) = before ++ t :: t :: after.
Proof.
  induction l as [|t' l (before & after & H1 & H2)]; simpl.
  - exists [], []. simpl. by rewrite decide_True by lia.
  - destruct (decide (due t' ≤ due t)) as [Hle|Hgt]; simpl.
    + rewrite decide_True by done. exists (t' :: before), after.
      simpl. by rewrite H2, H1.
    + rewrite decide_True by lia. simpl. rewrite decide_False by done.
      by exists [], (t' :: l).
Qed.

Lemma untrackUrl_idemp url m : untrackUrl url (untrackUrl url m) = untrackUrl url m.
Proof.
  unfold untrackUrl. simpl. f_equal. apply delete_absent, get_delete_eq.
Qed.

Lemma untrackByComponent_idemp owner url m :
  untrackByComponent owner url (untrackByComponent owner url m)
  = untrackByComponent owner url m.
Proof.
  unfold untrackByComponent at 2 3.
  destruct (JsMap.get owner (urlsByComponent m)) as [s|] eqn:Hs.
  - destruct (decide (JsSet.size (JsSet.delete url s) = 0%nat)) as [Hz|Hz].
    + unfold untrackByComponent. simpl. by rewrite get_delete_eq.
    + unfold untrackByComponent. simpl. rewrite get_set_eq.
      rewrite (set_delete_absent url (JsSet.delete url s)) by apply set_delete_not_elem.
      rewrite decide_False by done. by rewrite set_set.
  - unfold untrackByComponent. by rewrite Hs.
Qed.

Lemma release_twice url owner m :
  taskManager (ReleaseTask url owner) (taskManager (ReleaseTask url owner) m)
  = taskManager (ReleaseTask url owner) m.
Proof.
  simpl.
  assert (∀ m', untrackUrl url (untrackByComponent owner url m')
                = untrackByComponent owner url (untrackUrl url m')) as Hcomm.
  { intros m'. unfold untrackByComponent, untrackUrl. simpl.
    by destruct (JsMap.get owner (urlsByComponent m')). }
  by rewrite Hcomm, untrackUrl_idemp, untrackByComponent_idemp.
Qed.

(** ** Revocation *)

(** C10: on [null], on the empty string and on a string that does not
    start with [blob:], [revokeBlobUrl] returns at once and the whole
    browser state is what it was: no entry changed, no callback run, no
    timer set, nothing logged. *)
Theorem revoke_ignores_foreign_input (url : option string) (w : Browser) :
  foreign url →
  revokeBlobUrl url w = (Normal tt, w) ∧
  manager (exec (revokeBlobUrl url) w) = manager w ∧
  timers (exec (revokeBlobUrl url) w) = timers w ∧
  trace (exec (revokeBlobUrl url) w) = trace w.
Proof.
  intros Hforeign.
  assert (revokeBlobUrl url w = (Normal tt, w)) as Heq.
  { unfold revokeBlobUrl. destruct url as [s|]; [|done].
    destruct (decide (s = "")) as [->|Hne]; [done|].
    destruct Hforeign as [->|Hpre]; [done|]. by rewrite Hpre. }
  unfold exec. by rewrite Heq.
Qed.

Lemma revoke_ignores_foreign_input_witness :
  revokeBlobUrl (Some "http://example.org/a.wav") oneUrlBrowser = (Normal tt, oneUrlBrowser)
  ∧ revokeBlobUrl (Some "") oneUrlBrowser = (Normal tt, oneUrlBrowser)
  ∧ revokeBlobUrl None oneUrlBrowser = (Normal tt, oneUrlBrowser).
Proof.
  split; [|split].
  - apply (revoke_ignores_foreign_input (Some "http://example.org/a.wav")).
    simpl. right. reflexivity.
  - apply (revoke_ignores_foreign_input (Some "")). simpl. left. reflexivity.
  - apply (revoke_ignores_foreign_input None). simpl. exact I.
Defined.

(** ** Cleanup callbacks *)

Lemma taskEvents_no_callback k w id : CallbackRun id ∉ taskEvents k w.
Proof.
  destruct k as [u|u o]; simpl.
  - destruct (isUrlActive u w); [|apply not_elem_of_nil].
    intros [?|?%elem_of_nil]%elem_of_cons; done.
  - intros [?|[?|?%elem_of_nil]%elem_of_cons]%elem_of_cons; done.
Qed.

(** What the timers of [l] add to the trace: no callback run, and the
    release of every URL that has a release timer in [l]. *)
Lemma fireAll_trace l w :
  ∃ later : list Event,
    trace (fireAll l w) = trace w ++ later ∧
    (∀ id, CallbackRun id ∉ later) ∧
    (∀ t u o, t ∈ l → task t = ReleaseTask u o → RevokeObjectURL u ∈ later).
Proof.
  revert w. induction l as [|t l IH]; intros w; simpl.
  - exists []. rewrite app_nil_r. split; [done|]. split.
    + intros id. apply not_elem_of_nil.
    + intros t u o Ht. by apply elem_of_nil in Ht.
  - destruct (IH (exec (fireTask (task t)) w)) as (later & Htr & Hno & Hrel).
    exists (taskEvents (task t) w ++ later).
    unfold fireAll in *. simpl. rewrite Htr. unfold exec. rewrite fireTask_eq. simpl.
    split; [by rewrite app_assoc|]. split.
    + intros id [Hin|Hin]%elem_of_app; [by apply taskEvents_no_callback in Hin|].
      by apply Hno in Hin.
    + intros t' u o [->|Hin]%elem_of_cons Htask; apply elem_of_app.
      * left. rewrite Htask. simpl. apply list_elem_of_here.
      * right. by apply (Hrel t' u o).
Qed.

Lemma runsOf_app id tr tr' : runsOf id (tr ++ tr') = (runsOf id tr + runsOf id tr')%nat.
Proof. unfold runsOf. by rewrite filter_app, length_app. Qed.

Lemma runsOf_none id tr : (∀ i, CallbackRun i ∉ tr) → runsOf id tr = 0%nat.
Proof.
  unfold runsOf. intros Hno. induction tr as [|e tr IH]; [done|].
  rewrite filter_cons. destruct (decide (e = CallbackRun id)) as [->|Hne].
  - exfalso. apply (Hno id). apply list_elem_of_here.
  - apply IH. intros i Hi. apply (Hno i). by apply list_elem_of_further.
Qed.


(** ** Creation *)

Lemma createBlobUrl_refused blob componentId metadata w e :
  refusal blob = Some e →
  createBlobUrl blob componentId metadata w =
    (Normal None,
     mkBrowser (manager w) (timers w) (clock w) (nextObjectUrl w) (trace w ++ [e]) (nextSweep w)).
Proof.
  unfold refusal, createBlobUrl.
  destruct blob as [b|]; [|intros [= <-]; by run_js].
  destruct (blob_size b) as [sz|]; [|intros [= <-]; by run_js].
  destruct (decide (sz = 0)); [intros [= <-]; by run_js|].
  unfold URL_createObjectURL. destruct (is_blob b); [done|].
  intros [= <-]. by run_js.
Qed.

Lemma createBlobUrl_accepted b sz componentId metadata w :
  blob_size b = Some sz → sz ≠ 0 → is_blob b = true →
  let url := objectUrl (nextObjectUrl w) in
  let owner := default "unknown" componentId in
  createBlobUrl (Some b) componentId metadata w =
    (Normal (Some url),
     mkBrowser
       (trackByComponent owner url
          (trackUrl url
             (trackedMetadata (newBlobOf b) b owner (clock w) (clock w) sz metadata)
             (manager w)))
       (insertTimer (mkTimer (clock w + 100) (ValidateTask url)) (timers w))
       (clock w) (N.succ (nextObjectUrl w))
       (trace w ++ [CreateObjectURL url; Console LogLevel "Created URL"]) (nextSweep w)).
Proof.
  intros Hsz Hnz Hblob url owner. unfold createBlobUrl. rewrite Hsz.
  rewrite decide_False by done. unfold URL_createObjectURL. rewrite Hblob.
  run_js. by rewrite <- app_assoc.
Qed.

Lemma refusal_None blob :
  refusal blob = None →
  ∃ b sz, blob = Some b ∧ blob_size b = Some sz ∧ sz ≠ 0 ∧ is_blob b = true.
Proof.
  unfold refusal. destruct blob as [b|]; [|done].
  destruct (blob_size b) as [sz|] eqn:Hsz; [|done].
  destruct (decide (sz = 0)); [done|].
  destruct (is_blob b) eqn:Hb; [|done]. intros _. by exists b, sz.
Qed.

(** [createBlobUrl] returns normally, with [null] or with a URL. *)
Lemma createBlobUrl_returns blob componentId metadata w :
  ∃ r, result (createBlobUrl blob componentId metadata) w = Normal r.
Proof.
  unfold result. destruct (refusal blob) as [e|] eqn:Hr.
  - rewrite (createBlobUrl_refused _ _ _ _ e Hr). by eexists.
  - apply refusal_None in Hr as (b & sz & -> & Hsz & Hnz & Hb).
    rewrite (createBlobUrl_accepted b sz) by done. by eexists.
Qed.

(** C2: for a resource of size zero and any owner, [createBlobUrl]
    returns [null] (the failure value its callers test for) after one
    [console.warn] naming the empty blob; the three tables, the statistics,
    the pending timers and the URL supply of the browser are what they
    were. *)
Theorem create_rejects_empty_resource
    (b : BlobLike) (componentId : option string) (metadata : Metadata) (w : Browser) :
  blob_size b = Some 0 →
  let w' := exec (createBlobUrl (Some b) componentId metadata) w in
  result (createBlobUrl (Some b) componentId metadata) w = Normal None ∧
  manager w' = manager w ∧
  getStats w' = getStats w ∧
  totalUrls (getStats w') = totalUrls (getStats w) ∧
  timers w' = timers w ∧
  nextObjectUrl w' = nextObjectUrl w ∧
  trace w' = trace w ++ [Console WarnLevel "Empty blob provided"].
Proof.
  intros Hsz w'. subst w'. unfold exec, result.
  rewrite (createBlobUrl_refused _ _ _ _ (Console WarnLevel "Empty blob provided")).
  - repeat split; done.
  - simpl. rewrite Hsz. by rewrite decide_True.
Qed.

Lemma create_rejects_empty_resource_witness :
  let empty := mkBlob (Some 0) "audio/wav" true in
  result (createBlobUrl (Some empty) (Some "comp1") noMetadata) oneUrlBrowser = Normal None ∧
  totalUrls (getStats (exec (createBlobUrl (Some empty) (Some "comp1") noMetadata) oneUrlBrowser))
  = totalUrls (getStats oneUrlBrowser).
Proof.
  destruct (create_rejects_empty_resource (mkBlob (Some 0) "audio/wav" true)
              (Some "comp1") noMetadata oneUrlBrowser eq_refl)
    as (Hret & _ & _ & Hcount & _).
  exact (conj Hret Hcount).
Defined.

(** ** Full teardown *)

Lemma forEach_revokeObjectURL urls w :
  forEach (λ url, try_catch (URL_revokeObjectURL url)
                    (λ _, console WarnLevel "Error during cleanup")) urls w =
    (Normal tt,
     mkBrowser (manager w) (timers w) (clock w) (nextObjectUrl w)
       (trace w ++ (RevokeObjectURL <$> urls)) (nextSweep w)).
Proof.
  revert w. induction urls as [|url urls IH]; intros w; simpl.
  - unfold ret. rewrite app_nil_r. by destruct w.
  - unfold bind at 1. run_js. rewrite IH. simpl. by rewrite <- app_assoc.
Qed.

Lemma cleanup_eq w :
  cleanup w =
    (Normal tt,
     mkBrowser newBlobUrlManager (timers w) (clock w) (nextObjectUrl w)
       (trace w ++ (RevokeObjectURL <$> JsMap.keys (activeUrls (manager w))) ++
        if decide (0 < JsMap.size (activeUrls (manager w)))%nat
        then [Console LogLevel "Cleaned up URLs on shutdown"] else []) (nextSweep w)).
Proof.
  unfold cleanup. unfold bind at 1 2 3. unfold gets at 1 2.
  rewrite forEach_revokeObjectURL. run_js.
  destruct (decide (0 < JsMap.size (activeUrls (manager w)))%nat); run_js.
  - by rewrite app_assoc.
  - by rewrite app_nil_r.
Qed.

(** What [createBlobUrl] returns and what it makes of the manager depend
    on the manager, the clock and the URL supply only. *)
Lemma createBlobUrl_local blob componentId metadata w1 w2 :
  manager w1 = manager w2 → clock w1 = clock w2 → nextObjectUrl w1 = nextObjectUrl w2 →
  result (createBlobUrl blob componentId metadata) w1
    = result (createBlobUrl blob componentId metadata) w2 ∧
  manager (exec (createBlobUrl blob componentId metadata) w1)
    = manager (exec (createBlobUrl blob componentId metadata) w2).
Proof.
  intros Hm Hc Hn. unfold result, exec. destruct (refusal blob) as [e|] eqn:Hr.
  - rewrite !(createBlobUrl_refused _ _ _ _ e Hr). done.
  - apply refusal_None in Hr as (b & sz & -> & Hsz & Hnz & Hb).
    rewrite !(createBlobUrl_accepted b sz) by done. simpl.
    by rewrite Hm, Hc, Hn.
Qed.

(** C7: [cleanup] returns normally; it calls [URL.revokeObjectURL] on every
    tracked URL during the call and sets no timer; on return the three
    tables are empty; the next [createBlobUrl] returns what it returns on a
    manager constructed afresh and leaves the same tables, and for a
    non-empty blob it succeeds, leaving that one URL tracked. *)
Theorem cleanup_resets_manager (w : Browser) :
  let w' := exec cleanup w in
  result cleanup w = Normal tt ∧
  activeUrls (manager w') = [] ∧
  urlsByComponent (manager w') = [] ∧
  cleanupCallbacks (manager w') = [] ∧
  timers w' = timers w ∧
  (∃ logged : list Event,
     trace w' = trace w ++ (RevokeObjectURL <$> JsMap.keys (activeUrls (manager w))) ++ logged) ∧
  (∀ url, isUrlActive url w = true → RevokeObjectURL url ∈ trace w') ∧
  (∀ blob componentId metadata,
     result (createBlobUrl blob componentId metadata) w'
       = result (createBlobUrl blob componentId metadata) (freshManagerIn w) ∧
     manager (exec (createBlobUrl blob componentId metadata) w')
       = manager (exec (createBlobUrl blob componentId metadata) (freshManagerIn w))) ∧
  (∀ b sz componentId metadata,
     blob_size b = Some sz → sz ≠ 0 → is_blob b = true →
     let url := objectUrl (nextObjectUrl w) in
     let w'' := exec (createBlobUrl (Some b) componentId metadata) w' in
     result (createBlobUrl (Some b) componentId metadata) w' = Normal (Some url) ∧
     isUrlActive url w'' = true ∧
     totalUrls (getStats w'') = 1%nat).
Proof.
  intros w'. subst w'. unfold result, exec. rewrite cleanup_eq. cbn [fst snd manager timers trace].
  repeat split; try done.
  - eexists. reflexivity.
  - intros url Hact. apply elem_of_app. right. apply elem_of_app. left.
    apply list_elem_of_fmap. exists url. split; [done|].
    apply has_true in Hact as [md Hmd]. by apply get_Some_key in Hmd.
  - by apply createBlobUrl_local.
  - by apply createBlobUrl_local.
  - rewrite (createBlobUrl_accepted b sz) by done. done.
  - rewrite (createBlobUrl_accepted b sz) by done. unfold isUrlActive.
    cbn [snd manager]. apply has_true. unfold trackByComponent, trackUrl.
    cbn [activeUrls manager nextObjectUrl clock]. rewrite get_set_eq. by eexists.
  - rewrite (createBlobUrl_accepted b sz) by done. done.
Qed.

Lemma cleanup_resets_manager_witness :
  let w' := exec cleanup scenarioE in
  let w'' := exec (createBlobUrl (Some wavBlob) (Some "comp2") noMetadata) w' in
  result (createBlobUrl (Some wavBlob) (Some "comp2") noMetadata) w' = Normal (Some "blob:1") ∧
  isUrlActive "blob:1" w'' = true ∧
  totalUrls (getStats w'') = 1%nat.
Proof.
  destruct (cleanup_resets_manager scenarioE) as (_ & _ & _ & _ & _ & _ & _ & _ & Hnext).
  apply (Hnext wavBlob 1024 (Some "comp2") noMetadata); [reflexivity | lia | reflexivity].
Defined.

(** ** Statistics *)


Lemma orZero_id x : orZero x = x.
Proof. unfold orZero. by destruct (decide (x = 0)) as [->|]. Qed.



Lemma lookup_tally k k' sz (o : gmap string Bucket.t) :
  tally k sz o !! k' =
    if inherited k then o !! k'
    else if decide (k = k')
    then Some (Bucket.mk (S (Bucket.count (default Bucket.zero (o !! k))))
                 (numAdd (Bucket.size (default Bucket.zero (o !! k))) sz))
    else o !! k'.
Proof.
  unfold tally. destruct (inherited k); [done|].
  destruct (decide (k = k')) as [->|Hne].
  - by rewrite lookup_insert_eq.
  - by rewrite lookup_insert_ne.
Qed.

Lemma lookup_tallyAll key l (o : gmap string Bucket.t) k :
  tallyAll key o l !! k =
    if inherited k then o !! k
    else match filedUnder key k l with
         | [] => o !! k
         | sel =>
             Some (Bucket.mk (Bucket.count (default Bucket.zero (o !! k)) + length sel)
                     (foldl (λ acc e, numAdd acc (size e.2))
                        (Bucket.size (default Bucket.zero (o !! k))) sel))
         end.
Proof.
  revert o. induction l as [|e l IH]; intros o; [by destruct (inherited k)|].
  unfold tallyAll, filedUnder in *. simpl. rewrite IH, lookup_tally, filter_cons.
  destruct (inherited k) eqn:Hk.
  - destruct (inherited (key e.2)) eqn:He; [done|].
    destruct (decide (key e.2 = k)) as [Heq|Hne]; [congruence | done].
  - destruct (decide (key e.2 = k)) as [<-|Hne].
    + rewrite Hk. destruct (filter _ l) as [|e' sel] eqn:Hsel; simpl; rewrite !orZero_id;
        f_equal; f_equal; lia.
    + destruct (inherited (key e.2)); [done|done].
Qed.

Lemma getStats_fold l st :
  let st' := foldl countEntry st l in
  totalUrls st' = totalUrls st ∧
  totalComponents st' = totalComponents st ∧
  totalSize st' = foldl (λ acc e, numAdd acc (size e.2)) (totalSize st) l ∧
  byComponent st' = tallyAll componentId (byComponent st) l ∧
  byType st' = tallyAll (λ md, orUnknown (type md)) (byType st) l.
Proof.
  revert st. induction l as [|e l IH]; intros st; simpl.
  - by repeat split.
  - destruct (IH (countEntry st e)) as (H1 & H2 & H3 & H4 & H5).
    rewrite H1, H2, H3, H4, H5. simpl. rewrite orZero_id.
    by repeat split.
Qed.

Lemma bucketOf_from_empty key k l :
  tallyAll key ∅ l !! k = bucketOf k (filedUnder key k l).
Proof.
  rewrite lookup_tallyAll, lookup_empty. unfold bucketOf.
  destruct (inherited k); [done|].
  destruct (filedUnder key k l); [done|]. simpl. f_equal.
Qed.


(** ** Access marks *)

Lemma markUrlAccessed_untracked url w :
  getUrlMetadata url w = None → markUrlAccessed url w = (Normal tt, w).
Proof. unfold getUrlMetadata, markUrlAccessed. run_js. by intros ->. Qed.

Lemma markUrlAccessed_tracked url md w :
  getUrlMetadata url w = Some md →
  markUrlAccessed url w =
    (Normal tt,
     mkBrowser (trackUrl url (touch (clock w) md) (manager w))
       (timers w) (clock w) (nextObjectUrl w) (trace w) (nextSweep w)).
Proof. unfold getUrlMetadata, markUrlAccessed. run_js. by intros ->. Qed.




(** ** Revocation by owner *)

(** One [revokeBlobUrl] leaves alone the owner index, the clock, the URL
    supply, the timers already pending, and the entry and callback of every
    other URL. *)
Lemma revokeBlobUrl_frame url w :
  let w' := exec (revokeBlobUrl (Some url)) w in
  urlsByComponent (manager w') = urlsByComponent (manager w) ∧
  clock w' = clock w ∧
  nextObjectUrl w' = nextObjectUrl w ∧
  (∀ t, t ∈ timers w' → t ∈ timers w ∨ ∃ o, t = mkTimer (clock w + 50) (ReleaseTask url o)) ∧
  (∀ t, t ∈ timers w → t ∈ timers w') ∧
  (∀ u, u ≠ url →
     getUrlMetadata u w' = getUrlMetadata u w ∧
     JsMap.get u (cleanupCallbacks (manager w')) = JsMap.get u (cleanupCallbacks (manager w))).
Proof.
  intros w'. subst w'. unfold exec.
  destruct (revokeBlobUrl_cases url w) as [Hf|[[Hpre Hget]|[Hpre [md Hget]]]].
  - rewrite revokeBlobUrl_foreign by done. simpl. repeat split; auto.
  - rewrite revokeBlobUrl_untracked by done. simpl. repeat split; auto.
  - rewrite (revokeBlobUrl_tracked url md) by done. cbn [snd].
    unfold getUrlMetadata. simpl. repeat split; try done.
    + intros t [->|Ht]%elem_of_insertTimer_iff; [right; by eexists | by left].
    + intros t Ht. apply elem_of_insertTimer_iff. by right.
    + by rewrite get_set_ne.
    + by rewrite get_delete_ne.
Qed.

(** What one [revokeBlobUrl] makes of the entry of its own URL. *)
Lemma revokeBlobUrl_entry url md w :
  getUrlMetadata url w = Some md →
  let w' := exec (revokeBlobUrl (Some url)) w in
  if String.prefix "blob:" url
  then getUrlMetadata url w' = Some (deactivated md) ∧
       mkTimer (clock w + 50) (ReleaseTask url (componentId md)) ∈ timers w'
  else w' = w.
Proof.
  intros Hget w'. subst w'. unfold exec.
  destruct (String.prefix "blob:" url) eqn:Hpre.
  - rewrite (revokeBlobUrl_tracked url md) by done. cbn [snd].
    unfold getUrlMetadata. simpl. rewrite get_set_eq.
    split; [done | apply elem_of_insertTimer].
  - rewrite revokeBlobUrl_foreign; [done | by right].
Qed.

Lemma forEach_revokeBlobUrl l w :
  forEach (λ url, revokeBlobUrl (Some url)) l w = (Normal tt, revokeAll l w).
Proof.
  revert w. induction l as [|url l IH]; intros w; simpl; [done|].
  unfold bind. pose proof (revokeBlobUrl_returns (Some url) w) as Hret.
  unfold result in Hret. unfold exec.
  destruct (revokeBlobUrl (Some url) w) as [r w1]. cbn [fst snd] in *. subst r.
  apply IH.
Qed.

Lemma revokeAll_frame l w :
  let w' := revokeAll l w in
  urlsByComponent (manager w') = urlsByComponent (manager w) ∧
  clock w' = clock w ∧
  nextObjectUrl w' = nextObjectUrl w ∧
  (∀ t, t ∈ timers w' → t ∈ timers w ∨ ∃ u o, u ∈ l ∧ task t = ReleaseTask u o) ∧
  (∀ t, t ∈ timers w → t ∈ timers w') ∧
  (∀ u, u ∉ l →
     getUrlMetadata u w' = getUrlMetadata u w ∧
     JsMap.get u (cleanupCallbacks (manager w')) = JsMap.get u (cleanupCallbacks (manager w))).
Proof.
  revert w. induction l as [|url l IH]; intros w; simpl.
  - repeat split; auto.
  - destruct (revokeBlobUrl_frame url w) as (Hi & Hc & Hn & Ht & Hk & Hf).
    destruct (IH (exec (revokeBlobUrl (Some url)) w)) as (Hi' & Hc' & Hn' & Ht' & Hk' & Hf').
    unfold revokeAll in *. simpl.
    split; [congruence|]. split; [congruence|]. split; [congruence|]. split; [|split].
    + intros t [Hin|(u & o & Hu & Htask)]%Ht'.
      * apply Ht in Hin as [Hin|[o ->]]; [by left|].
        right. exists url, o. split; [apply list_elem_of_here | done].
      * right. exists u, o. split; [by apply list_elem_of_further | done].
    + intros t Hin. by apply Hk', Hk.
    + intros u [Hne Hnl]%not_elem_of_cons.
      destruct (Hf' u Hnl) as [-> ->]. by apply Hf.
Qed.

(** Through the loop an entry is at most deactivated. *)
Lemma revokeAll_keeps l w u md :
  getUrlMetadata u w = Some md →
  getUrlMetadata u (revokeAll l w) = Some md ∨
  getUrlMetadata u (revokeAll l w) = Some (deactivated md).
Proof.
  revert w md. induction l as [|url l IH]; intros w md Hget; simpl; [by left|].
  unfold revokeAll in *. simpl.
  destruct (decide (u = url)) as [->|Hne].
  - pose proof (revokeBlobUrl_entry url md w Hget) as Hent.
    destruct (String.prefix "blob:" url).
    + destruct Hent as [Hent _].
      destruct (IH _ _ Hent) as [H|H]; right; by rewrite H.
    + simpl in Hent. rewrite Hent. by apply IH.
  - destruct (revokeBlobUrl_frame url w) as (_ & _ & _ & _ & _ & Hf).
    apply IH. destruct (Hf u Hne) as [-> _]. done.
Qed.

(** Every tracked URL of the list that carries the scheme prefix ends
    deactivated, with its release pending. *)
Lemma revokeAll_revokes l w u md :
  u ∈ l → String.prefix "blob:" u = true → getUrlMetadata u w = Some md →
  getUrlMetadata u (revokeAll l w) = Some (deactivated md) ∧
  mkTimer (clock w + 50) (ReleaseTask u (componentId md)) ∈ timers (revokeAll l w).
Proof.
  revert w md. induction l as [|url l IH]; intros w md Hin Hpre Hget.
  { by apply elem_of_nil in Hin. }
  destruct (revokeBlobUrl_frame url w) as (_ & Hc & _ & _ & _ & Hf).
  destruct (decide (u = url)) as [->|Hne].
  - pose proof (revokeBlobUrl_entry url md w Hget) as Hent. rewrite Hpre in Hent.
    destruct Hent as [Hent Htimer].
    destruct (revokeAll_frame l (exec (revokeBlobUrl (Some url)) w)) as (_ & _ & _ & _ & Hk & _).
    unfold revokeAll in *. simpl. split; [|by apply Hk].
    destruct (revokeAll_keeps l _ _ _ Hent) as [H|H]; unfold revokeAll in H; by rewrite H.
  - apply elem_of_cons in Hin as [?|Hin]; [done|].
    unfold revokeAll in *. simpl. rewrite <- Hc. apply IH; [done | done |].
    destruct (Hf u Hne) as [-> _]. done.
Qed.

Lemma untrackByComponent_elem owner url o (m : BlobUrlManager) x :
  x ≠ url →
  x ∈ default [] (JsMap.get o (urlsByComponent (untrackByComponent owner url m))) ↔
  x ∈ default [] (JsMap.get o (urlsByComponent m)).
Proof.
  intros Hx. split; [by intros [? _]%getComponentUrls_untrack|].
  unfold untrackByComponent.
  destruct (JsMap.get owner (urlsByComponent m)) as [s|] eqn:Hs; simpl; [|done].
  destruct (decide (owner = o)) as [<-|Hne].
  - rewrite Hs. simpl. intros Hin.
    assert (x ∈ JsSet.delete url s) as Hrest by (by apply set_delete_elem).
    destruct (decide (JsSet.size (JsSet.delete url s) = 0%nat)) as [Hz|Hz].
    + unfold JsSet.size in Hz. destruct (JsSet.delete url s); [|done].
      by apply elem_of_nil in Hrest.
    + by rewrite get_set_eq.
  - destruct (decide (JsSet.size (JsSet.delete url s) = 0%nat));
      [by rewrite get_delete_ne | by rewrite get_set_ne].
Qed.

(** A timer function that is not the release of [u] leaves the entry of
    [u] and its place in the owner index alone. *)
Lemma fireTask_frame k u w :
  (∀ o, k ≠ ReleaseTask u o) →
  getUrlMetadata u (exec (fireTask k) w) = getUrlMetadata u w ∧
  ∀ B, u ∈ getComponentUrls B (exec (fireTask k) w) ↔ u ∈ getComponentUrls B w.
Proof.
  intros Hk. unfold exec, getUrlMetadata, getComponentUrls. rewrite fireTask_eq. simpl.
  destruct k as [u'|u' o]; simpl; [done|].
  assert (u ≠ u') as Hne by (intros ->; by apply (Hk o)).
  split.
  - unfold untrackByComponent, untrackUrl. simpl.
    destruct (JsMap.get o (urlsByComponent (manager w))); simpl; by rewrite get_delete_ne.
  - intros B. by rewrite untrackByComponent_elem.
Qed.

Lemma fireAll_frame l u w :
  (∀ t o, t ∈ l → task t ≠ ReleaseTask u o) →
  getUrlMetadata u (fireAll l w) = getUrlMetadata u w ∧
  ∀ B, u ∈ getComponentUrls B (fireAll l w) ↔ u ∈ getComponentUrls B w.
Proof.
  revert w. induction l as [|t l IH]; intros w Hl; [done|].
  unfold fireAll in *. simpl.
  destruct (fireTask_frame (task t) u w) as [Hg Hi].
  { intros o. apply Hl. apply list_elem_of_here. }
  destruct (IH (exec (fireTask (task t)) w)) as [Hg' Hi'].
  { intros t' o Ht'. apply Hl. by apply list_elem_of_further. }
  split; [congruence|]. intros B. by rewrite Hi', Hi.
Qed.

Lemma releasePending_false u w t o :
  releasePending u w = false → t ∈ timers w → task t ≠ ReleaseTask u o.
Proof.
  unfold releasePending. intros Hp Ht Htask.
  assert (existsb (λ t, isReleaseOf u (task t)) (timers w) = true) as Hex; [|congruence].
  apply existsb_exists. exists t. split; [by apply list_elem_of_In|].
  rewrite Htask. simpl. by apply bool_decide_eq_true.
Qed.

Lemma get_Some_elem {V} (m : list (string * V)) k v : JsMap.get k m = Some v → (k, v) ∈ m.
Proof.
  induction m as [|[k' v'] m IH]; simpl; [done|].
  destruct (decide (k = k')) as [->|Hne].
  - intros [= ->]. apply list_elem_of_here.
  - intros H. apply list_elem_of_further. by apply IH.
Qed.

Lemma indexMatchesEntries_spec w c u md :
  indexMatchesEntries w = true →
  u ∈ getComponentUrls c w → getUrlMetadata u w = Some md → componentId md = c.
Proof.
  unfold indexMatchesEntries, getComponentUrls. intros Hall Hin Hget.
  destruct (JsMap.get c (urlsByComponent (manager w))) as [s|] eqn:Hs;
    [|by apply elem_of_nil in Hin].
  simpl in Hin. apply get_Some_elem in Hs.
  rewrite forallb_forall in Hall. specialize (Hall (c, s)).
  rewrite forallb_forall in Hall. apply list_elem_of_In in Hs, Hin.
  specialize (Hall Hs u Hin). rewrite Hget in Hall. simpl in Hall.
  by apply bool_decide_eq_true in Hall.
Qed.

Lemma revokeComponentUrls_eq A w :
  revokeComponentUrls A w =
    (Normal tt,
     match JsMap.get A (urlsByComponent (manager w)) with
     | None => w
     | Some s =>
         let w1 := revokeAll s w in
         mkBrowser (manager w1) (timers w1) (clock w1) (nextObjectUrl w1)
           (trace w1 ++ [Console LogLevel "Cleaned up URLs for component"]) (nextSweep w1)
     end).
Proof.
  unfold revokeComponentUrls. unfold bind at 1, gets at 1.
  destruct (JsMap.get A (urlsByComponent (manager w))) as [s|]; [|done].
  unfold bind. rewrite forEach_revokeBlobUrl. by run_js.
Qed.

(** What [revokeComponentUrls] has done when it returns. *)
Lemma revokeComponentUrls_sync A w :
  let w' := exec (revokeComponentUrls A) w in
  urlsByComponent (manager w') = urlsByComponent (manager w) ∧
  clock w' = clock w ∧
  (∀ t, t ∈ timers w' →
        t ∈ timers w ∨ ∃ u o, u ∈ getComponentUrls A w ∧ task t = ReleaseTask u o) ∧
  (∀ u, u ∉ getComponentUrls A w →
     getUrlMetadata u w' = getUrlMetadata u w ∧
     JsMap.get u (cleanupCallbacks (manager w')) = JsMap.get u (cleanupCallbacks (manager w))) ∧
  (∀ u md, u ∈ getComponentUrls A w → String.prefix "blob:" u = true →
     getUrlMetadata u w = Some md →
     getUrlMetadata u w' = Some (deactivated md) ∧
     mkTimer (clock w + 50) (ReleaseTask u (componentId md)) ∈ timers w').
Proof.
  intros w'. subst w'. unfold exec, getComponentUrls. rewrite revokeComponentUrls_eq.
  cbn [snd]. destruct (JsMap.get A (urlsByComponent (manager w))) as [s|]; simpl.
  - destruct (revokeAll_frame s w) as (Hi & Hc & _ & Ht & _ & Hf).
    repeat split; try done; try (by apply Hf).
    + by apply revokeAll_revokes.
    + by apply revokeAll_revokes.
  - split; [done|]. split; [done|]. split; [by left|]. split; [done|].
    intros u md Hu. by apply elem_of_nil in Hu.
Qed.

(** ** The hook [useMultipleBlobUrls] *)

Lemma minted_spec w u :
  minted w u = true → ∃ k, (k < nextObjectUrl w)%N ∧ u = objectUrl k.
Proof.
  unfold minted. intros H. apply bool_decide_eq_true in H.
  apply list_elem_of_fmap in H as (k & -> & Hk). apply elem_of_seq in Hk.
  exists (N.of_nat k). split; [lia | done].
Qed.

Lemma forEach_inBrowser {A} (f : A → Js Browser unit) l p :
  forEach (λ x, inBrowser (f x)) l p = inBrowser (forEach f l) p.
Proof.
  revert p. induction l as [|x l IH]; intros p; simpl.
  - unfold ret, inBrowser. simpl. by destruct p.
  - unfold bind, inBrowser at 1 3. simpl.
    destruct (f x (browser p)) as [[[]|e] w1]; simpl; [|done].
    rewrite IH. done.
Qed.

(** One call of [createBlobUrl], seen from outside: either nothing is
    tracked and the URL supply stands, or the next URL of the supply is
    returned and tracked and every other entry is as before. *)
Lemma createBlobUrl_step blob componentId metadata w :
  let w' := exec (createBlobUrl blob componentId metadata) w in
  let r := result (createBlobUrl blob componentId metadata) w in
  clock w' = clock w ∧
  ((r = Normal None ∧ manager w' = manager w ∧ nextObjectUrl w' = nextObjectUrl w ∧
    timers w' = timers w) ∨
   (r = Normal (Some (objectUrl (nextObjectUrl w))) ∧
    nextObjectUrl w' = N.succ (nextObjectUrl w) ∧
    is_Some (getUrlMetadata (objectUrl (nextObjectUrl w)) w') ∧
    (∀ t, t ∈ timers w → t ∈ timers w') ∧
    ∀ u, u ≠ objectUrl (nextObjectUrl w) → getUrlMetadata u w' = getUrlMetadata u w)).
Proof.
  intros w' r. subst w' r. unfold exec, result.
  destruct (refusal blob) as [e|] eqn:Hr.
  - rewrite (createBlobUrl_refused _ _ _ _ e Hr). simpl. split; [done|]. by left.
  - apply refusal_None in Hr as (b & sz & -> & Hsz & Hnz & Hb).
    rewrite (createBlobUrl_accepted b sz) by done. cbn [fst snd].
    split; [done|]. right. unfold getUrlMetadata, trackByComponent, trackUrl. simpl.
    split; [done|]. split; [done|]. split; [by rewrite get_set_eq|]. split.
    + intros t Ht. apply elem_of_insertTimer_iff. by right.
    + intros u Hne. by rewrite get_set_ne.
Qed.

Lemma callOnError_frame onError p :
  let p' := (callOnError onError p).2 in
  manager (browser p') = manager (browser p) ∧
  timers (browser p') = timers (browser p) ∧
  clock (browser p') = clock (browser p) ∧
  nextObjectUrl (browser p') = nextObjectUrl (browser p) ∧
  hook p' = hook p.
Proof.
  unfold callOnError. destruct onError as [f|]; simpl; [|done].
  unfold inBrowser, call. run_js. by destruct (cb_throws f).
Qed.

Lemma grownFrom_refl p : grownFrom p p.
Proof. unfold grownFrom. repeat split; auto; lia. Qed.

Lemma grownFrom_trans p1 p2 p3 : grownFrom p1 p2 → grownFrom p2 p3 → grownFrom p1 p3.
Proof.
  intros (Hn & Hc & Ho & Ht & He & Hr & Hs) (Hn' & Hc' & Ho' & Ht' & He' & Hr' & Hs').
  unfold grownFrom. split; [lia|]. split; [congruence|]. split; [congruence|].
  split; [auto|]. split; [|split].
  - intros u Hu. rewrite He', He; [done| |]; intros k Hk; apply Hu; lia.
  - intros id u [Hin|(k & Hk & -> & Htr)]%Hr'.
    + apply Hr in Hin as [Hin|(k & Hk & -> & Htr)]; [by left|].
      right. exists k. split; [lia|]. split; [done|].
      rewrite He'; [done|]. intros k' Hk' Heq%objectUrl_inj. lia.
    + right. exists k. split; [lia | done].
  - auto.
Qed.

(** The loop body in one equation. *)
Lemma createOne_eq onError blobData newUrls newErrors p :
  createOne onError blobData newUrls newErrors p =
    let r := createBlobUrl (bd_blob blobData) (Some (componentIdRef (hook p)))
               (withBlobId (bd_metadata blobData) (bd_id blobData)) (browser p) in
    match r.1 with
    | Normal (Some url) =>
        (Normal (JsMap.set (bd_id blobData) url newUrls, newErrors),
         mkPage r.2 (withUrlsRef (JsMap.set (bd_id blobData) url) (hook p)))
    | _ =>
        let p1 := mkPage
                    (mkBrowser (manager r.2) (timers r.2) (clock r.2) (nextObjectUrl r.2)
                       (trace r.2 ++ [Console ErrorLevel "Error creating URL"]) (nextSweep r.2))
                    (hook p) in
        match callOnError onError p1 with
        | (Normal _, p2) =>
            (Normal (newUrls,
                     JsMap.set (bd_id blobData)
                       ("Failed to create blob URL for " +:+ bd_id blobData) newErrors), p2)
        | (Throw e, p2) => (Throw e, p2)
        end
    end.
Proof.
  unfold createOne, inBrowser. run_js.
  destruct (createBlobUrl _ _ _ (browser p)) as [[[url|]|e] w1]; simpl; try done.
Qed.

(** The loop body, for an element that passed the guard. *)
Lemma createOne_grows onError blobData newUrls newErrors p :
  let p' := exec (createOne onError blobData newUrls newErrors) p in
  grownFrom p p' ∧
  ∀ acc, result (createOne onError blobData newUrls newErrors) p = Normal acc →
    (∃ url, acc = (JsMap.set (bd_id blobData) url newUrls, newErrors) ∧
            urlsRef (hook p') = JsMap.set (bd_id blobData) url (urlsRef (hook p))) ∨
    (acc.1 = newUrls ∧ urlsRef (hook p') = urlsRef (hook p) ∧
     result (createBlobUrl (bd_blob blobData) (Some (componentIdRef (hook p)))
               (withBlobId (bd_metadata blobData) (bd_id blobData))) (browser p)
       = Normal None).
Proof.
  intros p'. subst p'. unfold exec, result. rewrite createOne_eq.
  pose proof (createBlobUrl_step (bd_blob blobData) (Some (componentIdRef (hook p)))
                (withBlobId (bd_metadata blobData) (bd_id blobData)) (browser p)) as Hstep.
  unfold exec, result in Hstep.
  destruct (createBlobUrl _ _ _ (browser p)) as [r w1]. cbn [fst snd] in *.
  destruct Hstep as [Hclock [(-> & Hm & Hn & Ht)|(-> & Hn & Htracked & Ht & Hframe)]].
  - (* creation refused: the catch block runs *)
    match goal with |- context [callOnError onError ?P] => set (p1 := P) end.
    destruct (callOnError_frame onError p1) as (Hm2 & Ht2 & Hc2 & Hn2 & Hh2).
    assert (grownFrom p (callOnError onError p1).2) as Hgrown.
    { unfold grownFrom, getUrlMetadata. rewrite Hm2, Ht2, Hc2, Hn2, Hh2. subst p1. simpl.
      rewrite Hm, Hn, Ht, Hclock. repeat split; auto; lia. }
    destruct (callOnError onError p1) as [[[]|e] p2]; cbn [fst snd] in *.
    + split; [done|]. intros acc [= <-]. right. by rewrite Hh2.
    + split; [done|]. intros acc Hacc. discriminate Hacc.
  - (* creation succeeded *)
    split.
    + unfold grownFrom. simpl. rewrite Hn. split; [lia|]. split; [done|]. split; [done|].
      split; [done|]. split; [|split].
      * intros u Hu. apply Hframe. apply Hu. lia.
      * intros id u. destruct (decide (bd_id blobData = id)) as [<-|Hne].
        -- rewrite get_set_eq. intros [= <-]. right.
           exists (nextObjectUrl (browser p)). split; [lia | done].
        -- rewrite get_set_ne by done. by left.
      * intros id. destruct (decide (bd_id blobData = id)) as [<-|Hne].
        -- rewrite get_set_eq. by eexists.
        -- by rewrite get_set_ne.
    + intros acc [= <-]. left. by eexists.
Qed.

Lemma createEach_grows onError blobArray newUrls newErrors p :
  let p' := exec (createEach onError blobArray newUrls newErrors) p in
  grownFrom p p' ∧
  (newUrls = urlsRef (hook p) →
   ∀ acc, result (createEach onError blobArray newUrls newErrors) p = Normal acc →
          acc.1 = urlsRef (hook p')).
Proof.
  revert newUrls newErrors p.
  induction blobArray as [|blobData rest IH]; intros newUrls newErrors p; simpl.
  - split; [apply grownFrom_refl|]. unfold result, exec, ret. simpl. by intros -> acc [= <-].
  - destruct blobData as [bd|]; [|apply IH].
    destruct (skipped (Some bd)); [apply IH|].
    unfold exec, result, bind.
    destruct (createOne_grows onError bd newUrls newErrors p) as [Hgrown Hacc].
    unfold exec, result in Hgrown, Hacc.
    destruct (createOne onError bd newUrls newErrors p) as [[acc|e] p1]; cbn [fst snd] in *.
    + destruct (IH acc.1 acc.2 p1) as [Hgrown' Hacc']. unfold exec, result in Hgrown', Hacc'.
      split; [by eapply grownFrom_trans|].
      intros Heq acc' Hres. apply Hacc'; [|done].
      destruct (Hacc acc eq_refl) as [(url & -> & ->)|(-> & -> & _)]; simpl; congruence.
    + split; [done|]. intros _ acc Hres. discriminate Hres.
Qed.

Lemma get_Some_value {V} (m : list (string * V)) k v :
  JsMap.get k m = Some v → v ∈ JsMap.values m.
Proof.
  intros H%get_Some_elem. unfold JsMap.values.
  apply list_elem_of_fmap. by exists (k, v).
Qed.

Lemma createUrls_eq onError blobArray p :
  createUrls onError blobArray p =
    match createEach onError blobArray [] [] (tornDown p) with
    | (Normal acc, p') =>
        (Normal tt,
         mkPage (browser p') (setIsLoading false (setErrors acc.2 (setUrls acc.1 (hook p')))))
    | (Throw e, p') => (Throw e, p')
    end.
Proof.
  unfold createUrls. unfold bind at 1 2 3 4 5. unfold withHook at 1 2 3, gets at 1. run_js.
  rewrite forEach_inBrowser. unfold inBrowser. rewrite forEach_revokeBlobUrl. simpl.
  unfold tornDown. simpl.
  destruct (createEach onError blobArray [] [] _) as [[acc|e] p']; simpl; by run_js.
Qed.

(** *** The loop of [createUrls], element by element *)

Lemma createOne_creates onError bd newUrls newErrors p :
  creatable bd = true →
  let url := objectUrl (nextObjectUrl (browser p)) in
  ∃ w1, createOne onError bd newUrls newErrors p
        = (Normal (JsMap.set (bd_id bd) url newUrls, newErrors),
           mkPage w1 (withUrlsRef (JsMap.set (bd_id bd) url) (hook p))) ∧
        nextObjectUrl w1 = N.succ (nextObjectUrl (browser p)).
Proof.
  unfold creatable. intros [_ Hr]%andb_true_iff.
  destruct (refusal (bd_blob bd)) as [|] eqn:Href; [done|].
  apply refusal_None in Href as (b & sz & Hb & Hsz & Hnz & Hblob).
  rewrite createOne_eq. rewrite Hb. rewrite (createBlobUrl_accepted b sz) by done.
  cbn [fst snd]. eexists. split; reflexivity.
Qed.

Lemma refusedItem_spec bd :
  refusedItem (Some bd) = true ↔ skipped (Some bd) = false ∧ creatable bd = false.
Proof.
  unfold refusedItem. rewrite andb_true_iff, !negb_true_iff. done.
Qed.

Lemma createOne_refuses onError bd newUrls newErrors p :
  refusedItem (Some bd) = true →
  ∃ p2, createOne onError bd newUrls newErrors p
        = (match outcome onError with
           | Normal _ =>
               Normal (newUrls, JsMap.set (bd_id bd) (creationFailure (bd_id bd)) newErrors)
           | Throw e => Throw e
           end, p2) ∧
        hook p2 = hook p ∧ nextObjectUrl (browser p2) = nextObjectUrl (browser p).
Proof.
  intros [Hskip Hno]%refusedItem_spec. unfold creatable in Hno. rewrite Hskip in Hno.
  simpl in Hno. destruct (refusal (bd_blob bd)) as [e|] eqn:Href; [|done].
  rewrite createOne_eq. rewrite (createBlobUrl_refused _ _ _ _ e Href). cbn [fst snd].
  destruct onError as [f|]; unfold callOnError, outcome.
  - unfold inBrowser, call. run_js. destruct (cb_throws f); run_js; by eexists.
  - unfold ret. by eexists.
Qed.

Lemma elem_of_refusedIds id blobArray :
  id ∈ refusedIds blobArray ↔
  ∃ bd, Some bd ∈ blobArray ∧ refusedItem (Some bd) = true ∧ bd_id bd = id.
Proof.
  unfold refusedIds. rewrite list_elem_of_omap. split.
  - intros ([bd|] & Hin & Hid); [|done].
    destruct (refusedItem (Some bd)) eqn:Hr; [|done]. injection Hid as <-. by exists bd.
  - intros (bd & Hin & Hr & <-). exists (Some bd). split; [done|]. by rewrite Hr.
Qed.

Lemma refusedIds_cons item rest :
  refusedIds (item :: rest) =
    match item with
    | Some bd => if refusedItem item then bd_id bd :: refusedIds rest else refusedIds rest
    | None => refusedIds rest
    end.
Proof. unfold refusedIds. simpl. destruct item as [bd|]; [|done]. by destruct (refusedItem _). Qed.

(** What the loop does, for every array: how it ends, which items are
    bound, how many URLs it creates, and the errors it collects. *)
Lemma createEach_run onError blobArray newUrls newErrors p :
  let r := createEach onError blobArray newUrls newErrors p in
  (aborted onError blobArray = false →
   ∃ acc, r.1 = Normal acc ∧
     ∀ id, JsMap.get id acc.2 =
           if bool_decide (id ∈ refusedIds blobArray) then Some (creationFailure id)
           else JsMap.get id newErrors) ∧
  (aborted onError blobArray = true →
   ∃ f, onError = Some f ∧ r.1 = Throw (CallbackThrew (cb_id f))) ∧
  (∀ id, is_Some (JsMap.get id (urlsRef (hook r.2))) ↔
         is_Some (JsMap.get id (urlsRef (hook p))) ∨
         ∃ bd, Some bd ∈ processed onError blobArray ∧ creatable bd = true ∧ bd_id bd = id) ∧
  nextObjectUrl (browser r.2)
  = (nextObjectUrl (browser p)
     + N.of_nat (length (filter (λ item, creatableItem item = true)
                           (processed onError blobArray))))%N ∧
  urls (hook r.2) = urls (hook p) ∧ isLoading (hook r.2) = isLoading (hook p) ∧
  errors (hook r.2) = errors (hook p).
Proof.
  revert newUrls newErrors p.
  induction blobArray as [|item rest IH]; intros newUrls newErrors p; cbn zeta.
  - cbn [createEach processed]. unfold ret. cbn [fst snd].
    split; [intros _; by exists (newUrls, newErrors)|].
    split; [unfold aborted; rewrite andb_false_r; done|].
    split; [|split; [simpl; lia | done]].
    intros id. split; [by left|]. intros [H|(bd & Hin & _)]; [done | by apply elem_of_nil in Hin].
  - destruct (refusedItem item) eqn:Hrefused.
    + (* the element is refused *)
      destruct item as [bd|]; [|done].
      pose proof Hrefused as [Hskip Hno]%refusedItem_spec.
      destruct (createOne_refuses onError bd newUrls newErrors p Hrefused)
        as (p2 & Hone & Hhook & Hnext).
      cbn [createEach]. rewrite Hskip. unfold bind. rewrite Hone.
      cbn [processed]. rewrite Hrefused. cbn [andb].
      unfold aborted. cbn [existsb]. rewrite Hrefused. cbn [orb]. rewrite andb_true_r.
      destruct onError as [f|]; cbn [outcome onErrorThrows]; [destruct (cb_throws f) eqn:Hthrows|].
      * (* [onError] throws: the loop is left *)
        cbn [fst snd]. split; [done|]. split; [intros _; by exists f|].
        rewrite Hhook, Hnext. split; [|split; [|done]].
        -- intros id. split; [by left|]. intros [H|(bd' & Hin & Hok & _)]; [done|].
           apply list_elem_of_singleton in Hin. injection Hin as ->. congruence.
        -- rewrite filter_cons, decide_False by (cbn [creatableItem]; congruence).
           simpl. lia.
      * cbn [fst snd].
        destruct (IH newUrls (JsMap.set (bd_id bd) (creationFailure (bd_id bd)) newErrors) p2)
          as (Hnormal & Hthrow & Hbound & Hcount & Hu & Hl & He).
        unfold aborted in Hnormal, Hthrow. cbn [onErrorThrows] in Hnormal, Hthrow.
        rewrite Hthrows in Hnormal, Hthrow. cbn [andb] in Hnormal, Hthrow.
        split; [|split; [done|]].
        -- intros _. destruct (Hnormal eq_refl) as (acc & Hres & Herr). exists acc.
           split; [done|]. intros id. rewrite Herr, refusedIds_cons, Hrefused.
           destruct (decide (id = bd_id bd)) as [->|Hne].
           ++ rewrite (bool_decide_eq_true_2 (_ ∈ _ :: _)) by apply list_elem_of_here.
              destruct (bool_decide _); [done | by rewrite get_set_eq].
           ++ rewrite get_set_ne by done.
              destruct (bool_decide_reflect (id ∈ refusedIds rest)) as [Hin|Hout].
              ** rewrite bool_decide_eq_true_2; [done | by apply list_elem_of_further].
              ** rewrite bool_decide_eq_false_2; [done|].
                 intros [?|?]%elem_of_cons; done.
        -- rewrite Hhook, Hnext in *. split; [|split; [|done]].
           ++ intros id. rewrite Hbound. split.
              ** intros [H|(bd' & Hin & Hok & Hid)]; [by left|].
                 right. exists bd'. split; [by apply list_elem_of_further | done].
              ** intros [H|(bd' & Hin & Hok & Hid)]; [by left|].
                 apply elem_of_cons in Hin as [Heq|Hin]; [injection Heq as ->; congruence|].
                 right. by exists bd'.
           ++ rewrite Hcount, filter_cons, decide_False by (cbn [creatableItem]; congruence).
              done.
      * cbn [fst snd].
        destruct (IH newUrls (JsMap.set (bd_id bd) (creationFailure (bd_id bd)) newErrors) p2)
          as (Hnormal & Hthrow & Hbound & Hcount & Hu & Hl & He).
        unfold aborted in Hnormal, Hthrow. cbn [onErrorThrows andb] in Hnormal, Hthrow.
        split; [|split; [done|]].
        -- intros _. destruct (Hnormal eq_refl) as (acc & Hres & Herr). exists acc.
           split; [done|]. intros id. rewrite Herr, refusedIds_cons, Hrefused.
           destruct (decide (id = bd_id bd)) as [->|Hne].
           ++ rewrite (bool_decide_eq_true_2 (_ ∈ _ :: _)) by apply list_elem_of_here.
              destruct (bool_decide _); [done | by rewrite get_set_eq].
           ++ rewrite get_set_ne by done.
              destruct (bool_decide_reflect (id ∈ refusedIds rest)) as [Hin|Hout].
              ** rewrite bool_decide_eq_true_2; [done | by apply list_elem_of_further].
              ** rewrite bool_decide_eq_false_2; [done|].
                 intros [?|?]%elem_of_cons; done.
        -- rewrite Hhook, Hnext in *. split; [|split; [|done]].
           ++ intros id. rewrite Hbound. split.
              ** intros [H|(bd' & Hin & Hok & Hid)]; [by left|].
                 right. exists bd'. split; [by apply list_elem_of_further | done].
              ** intros [H|(bd' & Hin & Hok & Hid)]; [by left|].
                 apply elem_of_cons in Hin as [Heq|Hin]; [injection Heq as ->; congruence|].
                 right. by exists bd'.
           ++ rewrite Hcount, filter_cons, decide_False by (cbn [creatableItem]; congruence).
              done.
    + (* the element is skipped or created *)
      cbn [processed]. rewrite Hrefused. cbn [andb].
      unfold aborted. cbn [existsb]. rewrite Hrefused. cbn [orb]. fold (aborted onError rest).
      rewrite refusedIds_cons, Hrefused.
      assert (refusedIds rest = match item with Some _ => refusedIds rest | None => refusedIds rest end)
        as <- by (by destruct item).
      destruct item as [bd|];
        [destruct (skipped (Some bd)) eqn:Hskip|].
      * (* skipped by the guard *)
        cbn [createEach]. rewrite Hskip.
        destruct (IH newUrls newErrors p) as (Hnormal & Hthrow & Hbound & Hcount & Hrest).
        split; [done|]. split; [done|]. split; [|split; [|done]].
        -- intros id. rewrite Hbound. split.
           ++ intros [H|(bd' & Hin & Hok & Hid)]; [by left|].
              right. exists bd'. split; [by apply list_elem_of_further | done].
           ++ intros [H|(bd' & Hin & Hok & Hid)]; [by left|].
              apply elem_of_cons in Hin as [Heq|Hin].
              ** injection Heq as ->. unfold creatable in Hok. rewrite Hskip in Hok. done.
              ** right. by exists bd'.
        -- rewrite Hcount, filter_cons, decide_False; [done|].
           cbn [creatableItem]. unfold creatable. rewrite Hskip. done.
      * (* created *)
        assert (creatable bd = true) as Hok.
        { unfold refusedItem in Hrefused. rewrite Hskip in Hrefused. simpl in Hrefused.
          by apply negb_false_iff in Hrefused. }
        destruct (createOne_creates onError bd newUrls newErrors p Hok) as (w1 & Hone & Hnext).
        cbn [createEach]. rewrite Hskip. unfold bind. rewrite Hone. cbn [fst snd].
        match goal with |- context [createEach onError rest ?u ?e ?p1] =>
          destruct (IH u e p1) as (Hnormal & Hthrow & Hbound & Hcount & Hu & Hl & He) end.
        cbn [browser hook withUrlsRef urlsRef urls isLoading errors] in *.
        split; [done|]. split; [done|]. split; [|split; [|done]].
        -- intros id. rewrite Hbound. split.
           ++ intros [H|(bd' & Hin & Hok' & Hid)].
              ** destruct (decide (bd_id bd = id)) as [<-|Hne].
                 --- right. exists bd. split; [apply list_elem_of_here | done].
                 --- left. by rewrite get_set_ne in H.
              ** right. exists bd'. split; [by apply list_elem_of_further | done].
           ++ intros [H|(bd' & Hin & Hok' & Hid)].
              ** left. destruct (decide (bd_id bd = id)) as [<-|Hne];
                   [rewrite get_set_eq; by eexists | by rewrite get_set_ne].
              ** apply elem_of_cons in Hin as [Heq|Hin].
                 --- injection Heq as ->. left. rewrite Hid, get_set_eq. by eexists.
                 --- right. by exists bd'.
        -- rewrite Hcount, Hnext, filter_cons, decide_True by done. simpl. lia.
      * (* a falsy element *)
        cbn [createEach].
        destruct (IH newUrls newErrors p) as (Hnormal & Hthrow & Hbound & Hcount & Hrest).
        split; [done|]. split; [done|]. split; [|split; [|done]].
        -- intros id. rewrite Hbound. split.
           ++ intros [H|(bd' & Hin & Hok & Hid)]; [by left|].
              right. exists bd'. split; [by apply list_elem_of_further | done].
           ++ intros [H|(bd' & Hin & Hok & Hid)]; [by left|].
              apply elem_of_cons in Hin as [Heq|Hin]; [done|]. right. by exists bd'.
        -- rewrite Hcount, filter_cons, decide_False by done. done.
Qed.

Lemma processed_all onError blobArray :
  aborted onError blobArray = false → processed onError blobArray = blobArray.
Proof.
  unfold aborted. induction blobArray as [|item rest IH]; [done|]. cbn [existsb processed].
  destruct (onErrorThrows onError); [|intros _; rewrite andb_false_r; f_equal; by apply IH].
  cbn [andb]. intros [Hitem Hrest]%orb_false_iff. rewrite Hitem. cbn [andb]. f_equal.
  by apply IH.
Qed.

(** C4, as the claim states it, fails: item [a] is in the old and in the
    new set, yet its handle [blob:0] is revoked and the item ends bound to
    the new handle [blob:1]. *)
Lemma rebind_replaces_unchanged_item :
  let p' := exec (createUrls None [itemA]) pageWithA in
  JsMap.get "a" (urlsRef (hook pageWithA)) = Some "blob:0" ∧
  JsMap.get "a" (urlsRef (hook p')) = Some "blob:1" ∧
  isActive <$> getUrlMetadata "blob:0" (browser p') = Some false ∧
  releasePending "blob:0" (browser p') = true.
Proof. vm_compute. done. Qed.

(** C4, amended: [createUrls] is a teardown followed by a rebuild, for
    every item map and every array.  Every handle the item map held is
    revoked, whether or not its item is in the new array: its entry is
    deactivated and its release is pending.  Every handle in the map
    afterwards was minted during the call and is tracked, so no item keeps
    the handle it had.  The loop gets to all the elements, or, when
    [onError] throws, to those up to the first element [createBlobUrl]
    refuses.  The ids bound afterwards are exactly the ids of the creatable
    elements the loop got to, and one URL was created for each such element.
    When the loop is not left by an exception the call returns normally, the
    exposed [urls] equal the map, [isLoading] is [false] and [errors] has the
    failure message under the id of every refused element and nothing else.
    When [onError] throws at a refused element, the exception of [onError]
    leaves [createUrls]: the later elements get no handle, [urls] still
    exposes what it did before the call, [isLoading] stays [true] and
    [errors] is empty. *)
Theorem createUrls_revokes_all_then_recreates
    (onError : option Callback) (blobArray : list (option BlobData)) (p : Page) :
  let p' := exec (createUrls onError blobArray) p in
  (∀ id u md,
     JsMap.get id (urlsRef (hook p)) = Some u → minted (browser p) u = true →
     getUrlMetadata u (browser p) = Some md →
     getUrlMetadata u (browser p') = Some (deactivated md) ∧
     mkTimer (clock (browser p) + 50) (ReleaseTask u (componentId md)) ∈ timers (browser p')) ∧
  (∀ id u', JsMap.get id (urlsRef (hook p')) = Some u' →
     (∃ k, (nextObjectUrl (browser p) ≤ k < nextObjectUrl (browser p'))%N ∧ u' = objectUrl k) ∧
     isUrlActive u' (browser p') = true) ∧
  (∀ id u u',
     JsMap.get id (urlsRef (hook p)) = Some u → minted (browser p) u = true →
     JsMap.get id (urlsRef (hook p')) = Some u' → u' ≠ u) ∧
  (∀ id, is_Some (JsMap.get id (urlsRef (hook p'))) ↔
         ∃ bd, Some bd ∈ processed onError blobArray ∧ creatable bd = true ∧ bd_id bd = id) ∧
  nextObjectUrl (browser p')
  = (nextObjectUrl (browser p)
     + N.of_nat (length (filter (λ item, creatableItem item = true)
                           (processed onError blobArray))))%N ∧
  (aborted onError blobArray = false →
   processed onError blobArray = blobArray ∧
   result (createUrls onError blobArray) p = Normal tt ∧
   urls (hook p') = urlsRef (hook p') ∧
   isLoading (hook p') = false ∧
   ∀ id, JsMap.get id (errors (hook p')) =
         if bool_decide (id ∈ refusedIds blobArray) then Some (creationFailure id) else None) ∧
  (aborted onError blobArray = true →
   (∃ f, onError = Some f ∧
         result (createUrls onError blobArray) p = Throw (CallbackThrew (cb_id f))) ∧
   urls (hook p') = urls (hook p) ∧
   isLoading (hook p') = true ∧
   errors (hook p') = []).
Proof.
  intros p'.
  destruct (createEach_grows onError blobArray [] [] (tornDown p))
    as [(Hn & Hc & _ & Ht & He & Hr & _) Hacc].
  destruct (createEach_run onError blobArray [] [] (tornDown p))
    as (Hnormal & Hthrow & Hbound & Hcount & Hurls & Hloading & Herrors).
  destruct (revokeAll_frame (JsMap.values (urlsRef (hook p))) (browser p))
    as (_ & Hclock & Hnext & _ & _ & _).
  set (p3 := exec (createEach onError blobArray [] []) (tornDown p)) in *.
  change (createEach onError blobArray [] [] (tornDown p)).2 with p3
    in Hbound, Hcount, Hurls, Hloading, Herrors.
  assert (browser p' = browser p3 ∧ urlsRef (hook p') = urlsRef (hook p3)) as [Hbrowser Hmap].
  { subst p' p3. unfold exec. rewrite createUrls_eq.
    by destruct (createEach onError blobArray [] [] (tornDown p)) as [[acc|e] p3]. }
  rewrite Hbrowser, Hmap. cbn [tornDown browser hook] in Hn, Hc, Ht, He, Hr, Hcount.
  cbn [tornDown hook withUrlsRef setErrors setIsLoading urlsRef urls isLoading errors]
    in Hbound, Hurls, Hloading, Herrors.
  rewrite Hnext in Hn, He, Hr, Hcount.
  assert (∀ id u', JsMap.get id (urlsRef (hook p3)) = Some u' →
          ∃ k, (nextObjectUrl (browser p) ≤ k < nextObjectUrl (browser p3))%N
               ∧ u' = objectUrl k
               ∧ is_Some (getUrlMetadata u' (browser p3))) as Hfresh.
  { intros id u' [Hold|Hnew]%Hr; [done | exact Hnew]. }
  split; [|split; [|split; [|split; [|split; [done|split]]]]].
  - intros id u md Hid Hminted Hget.
    apply minted_spec in Hminted as (k & Hk & ->).
    destruct (revokeAll_revokes (JsMap.values (urlsRef (hook p))) (browser p) (objectUrl k) md)
      as [Hdead Htimer]; [by eapply get_Some_value | apply objectUrl_prefix | done |].
    split; [|by apply Ht].
    rewrite He; [done|]. intros k' Hk' Heq%objectUrl_inj. lia.
  - intros id u' Hu'. destruct (Hfresh id u' Hu') as (k & Hk & -> & Htracked).
    split; [by exists k|]. unfold isUrlActive. by apply has_true.
  - intros id u u' Hu Hminted Hu'.
    apply minted_spec in Hminted as (k & Hk & ->).
    destruct (Hfresh id u' Hu') as (k' & Hk' & -> & _).
    intros Heq%objectUrl_inj. lia.
  - intros id. rewrite Hbound. split; [|by right].
    intros [[x Hx]|H]; [done | exact H].
  - intros Hends. destruct (Hnormal Hends) as (acc & Hres & Herr).
    split; [by apply processed_all|].
    assert (createUrls onError blobArray p
            = (Normal tt,
               mkPage (browser p3)
                 (setIsLoading false (setErrors acc.2 (setUrls acc.1 (hook p3))))) ) as Heq.
    { rewrite createUrls_eq. subst p3. unfold exec.
      destruct (createEach onError blobArray [] [] (tornDown p)) as [r p4].
      cbn [fst snd] in *. by subst r. }
    assert (acc.1 = urlsRef (hook p3)) as Hacc1.
    { apply Hacc; [done|]. exact Hres. }
    subst p'. unfold result, exec. rewrite Heq. cbn [fst snd hook setIsLoading setErrors setUrls
                                                     urls isLoading errors urlsRef].
    split; [done|]. split; [done|]. split; [done|]. intros id. by rewrite Herr.
  - intros Hends. destruct (Hthrow Hends) as (f & -> & Hres).
    assert (createUrls (Some f) blobArray p = (Throw (CallbackThrew (cb_id f)), p3)) as Heq.
    { rewrite createUrls_eq. subst p3. unfold exec.
      destruct (createEach (Some f) blobArray [] [] (tornDown p)) as [r p4].
      cbn [fst snd] in *. by subst r. }
    subst p'. unfold result, exec. rewrite Heq. cbn [fst snd].
    split; [by exists f|]. by rewrite Hurls, Hloading, Herrors.
Qed.

Lemma createUrls_revokes_all_then_recreates_witness :
  let p' := exec (createUrls None [itemA]) pageWithA in
  let q := exec (createUrls None [itemR; itemB]) pageWithA in
  let q' := exec (createUrls (Some throwingCallback) [itemR; itemB]) pageWithA in
  (isActive <$> getUrlMetadata "blob:0" (browser p') = Some false) ∧
  (∀ u', JsMap.get "a" (urlsRef (hook p')) = Some u' → u' ≠ "blob:0") ∧
  is_Some (JsMap.get "a" (urlsRef (hook p'))) ∧
  urls (hook p') = urlsRef (hook p') ∧
  (is_Some (JsMap.get "b" (urlsRef (hook q))) ∧
   JsMap.get "r" (errors (hook q)) = Some "Failed to create blob URL for r") ∧
  (result (createUrls (Some throwingCallback) [itemR; itemB]) pageWithA
   = Throw (CallbackThrew 7) ∧
   ¬ is_Some (JsMap.get "b" (urlsRef (hook q'))) ∧
   urls (hook q') = urls (hook pageWithA)).
Proof.
  destruct (createUrls_revokes_all_then_recreates None [itemA] pageWithA)
    as (Hold & _ & Hdiffer & Hbound & _ & Hnormal & _).
  destruct (createUrls_revokes_all_then_recreates None [itemR; itemB] pageWithA)
    as (_ & _ & _ & Hbound1 & _ & Hnormal1 & _).
  destruct (createUrls_revokes_all_then_recreates (Some throwingCallback) [itemR; itemB]
              pageWithA) as (_ & _ & _ & Hbound2 & _ & _ & Hthrow2).
  split; [|split; [|split; [|split; [|split]]]].
  - destruct (Hold "a" "blob:0"
                (trackedMetadata (newBlobOf wavBlob) wavBlob "gallery" 0 0 1024
                   (withBlobId noMetadata "a")) eq_refl eq_refl eq_refl) as [Hdead _].
    rewrite Hdead. reflexivity.
  - intros u'. apply (Hdiffer "a" "blob:0" u'); reflexivity.
  - apply Hbound. exists (mkBlobData (Some wavBlob) "a" noMetadata).
    split; [apply list_elem_of_here|]. split; reflexivity.
  - by destruct (Hnormal eq_refl) as (_ & _ & Hsame & _).
  - split.
    + apply Hbound1. exists (mkBlobData (Some wavBlob) "b" noMetadata).
      split; [apply list_elem_of_further, list_elem_of_here|]. split; reflexivity.
    + destruct (Hnormal1 eq_refl) as (_ & _ & _ & _ & Herr). rewrite Herr. reflexivity.
  - destruct (Hthrow2 eq_refl) as ((f & Hf & Hres) & Hurls & _).
    injection Hf as <-. split; [exact Hres|]. split; [|exact Hurls].
    intros (bd & Hin & _ & Hid)%Hbound2.
    assert (processed (Some throwingCallback) [itemR; itemB] = [itemR]) as Hp by reflexivity.
    rewrite Hp in Hin. apply list_elem_of_singleton in Hin. unfold itemR in Hin.
    injection Hin as ->. discriminate Hid.
Defined.

(** ** The sweep of old URLs *)

Lemma cleanupOldUrls_eq maxAge w :
  cleanupOldUrls maxAge w =
    (Normal tt,
     let urlsToRevoke :=
       oldUrls (default (60 * 60 * 1000) maxAge) (clock w) (activeUrls (manager w)) in
     let w1 := revokeAll urlsToRevoke w in
     if decide (0 < length urlsToRevoke)%nat
     then mkBrowser (manager w1) (timers w1) (clock w1) (nextObjectUrl w1)
            (trace w1 ++ [Console LogLevel "Cleaned up old URLs"]) (nextSweep w1)
     else w1).
Proof.
  unfold cleanupOldUrls. unfold bind at 1 2, Date_now, gets at 1 2. cbn [fst snd].
  unfold bind. rewrite forEach_revokeBlobUrl.
  destruct (decide (0 < length _)%nat); by run_js.
Qed.

(** ** The states a history of calls leads to *)

Section map_membership.
Context {V : Type}.
Implicit Types (m : list (string * V)) (k : string) (v : V).

Lemma elem_of_set m k v x : x ∈ JsMap.set k v m → x = (k, v) ∨ x ∈ m.
Proof.
  induction m as [|[k' v'] m IH]; simpl.
  - intros ->%list_elem_of_singleton. by left.
  - destruct (decide (k = k')) as [->|Hne].
    + intros [->|Hin]%elem_of_cons; [by left|]. right. by apply list_elem_of_further.
    + intros [->|Hin]%elem_of_cons; [right; apply list_elem_of_here|].
      destruct (IH Hin) as [->|Hm]; [by left|]. right. by apply list_elem_of_further.
Qed.

Lemma elem_of_delete m k x : x ∈ JsMap.delete k m → x ∈ m.
Proof.
  induction m as [|[k' v'] m IH]; simpl; [done|].
  destruct (decide (k = k')) as [->|Hne].
  - intros Hin. by apply list_elem_of_further, IH.
  - intros [->|Hin]%elem_of_cons; [apply list_elem_of_here|].
    by apply list_elem_of_further, IH.
Qed.

Lemma get_set_Some m k v k' v' :
  JsMap.get k' (JsMap.set k v m) = Some v' → (k' = k ∧ v' = v) ∨ JsMap.get k' m = Some v'.
Proof.
  destruct (decide (k = k')) as [->|Hne].
  - rewrite get_set_eq. intros [= ->]. by left.
  - rewrite get_set_ne by done. by right.
Qed.

Lemma get_delete_Some m k k' v' :
  JsMap.get k' (JsMap.delete k m) = Some v' → JsMap.get k' m = Some v'.
Proof.
  destruct (decide (k = k')) as [->|Hne].
  - by rewrite get_delete_eq.
  - by rewrite get_delete_ne.
Qed.
End map_membership.

Lemma shrinks_refl w : shrinks w w.
Proof.
  unfold shrinks. split; [done|]. split.
  - intros u md Hget. by exists md.
  - intros c s Hin. by exists s.
Qed.

Lemma shrinks_same w w' :
  manager w' = manager w → nextObjectUrl w' = nextObjectUrl w → shrinks w w'.
Proof.
  intros Hm Hn. unfold shrinks, getUrlMetadata. rewrite Hm. split; [done|]. split.
  - intros u md Hget. by exists md.
  - intros c s Hin. by exists s.
Qed.

Lemma shrinks_trans w1 w2 w3 : shrinks w1 w2 → shrinks w2 w3 → shrinks w1 w3.
Proof.
  intros (Hn & He & Hi) (Hn' & He' & Hi'). unfold shrinks.
  split; [congruence|]. split.
  - intros u md3 (md2 & Hget2 & Heq2)%He'. destruct (He u md2 Hget2) as (md1 & Hget1 & Heq1).
    exists md1. split; [done | congruence].
  - intros c s3 (s2 & Hin2 & Hsub2)%Hi'. destruct (Hi c s2 Hin2) as (s1 & Hin1 & Hsub1).
    exists s1. split; [done | auto].
Qed.

Lemma shrinks_minted w w' : shrinks w w' → urlsMinted w → urlsMinted w'.
Proof.
  intros (Hn & He & Hi) [Htracked Hindexed]. unfold urlsMinted, mintedUrl. rewrite Hn. split.
  - intros u md' (md & Hget & _)%He. by eapply Htracked.
  - intros c s' u (s & Hin & Hsub)%Hi Hu. eapply Hindexed; [done | by apply Hsub].
Qed.

Lemma shrinks_agrees w w' : shrinks w w' → indexAgrees w → indexAgrees w'.
Proof.
  intros (Hn & He & Hi) Hagree c s' u md' (s & Hin & Hsub)%Hi Hu (md & Hget & ->)%He.
  eapply Hagree; [done | by apply Hsub | done].
Qed.

Lemma revokeBlobUrl_shrinks url w : shrinks w (exec (revokeBlobUrl url) w).
Proof.
  destruct url as [url|]; [|apply shrinks_refl].
  unfold exec.
  destruct (revokeBlobUrl_cases url w) as [Hf|[[Hpre Hget]|[Hpre [md Hget]]]].
  - rewrite revokeBlobUrl_foreign by done. apply shrinks_refl.
  - rewrite revokeBlobUrl_untracked by done. by apply shrinks_same.
  - rewrite (revokeBlobUrl_tracked url md) by done. unfold shrinks, getUrlMetadata. simpl.
    split; [done|]. split.
    + intros u md' [[-> ->]|Hold]%get_set_Some; [by exists md | by exists md'].
    + intros c s Hin. by exists s.
Qed.

Lemma revokeAll_shrinks l w : shrinks w (revokeAll l w).
Proof.
  revert w. induction l as [|url l IH]; intros w; [apply shrinks_refl|].
  unfold revokeAll in *. simpl.
  eapply shrinks_trans; [apply (revokeBlobUrl_shrinks (Some url))|apply IH].
Qed.

Lemma fireTask_shrinks k w : shrinks w (exec (fireTask k) w).
Proof.
  unfold exec. rewrite fireTask_eq. destruct k as [u|u o]; [by apply shrinks_same|].
  unfold shrinks, getUrlMetadata. simpl. split; [done|]. split.
  - intros x md'. unfold untrackByComponent, untrackUrl. simpl.
    destruct (JsMap.get o (urlsByComponent (manager w))); simpl;
      intros Hget%get_delete_Some; by exists md'.
  - intros c s'. unfold untrackByComponent, untrackUrl. simpl.
    destruct (JsMap.get o (urlsByComponent (manager w))) as [s|] eqn:Hs; simpl.
    + destruct (decide (JsSet.size (JsSet.delete u s) = 0%nat)).
      * intros Hin%elem_of_delete. by exists s'.
      * intros [[= -> ->]|Hin]%elem_of_set; [|by exists s'].
        exists s. split; [by apply get_Some_elem|].
        by intros x [Hx _]%set_delete_elem.
    + intros Hin. by exists s'.
Qed.

Lemma fireAll_shrinks l w : shrinks w (fireAll l w).
Proof.
  revert w. induction l as [|t l IH]; intros w; [apply shrinks_refl|].
  unfold fireAll in *. simpl.
  eapply shrinks_trans; [apply fireTask_shrinks | apply IH].
Qed.

(** What the page does on its own changes the trace only. *)
Lemma console_eq lvl msg w :
  console lvl msg w =
    (Normal tt,
     mkBrowser (manager w) (timers w) (clock w) (nextObjectUrl w) (trace w ++ [Console lvl msg]) (nextSweep w)).
Proof. done. Qed.

Lemma call_state cb w :
  exec (call cb) w =
    mkBrowser (manager w) (timers w) (clock w) (nextObjectUrl w)
      (trace w ++ [CallbackRun (cb_id cb)]) (nextSweep w).
Proof. unfold exec, call. run_js. by destruct (cb_throws cb). Qed.

(** ** Time passes *)

Lemma setClock_eq now w : setClock now w = (Normal tt, atTime now w).
Proof. done. Qed.

Lemma cleanupOldUrls_pair maxAge w :
  cleanupOldUrls maxAge w = (Normal tt, exec (cleanupOldUrls maxAge) w).
Proof. unfold exec. by rewrite cleanupOldUrls_eq. Qed.

Lemma sweepTick_eq s w :
  sweepTick s w =
    (Normal tt,
     let w2 := exec (cleanupOldUrls None) (atTime s (exec (runTimers (s - 1)) w)) in
     mkBrowser (manager w2) (timers w2) (clock w2) (nextObjectUrl w2) (trace w2)
       (s + sweepInterval)).
Proof.
  unfold sweepTick, bind. unfold exec. rewrite runTimers_eq. cbn [fst snd].
  rewrite setClock_eq. cbn [fst snd]. by rewrite cleanupOldUrls_pair.
Qed.

Lemma forEach_sweepTick l w :
  forEach sweepTick l w = (Normal tt, foldl (λ w s, exec (sweepTick s) w) w l).
Proof.
  revert w. induction l as [|s l IH]; intros w; simpl; [done|].
  unfold bind, exec. rewrite sweepTick_eq. cbn [fst snd]. apply IH.
Qed.

(** [advance] in two steps: the ticks of the interval, then the timers that
    are due at the end. *)
Lemma advance_ticked dt w :
  advance dt w = (Normal tt, exec (runTimers (clock w + Z.of_N dt)) (ticked dt w)).
Proof.
  unfold advance, bind, gets. cbn [fst snd]. rewrite forEach_sweepTick.
  cbn [fst snd]. rewrite setClock_eq. cbn [fst snd]. unfold ticked.
  match goal with |- runTimers _ ?w0 = _ => generalize w0 end.
  intros w1. unfold exec. by rewrite runTimers_eq.
Qed.

Lemma advance_eq dt w :
  advance dt w =
    (Normal tt,
     let now := clock w + Z.of_N dt in
     let w1 := ticked dt w in
     fireAll (filter (λ t, due t ≤ now) (timers w1))
       (mkBrowser (manager w1) (filter (λ t, now < due t) (timers w1))
          now (nextObjectUrl w1) (trace w1) (nextSweep w1))).
Proof. rewrite advance_ticked. unfold exec. by rewrite runTimers_eq. Qed.

Lemma advance_returns dt w : result (advance dt) w = Normal tt.
Proof. unfold result. by rewrite advance_eq. Qed.

(** *** A wait without a tick of the interval *)

Lemma sweepTicks_none first target : target < first → sweepTicks first target = [].
Proof.
  intros Hlt. unfold sweepTicks.
  assert ((target - first) `div` sweepInterval + 1 ≤ 0) as Hn.
  { assert ((target - first) `div` sweepInterval < 0); [|lia].
    apply Z.div_lt_upper_bound; [done | lia]. }
  by rewrite Z2Nat.nonpos.
Qed.

Lemma ticked_quiet dt w :
  clock w + Z.of_N dt < nextSweep w → ticked dt w = atTime (clock w + Z.of_N dt) w.
Proof. intros Hq. unfold ticked. rewrite sweepTicks_none by lia. done. Qed.

(** When no tick of the interval falls in the wait, the timers due by its
    end run and nothing else happens. *)
Lemma advance_quiet dt w :
  clock w + Z.of_N dt < nextSweep w →
  advance dt w =
    (Normal tt,
     fireAll (filter (λ t, due t ≤ clock w + Z.of_N dt) (timers w))
       (mkBrowser (manager w) (filter (λ t, clock w + Z.of_N dt < due t) (timers w))
          (clock w + Z.of_N dt) (nextObjectUrl w) (trace w) (nextSweep w))).
Proof. intros Hq. rewrite advance_eq. cbn zeta. by rewrite ticked_quiet. Qed.

(** *** What holds at every step of a wait *)

Lemma cleanupOldUrls_clock maxAge w : clock (exec (cleanupOldUrls maxAge) w) = clock w.
Proof.
  unfold exec. rewrite cleanupOldUrls_eq. cbn [snd].
  match goal with |- context [revokeAll ?l w] =>
    destruct (revokeAll_frame l w) as (_ & Hc & _) end.
  by destruct (decide (0 < length _)%nat).
Qed.

Lemma sweepTick_clock s w : clock (exec (sweepTick s) w) = s.
Proof. unfold exec. rewrite sweepTick_eq. cbn [snd clock]. by rewrite cleanupOldUrls_clock. Qed.

Lemma fireAll_clock l w : clock (fireAll l w) = clock w.
Proof.
  revert w. induction l as [|t l IH]; intros w; [done|].
  unfold fireAll in *. simpl. rewrite IH. unfold exec. by rewrite fireTask_eq.
Qed.

Lemma runTimers_clock now w : clock (exec (runTimers now) w) = clock w.
Proof. unfold exec. rewrite runTimers_eq. cbn [snd]. by rewrite fireAll_clock. Qed.

Section steps.
Variable P : Browser → Prop.
Hypothesis P_runTimers : ∀ w now, P w → P (exec (runTimers now) w).
Hypothesis P_atTime : ∀ w now, clock w ≤ now → P w → P (atTime now w).
Hypothesis P_sweep : ∀ w, P w → P (exec (cleanupOldUrls None) w).
Hypothesis P_rearm : ∀ w s, P w →
  P (mkBrowser (manager w) (timers w) (clock w) (nextObjectUrl w) (trace w) s).

Lemma sweepTick_step s w : clock w ≤ s → P w → P (exec (sweepTick s) w).
Proof.
  intros Hs Hw. unfold exec. rewrite sweepTick_eq. cbn [snd]. apply P_rearm, P_sweep.
  apply P_atTime; [by rewrite runTimers_clock | by apply P_runTimers].
Qed.

Lemma ticksFrom_steps n first w :
  clock w ≤ first → P w →
  let w' := foldl (λ w s, exec (sweepTick s) w) w (ticksFrom first n) in
  P w' ∧ clock w' = match n with
                    | O => clock w
                    | S n' => first + Z.of_nat n' * sweepInterval
                    end.
Proof.
  revert first w. induction n as [|n IH]; intros first w Hle Hw; simpl; [done|].
  destruct (IH (first + sweepInterval) (exec (sweepTick first) w)) as [HP Hc].
  - rewrite sweepTick_clock. unfold sweepInterval. lia.
  - by apply sweepTick_step.
  - split; [done|]. rewrite Hc, sweepTick_clock. destruct n; lia.
Qed.

Lemma ticked_steps dt w : P w → P (ticked dt w).
Proof.
  intros Hw. unfold ticked.
  set (first := Z.max (clock w) (nextSweep w)). set (target := clock w + Z.of_N dt).
  destruct (ticksFrom_steps (Z.to_nat ((target - first) `div` sweepInterval + 1)) first w)
    as [HP Hc]; [lia | done |].
  apply P_atTime; [|exact HP]. unfold sweepTicks. rewrite Hc.
  destruct (Z.to_nat ((target - first) `div` sweepInterval + 1)) as [|n'] eqn:Hn;
    [subst target; lia|].
  assert (0 ≤ (target - first) `div` sweepInterval) as Hq by lia.
  assert (Z.of_nat n' = (target - first) `div` sweepInterval) as -> by lia.
  assert (0 ≤ target - first) as Hft.
  { destruct (decide (0 ≤ target - first)) as [|Hneg]; [done|].
    assert ((target - first) `div` sweepInterval < 0); [|lia].
    apply Z.div_lt_upper_bound; [done | lia]. }
  assert (sweepInterval * ((target - first) `div` sweepInterval) ≤ target - first)
    by (apply Z.mul_div_le; done).
  lia.
Qed.

Lemma advance_steps dt w : P w → P (exec (advance dt) w).
Proof.
  intros Hw. unfold exec at 1. rewrite advance_ticked. cbn [snd].
  by apply P_runTimers, ticked_steps.
Qed.
End steps.

(** *** What a wait leaves and what it takes away *)

Lemma cleanupOldUrls_state maxAge w :
  let w1 := revokeAll (oldUrls (default (60 * 60 * 1000) maxAge) (clock w)
                         (activeUrls (manager w))) w in
  let w' := exec (cleanupOldUrls maxAge) w in
  manager w' = manager w1 ∧ timers w' = timers w1 ∧ clock w' = clock w1 ∧
  nextObjectUrl w' = nextObjectUrl w1.
Proof.
  intros w1 w'. subst w1 w'. unfold exec. rewrite cleanupOldUrls_eq. cbn [snd].
  by destruct (decide (0 < length _)%nat).
Qed.

Lemma cleanupOldUrls_shrinks maxAge w : shrinks w (exec (cleanupOldUrls maxAge) w).
Proof.
  destruct (cleanupOldUrls_state maxAge w) as (Hm & _ & _ & Hn).
  match type of Hm with _ = manager (revokeAll ?l w) =>
    pose proof (revokeAll_shrinks l w) as Hs end.
  unfold shrinks, getUrlMetadata in *. by rewrite Hm, Hn.
Qed.

Lemma runTimers_shrinks now w : shrinks w (exec (runTimers now) w).
Proof.
  unfold exec. rewrite runTimers_eq. cbn [snd].
  match goal with |- context [fireAll ?l ?w0] => pose proof (fireAll_shrinks l w0) as Hs end.
  unfold shrinks, getUrlMetadata in *. by simpl in *.
Qed.

(** Nothing is created while the page waits. *)
Lemma advance_shrinks dt w : shrinks w (exec (advance dt) w).
Proof.
  apply (advance_steps (shrinks w)); [| | | |apply shrinks_refl].
  - intros w1 now Hs. eapply shrinks_trans; [exact Hs | apply runTimers_shrinks].
  - intros w1 now _ Hs. eapply shrinks_trans; [exact Hs | by apply shrinks_same].
  - intros w1 Hs. eapply shrinks_trans; [exact Hs | apply cleanupOldUrls_shrinks].
  - intros w1 s Hs. eapply shrinks_trans; [exact Hs | by apply shrinks_same].
Qed.

Lemma advance_clock dt w : clock (exec (advance dt) w) = clock w + Z.of_N dt.
Proof. unfold exec. rewrite advance_eq. cbn [snd]. by rewrite fireAll_clock. Qed.

Lemma shrinks_untracked w w' u :
  shrinks w w' → getUrlMetadata u w = None → getUrlMetadata u w' = None.
Proof.
  intros (_ & He & _) Hnone. destruct (getUrlMetadata u w') as [md'|] eqn:Hget; [|done].
  destruct (He u md' Hget) as (md & Hmd & _). congruence.
Qed.

Lemma advance_untracked dt u w :
  getUrlMetadata u w = None → getUrlMetadata u (exec (advance dt) w) = None.
Proof. apply shrinks_untracked. apply advance_shrinks. Qed.

Lemma cleanupOldUrls_index maxAge w :
  urlsByComponent (manager (exec (cleanupOldUrls maxAge) w)) = urlsByComponent (manager w).
Proof.
  destruct (cleanupOldUrls_state maxAge w) as (Hm & _).
  match type of Hm with _ = manager (revokeAll ?l w) =>
    destruct (revokeAll_frame l w) as (Hi & _) end.
  by rewrite Hm.
Qed.

Lemma cleanupOldUrls_keeps_timers maxAge w t :
  t ∈ timers w → t ∈ timers (exec (cleanupOldUrls maxAge) w).
Proof.
  destruct (cleanupOldUrls_state maxAge w) as (_ & Ht & _).
  match type of Ht with _ = timers (revokeAll ?l w) =>
    destruct (revokeAll_frame l w) as (_ & _ & _ & _ & Hk & _) end.
  rewrite Ht. apply Hk.
Qed.

Lemma fireAll_timers l w : timers (fireAll l w) = timers w.
Proof.
  revert w. induction l as [|t l IH]; intros w; [done|].
  unfold fireAll in *. simpl. rewrite IH. unfold exec. by rewrite fireTask_eq.
Qed.

(** A release that is due by the end of the wait runs in it, and what it
    removes stays removed: the URL is out of the table and out of the set of
    the owner the release carries. *)
Lemma advance_removes dt url owner w :
  (∃ t, t ∈ timers w ∧ task t = ReleaseTask url owner ∧ due t ≤ clock w + Z.of_N dt) ∨
    (getUrlMetadata url w = None ∧ url ∉ getComponentUrls owner w) →
  getUrlMetadata url (exec (advance dt) w) = None ∧
  url ∉ getComponentUrls owner (exec (advance dt) w).
Proof.
  intros Hstart. set (target := clock w + Z.of_N dt).
  set (P := λ w1 : Browser,
         (∃ t, t ∈ timers w1 ∧ task t = ReleaseTask url owner ∧ due t ≤ target) ∨
         (getUrlMetadata url w1 = None ∧ url ∉ getComponentUrls owner w1)).
  assert (∀ w1 now, P w1 → P (exec (runTimers now) w1)) as Hrun.
  { intros w1 now HP. unfold exec. rewrite runTimers_eq. cbn [snd].
    destruct HP as [(t & Hin & Htask & Hdue)|Hgone].
    - destruct (decide (due t ≤ now)) as [Hfire|Hlate].
      + right. apply fireAll_removes. left. exists t. split; [|done].
        by apply list_elem_of_filter.
      + left. exists t. rewrite fireAll_timers. cbn [timers]. split; [|done].
        apply list_elem_of_filter. split; [lia | done].
    - right. apply fireAll_removes. by right. }
  assert (P (ticked dt w)) as HP.
  { apply (ticked_steps P); [exact Hrun | by intros w1 now _ HP | | by intros w1 s HP | exact Hstart].
    intros w1 [(t & Hin & Htask & Hdue)|[Hnone Hout]].
    - left. exists t. split; [by apply cleanupOldUrls_keeps_timers | done].
    - right. split; [by apply (shrinks_untracked w1); [apply cleanupOldUrls_shrinks|]|].
      unfold getComponentUrls in *. by rewrite cleanupOldUrls_index. }
  unfold exec at 1 2. rewrite advance_ticked. cbn [snd]. fold target.
  unfold exec. rewrite runTimers_eq. cbn [snd]. apply fireAll_removes.
  destruct HP as [(t & Hin & Htask & Hdue)|Hgone]; [left|by right].
  exists t. split; [|done]. by apply list_elem_of_filter.
Qed.

Lemma advance_releases dt t u o w :
  t ∈ timers w → task t = ReleaseTask u o → due t ≤ clock w + Z.of_N dt →
  isUrlActive u (exec (advance dt) w) = false.
Proof.
  intros Hin Htask Hdue. apply has_false.
  apply (advance_removes dt u o w). left. by exists t.
Qed.

(** *** The trace of a wait *)

Lemma revokeAll_trace l w : ∃ later, trace (revokeAll l w) = trace w ++ later.
Proof.
  revert w. induction l as [|url l IH]; intros w; [exists []; by rewrite app_nil_r|].
  unfold revokeAll in *. simpl.
  destruct (IH (exec (revokeBlobUrl (Some url)) w)) as (later & ->).
  assert (∃ l0, trace (exec (revokeBlobUrl (Some url)) w) = trace w ++ l0) as (l0 & ->).
  { unfold exec. destruct (revokeBlobUrl_cases url w) as [Hf|[[Hpre Hget]|[Hpre [md Hget]]]].
    - rewrite revokeBlobUrl_foreign by done. exists []. by rewrite app_nil_r.
    - rewrite revokeBlobUrl_untracked by done. by eexists.
    - rewrite (revokeBlobUrl_tracked url md) by done. by eexists. }
  exists (l0 ++ later). by rewrite app_assoc.
Qed.

Lemma cleanupOldUrls_trace maxAge w :
  ∃ later, trace (exec (cleanupOldUrls maxAge) w) = trace w ++ later.
Proof.
  unfold exec. rewrite cleanupOldUrls_eq. cbn [snd].
  match goal with |- context [revokeAll ?l w] =>
    destruct (revokeAll_trace l w) as (later & Htr) end.
  destruct (decide (0 < length _)%nat); cbn [trace]; rewrite Htr; [|by eexists].
  eexists. by rewrite <- app_assoc.
Qed.

Lemma runTimers_trace now w :
  ∃ later, trace (exec (runTimers now) w) = trace w ++ later ∧
    ∀ t u o, t ∈ timers w → due t ≤ now → task t = ReleaseTask u o → RevokeObjectURL u ∈ later.
Proof.
  unfold exec. rewrite runTimers_eq. cbn [snd].
  match goal with |- context [fireAll ?l ?w0] =>
    destruct (fireAll_trace l w0) as (later & Htr & _ & Hrel) end.
  exists later. split; [done|]. intros t u o Hin Hdue Htask.
  apply (Hrel t u o); [|done]. by apply list_elem_of_filter.
Qed.

(** The trace only grows in a wait, and a release that is due by its end
    is in what is added. *)
Lemma advance_trace dt w :
  ∃ later, trace (exec (advance dt) w) = trace w ++ later ∧
    ∀ t u o, t ∈ timers w → task t = ReleaseTask u o → due t ≤ clock w + Z.of_N dt →
             RevokeObjectURL u ∈ later.
Proof.
  set (target := clock w + Z.of_N dt).
  set (P := λ w1 : Browser,
         ∃ later, trace w1 = trace w ++ later ∧
           ∀ t u o, t ∈ timers w → task t = ReleaseTask u o → due t ≤ target →
                    t ∈ timers w1 ∨ RevokeObjectURL u ∈ later).
  assert (∀ w1 now, P w1 → P (exec (runTimers now) w1)) as Hrun.
  { intros w1 now (later & Htr & Hrel).
    destruct (runTimers_trace now w1) as (more & Htr' & Hfired).
    exists (later ++ more). split; [by rewrite Htr', Htr, app_assoc|].
    intros t u o Hin Htask Hdue. rewrite elem_of_app.
    destruct (Hrel t u o Hin Htask Hdue) as [Hstill|Hdone]; [|by right; left].
    destruct (decide (due t ≤ now)) as [Hfire|Hlate].
    - right. right. by apply (Hfired t u o).
    - left. unfold exec. rewrite runTimers_eq. cbn [snd]. rewrite fireAll_timers. cbn [timers].
      apply list_elem_of_filter. split; [lia | done]. }
  assert (P (ticked dt w)) as HP.
  { apply (ticked_steps P); [exact Hrun | by intros w1 now _ HP | | by intros w1 s HP |].
    - intros w1 (later & Htr & Hrel).
      destruct (cleanupOldUrls_trace None w1) as (more & Htr').
      exists (later ++ more). split; [by rewrite Htr', Htr, app_assoc|].
      intros t u o Hin Htask Hdue. rewrite elem_of_app.
      destruct (Hrel t u o Hin Htask Hdue) as [Hstill|Hdone]; [|by right; left].
      left. by apply cleanupOldUrls_keeps_timers.
    - exists []. split; [by rewrite app_nil_r|]. intros t u o Hin _ _. by left. }
  destruct HP as (later & Htr & Hrel).
  unfold exec at 1. rewrite advance_ticked. cbn [snd]. fold target.
  destruct (runTimers_trace target (ticked dt w)) as (more & Htr' & Hfired).
  exists (later ++ more). split; [by rewrite Htr', Htr, app_assoc|].
  intros t u o Hin Htask Hdue. rewrite elem_of_app.
  destruct (Hrel t u o Hin Htask Hdue) as [Hstill|Hdone]; [|by left].
  right. by apply (Hfired t u o).
Qed.

(** *** Entries, callbacks and timers after a wait *)

Lemma fireAll_entry l u md w :
  getUrlMetadata u (fireAll l w) = Some md → getUrlMetadata u w = Some md.
Proof.
  revert w. induction l as [|t l IH]; intros w; [done|].
  unfold fireAll in *. simpl. intros Hget%IH. revert Hget.
  unfold exec, getUrlMetadata. rewrite fireTask_eq. cbn [snd manager].
  destruct (task t) as [u'|u' o]; [done|]. cbn [taskManager].
  unfold untrackByComponent, untrackUrl. cbn [urlsByComponent activeUrls].
  destruct (JsMap.get o (urlsByComponent (manager w))); cbn [activeUrls];
    apply get_delete_Some.
Qed.

Lemma deactivated_idemp md : deactivated (deactivated md) = deactivated md.
Proof. done. Qed.

Lemma revokeAll_entry_back l w u md' :
  getUrlMetadata u (revokeAll l w) = Some md' →
  ∃ md, getUrlMetadata u w = Some md ∧ (md' = md ∨ md' = deactivated md).
Proof.
  revert w md'. induction l as [|url l IH]; intros w md' Hget; [exists md'; by split; [|left]|].
  unfold revokeAll in *. simpl in Hget. apply IH in Hget as (md1 & Hget1 & Hrel).
  assert (∃ md, getUrlMetadata u w = Some md ∧ (md1 = md ∨ md1 = deactivated md))
    as (md & Hget & Hrel1).
  { revert Hget1. unfold exec.
    destruct (revokeBlobUrl_cases url w) as [Hf|[[Hpre Hg]|[Hpre [md0 Hg]]]].
    - rewrite revokeBlobUrl_foreign by done. intros ?. exists md1. by split; [|left].
    - rewrite revokeBlobUrl_untracked by done. intros ?. exists md1. by split; [|left].
    - rewrite (revokeBlobUrl_tracked url md0) by done. unfold getUrlMetadata in *. simpl.
      intros [[-> ->]|Hold]%get_set_Some; [exists md0; by split; [|right]|].
      exists md1. by split; [|left]. }
  exists md. split; [done|].
  destruct Hrel as [-> | ->]; destruct Hrel1 as [-> | ->]; auto.
Qed.

(** An entry that is tracked after a wait was tracked before it, and is
    what it was, but for the flag. *)
Lemma advance_entry dt u md' w :
  getUrlMetadata u (exec (advance dt) w) = Some md' →
  ∃ md, getUrlMetadata u w = Some md ∧ (md' = md ∨ md' = deactivated md).
Proof.
  revert u md'.
  apply (advance_steps (λ w1, ∀ u md', getUrlMetadata u w1 = Some md' →
           ∃ md, getUrlMetadata u w = Some md ∧ (md' = md ∨ md' = deactivated md))).
  - intros w1 now HP u md'. unfold exec. rewrite runTimers_eq. cbn [snd].
    intros Hget%fireAll_entry. by apply HP.
  - intros w1 now _ HP. exact HP.
  - intros w1 HP u md' Hget.
    destruct (cleanupOldUrls_state None w1) as (Hm & _).
    unfold getUrlMetadata in Hget. rewrite Hm in Hget.
    apply revokeAll_entry_back in Hget as (md1 & Hget1 & Hrel1).
    destruct (HP u md1 Hget1) as (md & Hget & Hrel). exists md. split; [done|].
    destruct Hrel as [-> | ->]; destruct Hrel1 as [-> | ->]; auto.
  - intros w1 s HP. exact HP.
  - intros u md' Hget. exists md'. by split; [|left].
Qed.

Lemma fireAll_callbacks l w :
  cleanupCallbacks (manager (fireAll l w)) = cleanupCallbacks (manager w).
Proof.
  revert w. induction l as [|t l IH]; intros w; [done|].
  unfold fireAll in *. simpl. rewrite IH. unfold exec. rewrite fireTask_eq. cbn [snd manager].
  destruct (task t) as [u|u o]; [done|]. simpl. unfold untrackByComponent.
  by destruct (JsMap.get o (urlsByComponent _)).
Qed.

Lemma revokeAll_callbacks l w u cb :
  JsMap.get u (cleanupCallbacks (manager (revokeAll l w))) = Some cb →
  JsMap.get u (cleanupCallbacks (manager w)) = Some cb.
Proof.
  revert w. induction l as [|url l IH]; intros w; [done|].
  unfold revokeAll in *. simpl. intros Hget%IH. revert Hget. unfold exec.
  destruct (revokeBlobUrl_cases url w) as [Hf|[[Hpre Hg]|[Hpre [md0 Hg]]]].
  - by rewrite revokeBlobUrl_foreign.
  - by rewrite revokeBlobUrl_untracked.
  - rewrite (revokeBlobUrl_tracked url md0) by done. simpl. apply get_delete_Some.
Qed.

(** No callback is registered in a wait. *)
Lemma advance_callbacks dt u cb w :
  JsMap.get u (cleanupCallbacks (manager (exec (advance dt) w))) = Some cb →
  JsMap.get u (cleanupCallbacks (manager w)) = Some cb.
Proof.
  revert u cb.
  apply (advance_steps (λ w1, ∀ u cb, JsMap.get u (cleanupCallbacks (manager w1)) = Some cb →
                                      JsMap.get u (cleanupCallbacks (manager w)) = Some cb)).
  - intros w1 now HP u cb. unfold exec. rewrite runTimers_eq. cbn [snd].
    rewrite fireAll_callbacks. apply HP.
  - intros w1 now _ HP. exact HP.
  - intros w1 HP u cb. destruct (cleanupOldUrls_state None w1) as (Hm & _). rewrite Hm.
    intros Hget%revokeAll_callbacks. by apply HP.
  - intros w1 s HP. exact HP.
  - done.
Qed.


(** *** Two pages that differ by a release set twice *)

Lemma twinTimers_filter (p : Timer → Prop) `{∀ t, Decision (p t)} l1 l2 :
  twinTimers l1 l2 → twinTimers (filter p l1) (filter p l2).
Proof.
  intros [->|(before & after & t & u & o & Htask & -> & ->)]; [by left|].
  rewrite !filter_app, !filter_cons. destruct (decide (p t)); [|by left].
  right. by exists (filter p before), (filter p after), t, u, o.
Qed.

Lemma twinTimers_insert x l1 l2 :
  twinTimers l1 l2 → twinTimers (insertTimer x l1) (insertTimer x l2).
Proof.
  intros [->|(before & after & t & u & o & Htask & -> & ->)]; [by left|]. right.
  cut (∃ before' after',
          insertTimer x (before ++ t :: after) = before' ++ t :: after' ∧
          insertTimer x (before ++ t :: t :: after) = before' ++ t :: t :: after').
  { intros (before' & after' & H1 & H2). by exists before', after', t, u, o. }
  induction before as [|b before (before' & after' & H1 & H2)]; cbn [app insertTimer].
  - destruct (decide (due t ≤ due x)) as [Hle|Hgt].
    + by exists [], (insertTimer x after).
    + by exists [x], after.
  - destruct (decide (due b ≤ due x)).
    + exists (b :: before'), after'. cbn [app]. by rewrite H1, H2.
    + by exists (x :: b :: before), after.
Qed.

Lemma fireAll_nextSweep l w : nextSweep (fireAll l w) = nextSweep w.
Proof.
  revert w. induction l as [|t l IH]; intros w; [done|].
  unfold fireAll in *. simpl. rewrite IH. unfold exec. by rewrite fireTask_eq.
Qed.

Lemma fireAll_nextObjectUrl l w : nextObjectUrl (fireAll l w) = nextObjectUrl w.
Proof.
  revert w. induction l as [|t l IH]; intros w; [done|].
  unfold fireAll in *. simpl. rewrite IH. unfold exec. by rewrite fireTask_eq.
Qed.

Lemma twinTimers_manager l1 l2 m :
  twinTimers l1 l2 →
  foldl (λ m t, taskManager (task t) m) m l2 = foldl (λ m t, taskManager (task t) m) m l1.
Proof.
  intros [->|(before & after & t & u & o & Htask & -> & ->)]; [done|].
  rewrite !foldl_app. cbn [foldl]. rewrite Htask. by rewrite release_twice.
Qed.

Lemma runTimers_twin now w1 w2 :
  twin w1 w2 → twin (exec (runTimers now) w1) (exec (runTimers now) w2).
Proof.
  intros (Hm & Hc & Hn & Hs & Ht). unfold exec. rewrite !runTimers_eq. cbn [snd].
  unfold twin. rewrite !fireAll_manager, !fireAll_clock, !fireAll_nextObjectUrl,
    !fireAll_nextSweep, !fireAll_timers. cbn [manager clock nextObjectUrl nextSweep timers].
  rewrite Hm. split; [|split; [done|split; [done|split; [done|]]]].
  - apply twinTimers_manager. by apply twinTimers_filter.
  - by apply twinTimers_filter.
Qed.

Lemma revokeBlobUrl_nextSweep url w : nextSweep (exec (revokeBlobUrl url) w) = nextSweep w.
Proof.
  unfold exec. destruct url as [url|]; [|done].
  destruct (revokeBlobUrl_cases url w) as [Hf|[[Hpre Hget]|[Hpre [md Hget]]]].
  - by rewrite revokeBlobUrl_foreign.
  - by rewrite revokeBlobUrl_untracked.
  - by rewrite (revokeBlobUrl_tracked url md).
Qed.

Lemma revokeAll_nextSweep l w : nextSweep (revokeAll l w) = nextSweep w.
Proof.
  revert w. induction l as [|url l IH]; intros w; [done|].
  unfold revokeAll in *. simpl. by rewrite IH, revokeBlobUrl_nextSweep.
Qed.

Lemma cleanupOldUrls_nextSweep maxAge w :
  nextSweep (exec (cleanupOldUrls maxAge) w) = nextSweep w.
Proof.
  unfold exec. rewrite cleanupOldUrls_eq. cbn [snd].
  destruct (decide (0 < length _)%nat); cbn [nextSweep]; apply revokeAll_nextSweep.
Qed.

Lemma revokeBlobUrl_twin url w1 w2 :
  twin w1 w2 → twin (exec (revokeBlobUrl (Some url)) w1) (exec (revokeBlobUrl (Some url)) w2).
Proof.
  intros (Hm & Hc & Hn & Hs & Ht). unfold exec.
  destruct (revokeBlobUrl_cases url w1) as [Hf|[[Hpre Hget]|[Hpre [md Hget]]]].
  - by rewrite !revokeBlobUrl_foreign.
  - rewrite !revokeBlobUrl_untracked; [done | done | | done | done].
    unfold getUrlMetadata in *. by rewrite Hm.
  - rewrite (revokeBlobUrl_tracked url md w1), (revokeBlobUrl_tracked url md w2);
      [|done|unfold getUrlMetadata in *; by rewrite Hm|done|done].
    unfold twin. cbn [snd manager clock nextObjectUrl nextSweep timers].
    rewrite Hm, Hc. split; [done|]. split; [done|]. split; [done|]. split; [done|].
    by apply twinTimers_insert.
Qed.

Lemma revokeAll_twin l w1 w2 : twin w1 w2 → twin (revokeAll l w1) (revokeAll l w2).
Proof.
  revert w1 w2. induction l as [|url l IH]; intros w1 w2 Htw; [done|].
  unfold revokeAll in *. simpl. by apply IH, revokeBlobUrl_twin.
Qed.

Lemma cleanupOldUrls_twin maxAge w1 w2 :
  twin w1 w2 → twin (exec (cleanupOldUrls maxAge) w1) (exec (cleanupOldUrls maxAge) w2).
Proof.
  intros Htw. pose proof Htw as (Hm & Hc & _).
  destruct (cleanupOldUrls_state maxAge w1) as (Hm1 & Ht1 & Hc1 & Hn1).
  destruct (cleanupOldUrls_state maxAge w2) as (Hm2 & Ht2 & Hc2 & Hn2).
  rewrite Hm, Hc in Hm2, Ht2, Hc2, Hn2.
  match type of Hm1 with _ = manager (revokeAll ?l w1) =>
    destruct (revokeAll_twin l w1 w2 Htw) as (Hm' & Hc' & Hn' & Hs' & Ht') end.
  unfold twin. rewrite Hm1, Hm2, Ht1, Ht2, Hc1, Hc2, Hn1, Hn2, !cleanupOldUrls_nextSweep.
  destruct Htw as (_ & _ & _ & Hs & _). by repeat split.
Qed.

Lemma sweepTick_twin s w1 w2 :
  twin w1 w2 → twin (exec (sweepTick s) w1) (exec (sweepTick s) w2).
Proof.
  intros Htw. change (exec (sweepTick s) w1) with (sweepTick s w1).2.
  change (exec (sweepTick s) w2) with (sweepTick s w2).2. rewrite !sweepTick_eq.
  cbn [snd].
  assert (twin (atTime s (exec (runTimers (s - 1)) w1)) (atTime s (exec (runTimers (s - 1)) w2)))
    as Hat.
  { destruct (runTimers_twin (s - 1) w1 w2 Htw) as (Hm & Hc & Hn & Hs & Ht).
    unfold twin, atTime. by cbn [manager clock nextObjectUrl nextSweep timers]. }
  apply (cleanupOldUrls_twin None) in Hat as (Hm & Hc & Hn & Hs & Ht).
  unfold twin. by cbn [manager clock nextObjectUrl nextSweep timers].
Qed.

(** Two such pages have the same manager after any wait. *)
Lemma advance_twin dt w1 w2 :
  twin w1 w2 → manager (exec (advance dt) w2) = manager (exec (advance dt) w1).
Proof.
  intros Htw. pose proof Htw as (_ & Hc & _ & Hs & _).
  assert (twin (ticked dt w1) (ticked dt w2)) as Hticked.
  { unfold ticked. rewrite Hc, Hs.
    generalize (sweepTicks (Z.max (clock w1) (nextSweep w1)) (clock w1 + Z.of_N dt)).
    intros l.
    assert (twin (foldl (λ w s, exec (sweepTick s) w) w1 l)
                 (foldl (λ w s, exec (sweepTick s) w) w2 l)) as (Hm' & _ & Hn' & Hs' & Ht').
    { revert w1 w2 Htw Hc Hs. induction l as [|s l IH]; intros w1 w2 Htw Hc Hs; [done|].
      simpl. pose proof (sweepTick_twin s w1 w2 Htw) as Htw'.
      apply IH; [done | by destruct Htw' as (_ & ? & _) | by destruct Htw' as (_ & _ & _ & ? & _)]. }
    unfold twin, atTime. by cbn [manager clock nextObjectUrl nextSweep timers]. }
  change (exec (advance dt) w1) with (advance dt w1).2.
  change (exec (advance dt) w2) with (advance dt w2).2. rewrite !advance_ticked.
  cbn [snd]. rewrite Hc.
  by destruct (runTimers_twin (clock w1 + Z.of_N dt) _ _ Hticked) as (Hm & _).
Qed.

Lemma revoke_twice_later url w dt :
  manager (exec (advance dt) (exec (revokeBlobUrl (Some url))
                                (exec (revokeBlobUrl (Some url)) w)))
  = manager (exec (advance dt) (exec (revokeBlobUrl (Some url)) w)).
Proof.
  apply advance_twin. unfold exec.
  destruct (revokeBlobUrl_cases url w) as [Hf|[[Hpre Hget]|[Hpre [md Hget]]]].
  - rewrite !revokeBlobUrl_foreign by done. unfold twin. repeat split; by left.
  - rewrite (revokeBlobUrl_untracked _ w) by done. cbn [snd].
    rewrite revokeBlobUrl_untracked by done. unfold twin. cbn. repeat split; by left.
  - rewrite (revokeBlobUrl_tracked _ md w) by done. cbn [snd].
    rewrite (revokeBlobUrl_tracked _ (deactivated md));
      [|done|unfold getUrlMetadata; simpl; apply get_set_eq].
    unfold twin.
    cbn [snd manager timers clock nextObjectUrl nextSweep activeUrls urlsByComponent
         cleanupCallbacks deactivated componentId].
    rewrite set_set, (delete_absent (JsMap.delete _ _)) by apply get_delete_eq.
    split; [done|]. split; [done|]. split; [done|]. split; [done|]. right.
    destruct (insertTimer_twice (mkTimer (clock w + 50) (ReleaseTask url (componentId md)))
                (timers w)) as (before & after & -> & ->).
    exists before, after, (mkTimer (clock w + 50) (ReleaseTask url (componentId md))), url,
      (componentId md). by repeat split.
Qed.

(** ** Revocation, later *)

(** C1, as the claim states it, fails: right after [revokeBlobUrl] has
    returned for the tracked handle [blob:0], [isUrlActive] still answers
    [true] and the handle is still in the set of its owner [comp1]. *)
Lemma revoked_handle_still_tracked :
  let w := exec (revokeBlobUrl (Some "blob:0")) oneUrlBrowser in
  isUrlActive "blob:0" w = true ∧ JsSet.has "blob:0" (getComponentUrls "comp1" w) = true.
Proof. vm_compute. done. Qed.

(** C1, amended: when [revokeBlobUrl h] returns for a tracked handle, the
    [isActive] flag of its entry is already [false], while the entry stays
    in [activeUrls], the owner index is untouched and a release is pending
    50 ms ahead; once that much time has passed the handle is out of the
    table ([isUrlActive] answers [false]) and out of the set of the owner
    recorded in its entry. *)
Theorem revoke_flags_now_untracks_later (h : string) (md : UrlMetadata) (w : Browser) :
  String.prefix "blob:" h = true →
  getUrlMetadata h w = Some md →
  let w' := exec (revokeBlobUrl (Some h)) w in
  getUrlMetadata h w' = Some (deactivated md) ∧
  isActive (deactivated md) = false ∧
  urlsByComponent (manager w') = urlsByComponent (manager w) ∧
  mkTimer (clock w + 50) (ReleaseTask h (componentId md)) ∈ timers w' ∧
  ∀ dt : N, (50 ≤ dt)%N →
    isUrlActive h (exec (advance dt) w') = false ∧
    h ∉ getComponentUrls (componentId md) (exec (advance dt) w').
Proof.
  intros Hpre Hget w'. subst w'. unfold exec at 1 2 3.
  rewrite (revokeBlobUrl_tracked h md w Hpre Hget). cbn [snd].
  split; [unfold getUrlMetadata; simpl; apply get_set_eq|].
  split; [done|]. split; [done|]. split; [apply elem_of_insertTimer|].
  intros dt Hdt.
  change (exec (revokeBlobUrl (Some h)) w) with (revokeBlobUrl (Some h) w).2.
  rewrite (revokeBlobUrl_tracked h md w Hpre Hget). cbn [snd].
  match goal with |- context [advance dt] =>
    match goal with |- context [exec (advance dt) ?w0] =>
      destruct (advance_removes dt h (componentId md) w0) as [Hgone Hidx] end end.
  - left. exists (mkTimer (clock w + 50) (ReleaseTask h (componentId md))).
    split; [apply elem_of_insertTimer|]. split; [reflexivity|]. simpl. lia.
  - split; [|done]. unfold isUrlActive. apply has_false. apply Hgone.
Qed.

Lemma revoke_flags_now_untracks_later_witness :
  let w' := exec (revokeBlobUrl (Some "blob:0")) oneUrlBrowser in
  getUrlMetadata "blob:0" w' = Some (deactivated wavMetadata) ∧
  urlsByComponent (manager w') = urlsByComponent (manager oneUrlBrowser) ∧
  isUrlActive "blob:0" (exec (advance 50) w') = false ∧
  JsSet.has "blob:0" (getComponentUrls "comp1" (exec (advance 50) w')) = false.
Proof.
  destruct (revoke_flags_now_untracks_later "blob:0" wavMetadata oneUrlBrowser eq_refl eq_refl)
    as (Hflag & _ & Hindex & _ & Hlater).
  destruct (Hlater 50%N) as [Hgone Hout]; [lia|].
  split; [exact Hflag|]. split; [exact Hindex|]. split; [exact Hgone|].
  unfold JsSet.has. apply bool_decide_eq_false. exact Hout.
Defined.

(** C5: [revokeBlobUrl] returns normally on every string, tracked or not,
    and a second call right after the first leaves the three tables of the
    manager, and so the statistics, as the first call left them; the tables
    are also the same once any amount of time has passed and the pending
    releases have run. *)
Theorem revoke_never_throws_and_is_idempotent (h : string) (w : Browser) :
  let once := exec (revokeBlobUrl (Some h)) w in
  let twice := exec (revokeBlobUrl (Some h)) once in
  result (revokeBlobUrl (Some h)) w = Normal tt ∧
  result (revokeBlobUrl (Some h)) once = Normal tt ∧
  activeUrls (manager twice) = activeUrls (manager once) ∧
  urlsByComponent (manager twice) = urlsByComponent (manager once) ∧
  cleanupCallbacks (manager twice) = cleanupCallbacks (manager once) ∧
  getStats twice = getStats once ∧
  ∀ dt : N,
    manager (exec (advance dt) twice) = manager (exec (advance dt) once) ∧
    getStats (exec (advance dt) twice) = getStats (exec (advance dt) once).
Proof.
  intros once twice. subst once twice.
  pose proof (revokeBlobUrl_manager_twice (Some h) w) as Hm.
  split; [apply revokeBlobUrl_returns|]. split; [apply revokeBlobUrl_returns|].
  split; [by rewrite Hm|]. split; [by rewrite Hm|]. split; [by rewrite Hm|].
  split; [by apply getStats_manager|].
  intros dt. pose proof (revoke_twice_later h w dt) as Hlater.
  split; [done | by apply getStats_manager].
Qed.

Lemma runsOf_nil id : runsOf id [] = 0%nat.
Proof. done. Qed.

Lemma runsOf_cons_other id e tr : e ≠ CallbackRun id → runsOf id (e :: tr) = runsOf id tr.
Proof. intros Hne. unfold runsOf. by rewrite filter_cons, decide_False. Qed.

(** A callback that no table entry holds is not run by a revocation. *)
Lemma revokeBlobUrl_runs id url w :
  (∀ u cb, JsMap.get u (cleanupCallbacks (manager w)) = Some cb → cb_id cb ≠ id) →
  runsOf id (trace (exec (revokeBlobUrl url) w)) = runsOf id (trace w) ∧
  ∀ u cb, JsMap.get u (cleanupCallbacks (manager (exec (revokeBlobUrl url) w))) = Some cb →
          cb_id cb ≠ id.
Proof.
  intros Hnone. unfold exec. destruct url as [url|]; [|done].
  destruct (revokeBlobUrl_cases url w) as [Hf|[[Hpre Hg]|[Hpre [md Hg]]]].
  - by rewrite revokeBlobUrl_foreign.
  - rewrite revokeBlobUrl_untracked by done. cbn [snd trace manager]. split; [|done].
    rewrite runsOf_app, runsOf_cons_other by done. rewrite runsOf_nil. lia.
  - rewrite (revokeBlobUrl_tracked url md) by done. cbn [snd trace manager cleanupCallbacks].
    split.
    + rewrite runsOf_app.
      destruct (JsMap.get url (cleanupCallbacks (manager w))) as [cb|] eqn:Hcb; [|cbn [callbackEvents]; rewrite runsOf_nil; lia].
      pose proof (Hnone url cb Hcb) as Hne. cbn [callbackEvents].
      rewrite runsOf_cons_other by congruence.
      destruct (cb_throws cb); [rewrite runsOf_cons_other by done|]; rewrite runsOf_nil; lia.
    + intros u cb Hget%get_delete_Some. by apply (Hnone u).
Qed.

Lemma revokeAll_runs id l w :
  (∀ u cb, JsMap.get u (cleanupCallbacks (manager w)) = Some cb → cb_id cb ≠ id) →
  runsOf id (trace (revokeAll l w)) = runsOf id (trace w).
Proof.
  revert w. induction l as [|url l IH]; intros w Hnone; [done|].
  unfold revokeAll in *. simpl.
  destruct (revokeBlobUrl_runs id (Some url) w Hnone) as [Hruns Hnone'].
  by rewrite IH.
Qed.

(** A wait runs no callback but those the table holds when it starts. *)
Lemma advance_runs id dt w :
  (∀ u cb, JsMap.get u (cleanupCallbacks (manager w)) = Some cb → cb_id cb ≠ id) →
  runsOf id (trace (exec (advance dt) w)) = runsOf id (trace w).
Proof.
  intros Hnone.
  apply (advance_steps
           (λ w1, (∀ u cb, JsMap.get u (cleanupCallbacks (manager w1)) = Some cb → cb_id cb ≠ id) ∧
                  runsOf id (trace w1) = runsOf id (trace w))); [| | | |done].
  - intros w1 now [Hn Hr]. unfold exec. rewrite runTimers_eq. cbn [snd].
    rewrite fireAll_callbacks.
    match goal with |- context [fireAll ?l ?w0] =>
      destruct (fireAll_trace l w0) as (later & Htr & Hno & _) end.
    split; [done|]. rewrite Htr, runsOf_app, (runsOf_none _ later Hno). simpl. lia.
  - intros w1 now _ HP. exact HP.
  - intros w1 [Hn Hr]. split.
    + intros u cb. destruct (cleanupOldUrls_state None w1) as (Hm & _). rewrite Hm.
      intros Hget%revokeAll_callbacks. by apply (Hn u).
    + unfold exec. rewrite cleanupOldUrls_eq. cbn [snd].
      destruct (decide (0 < length _)%nat); cbn [trace].
      * rewrite runsOf_app, (revokeAll_runs id _ w1 Hn), Hr, runsOf_cons_other by done.
        rewrite runsOf_nil. lia.
      * by rewrite (revokeAll_runs id _ w1 Hn).
  - intros w1 s HP. exact HP.
Qed.




Lemma revokeComponentUrls_nextSweep A w :
  nextSweep (exec (revokeComponentUrls A) w) = nextSweep w.
Proof.
  unfold exec. rewrite revokeComponentUrls_eq. cbn [snd].
  destruct (JsMap.get A (urlsByComponent (manager w))); [|done].
  cbn [nextSweep]. apply revokeAll_nextSweep.
Qed.

(** C8, as the claim states it, fails: the owner an entry records need not
    be the component whose set lists the URL.  [createBlobUrl(blob, "A",
    {componentId: "B"})] files the URL under [A] and stores an entry whose
    [componentId] is [B]; [revokeComponentUrls "A"] then deactivates that
    entry, and 50 ms later it is gone. *)
Lemma revokeComponentUrls_hits_entry_of_other_owner :
  let w := exec (createBlobUrl (Some wavBlob) (Some "A")
                   (mkMetadata (Some "B") None None None None None None [])) startBrowser in
  let w' := exec (revokeComponentUrls "A") w in
  componentId <$> getUrlMetadata "blob:0" w = Some "B" ∧
  isActive <$> getUrlMetadata "blob:0" w = Some true ∧
  result (revokeComponentUrls "A") w = Normal tt ∧
  isActive <$> getUrlMetadata "blob:0" w' = Some false ∧
  getUrlMetadata "blob:0" (exec (advance 50) w') = None.
Proof. vm_compute. done. Qed.

(** C8, amended: [revokeComponentUrls A] returns normally and leaves every
    set of the owner index as it was.  A URL outside the set of [A] keeps its
    entry and its callback; so does every entry whose [componentId] is not
    [A] in a state where the index agrees with the entries.  The URLs
    revoked are those of the set of [A] as it stood at the call: each
    tracked one ends deactivated with a release pending, and no other
    release is scheduled.  When the timers fire before the next periodic
    sweep, a URL outside the set of [A] with no release of its own pending
    is still tracked with the same entry and sits in the same owner sets. *)
Theorem revokeComponentUrls_spares_other_owners (A : string) (w : Browser) :
  let w' := exec (revokeComponentUrls A) w in
  result (revokeComponentUrls A) w = Normal tt ∧
  (∀ B, getComponentUrls B w' = getComponentUrls B w) ∧
  (∀ u, JsSet.has u (getComponentUrls A w) = false →
     getUrlMetadata u w' = getUrlMetadata u w ∧
     JsMap.get u (cleanupCallbacks (manager w')) = JsMap.get u (cleanupCallbacks (manager w))) ∧
  (∀ u md, indexMatchesEntries w = true →
     getUrlMetadata u w = Some md → componentId md ≠ A →
     getUrlMetadata u w' = Some md ∧
     JsMap.get u (cleanupCallbacks (manager w')) = JsMap.get u (cleanupCallbacks (manager w))) ∧
  (∀ u md, JsSet.has u (getComponentUrls A w) = true →
     String.prefix "blob:" u = true → getUrlMetadata u w = Some md →
     getUrlMetadata u w' = Some (deactivated md) ∧
     mkTimer (clock w + 50) (ReleaseTask u (componentId md)) ∈ timers w') ∧
  (∀ t, t ∈ timers w' →
     t ∈ timers w ∨ ∃ u o, u ∈ getComponentUrls A w ∧ task t = ReleaseTask u o) ∧
  (∀ (dt : N) u, clock w + Z.of_N dt < nextSweep w →
     JsSet.has u (getComponentUrls A w) = false →
     releasePending u w = false →
     getUrlMetadata u (exec (advance dt) w') = getUrlMetadata u w ∧
     ∀ B, JsSet.has u (getComponentUrls B (exec (advance dt) w'))
          = JsSet.has u (getComponentUrls B w)).
Proof.
  intros w'.
  destruct (revokeComponentUrls_sync A w) as (Hidx & Hclock & Htimers & Hframe & Hrevoked).
  pose proof (revokeComponentUrls_nextSweep A w) as Hsweep.
  fold w' in Hidx, Hclock, Htimers, Hframe, Hrevoked, Hsweep.
  split; [unfold result; by rewrite revokeComponentUrls_eq|].
  split; [intros B; unfold getComponentUrls; by rewrite Hidx|].
  split; [|split; [|split; [|split; [done|]]]].
  - intros u Hu. apply Hframe. unfold JsSet.has in Hu. by apply bool_decide_eq_false in Hu.
  - intros u md Hagree Hget Hne. rewrite <- Hget. apply Hframe.
    intros Hin. apply Hne. by apply (indexMatchesEntries_spec w A u md).
  - intros u md Hu. apply Hrevoked. unfold JsSet.has in Hu. by apply bool_decide_eq_true in Hu.
  - intros dt u Hquiet Hu Hpending. unfold JsSet.has in Hu. apply bool_decide_eq_false in Hu.
    assert (clock w' + Z.of_N dt < nextSweep w') as Hq by (by rewrite Hclock, Hsweep).
    unfold exec at 1 2. rewrite (advance_quiet dt w' Hq). cbn [snd].
    match goal with |- context [fireAll ?l ?w0] =>
      destruct (fireAll_frame l u w0) as [Hg Hi] end.
    + intros t o [_ Ht]%list_elem_of_filter Htask.
      apply Htimers in Ht as [Ht|(u' & o' & Hu' & Htask')].
      * by apply (releasePending_false u w t o).
      * rewrite Htask in Htask'. by simplify_eq.
    + destruct (Hframe u Hu) as [Hentry _]. split.
      * rewrite Hg. exact Hentry.
      * intros B. unfold JsSet.has. apply bool_decide_ext. rewrite Hi.
        unfold getComponentUrls. simpl. by rewrite Hidx.
Qed.

Lemma revokeComponentUrls_spares_other_owners_witness :
  let w' := exec (revokeComponentUrls "comp1") twoOwners in
  getUrlMetadata "blob:1" w' = getUrlMetadata "blob:1" twoOwners ∧
  getUrlMetadata "blob:1" (exec (advance 50) w') = getUrlMetadata "blob:1" twoOwners ∧
  isActive <$> getUrlMetadata "blob:0" w' = Some false.
Proof.
  destruct (revokeComponentUrls_spares_other_owners "comp1" twoOwners)
    as (_ & _ & Hother & Hfield & Hmine & _ & Hlater).
  split; [|split].
  - destruct (Hfield "blob:1"
                (trackedMetadata (newBlobOf wavBlob) wavBlob "comp2" 0 0 1024 noMetadata)
                eq_refl eq_refl) as [Hsame _]; [discriminate|].
    rewrite Hsame. reflexivity.
  - apply (Hlater 50%N "blob:1"); reflexivity.
  - destruct (Hmine "blob:0" wavMetadata eq_refl eq_refl eq_refl) as [Hflag _].
    rewrite Hflag. reflexivity.
Defined.

(** Every call but a creation shrinks. *)
Lemma perform_shrinks c w :
  (∀ blob componentId metadata, c ≠ CreateBlobUrl blob componentId metadata) →
  shrinks w (exec (perform c) w).
Proof.
  intros Hc. destruct c as [blob o md|url|url|o|url cb| |maxAge|dt|lvl msg|cb0]; simpl.
  - by destruct (Hc blob o md).
  - unfold exec. destruct (getUrlMetadata url w) as [md|] eqn:Hget.
    + rewrite (markUrlAccessed_tracked url md) by done.
      unfold shrinks, getUrlMetadata. simpl. split; [done|]. split.
      * intros u md' [[-> ->]|Hold]%get_set_Some; [by exists md | by exists md'].
      * intros c s Hin. by exists s.
    + rewrite markUrlAccessed_untracked by done. apply shrinks_refl.
  - apply revokeBlobUrl_shrinks.
  - unfold exec. rewrite revokeComponentUrls_eq. cbn [snd].
    destruct (JsMap.get o (urlsByComponent (manager w))) as [s|]; [|apply shrinks_refl].
    pose proof (revokeAll_shrinks s w) as Hs. unfold shrinks, getUrlMetadata in *. by simpl.
  - destruct cb as [f|]; [|apply shrinks_refl].
    unfold exec, registerCleanupCallback. run_js. unfold shrinks, getUrlMetadata. simpl.
    split; [done|]. split; [intros u md Hget; by exists md | intros c s Hin; by exists s].
  - unfold exec. rewrite cleanup_eq. unfold shrinks, getUrlMetadata. simpl.
    split; [done|]. split; [done|]. intros c s Hin. by apply elem_of_nil in Hin.
  - unfold exec. rewrite cleanupOldUrls_eq. cbn [snd].
    match goal with |- context [revokeAll ?l w] => pose proof (revokeAll_shrinks l w) as Hs end.
    destruct (decide (0 < length _)%nat); [|done].
    unfold shrinks, getUrlMetadata in *. by simpl.
  - apply advance_shrinks.
  - unfold exec. rewrite console_eq. by apply shrinks_same.
  - rewrite call_state. by apply shrinks_same.
Qed.

Lemma elem_of_add x y s : x ∈ JsSet.add y s → x = y ∨ x ∈ s.
Proof.
  unfold JsSet.add. destruct (JsSet.has y s); [by right|].
  intros [Hin|Hin]%elem_of_app; [by right|].
  apply list_elem_of_singleton in Hin. by left.
Qed.

Lemma trackByComponent_elem owner url m c s :
  (c, s) ∈ urlsByComponent (trackByComponent owner url m) →
  (c, s) ∈ urlsByComponent m ∨
  (c = owner ∧ ∀ u, u ∈ s → u = url ∨ ∃ s0, (owner, s0) ∈ urlsByComponent m ∧ u ∈ s0).
Proof.
  unfold trackByComponent. simpl.
  destruct (JsMap.has owner (urlsByComponent m)) eqn:Hhas.
  - apply has_true in Hhas as [s0 Hs0]. rewrite Hs0. simpl.
    intros [[= -> ->]|Hin]%elem_of_set; [|by left].
    right. split; [done|]. intros u [->|Hu]%elem_of_add; [by left|].
    right. exists s0. split; [by apply get_Some_elem | done].
  - rewrite get_set_eq, set_set. simpl.
    intros [[= -> ->]|Hin]%elem_of_set; [|by left].
    right. split; [done|]. intros u [->|Hu]%elem_of_add; [by left|].
    by apply elem_of_nil in Hu.
Qed.

Lemma mintedUrl_mono w w' u :
  (nextObjectUrl w ≤ nextObjectUrl w')%N → mintedUrl w u → mintedUrl w' u.
Proof. intros Hle (k & Hk & ->). exists k. split; [lia | done]. Qed.

Lemma createBlobUrl_minted blob o md w :
  urlsMinted w → urlsMinted (exec (createBlobUrl blob o md) w).
Proof.
  intros [Htracked Hindexed]. unfold exec.
  destruct (refusal blob) as [e|] eqn:Hr.
  { rewrite (createBlobUrl_refused _ _ _ _ e Hr). by split. }
  apply refusal_None in Hr as (b & sz & -> & Hsz & Hnz & Hb).
  rewrite (createBlobUrl_accepted b sz) by done. cbn [snd].
  assert (∀ w', nextObjectUrl w' = N.succ (nextObjectUrl w) →
                mintedUrl w' (objectUrl (nextObjectUrl w))) as Hnew.
  { intros w' Hw'. exists (nextObjectUrl w). split; [lia | done]. }
  assert (∀ w' u, nextObjectUrl w' = N.succ (nextObjectUrl w) →
                  mintedUrl w u → mintedUrl w' u) as Hold.
  { intros w' u Hw'. apply mintedUrl_mono. lia. }
  split.
  - intros u md'. unfold getUrlMetadata. simpl.
    intros [[-> _]|Hget]%get_set_Some; [by apply Hnew|].
    apply Hold; [done | by eapply Htracked].
  - intros c s u Hin Hu.
    apply trackByComponent_elem in Hin as [Hin|[-> Hs]].
    + apply Hold; [done | by eapply Hindexed].
    + destruct (Hs u Hu) as [->|(s0 & Hs0 & Hu0)]; [by apply Hnew|].
      apply Hold; [done | by eapply Hindexed].
Qed.

Lemma createBlobUrl_agrees blob o md w :
  plain (CreateBlobUrl blob o md) = true →
  urlsMinted w → indexAgrees w → indexAgrees (exec (createBlobUrl blob o md) w).
Proof.
  intros Hplain [Htracked Hindexed] Hagree. unfold exec.
  destruct (refusal blob) as [e|] eqn:Hr.
  { by rewrite (createBlobUrl_refused _ _ _ _ e Hr). }
  apply refusal_None in Hr as (b & sz & -> & Hsz & Hnz & Hb).
  rewrite (createBlobUrl_accepted b sz) by done. cbn [snd].
  assert (∀ c s, (c, s) ∈ urlsByComponent (manager w) →
                 objectUrl (nextObjectUrl w) ∉ s) as Hfresh.
  { intros c s Hin Hu. destruct (Hindexed c s _ Hin Hu) as (k & Hk & Heq%objectUrl_inj). lia. }
  intros c s u md' Hin Hu. unfold getUrlMetadata. cbn [manager].
  unfold trackByComponent at 1. cbn [activeUrls trackUrl].
  intros [[-> ->]|Hold]%get_set_Some.
  - (* the entry just created *)
    apply trackByComponent_elem in Hin as [Hin|[-> _]]; [by destruct (Hfresh c s Hin)|].
    simpl in *. destruct (m_componentId md) as [c'|]; simpl; [|done].
    by apply bool_decide_eq_true in Hplain.
  - apply trackByComponent_elem in Hin as [Hin|[-> Hs]]; [by eapply Hagree|].
    destruct (Hs u Hu) as [->|(s0 & Hs0 & Hu0)]; [|by eapply Hagree].
    destruct (Htracked _ _ Hold) as (k & Hk & Heq%objectUrl_inj). lia.
Qed.

Lemma perform_minted c w : urlsMinted w → urlsMinted (exec (perform c) w).
Proof.
  intros Hinv. destruct c as [blob o md| | | | | | | | |];
    try (apply (shrinks_minted w); [apply perform_shrinks; by intros|done]).
  simpl. unfold exec, bind.
  pose proof (createBlobUrl_minted blob o md w Hinv) as Hc. unfold exec in Hc.
  by destruct (createBlobUrl blob o md w) as [[r|e] w1].
Qed.

Lemma perform_agrees c w :
  plain c = true → urlsMinted w → indexAgrees w → indexAgrees (exec (perform c) w).
Proof.
  intros Hplain Hm Hinv. destruct c as [blob o md| | | | | | | | |];
    try (apply (shrinks_agrees w); [apply perform_shrinks; by intros|done]).
  simpl. unfold exec, bind.
  pose proof (createBlobUrl_agrees blob o md w Hplain Hm Hinv) as Hc. unfold exec in Hc.
  by destruct (createBlobUrl blob o md w) as [[r|e] w1].
Qed.

Lemma calls_keep_invariants cs w :
  urlsMinted w →
  urlsMinted (foldl (λ w c, exec (perform c) w) w cs) ∧
  (forallb plain cs = true → indexAgrees w →
   indexAgrees (foldl (λ w c, exec (perform c) w) w cs)).
Proof.
  revert w. induction cs as [|c cs IH]; intros w Hm; simpl; [done|].
  destruct (IH (exec (perform c) w) (perform_minted c w Hm)) as [Hm' Ha'].
  split; [done|]. intros [Hc Hcs]%andb_true_iff Ha.
  apply Ha'; [done|]. by apply perform_agrees.
Qed.

(** Whatever the page has called, every tracked URL was issued by the
    browser and so carries the scheme prefix [revokeBlobUrl] asks for. *)
Theorem history_tracked_urls_minted (cs : list Call) (u : string) :
  isUrlActive u (history cs) = true →
  String.prefix "blob:" u = true ∧ minted (history cs) u = true.
Proof.
  intros [md Hget]%has_true. unfold history in *.
  destruct (calls_keep_invariants cs startBrowser) as [[Htracked _] _].
  { split; [intros ? ? Habs; discriminate Habs | intros c s x Hin; by apply elem_of_nil in Hin]. }
  destruct (Htracked u md Hget) as (k & Hk & ->). split; [apply objectUrl_prefix|].
  unfold minted. apply bool_decide_eq_true, list_elem_of_fmap.
  exists (N.to_nat k). split; [by rewrite N2Nat.id|]. apply elem_of_seq. lia.
Qed.

Lemma history_tracked_urls_minted_witness :
  String.prefix "blob:" "blob:0" = true ∧
  minted (history [CreateBlobUrl (Some wavBlob) (Some "comp1") noMetadata]) "blob:0" = true.
Proof.
  apply (history_tracked_urls_minted
           [CreateBlobUrl (Some wavBlob) (Some "comp1") noMetadata] "blob:0").
  reflexivity.
Defined.

(** When no creation overrode [componentId], the owner index and the
    entries agree in every state the page can bring the manager to. *)
Theorem history_index_matches_entries (cs : list Call) :
  forallb plain cs = true → indexMatchesEntries (history cs) = true.
Proof.
  intros Hplain.
  destruct (calls_keep_invariants cs startBrowser) as [_ Hagree].
  { split; [intros ? ? Habs; discriminate Habs | intros c s x Hin; by apply elem_of_nil in Hin]. }
  unfold history in *.
  unfold indexMatchesEntries. apply forallb_forall. intros [c s] Hin%list_elem_of_In.
  apply forallb_forall. intros u Hu%list_elem_of_In. simpl in *.
  match goal with |- context [getUrlMetadata u ?w] =>
    destruct (getUrlMetadata u w) as [md|] eqn:Hget; [|done] end.
  apply bool_decide_eq_true. eapply Hagree; [exact Hplain | | exact Hin | exact Hu | exact Hget].
  intros c' s' x md' Hnil. by apply elem_of_nil in Hnil.
Qed.

Lemma history_index_matches_entries_witness :
  indexMatchesEntries
    (history [CreateBlobUrl (Some wavBlob) (Some "comp1") noMetadata;
              CreateBlobUrl (Some wavBlob) (Some "comp2") noMetadata;
              RevokeBlobUrl (Some "blob:0")]) = true.
Proof.
  apply (history_index_matches_entries
           [CreateBlobUrl (Some wavBlob) (Some "comp1") noMetadata;
            CreateBlobUrl (Some wavBlob) (Some "comp2") noMetadata;
            RevokeBlobUrl (Some "blob:0")]).
  reflexivity.
Defined.

(** *** A tracked URL has not been released *)

Lemma refusal_console blob e : refusal blob = Some e → ∃ lvl msg, e = Console lvl msg.
Proof.
  unfold refusal. destruct blob as [b|]; [|intros [= <-]; by eexists _, _].
  destruct (blob_size b) as [sz|]; [|intros [= <-]; by eexists _, _].
  destruct (decide (sz = 0)); [intros [= <-]; by eexists _, _|].
  destruct (is_blob b); [done|]. intros [= <-]. by eexists _, _.
Qed.

Lemma callbackEvents_no_release cb u : RevokeObjectURL u ∉ callbackEvents cb.
Proof.
  destruct cb as [cb|]; simpl; [|apply not_elem_of_nil].
  destruct (cb_throws cb).
  - intros [?|[?|?%elem_of_nil]%elem_of_cons]%elem_of_cons; done.
  - intros [?|?%elem_of_nil]%elem_of_cons; done.
Qed.

Lemma revokeBlobUrl_released url w :
  urlsMinted w → releasedUntracked w → releasedUntracked (exec (revokeBlobUrl url) w).
Proof.
  intros [Htracked _] [Htrace Htimers]. destruct url as [url|]; [|done]. unfold exec.
  destruct (revokeBlobUrl_cases url w) as [Hf|[[Hpre Hget]|[Hpre [md Hget]]]].
  - by rewrite revokeBlobUrl_foreign.
  - rewrite revokeBlobUrl_untracked by done. split; [|done].
    intros u [Hin|Hin]%elem_of_app; [by apply Htrace|].
    apply list_elem_of_singleton in Hin. done.
  - rewrite (revokeBlobUrl_tracked url md) by done. split.
    + intros u [Hin|Hin]%elem_of_app; [|by apply callbackEvents_no_release in Hin].
      destruct (Htrace u Hin) as [Hnone Hminted]. split; [|done].
      unfold getUrlMetadata in *. simpl. rewrite get_set_ne; [done|]. congruence.
    + intros t u o [->|Hin]%elem_of_insertTimer_iff Htask; [|by eapply Htimers].
      simpl in Htask. simplify_eq. by eapply Htracked.
Qed.

Lemma revokeAll_released l w :
  urlsMinted w → releasedUntracked w → releasedUntracked (revokeAll l w).
Proof.
  revert w. induction l as [|url l IH]; intros w Hm Hr; [done|].
  unfold revokeAll in *. simpl. apply IH.
  - apply (shrinks_minted w); [apply (revokeBlobUrl_shrinks (Some url)) | done].
  - by apply revokeBlobUrl_released.
Qed.

Lemma fireTask_released k w :
  (∀ u o, k = ReleaseTask u o → mintedUrl w u) →
  (∀ u, RevokeObjectURL u ∈ trace w → getUrlMetadata u w = None ∧ mintedUrl w u) →
  ∀ u, RevokeObjectURL u ∈ trace (exec (fireTask k) w) →
       getUrlMetadata u (exec (fireTask k) w) = None ∧ mintedUrl (exec (fireTask k) w) u.
Proof.
  intros Hk Htrace u. pose proof (fireTask_untracked k u w) as Hgone.
  pose proof (fireTask_shrinks k w) as (Hn & _ & _).
  unfold exec in *. rewrite fireTask_eq in *. cbn [snd trace] in *.
  intros [Hin|Hin]%elem_of_app.
  - destruct (Htrace u Hin) as [Hnone Hminted]. split; [by apply Hgone|].
    by apply (mintedUrl_mono w); [simpl; lia|].
  - destruct k as [url|url o]; simpl in Hin.
    + destruct (isUrlActive url w); [|by apply elem_of_nil in Hin].
      apply list_elem_of_singleton in Hin. done.
    + apply elem_of_cons in Hin as [[= ->]|Hin];
        [|apply list_elem_of_singleton in Hin; done].
      split.
      * pose proof (delayedRevoke_removes url o w) as [Hrem _].
        unfold exec in Hrem. by rewrite delayedRevoke_eq in Hrem.
      * apply (mintedUrl_mono w); [simpl; lia | by eapply Hk].
Qed.

Lemma fireAll_released l w :
  (∀ t u o, t ∈ l → task t = ReleaseTask u o → mintedUrl w u) →
  (∀ u, RevokeObjectURL u ∈ trace w → getUrlMetadata u w = None ∧ mintedUrl w u) →
  ∀ u, RevokeObjectURL u ∈ trace (fireAll l w) →
       getUrlMetadata u (fireAll l w) = None ∧ mintedUrl (fireAll l w) u.
Proof.
  revert w. induction l as [|t l IH]; intros w Hl Htrace; [done|].
  unfold fireAll in *. simpl. apply IH.
  - intros t' u o Hin Htask. pose proof (fireTask_shrinks (task t) w) as (Hn & _ & _).
    apply (mintedUrl_mono w); [lia|]. eapply Hl; [by apply list_elem_of_further | done].
  - apply fireTask_released; [|done]. intros u o Htask. eapply Hl; [apply list_elem_of_here|done].
Qed.

Lemma cleanupOldUrls_released maxAge w :
  urlsMinted w → releasedUntracked w → releasedUntracked (exec (cleanupOldUrls maxAge) w).
Proof.
  intros Hm Hr. unfold exec. rewrite cleanupOldUrls_eq. cbn [snd].
  match goal with |- context [revokeAll ?l w] =>
    destruct (revokeAll_released l w Hm Hr) as [Htrace' Htimers'] end.
  destruct (decide (0 < length _)%nat); [|done].
  split; [|done]. intros u [Hin|Hin]%elem_of_app; [by apply Htrace'|].
  apply list_elem_of_singleton in Hin. done.
Qed.

Lemma runTimers_released now w :
  releasedUntracked w → releasedUntracked (exec (runTimers now) w).
Proof.
  intros [Htrace Htimers]. unfold exec. rewrite runTimers_eq. cbn [snd]. split.
  - apply fireAll_released; [|done].
    intros t u o [_ Hin]%list_elem_of_filter Htask. by eapply Htimers.
  - intros t u o. rewrite fireAll_timers. cbn [timers].
    intros [_ Hin]%list_elem_of_filter Htask.
    match goal with |- mintedUrl (fireAll ?l ?w0) _ =>
      pose proof (fireAll_shrinks l w0) as (Hn & _ & _) end.
    apply (mintedUrl_mono w); [simpl in Hn; lia | by eapply Htimers].
Qed.

Lemma advance_released dt w :
  urlsMinted w → releasedUntracked w → releasedUntracked (exec (advance dt) w).
Proof.
  intros Hm Hr.
  apply (advance_steps (λ w1, urlsMinted w1 ∧ releasedUntracked w1)); [| | | |done].
  - intros w1 now [Hm1 Hr1]. split; [|by apply runTimers_released].
    apply (shrinks_minted w1); [apply runTimers_shrinks | done].
  - intros w1 now _ HP. exact HP.
  - intros w1 [Hm1 Hr1]. split; [|by apply cleanupOldUrls_released].
    apply (shrinks_minted w1); [apply cleanupOldUrls_shrinks | done].
  - intros w1 s HP. exact HP.
Qed.

Lemma perform_released c w :
  urlsMinted w → releasedUntracked w → releasedUntracked (exec (perform c) w).
Proof.
  intros Hm Hr. pose proof Hm as [Htracked _]. pose proof Hr as [Htrace Htimers].
  destruct c as [blob o md|url|url|o|url cb| |maxAge|dt|lvl msg|cb0]; simpl.
  - unfold exec, bind, ret. destruct (refusal blob) as [e|] eqn:Href.
    + rewrite (createBlobUrl_refused _ _ _ _ e Href). cbn [snd].
      apply refusal_console in Href as (lvl & msg & ->). split; [|done].
      intros u [Hin|Hin]%elem_of_app; [by apply Htrace|].
      apply list_elem_of_singleton in Hin. done.
    + apply refusal_None in Href as (b & sz & -> & Hsz & Hnz & Hb).
      rewrite (createBlobUrl_accepted b sz) by done. cbn [snd]. split.
      * intros u [Hin|Hin]%elem_of_app.
        -- destruct (Htrace u Hin) as [Hnone Hminted]. split.
           ++ unfold getUrlMetadata, trackByComponent, trackUrl in *. simpl.
              rewrite get_set_ne; [done|]. intros <-.
              destruct Hminted as (k & Hk & Heq%objectUrl_inj). lia.
           ++ by apply (mintedUrl_mono w); [simpl; lia|].
        -- apply elem_of_cons in Hin as [Hin|Hin]; [done|].
           apply list_elem_of_singleton in Hin. done.
      * intros t u o' [->|Hin]%elem_of_insertTimer_iff Htask; [done|].
        apply (mintedUrl_mono w); [simpl; lia | by eapply Htimers].
  - unfold exec. destruct (getUrlMetadata url w) as [md|] eqn:Hget.
    + rewrite (markUrlAccessed_tracked url md) by done. split; [|done].
      intros u Hin. destruct (Htrace u Hin) as [Hnone Hminted]. split; [|done].
      unfold getUrlMetadata in *. simpl. rewrite get_set_ne; [done|]. congruence.
    + by rewrite markUrlAccessed_untracked.
  - by apply revokeBlobUrl_released.
  - unfold exec. rewrite revokeComponentUrls_eq. cbn [snd].
    destruct (JsMap.get o (urlsByComponent (manager w))) as [s|]; [|done].
    destruct (revokeAll_released s w Hm Hr) as [Htrace' Htimers'].
    split; [|done]. intros u [Hin|Hin]%elem_of_app; [by apply Htrace'|].
    apply list_elem_of_singleton in Hin. done.
  - destruct cb as [f|]; [|done]. unfold exec, registerCleanupCallback. by run_js.
  - unfold exec. rewrite cleanup_eq. cbn [snd]. split; [|done].
    intros u Hin. split; [done|]. unfold mintedUrl. simpl.
    apply elem_of_app in Hin as [Hin|Hin]; [by apply Htrace|].
    apply elem_of_app in Hin as [Hin|Hin].
    + apply list_elem_of_fmap in Hin as (u' & [= ->] & Hkey).
      unfold JsMap.keys in Hkey. apply list_elem_of_fmap in Hkey as ([k md] & -> & Hin).
      assert (∃ md', getUrlMetadata k w = Some md') as [md' Hget]; [|by eapply Htracked].
      unfold getUrlMetadata. clear -Hin.
      induction (activeUrls (manager w)) as [|[k' v'] m IH]; [by apply elem_of_nil in Hin|].
      simpl. destruct (decide (k = k')); [by eexists|].
      apply elem_of_cons in Hin as [[= -> ->]|Hin]; [done | by apply IH].
    + destruct (decide (0 < JsMap.size (activeUrls (manager w)))%nat);
        [apply list_elem_of_singleton in Hin; done | by apply elem_of_nil in Hin].
  - by apply cleanupOldUrls_released.
  - by apply advance_released.
  - unfold exec. rewrite console_eq. cbn [snd]. split; [|done].
    intros u [Hin|Hin]%elem_of_app; [by apply Htrace|].
    apply list_elem_of_singleton in Hin. done.
  - rewrite call_state. split; [|done].
    intros u [Hin|Hin]%elem_of_app; [by apply Htrace|].
    apply list_elem_of_singleton in Hin. done.
Qed.

Lemma history_invariants (cs : list Call) :
  urlsMinted (history cs) ∧ releasedUntracked (history cs).
Proof.
  unfold history.
  assert (∀ w, urlsMinted w → releasedUntracked w →
               urlsMinted (foldl (λ w c, exec (perform c) w) w cs) ∧
               releasedUntracked (foldl (λ w c, exec (perform c) w) w cs)) as Hall.
  { induction cs as [|c cs IH]; intros w Hm Hr; [done|]. simpl.
    apply IH; [by apply perform_minted | by apply perform_released]. }
  apply Hall.
  - split; [intros ? ? Habs; discriminate Habs | intros c s x Hin; by apply elem_of_nil in Hin].
  - split; [intros x Hin | intros t x o Hin]; by apply elem_of_nil in Hin.
Qed.

(** Whatever the page has called: once [URL.revokeObjectURL] has been
    called on a URL, the manager no longer tracks it. *)
Theorem history_released_urls_untracked (cs : list Call) (u : string) :
  RevokeObjectURL u ∈ trace (history cs) → isUrlActive u (history cs) = false.
Proof.
  destruct (history_invariants cs) as [_ [Htrace _]].
  intros Hin. apply has_false. by apply Htrace.
Qed.

Lemma history_released_urls_untracked_witness :
  isUrlActive "blob:0"
    (history [CreateBlobUrl (Some wavBlob) (Some "comp1") noMetadata;
              RevokeBlobUrl (Some "blob:0"); Advance 50]) = false.
Proof.
  apply (history_released_urls_untracked
           [CreateBlobUrl (Some wavBlob) (Some "comp1") noMetadata;
            RevokeBlobUrl (Some "blob:0"); Advance 50] "blob:0").
  refine (bool_decide_unpack _ _). vm_compute. exact I.
Defined.

(** ** The shape of the tables in every history *)

Section map_keys.
Context {V : Type}.
Implicit Types (m : list (string * V)) (k : string) (v : V).

Lemma get_None_key m k : JsMap.get k m = None → k ∉ JsMap.keys m.
Proof.
  unfold JsMap.keys. induction m as [|[k' v'] m IH]; simpl.
  - intros _. apply not_elem_of_nil.
  - destruct (decide (k = k')) as [->|Hne]; [done|].
    intros H. apply not_elem_of_cons. split; [done | by apply IH].
Qed.

Lemma keys_set m k v :
  JsMap.keys (JsMap.set k v m) =
    if JsMap.has k m then JsMap.keys m else JsMap.keys m ++ [k].
Proof.
  unfold JsMap.keys, JsMap.has. induction m as [|[k' v'] m IH]; csimpl; [done|].
  destruct (decide (k = k')) as [->|Hne]; csimpl; [done|].
  rewrite IH. by destruct (JsMap.get k m).
Qed.

Lemma NoDup_keys_set m k v : NoDup (JsMap.keys m) → NoDup (JsMap.keys (JsMap.set k v m)).
Proof.
  intros Hnd. rewrite keys_set. destruct (JsMap.has k m) eqn:Hhas; [done|].
  apply NoDup_app. split; [done|]. split; [|apply NoDup_singleton].
  intros x Hx ->%list_elem_of_singleton.
  apply has_false in Hhas. by apply get_None_key in Hhas.
Qed.

Lemma keys_delete_elem m k x : x ∈ JsMap.keys (JsMap.delete k m) → x ∈ JsMap.keys m ∧ x ≠ k.
Proof.
  unfold JsMap.keys. induction m as [|[k' v'] m IH]; simpl; [by intros ?%elem_of_nil|].
  destruct (decide (k = k')) as [->|Hne]; simpl.
  - intros [Hin Hx]%IH. split; [by apply list_elem_of_further | done].
  - intros [->|Hin]%elem_of_cons.
    + split; [apply list_elem_of_here | congruence].
    + destruct (IH Hin) as [Hin' Hx]. split; [by apply list_elem_of_further | done].
Qed.

Lemma NoDup_keys_delete m k : NoDup (JsMap.keys m) → NoDup (JsMap.keys (JsMap.delete k m)).
Proof.
  unfold JsMap.keys. induction m as [|[k' v'] m IH]; simpl; [done|].
  intros [Hnotin Hnd]%NoDup_cons. destruct (decide (k = k')) as [->|Hne]; simpl; [by apply IH|].
  apply NoDup_cons. split; [|by apply IH].
  intros [Hin _]%keys_delete_elem. done.
Qed.

(** With every key listed once, the entries of a map are what [get] finds. *)
Lemma elem_get m k v : NoDup (JsMap.keys m) → (k, v) ∈ m → JsMap.get k m = Some v.
Proof.
  unfold JsMap.keys. induction m as [|[k' v'] m IH]; simpl; [by intros _ ?%elem_of_nil|].
  intros [Hnotin Hnd]%NoDup_cons [[= -> ->]|Hin]%elem_of_cons.
  - by rewrite decide_True.
  - destruct (decide (k = k')) as [->|Hne]; [|by apply IH].
    exfalso. apply Hnotin. apply list_elem_of_fmap. by exists (k', v).
Qed.

Lemma elem_of_set_exact m k v x :
  NoDup (JsMap.keys m) → x ∈ JsMap.set k v m → x = (k, v) ∨ (x ∈ m ∧ x.1 ≠ k).
Proof.
  unfold JsMap.keys. induction m as [|[k' v'] m IH]; simpl.
  - intros _ ->%list_elem_of_singleton. by left.
  - intros [Hnotin Hnd]%NoDup_cons. destruct (decide (k = k')) as [->|Hne].
    + intros [->|Hin]%elem_of_cons; [by left|]. right. split; [by apply list_elem_of_further|].
      intros Heq. apply Hnotin. apply list_elem_of_fmap. exists x. by split.
    + intros [->|Hin]%elem_of_cons.
      * right. split; [apply list_elem_of_here | simpl; congruence].
      * destruct (IH Hnd Hin) as [->|[Hm Hx]]; [by left|].
        right. split; [by apply list_elem_of_further | done].
Qed.

Lemma elem_of_delete_exact m k x : x ∈ JsMap.delete k m → x ∈ m ∧ x.1 ≠ k.
Proof.
  induction m as [|[k' v'] m IH]; simpl; [by intros ?%elem_of_nil|].
  destruct (decide (k = k')) as [->|Hne].
  - intros [Hin Hx]%IH. split; [by apply list_elem_of_further | done].
  - intros [->|Hin]%elem_of_cons.
    + split; [apply list_elem_of_here | simpl; congruence].
    + destruct (IH Hin) as [Hm Hx]. split; [by apply list_elem_of_further | done].
Qed.

(** Deleting a key that was only just added gives the map back. *)
Lemma delete_set_absent m k v : JsMap.get k m = None → JsMap.delete k (JsMap.set k v m) = m.
Proof.
  induction m as [|[k' v'] m IH]; simpl.
  - intros _. by rewrite decide_True.
  - destruct (decide (k = k')) as [->|Hne]; [done|]. simpl.
    rewrite decide_False by done. intros H. by rewrite IH.
Qed.
End map_keys.

Lemma set_delete_NoDup x s : NoDup s → NoDup (JsSet.delete x s).
Proof.
  induction s as [|y s IH]; simpl; [done|].
  intros [Hnotin Hnd]%NoDup_cons. destruct (decide (x = y)); [by apply IH|].
  apply NoDup_cons. split; [|by apply IH]. by intros [Hin _]%set_delete_elem.
Qed.

Lemma set_add_NoDup x s : NoDup s → NoDup (JsSet.add x s).
Proof.
  intros Hnd. unfold JsSet.add, JsSet.has. destruct (bool_decide (x ∈ s)) eqn:Hx; [done|].
  apply bool_decide_eq_false in Hx. apply NoDup_app. split; [done|].
  split; [|apply NoDup_singleton]. by intros y Hy ->%list_elem_of_singleton.
Qed.

Lemma set_add_elem x s : x ∈ JsSet.add x s.
Proof.
  unfold JsSet.add, JsSet.has. destruct (bool_decide (x ∈ s)) eqn:Hx.
  - by apply bool_decide_eq_true in Hx.
  - apply elem_of_app. right. apply list_elem_of_here.
Qed.

Lemma set_add_keeps x y s : y ∈ s → y ∈ JsSet.add x s.
Proof.
  unfold JsSet.add. destruct (JsSet.has x s); [done|]. intros Hy. apply elem_of_app. by left.
Qed.

Lemma set_add_fresh x s : x ∉ s → JsSet.add x s = s ++ [x].
Proof.
  intros Hx. unfold JsSet.add, JsSet.has. by rewrite bool_decide_eq_false_2.
Qed.

Lemma set_delete_added x s : x ∉ s → JsSet.delete x (s ++ [x]) = s.
Proof.
  induction s as [|y s IH]; simpl.
  - intros _. by rewrite decide_True.
  - intros [Hne Hs]%not_elem_of_cons. rewrite decide_False by done. by rewrite IH.
Qed.

Lemma touches_refl w : touches w w.
Proof.
  unfold touches. split; [done|]. split; [done|]. split; [|split].
  - intros u md Hget. by exists md.
  - intros u md Hget. by exists md.
  - intros t Ht. by left.
Qed.

Lemma touches_trans w1 w2 w3 : touches w1 w2 → touches w2 w3 → touches w1 w3.
Proof.
  intros (Hi & Hn & Hb & Hf & Ht) (Hi' & Hn' & Hb' & Hf' & Ht'). unfold touches.
  split; [congruence|]. split; [congruence|]. split; [|split].
  - intros u md3 (md2 & Hget2 & Heq2)%Hb'. destruct (Hb u md2 Hget2) as (md1 & Hget1 & Heq1).
    exists md1. split; [done | congruence].
  - intros u md1 (md2 & Hget2 & Heq2)%Hf. destruct (Hf' u md2 Hget2) as (md3 & Hget3 & Heq3).
    exists md3. split; [done | congruence].
  - intros t [Hin|(u & md2 & Htask & Hget2)]%Ht'; [by apply Ht|].
    right. destruct (Hb u md2 Hget2) as (md1 & Hget1 & Heq1).
    exists u, md1. split; [congruence | done].
Qed.

(** Only the trace differs. *)
Lemma touches_same w w' :
  manager w' = manager w → nextObjectUrl w' = nextObjectUrl w → timers w' = timers w →
  touches w w'.
Proof.
  intros Hm Hn Ht. unfold touches, getUrlMetadata. rewrite Hm, Hn, Ht.
  split; [done|]. split; [done|]. split; [|split].
  - intros u md Hget. by exists md.
  - intros u md Hget. by exists md.
  - intros t Hin. by left.
Qed.

Lemma revokeBlobUrl_touches url w : touches w (exec (revokeBlobUrl url) w).
Proof.
  destruct url as [url|]; [|apply touches_refl]. unfold exec.
  destruct (revokeBlobUrl_cases url w) as [Hf|[[Hpre Hget]|[Hpre [md Hget]]]].
  - rewrite revokeBlobUrl_foreign by done. apply touches_refl.
  - rewrite revokeBlobUrl_untracked by done. by apply touches_same.
  - rewrite (revokeBlobUrl_tracked url md) by done. unfold touches, getUrlMetadata in *. simpl.
    split; [done|]. split; [done|]. split; [|split].
    + intros u md' [[-> ->]|Hold]%get_set_Some; [by exists md | by exists md'].
    + intros u md0 Hget0. destruct (decide (url = u)) as [<-|Hne].
      * rewrite get_set_eq. exists (deactivated md). split; [done|]. simpl. congruence.
      * rewrite get_set_ne by done. by exists md0.
    + intros t [->|Hin]%elem_of_insertTimer_iff; [|by left].
      right. by exists url, md.
Qed.

Lemma revokeAll_touches l w : touches w (revokeAll l w).
Proof.
  revert w. induction l as [|url l IH]; intros w; [apply touches_refl|].
  unfold revokeAll in *. simpl.
  eapply touches_trans; [apply (revokeBlobUrl_touches (Some url)) | apply IH].
Qed.

Lemma markUrlAccessed_touches url w : touches w (exec (markUrlAccessed url) w).
Proof.
  unfold exec. destruct (getUrlMetadata url w) as [md|] eqn:Hget.
  - rewrite (markUrlAccessed_tracked url md) by done. unfold touches, getUrlMetadata in *. simpl.
    split; [done|]. split; [done|]. split; [|split].
    + intros u md' [[-> ->]|Hold]%get_set_Some; [by exists md | by exists md'].
    + intros u md0 Hget0. destruct (decide (url = u)) as [<-|Hne].
      * rewrite get_set_eq. exists (touch (clock w) md). split; [done|]. simpl. congruence.
      * rewrite get_set_ne by done. by exists md0.
    + intros t Hin. by left.
  - rewrite markUrlAccessed_untracked by done. apply touches_refl.
Qed.

Lemma touches_indexSound w w' : touches w w' → indexSound w → indexSound w'.
Proof. intros (Hi & _) Hs. unfold indexSound. by rewrite Hi. Qed.

Lemma touches_ownersSound w w' : touches w w' → ownersSound w → ownersSound w'.
Proof.
  intros (Hi & Hn & Hb & Hf & Ht) (Hindexed & Htracked & Htimer).
  unfold ownersSound, getComponentUrls. rewrite Hi. split; [|split].
  - intros c s u Hin Hu. destruct (Hindexed c s u Hin Hu) as [md Hget].
    destruct (Hf u md Hget) as (md' & Hget' & _). by exists md'.
  - intros u md' (md & Hget & ->)%Hb. by apply Htracked.
  - intros t u o md' [Hin|(u0 & md0 & Htask0 & Hget0)]%Ht Htask (md & Hget & ->)%Hb.
    + by eapply Htimer.
    + rewrite Htask in Htask0. simplify_eq. done.
Qed.

(** *** The delayed release keeps the tables in shape *)

Lemma release_indexSound u o w :
  indexSound w → indexSound (exec (fireTask (ReleaseTask u o)) w).
Proof.
  intros (Hkeys & Hsets & Hdisj). pose proof (fireTask_shrinks (ReleaseTask u o) w) as (_ & _ & Hsub).
  unfold exec in *. rewrite fireTask_eq in *. cbn [snd manager taskManager] in *.
  unfold indexSound. cbn [manager]. split; [|split].
  - unfold untrackByComponent.
    destruct (JsMap.get o (urlsByComponent (untrackUrl u (manager w)))) as [s|]; simpl; [|done].
    destruct (decide (JsSet.size (JsSet.delete u s) = 0%nat));
      [by apply NoDup_keys_delete | by apply NoDup_keys_set].
  - intros c s'. unfold untrackByComponent.
    destruct (JsMap.get o (urlsByComponent (untrackUrl u (manager w)))) as [s|] eqn:Hs;
      simpl; [|by apply (Hsets c)].
    destruct (decide (JsSet.size (JsSet.delete u s) = 0%nat)) as [Hz|Hz].
    + intros Hin%elem_of_delete. by apply (Hsets c).
    + intros [[= -> ->]|Hin]%elem_of_set; [|by apply (Hsets c)]. split.
      * intros Hnil. apply Hz. by rewrite Hnil.
      * apply set_delete_NoDup. apply get_Some_elem in Hs. by apply (Hsets o s).
  - intros c1 s1 c2 s2 x (s1' & Hin1 & Hsub1)%Hsub (s2' & Hin2 & Hsub2)%Hsub Hx1 Hx2.
    eapply Hdisj; [exact Hin1 | exact Hin2 | by apply Hsub1 | by apply Hsub2].
Qed.

Lemma getComponentUrls_elem c x w :
  x ∈ getComponentUrls c w → ∃ s, (c, s) ∈ urlsByComponent (manager w) ∧ x ∈ s.
Proof.
  unfold getComponentUrls.
  destruct (JsMap.get c (urlsByComponent (manager w))) as [s|] eqn:Hs; simpl.
  - intros Hx. exists s. split; [by apply get_Some_elem | done].
  - by intros ?%elem_of_nil.
Qed.

Lemma getComponentUrls_listed c s w :
  NoDup (JsMap.keys (urlsByComponent (manager w))) →
  (c, s) ∈ urlsByComponent (manager w) → getComponentUrls c w = s.
Proof. intros Hnd Hin. unfold getComponentUrls. by rewrite (elem_get _ _ _ Hnd Hin). Qed.

Lemma release_ownersSound u o w :
  indexSound w → indexAgrees w → ownersSound w →
  (∀ md, getUrlMetadata u w = Some md → componentId md = o) →
  ownersSound (exec (fireTask (ReleaseTask u o)) w).
Proof.
  intros Hsound Hagree (Hindexed & Htracked & Htimer) Howner.
  pose proof (release_indexSound u o w Hsound) as (Hkeys' & _ & _).
  pose proof (delayedRevoke_removes u o w) as [Hgone Hout].
  pose proof (fireTask_shrinks (ReleaseTask u o) w) as (_ & Hold & Hsub).
  assert (∀ x, x ≠ u →
            getUrlMetadata x (exec (fireTask (ReleaseTask u o)) w) = getUrlMetadata x w ∧
            ∀ B, x ∈ getComponentUrls B (exec (fireTask (ReleaseTask u o)) w)
                 ↔ x ∈ getComponentUrls B w) as Hframe.
  { intros x Hne. apply fireTask_frame. intros o' [= Heq]. by apply Hne. }
  set (w' := exec (fireTask (ReleaseTask u o)) w) in *.
  change (exec (delayedRevoke u o) w) with w' in Hgone, Hout.
  unfold ownersSound. split; [|split].
  - (* an indexed URL is still tracked *)
    intros c s' x Hin Hx. destruct (decide (x = u)) as [->|Hne].
    + exfalso. destruct (Hsub c s' Hin) as (s & Hin0 & Hsub0).
      destruct (Hindexed c s u Hin0 (Hsub0 u Hx)) as [md Hget].
      assert (c = o) as ->.
      { rewrite <- (Hagree c s u md Hin0 (Hsub0 u Hx) Hget). by apply Howner. }
      apply Hout. by rewrite (getComponentUrls_listed o s' w' Hkeys' Hin).
    + destruct (Hframe x Hne) as [Hsame Hidx]. rewrite Hsame.
      assert (x ∈ getComponentUrls c w) as (s & Hin0 & Hx0)%getComponentUrls_elem.
      { apply Hidx. by rewrite (getComponentUrls_listed c s' w' Hkeys' Hin). }
      by eapply Hindexed.
  - (* a tracked URL is still indexed *)
    intros x md Hget.
    assert (x ≠ u) as Hne by (intros ->; rewrite Hgone in Hget; done).
    destruct (Hframe x Hne) as [Hsame Hidx].
    apply Hidx. apply Htracked. by rewrite <- Hsame.
  - (* the pending releases still carry the component of their entry *)
    intros t x o' md Hin Htask Hget.
    destruct (Hold x md Hget) as (md0 & Hget0 & ->).
    assert (timers w' = timers w) as Ht.
    { subst w'. unfold exec. by rewrite fireTask_eq. }
    rewrite Ht in Hin. by eapply Htimer.
Qed.

(** *** A creation keeps the tables in shape *)

Lemma trackByComponent_get owner url m c :
  JsMap.get c (urlsByComponent (trackByComponent owner url m)) =
    if decide (c = owner)
    then Some (JsSet.add url (default [] (JsMap.get owner (urlsByComponent m))))
    else JsMap.get c (urlsByComponent m).
Proof.
  unfold trackByComponent. simpl.
  destruct (JsMap.has owner (urlsByComponent m)) eqn:Hhas.
  - destruct (decide (c = owner)) as [->|Hne]; [by rewrite get_set_eq|].
    by rewrite get_set_ne by done.
  - apply has_false in Hhas. rewrite get_set_eq, set_set, Hhas. simpl.
    destruct (decide (c = owner)) as [->|Hne]; [by rewrite get_set_eq|].
    by rewrite get_set_ne by done.
Qed.

Lemma trackByComponent_elem_exact owner url m c s :
  (c, s) ∈ urlsByComponent (trackByComponent owner url m) →
  (c, s) ∈ urlsByComponent m ∨
  (c = owner ∧ s = JsSet.add url (default [] (JsMap.get owner (urlsByComponent m)))).
Proof.
  unfold trackByComponent. simpl.
  destruct (JsMap.has owner (urlsByComponent m)) eqn:Hhas.
  - intros [[= -> ->]|Hin]%elem_of_set; [by right | by left].
  - apply has_false in Hhas. rewrite get_set_eq, set_set, Hhas. simpl.
    intros [[= -> ->]|Hin]%elem_of_set; [by right | by left].
Qed.

Lemma trackByComponent_keys owner url m :
  NoDup (JsMap.keys (urlsByComponent m)) →
  NoDup (JsMap.keys (urlsByComponent (trackByComponent owner url m))).
Proof.
  intros Hnd. unfold trackByComponent. simpl.
  destruct (JsMap.has owner (urlsByComponent m)); by repeat apply NoDup_keys_set.
Qed.

(** The URL the browser issues next is in no table yet. *)
Lemma next_url_fresh w :
  urlsMinted w →
  getUrlMetadata (objectUrl (nextObjectUrl w)) w = None ∧
  ∀ c s, (c, s) ∈ urlsByComponent (manager w) → objectUrl (nextObjectUrl w) ∉ s.
Proof.
  intros [Htracked Hindexed]. split.
  - destruct (getUrlMetadata _ w) as [md|] eqn:Hget; [|done].
    destruct (Htracked _ _ Hget) as (k & Hk & Heq%objectUrl_inj). lia.
  - intros c s Hin Hu. destruct (Hindexed c s _ Hin Hu) as (k & Hk & Heq%objectUrl_inj). lia.
Qed.

Lemma createBlobUrl_indexSound blob o md w :
  urlsMinted w → indexSound w → indexSound (exec (createBlobUrl blob o md) w).
Proof.
  intros Hminted (Hkeys & Hsets & Hdisj). unfold exec.
  destruct (refusal blob) as [e|] eqn:Hr.
  { by rewrite (createBlobUrl_refused _ _ _ _ e Hr). }
  apply refusal_None in Hr as (b & sz & -> & Hsz & Hnz & Hb).
  rewrite (createBlobUrl_accepted b sz) by done. cbn [snd].
  destruct (next_url_fresh w Hminted) as [_ Hfresh].
  set (url := objectUrl (nextObjectUrl w)) in *. set (owner := default "unknown" o).
  assert (∀ x, x ∈ default [] (JsMap.get owner (urlsByComponent (manager w))) →
               ∃ s0, (owner, s0) ∈ urlsByComponent (manager w) ∧ x ∈ s0) as Hold.
  { intros x. destruct (JsMap.get owner (urlsByComponent (manager w))) as [s0|] eqn:Hs0; simpl.
    - intros Hx. exists s0. split; [by apply get_Some_elem | done].
    - by intros ?%elem_of_nil. }
  unfold indexSound. cbn [manager]. split; [|split].
  - by apply trackByComponent_keys.
  - intros c s [Hin|[-> ->]]%trackByComponent_elem_exact; [by apply (Hsets c)|].
    cbn [trackUrl urlsByComponent]. split.
    + intros Hnil. pose proof (set_add_elem url
        (default [] (JsMap.get owner (urlsByComponent (manager w))))) as Hin.
      rewrite Hnil in Hin. by apply elem_of_nil in Hin.
    + apply set_add_NoDup.
      destruct (JsMap.get owner (urlsByComponent (manager w))) as [s0|] eqn:Hs0; simpl.
      * apply get_Some_elem in Hs0. by apply (Hsets owner s0).
      * apply NoDup_nil_2.
  - intros c1 s1 c2 s2 x [Hin1|[-> ->]]%trackByComponent_elem_exact
      [Hin2|[-> ->]]%trackByComponent_elem_exact Hx1 Hx2;
      cbn [trackUrl urlsByComponent] in *.
    + by eapply Hdisj.
    + apply elem_of_add in Hx2 as [->|Hx2]; [by destruct (Hfresh c1 s1 Hin1)|].
      destruct (Hold x Hx2) as (s0 & Hin0 & Hx0). by eapply Hdisj.
    + apply elem_of_add in Hx1 as [->|Hx1]; [by destruct (Hfresh c2 s2 Hin2)|].
      destruct (Hold x Hx1) as (s0 & Hin0 & Hx0). by eapply Hdisj.
    + done.
Qed.

Lemma createBlobUrl_ownersSound blob o md w :
  plain (CreateBlobUrl blob o md) = true →
  urlsMinted w → releasedUntracked w → ownersSound w →
  ownersSound (exec (createBlobUrl blob o md) w).
Proof.
  intros Hplain Hminted [_ Hpending] (Hindexed & Htracked & Htimer). unfold exec.
  destruct (refusal blob) as [e|] eqn:Hr.
  { by rewrite (createBlobUrl_refused _ _ _ _ e Hr). }
  apply refusal_None in Hr as (b & sz & -> & Hsz & Hnz & Hb).
  rewrite (createBlobUrl_accepted b sz) by done. cbn [snd].
  destruct (next_url_fresh w Hminted) as [Hnone Hfresh].
  set (url := objectUrl (nextObjectUrl w)) in *. set (owner := default "unknown" o).
  set (md0 := trackedMetadata (newBlobOf b) b owner (clock w) (clock w) sz md).
  assert (componentId md0 = owner) as Hmine.
  { subst md0 owner. simpl in *. destruct (m_componentId md) as [c'|]; simpl; [|done].
    by apply bool_decide_eq_true in Hplain. }
  unfold ownersSound, getUrlMetadata, getComponentUrls in *. cbn [manager timers].
  assert (∀ m, activeUrls (trackByComponent owner url m) = activeUrls m) as Hact by done.
  rewrite Hact. cbn [trackUrl activeUrls urlsByComponent].
  split; [|split].
  - intros c s x Hin Hx. destruct (decide (url = x)) as [<-|Hne]; [by rewrite get_set_eq|].
    rewrite get_set_ne by done.
    apply trackByComponent_elem_exact in Hin as [Hin|[-> ->]]; [by eapply Hindexed|].
    apply elem_of_add in Hx as [->|Hx]; [done|]. cbn [trackUrl urlsByComponent] in Hx.
    destruct (JsMap.get owner (urlsByComponent (manager w))) as [s0|] eqn:Hs0; simpl in Hx.
    + apply get_Some_elem in Hs0. by eapply Hindexed.
    + by apply elem_of_nil in Hx.
  - intros x md' Hget. rewrite trackByComponent_get. cbn [urlsByComponent].
    apply get_set_Some in Hget as [[-> ->]|Hget].
    + rewrite Hmine, decide_True by done. simpl. apply set_add_elem.
    + destruct (decide (componentId md' = owner)) as [Heq|Hne]; [|by apply Htracked].
      simpl. apply set_add_keeps. rewrite <- Heq. by apply Htracked.
  - intros t x o' md' [->|Hin]%elem_of_insertTimer_iff Htask Hget; [done|].
    apply get_set_Some in Hget as [[-> ->]|Hget]; [|by eapply Htimer].
    destruct (Hpending t url o' Hin Htask) as (k & Hk & Heq%objectUrl_inj). lia.
Qed.

(** *** Every call keeps the tables in shape *)

Lemma fireTask_indexSound k w : indexSound w → indexSound (exec (fireTask k) w).
Proof.
  destruct k as [u|u o]; [|apply release_indexSound].
  intros Hs. unfold exec. rewrite fireTask_eq. exact Hs.
Qed.

Lemma fireAll_indexSound l w : indexSound w → indexSound (fireAll l w).
Proof.
  revert w. induction l as [|t l IH]; intros w Hs; [done|].
  unfold fireAll in *. simpl. by apply IH, fireTask_indexSound.
Qed.

Lemma fireTask_ownersSound k w :
  (∀ u o md, k = ReleaseTask u o → getUrlMetadata u w = Some md → componentId md = o) →
  indexSound w → indexAgrees w → ownersSound w → ownersSound (exec (fireTask k) w).
Proof.
  intros Hk Hs Ha Ho. destruct k as [u|u o].
  - unfold exec. rewrite fireTask_eq. exact Ho.
  - apply release_ownersSound; try done. intros md. by apply Hk.
Qed.

Lemma fireAll_ownersSound l w :
  (∀ t u o md, t ∈ l → task t = ReleaseTask u o →
               getUrlMetadata u w = Some md → componentId md = o) →
  indexSound w → indexAgrees w → ownersSound w → ownersSound (fireAll l w).
Proof.
  revert w. induction l as [|t l IH]; intros w Hl Hs Ha Ho; [done|].
  unfold fireAll in *. simpl.
  pose proof (fireTask_shrinks (task t) w) as Hshrinks.
  apply IH.
  - intros t' u o md' Hin Htask Hget.
    destruct Hshrinks as (_ & Hold & _). destruct (Hold u md' Hget) as (md & Hget0 & ->).
    eapply Hl; [by apply list_elem_of_further | done | done].
  - by apply fireTask_indexSound.
  - by apply (shrinks_agrees w).
  - apply fireTask_ownersSound; try done.
    intros u o md Htask. eapply Hl; [apply list_elem_of_here | done].
Qed.

(** A change of the trace or of the callbacks only. *)
Lemma touches_tables w w' :
  activeUrls (manager w') = activeUrls (manager w) →
  urlsByComponent (manager w') = urlsByComponent (manager w) →
  nextObjectUrl w' = nextObjectUrl w → timers w' = timers w →
  touches w w'.
Proof.
  intros Ha Hi Hn Ht. unfold touches, getUrlMetadata. rewrite Ha, Hi, Hn, Ht.
  split; [done|]. split; [done|]. split; [|split].
  - intros u md Hget. by exists md.
  - intros u md Hget. by exists md.
  - intros t Hin. by left.
Qed.

Lemma cleanupOldUrls_touches maxAge w : touches w (exec (cleanupOldUrls maxAge) w).
Proof.
  unfold exec. rewrite cleanupOldUrls_eq. cbn [snd].
  destruct (decide (0 < length _)%nat); [|apply revokeAll_touches].
  eapply touches_trans; [apply revokeAll_touches|]. by apply touches_tables.
Qed.

(** Every call but a creation, a [cleanup] and the passing of time
    touches. *)
Lemma perform_touches c w :
  match c with
  | CreateBlobUrl _ _ _ | Cleanup | Advance _ => True
  | _ => touches w (exec (perform c) w)
  end.
Proof.
  destruct c as [blob o md|url|url|o|url cb| |maxAge|dt|lvl msg|cb0]; simpl; try done.
  - apply markUrlAccessed_touches.
  - apply revokeBlobUrl_touches.
  - unfold exec. rewrite revokeComponentUrls_eq. cbn [snd].
    destruct (JsMap.get o (urlsByComponent (manager w))) as [s|]; [|apply touches_refl].
    eapply touches_trans; [apply (revokeAll_touches s)|]. by apply touches_tables.
  - destruct cb as [f|]; [|apply touches_refl].
    unfold exec, registerCleanupCallback. run_js. by apply touches_tables.
  - apply cleanupOldUrls_touches.
  - unfold exec. rewrite console_eq. by apply touches_tables.
  - rewrite call_state. by apply touches_tables.
Qed.

Lemma runTimers_indexSound now w : indexSound w → indexSound (exec (runTimers now) w).
Proof. intros Hs. unfold exec. rewrite runTimers_eq. cbn [snd]. by apply fireAll_indexSound. Qed.

Lemma advance_indexSound dt w : indexSound w → indexSound (exec (advance dt) w).
Proof.
  intros Hs. apply (advance_steps indexSound); [| | | |done].
  - intros w1 now. apply runTimers_indexSound.
  - intros w1 now _ HP. exact HP.
  - intros w1. apply touches_indexSound, cleanupOldUrls_touches.
  - intros w1 s HP. exact HP.
Qed.

Lemma runTimers_ownersSound now w :
  indexSound w → indexAgrees w → ownersSound w → ownersSound (exec (runTimers now) w).
Proof.
  intros Hs Ha Ho. unfold exec. rewrite runTimers_eq. cbn [snd].
  destruct Ho as (Hindexed & Htracked & Htimer).
  apply fireAll_ownersSound; try done.
  + intros t u o md [_ Hin]%list_elem_of_filter Htask Hget. by eapply Htimer.
  + split; [done|]. split; [done|].
    intros t u o md [_ Hin]%list_elem_of_filter Htask Hget. by eapply Htimer.
Qed.

Lemma advance_ownersSound dt w :
  indexSound w → indexAgrees w → ownersSound w → ownersSound (exec (advance dt) w).
Proof.
  intros Hs Ha Ho.
  enough (indexSound (exec (advance dt) w) ∧ indexAgrees (exec (advance dt) w) ∧
          ownersSound (exec (advance dt) w)) as (_ & _ & H); [exact H|].
  apply (advance_steps (λ w1, indexSound w1 ∧ indexAgrees w1 ∧ ownersSound w1)); [| | | |done].
  - intros w1 now (Hs1 & Ha1 & Ho1). split; [by apply runTimers_indexSound|]. split.
    + apply (shrinks_agrees w1); [apply runTimers_shrinks | done].
    + by apply runTimers_ownersSound.
  - intros w1 now _ HP. exact HP.
  - intros w1 (Hs1 & Ha1 & Ho1). pose proof (cleanupOldUrls_touches None w1) as Ht.
    split; [by apply (touches_indexSound w1)|]. split.
    + apply (shrinks_agrees w1); [apply cleanupOldUrls_shrinks | done].
    + by apply (touches_ownersSound w1).
  - intros w1 s HP. exact HP.
Qed.

Lemma perform_indexSound c w :
  urlsMinted w → indexSound w → indexSound (exec (perform c) w).
Proof.
  intros Hm Hs. pose proof (perform_touches c w) as Ht.
  destruct c as [blob o md|url|url|o|url cb| |maxAge|dt|lvl msg|cb0];
    try (by apply (touches_indexSound w)).
  - simpl. unfold exec, bind.
    pose proof (createBlobUrl_indexSound blob o md w Hm Hs) as Hc. unfold exec in Hc.
    by destruct (createBlobUrl blob o md w) as [[r|e] w1].
  - simpl. unfold exec. rewrite cleanup_eq. unfold indexSound. simpl.
    split; [apply NoDup_nil_2|].
    split; [intros c s | intros c1 s1 c2 s2 u]; by intros ?%elem_of_nil.
  - simpl. by apply advance_indexSound.
Qed.

Lemma perform_ownersSound c w :
  plain c = true → urlsMinted w → releasedUntracked w →
  indexSound w → indexAgrees w → ownersSound w → ownersSound (exec (perform c) w).
Proof.
  intros Hplain Hm Hr Hs Ha Ho. pose proof (perform_touches c w) as Ht.
  destruct c as [blob o md|url|url|o|url cb| |maxAge|dt|lvl msg|cb0];
    try (by apply (touches_ownersSound w)).
  - simpl. unfold exec, bind.
    pose proof (createBlobUrl_ownersSound blob o md w Hplain Hm Hr Ho) as Hc. unfold exec in Hc.
    by destruct (createBlobUrl blob o md w) as [[r|e] w1].
  - simpl. unfold exec. rewrite cleanup_eq. unfold ownersSound, getUrlMetadata. simpl.
    split; [intros c s u; by intros ?%elem_of_nil|]. split; [done|]. by intros t u o md _ _ ?.
  - simpl. by apply advance_ownersSound.
Qed.

(** The invariants of every history, and those of the histories that leave
    [componentId] to the manager. *)
Lemma history_tables (cs : list Call) :
  urlsMinted (history cs) ∧ releasedUntracked (history cs) ∧ indexSound (history cs) ∧
  (forallb plain cs = true → indexAgrees (history cs) ∧ ownersSound (history cs)).
Proof.
  unfold history.
  assert (∀ w, urlsMinted w → releasedUntracked w → indexSound w →
               urlsMinted (foldl (λ w c, exec (perform c) w) w cs) ∧
               releasedUntracked (foldl (λ w c, exec (perform c) w) w cs) ∧
               indexSound (foldl (λ w c, exec (perform c) w) w cs) ∧
               (forallb plain cs = true → indexAgrees w → ownersSound w →
                indexAgrees (foldl (λ w c, exec (perform c) w) w cs) ∧
                ownersSound (foldl (λ w c, exec (perform c) w) w cs))) as Hall.
  { induction cs as [|c cs IH]; intros w Hm Hr Hs; [done|]. simpl.
    destruct (IH (exec (perform c) w)) as (Hm' & Hr' & Hs' & Hplain');
      [by apply perform_minted | by apply perform_released | by apply perform_indexSound |].
    split; [done|]. split; [done|]. split; [done|].
    intros [Hc Hcs]%andb_true_iff Ha Ho. apply Hplain'; [done | |].
    - by apply perform_agrees.
    - by apply perform_ownersSound. }
  destruct (Hall startBrowser) as (Hm & Hr & Hs & Hplain).
  - split; [intros ? ? Habs; discriminate Habs | intros c s x Hin; by apply elem_of_nil in Hin].
  - split; [intros x Hin | intros t x o Hin]; by apply elem_of_nil in Hin.
  - split; [apply NoDup_nil_2|].
    split; [intros c s | intros c1 s1 c2 s2 u]; by intros ?%elem_of_nil.
  - split; [done|]. split; [done|]. split; [done|]. intros Hp. apply Hplain; [done| |].
    + intros c s u md Hin. by apply elem_of_nil in Hin.
    + split; [intros c s u; by intros ?%elem_of_nil|]. split; [done|].
      intros t u o md Hin. by apply elem_of_nil in Hin.
Qed.

(** Whatever the page has called, the owner index is well formed: no
    component is listed twice; a component is listed exactly when
    [getComponentUrls] has a URL for it, so a set emptied by a release is
    pruned; no set lists a URL twice; and no URL is in the sets of two
    components. *)
Theorem history_owner_index_shape (cs : list Call) :
  let w := history cs in
  NoDup (JsMap.keys (urlsByComponent (manager w))) ∧
  (∀ c, JsMap.has c (urlsByComponent (manager w)) = true ↔ getComponentUrls c w ≠ []) ∧
  (∀ c, NoDup (getComponentUrls c w)) ∧
  (∀ c1 c2 u, u ∈ getComponentUrls c1 w → u ∈ getComponentUrls c2 w → c1 = c2).
Proof.
  intros w. destruct (history_tables cs) as (_ & _ & (Hkeys & Hsets & Hdisj) & _).
  fold w in Hkeys, Hsets, Hdisj.
  split; [done|]. split; [|split].
  - intros c. unfold getComponentUrls. rewrite has_true. split.
    + intros [s Hs]. rewrite Hs. simpl. apply get_Some_elem in Hs. by apply (Hsets c s).
    + destruct (JsMap.get c (urlsByComponent (manager w))) as [s|]; [by eexists | done].
  - intros c. unfold getComponentUrls.
    destruct (JsMap.get c (urlsByComponent (manager w))) as [s|] eqn:Hs; simpl.
    + apply get_Some_elem in Hs. by apply (Hsets c s).
    + apply NoDup_nil_2.
  - intros c1 c2 u (s1 & Hin1 & Hu1)%getComponentUrls_elem (s2 & Hin2 & Hu2)%getComponentUrls_elem.
    by eapply Hdisj.
Qed.

(** When no creation overrode [componentId]: [getComponentUrls c] lists
    exactly the tracked URLs whose entry names [c], so an indexed URL is
    tracked and a tracked URL can be reached through its owner. *)
Theorem plain_history_component_urls_exact (cs : list Call) (c u : string) :
  forallb plain cs = true →
  u ∈ getComponentUrls c (history cs) ↔
  ∃ md, getUrlMetadata u (history cs) = Some md ∧ componentId md = c.
Proof.
  intros Hplain. destruct (history_tables cs) as (_ & _ & _ & Hsound).
  destruct (Hsound Hplain) as (Hagree & Hindexed & Htracked & _). split.
  - intros (s & Hin & Hu)%getComponentUrls_elem.
    destruct (Hindexed c s u Hin Hu) as [md Hget]. exists md. split; [done|].
    by eapply Hagree.
  - intros (md & Hget & <-). by apply Htracked.
Qed.

Lemma plain_history_component_urls_exact_witness :
  "blob:1" ∈ getComponentUrls "comp2"
               (history [CreateBlobUrl (Some wavBlob) (Some "comp1") noMetadata;
                         CreateBlobUrl (Some wavBlob) (Some "comp2") noMetadata]) ↔
  ∃ md, getUrlMetadata "blob:1"
          (history [CreateBlobUrl (Some wavBlob) (Some "comp1") noMetadata;
                    CreateBlobUrl (Some wavBlob) (Some "comp2") noMetadata]) = Some md ∧
        componentId md = "comp2".
Proof.
  apply (plain_history_component_urls_exact
           [CreateBlobUrl (Some wavBlob) (Some "comp1") noMetadata;
            CreateBlobUrl (Some wavBlob) (Some "comp2") noMetadata] "comp2" "blob:1").
  reflexivity.
Defined.

Lemma filedUnder_nil key k l :
  filedUnder key k l = [] ↔ ∀ e, e ∈ l → key e.2 ≠ k.
Proof.
  unfold filedUnder. induction l as [|e l IH].
  - split; [by intros _ e ?%elem_of_nil | done].
  - rewrite filter_cons. destruct (decide (key e.2 = k)) as [Hk|Hk].
    + split; [done|]. intros Hall. destruct (Hall e); [apply list_elem_of_here | done].
    + rewrite IH. split.
      * intros Hall e' [->|Hin]%elem_of_cons; [done | by apply Hall].
      * intros Hall e' Hin. apply Hall. by apply list_elem_of_further.
Qed.

(** No URL has two entries: [Map.set] replaces, it never adds a second
    entry for a key. *)
Lemma revokeBlobUrl_distinct url w :
  NoDup (JsMap.keys (activeUrls (manager w))) →
  NoDup (JsMap.keys (activeUrls (manager (exec (revokeBlobUrl url) w)))).
Proof.
  intros Hnd. destruct url as [url|]; [|done]. unfold exec.
  destruct (revokeBlobUrl_cases url w) as [Hf|[[Hpre Hget]|[Hpre [md Hget]]]].
  - by rewrite revokeBlobUrl_foreign.
  - by rewrite revokeBlobUrl_untracked.
  - rewrite (revokeBlobUrl_tracked url md) by done. simpl. by apply NoDup_keys_set.
Qed.

Lemma revokeAll_distinct l w :
  NoDup (JsMap.keys (activeUrls (manager w))) →
  NoDup (JsMap.keys (activeUrls (manager (revokeAll l w)))).
Proof.
  revert w. induction l as [|url l IH]; intros w Hnd; [done|].
  unfold revokeAll in *. simpl. by apply IH, (revokeBlobUrl_distinct (Some url)).
Qed.

Lemma fireAll_distinct l w :
  NoDup (JsMap.keys (activeUrls (manager w))) →
  NoDup (JsMap.keys (activeUrls (manager (fireAll l w)))).
Proof.
  revert w. induction l as [|t l IH]; intros w Hnd; [done|].
  unfold fireAll in *. simpl. apply IH. unfold exec. rewrite fireTask_eq. cbn [snd manager].
  destruct (task t) as [u|u o]; simpl; [done|]. unfold untrackByComponent, untrackUrl. simpl.
  destruct (JsMap.get o (urlsByComponent (manager w))); simpl; by apply NoDup_keys_delete.
Qed.

Lemma cleanupOldUrls_distinct maxAge w :
  NoDup (JsMap.keys (activeUrls (manager w))) →
  NoDup (JsMap.keys (activeUrls (manager (exec (cleanupOldUrls maxAge) w)))).
Proof.
  intros Hnd. destruct (cleanupOldUrls_state maxAge w) as (-> & _). by apply revokeAll_distinct.
Qed.

Lemma advance_distinct dt w :
  NoDup (JsMap.keys (activeUrls (manager w))) →
  NoDup (JsMap.keys (activeUrls (manager (exec (advance dt) w)))).
Proof.
  intros Hnd.
  apply (advance_steps (λ w1, NoDup (JsMap.keys (activeUrls (manager w1))))); [| | | |done].
  - intros w1 now Hnd1. unfold exec. rewrite runTimers_eq. cbn [snd]. by apply fireAll_distinct.
  - intros w1 now _ HP. exact HP.
  - intros w1. apply cleanupOldUrls_distinct.
  - intros w1 s HP. exact HP.
Qed.

Lemma perform_distinct c w :
  NoDup (JsMap.keys (activeUrls (manager w))) →
  NoDup (JsMap.keys (activeUrls (manager (exec (perform c) w)))).
Proof.
  intros Hnd. destruct c as [blob o md|url|url|o|url cb| |maxAge|dt|lvl msg|cb0]; simpl.
  - unfold exec, bind, ret. destruct (refusal blob) as [e|] eqn:Href.
    + by rewrite (createBlobUrl_refused _ _ _ _ e Href).
    + apply refusal_None in Href as (b & sz & -> & Hsz & Hnz & Hb).
      rewrite (createBlobUrl_accepted b sz) by done. cbn [snd manager].
      unfold trackByComponent, trackUrl. simpl. by apply NoDup_keys_set.
  - unfold exec. destruct (getUrlMetadata url w) as [md|] eqn:Hget.
    + rewrite (markUrlAccessed_tracked url md) by done. simpl. by apply NoDup_keys_set.
    + by rewrite markUrlAccessed_untracked.
  - by apply revokeBlobUrl_distinct.
  - unfold exec. rewrite revokeComponentUrls_eq. cbn [snd].
    destruct (JsMap.get o (urlsByComponent (manager w))) as [s|]; [|done].
    by apply revokeAll_distinct.
  - destruct cb as [f|]; [|done]. unfold exec, registerCleanupCallback. by run_js.
  - unfold exec. rewrite cleanup_eq. simpl. apply NoDup_nil_2.
  - by apply cleanupOldUrls_distinct.
  - by apply advance_distinct.
  - done.
  - unfold exec, call. run_js. by destruct (cb_throws cb0).
Qed.

Lemma history_entries_distinct (cs : list Call) :
  NoDup (JsMap.keys (activeUrls (manager (history cs)))).
Proof.
  unfold history.
  assert (∀ w, NoDup (JsMap.keys (activeUrls (manager w))) →
               NoDup (JsMap.keys (activeUrls (manager (foldl (λ w c, exec (perform c) w) w cs)))))
    as Hall.
  { induction cs as [|c cs IH]; intros w Hnd; [done|]. simpl. by apply IH, perform_distinct. }
  apply Hall. apply NoDup_nil_2.
Qed.

Lemma list_no_elem {A} (l : list A) : (∀ x, x ∉ l) → l = [].
Proof. destruct l as [|x l]; [done|]. intros H. destruct (H x). apply list_elem_of_here. Qed.

Lemma length_filter_split {A} (P : A → Prop) `{∀ x, Decision (P x)} (l : list A) :
  length l = (length (filter P l) + length (filter (λ x, ¬ P x) l))%nat.
Proof.
  induction l as [|x l IH]; [done|]. rewrite !filter_cons.
  destruct (decide (P x)); [rewrite decide_False by tauto | rewrite decide_True by tauto];
    simpl; lia.
Qed.

(** When no creation overrode [componentId], the two component counts of
    [getStats] agree up to the components that get no bucket:
    [totalComponents], taken from the owner index, is the number of keys of
    [byComponent], taken from the entries, plus the number of components in
    the index whose name is a member of [Object.prototype]. *)
Theorem plain_history_stats_components_agree (cs : list Call) :
  forallb plain cs = true →
  let w := history cs in
  let components := JsMap.keys (urlsByComponent (manager w)) in
  totalComponents (getStats w)
  = (base.size (dom (byComponent (getStats w)))
     + length (filter (λ c, inherited c = true) components))%nat ∧
  ((∀ c, c ∈ components → inherited c = false) →
   totalComponents (getStats w) = base.size (dom (byComponent (getStats w)))).
Proof.
  intros Hplain w components. pose proof (history_entries_distinct cs) as Hdistinct.
  destruct (history_tables cs) as (_ & _ & (Hkeys & Hsets & _) & Hsound).
  destruct (Hsound Hplain) as (Hagree & Hindexed & Htracked & _).
  fold w in Hdistinct, Hkeys, Hsets, Hagree, Hindexed, Htracked. fold components in Hkeys.
  assert (totalComponents (getStats w) = length components) as Htotal.
  { unfold getStats.
    match goal with |- context [foldl countEntry ?st ?l] =>
      destruct (getStats_fold l st) as (_ & -> & _) end.
    subst components. unfold JsMap.size, JsMap.keys. simpl. by rewrite length_fmap. }
  assert (dom (byComponent (getStats w))
          = list_to_set (C := gset string) (filter (λ c, ¬ inherited c = true) components))
    as Hdom.
  { unfold getStats.
    match goal with |- context [foldl countEntry ?st ?l] =>
      destruct (getStats_fold l st) as (_ & _ & _ & -> & _) end.
    cbn [byComponent].
    apply set_eq. intros c.
    rewrite elem_of_dom, bucketOf_from_empty, elem_of_list_to_set, list_elem_of_filter.
    unfold bucketOf. destruct (inherited c) eqn:Hc; [split; [by intros [? ?] | by intros [? _]]|].
    split.
    - destruct (filedUnder componentId c (activeUrls (manager w))) as [|e sel] eqn:Hsel;
        [by intros [? ?]|]. intros _. split; [done|].
      assert (e ∈ filedUnder componentId c (activeUrls (manager w))) as Hin
        by (rewrite Hsel; apply list_elem_of_here).
      unfold filedUnder in Hin. apply list_elem_of_filter in Hin as [Hce Hin].
      destruct e as [u md]. simpl in Hce.
      assert (getUrlMetadata u w = Some md) as Hget by (by apply elem_get).
      apply Htracked in Hget. rewrite Hce in Hget.
      apply getComponentUrls_elem in Hget as (s & Hs & _).
      subst components. unfold JsMap.keys. apply list_elem_of_fmap. by exists (c, s).
    - intros [_ ([c' s] & -> & Hin)%list_elem_of_fmap]. simpl in *.
      destruct (Hsets c' s Hin) as [Hne _]. destruct s as [|u s]; [done|].
      destruct (Hindexed c' (u :: s) u Hin) as [md Hget]; [apply list_elem_of_here|].
      assert (componentId md = c') as Hcm
        by (eapply Hagree; [done | apply list_elem_of_here | done]).
      destruct (filedUnder componentId c' (activeUrls (manager w))) as [|e sel] eqn:Hsel;
        [|by eexists].
      exfalso. rewrite filedUnder_nil in Hsel. apply (Hsel (u, md)); [|done].
      by apply get_Some_elem. }
  assert (base.size (dom (byComponent (getStats w)))
          = length (filter (λ c, ¬ inherited c = true) components)) as Hsize.
  { rewrite Hdom. apply size_list_to_set. by apply NoDup_filter. }
  split.
  - rewrite Htotal, Hsize, (length_filter_split (λ c, inherited c = true) components). lia.
  - intros Hnone. rewrite Htotal, Hsize.
    rewrite (length_filter_split (λ c, inherited c = true) components).
    assert (filter (λ c, inherited c = true) components = []) as ->; [|done].
    apply list_no_elem. intros c [Hc Hin]%list_elem_of_filter.
    rewrite (Hnone c Hin) in Hc. done.
Qed.

Lemma plain_history_stats_components_agree_witness :
  let w := history [CreateBlobUrl (Some wavBlob) (Some "comp1") noMetadata;
                    CreateBlobUrl (Some wavBlob) (Some "constructor") noMetadata;
                    CreateBlobUrl (Some wavBlob) (Some "comp1") noMetadata] in
  totalComponents (getStats w) = 2%nat ∧ base.size (dom (byComponent (getStats w))) = 1%nat.
Proof.
  destruct (plain_history_stats_components_agree
              [CreateBlobUrl (Some wavBlob) (Some "comp1") noMetadata;
               CreateBlobUrl (Some wavBlob) (Some "constructor") noMetadata;
               CreateBlobUrl (Some wavBlob) (Some "comp1") noMetadata]) as [Hsum _];
    [reflexivity|].
  split; [reflexivity|]. cbv zeta in Hsum.
  change (totalComponents _) with 2%nat in Hsum.
  change (length (filter _ _)) with 1%nat in Hsum. lia.
Defined.

(** ** A component that is torn down *)

Lemma history_snoc cs c : history (cs ++ [c]) = exec (perform c) (history cs).
Proof. unfold history. by rewrite foldl_app. Qed.

Lemma plain_snoc cs c : forallb plain cs = true → plain c = true → forallb plain (cs ++ [c]) = true.
Proof. intros Hcs Hc. rewrite forallb_app, Hcs. simpl. by rewrite Hc. Qed.


(** ** A URL that comes and goes *)


Lemma getStats_tables w w' :
  activeUrls (manager w') = activeUrls (manager w) →
  urlsByComponent (manager w') = urlsByComponent (manager w) →
  getStats w' = getStats w.
Proof. unfold getStats. by intros -> ->. Qed.

(** Among validations and releases of one URL, the releases count once. *)
Lemma foldl_single_release url o l m :
  (∀ t, t ∈ l → task t = ReleaseTask url o ∨ ∃ u, task t = ValidateTask u) →
  foldl (λ m t, taskManager (task t) m) m l =
    if existsb (λ t, isReleaseOf url (task t)) l then taskManager (ReleaseTask url o) m else m.
Proof.
  revert m. induction l as [|t l IH]; intros m Hl; [done|].
  cbn [foldl existsb]. rewrite IH by (intros t' Ht'; apply Hl; by apply list_elem_of_further).
  destruct (Hl t) as [Ht|[u Ht]]; [apply list_elem_of_here| |]; rewrite Ht.
  - cbn [isReleaseOf]. rewrite bool_decide_eq_true_2 by done. cbn [orb].
    destruct (existsb _ l); [apply release_twice | done].
  - done.
Qed.

(** The release of a URL that was the last thing added undoes the
    addition to the owner index. *)
Lemma untrack_tracked owner url m :
  (∀ s, (owner, s) ∈ urlsByComponent m → s ≠ [] ∧ url ∉ s) →
  urlsByComponent (untrackByComponent owner url (trackByComponent owner url m))
  = urlsByComponent m.
Proof.
  intros Hs. unfold untrackByComponent. rewrite trackByComponent_get, decide_True by done.
  unfold trackByComponent. cbn [urlsByComponent].
  destruct (JsMap.get owner (urlsByComponent m)) as [s0|] eqn:Hs0.
  - assert (JsMap.has owner (urlsByComponent m) = true) as -> by (apply has_true; by eexists).
    destruct (Hs s0) as [Hne Hfresh]; [by apply get_Some_elem|].
    rewrite Hs0. cbn [default]. rewrite set_add_fresh, set_delete_added by done.
    rewrite decide_False by (by destruct s0). rewrite set_set. by apply set_same.
  - assert (JsMap.has owner (urlsByComponent m) = false) as -> by (by apply has_false).
    rewrite get_set_eq, set_set. simpl. unfold JsSet.add, JsSet.has.
    rewrite bool_decide_eq_false_2 by apply not_elem_of_nil.
    simpl. destruct (decide (url = url)); [|done]. simpl. by apply delete_set_absent.
Qed.

(** Before the next periodic sweep, the manager after a wait is the
    manager the timers that were due leave. *)
Lemma advance_manager_quiet dt w :
  clock w + Z.of_N dt < nextSweep w →
  manager (exec (advance dt) w)
  = foldl (λ m t, taskManager (task t) m) (manager w)
      (filter (λ t, due t ≤ clock w + Z.of_N dt) (timers w)).
Proof.
  intros Hq. unfold exec. rewrite (advance_quiet dt w Hq). cbn [snd]. by rewrite fireAll_manager.
Qed.

(** A round trip.  Whatever the page has called before: when no release
    is pending, creating a URL without overriding [componentId], revoking it
    and letting 50 ms or more pass, up to the next periodic sweep, gives
    back the table of entries and the owner index as they were, in the same
    order, and so the same statistics; of the callbacks, one registered ahead
    under that URL is gone.  (A sweep that falls in the wait revokes the
    entries older than an hour, which are then gone as well.) *)
Theorem create_revoke_round_trip
    (cs : list Call) (b : BlobLike) (sz : Z) (o : option string) (md : Metadata) (dt : N) :
  blob_size b = Some sz → sz ≠ 0 → is_blob b = true →
  plain (CreateBlobUrl (Some b) o md) = true →
  noReleasePending (history cs) = true → (50 ≤ dt)%N →
  clock (history cs) + Z.of_N dt < nextSweep (history cs) →
  let w := history cs in
  let url := objectUrl (nextObjectUrl w) in
  let w' := exec (advance dt) (exec (revokeBlobUrl (Some url))
                                 (exec (createBlobUrl (Some b) o md) w)) in
  activeUrls (manager w') = activeUrls (manager w) ∧
  urlsByComponent (manager w') = urlsByComponent (manager w) ∧
  cleanupCallbacks (manager w') = JsMap.delete url (cleanupCallbacks (manager w)) ∧
  getStats w' = getStats w.
Proof.
  intros Hsz Hnz Hb Hplain Hquiet Hdt Hsweep w url w'.
  destruct (history_tables cs) as (Hminted & _ & (_ & Hsets & _) & _).
  destruct (next_url_fresh w Hminted) as [Hnone Hfresh]. fold w url in Hsets, Hnone, Hfresh.
  set (owner := default "unknown" o).
  set (md0 := trackedMetadata (newBlobOf b) b owner (clock w) (clock w) sz md).
  assert (componentId md0 = owner) as Hmine.
  { subst md0 owner. simpl in *. destruct (m_componentId md) as [c'|]; simpl; [|done].
    by apply bool_decide_eq_true in Hplain. }
  assert (manager w' =
          mkManager (activeUrls (manager w)) (urlsByComponent (manager w))
            (JsMap.delete url (cleanupCallbacks (manager w)))) as Hm.
  { subst w'.
    assert (exec (revokeBlobUrl (Some url)) (exec (createBlobUrl (Some b) o md) w)
            = (revokeBlobUrl (Some url) (createBlobUrl (Some b) o md w).2).2) as -> by done.
    rewrite (createBlobUrl_accepted b sz) by done. cbn [snd]. fold w url owner md0.
    rewrite (revokeBlobUrl_tracked url md0);
      [|apply objectUrl_prefix
       |unfold getUrlMetadata, trackByComponent, trackUrl; simpl; apply get_set_eq].
    cbn [snd manager timers clock nextSweep]. rewrite advance_manager_quiet by done.
    cbn [snd manager timers clock].
    rewrite (foldl_single_release url (componentId md0)).
    - match goal with |- context [existsb ?f ?l] =>
        assert (existsb f l = true) as -> end.
      { apply existsb_exists.
        exists (mkTimer (clock w + 50) (ReleaseTask url (componentId md0))). split.
        - apply list_elem_of_In, list_elem_of_filter. split; [simpl; lia|].
          apply elem_of_insertTimer.
        - simpl. by apply bool_decide_eq_true. }
      rewrite Hmine. cbn [taskManager].
      unfold untrackUrl. cbn [activeUrls urlsByComponent cleanupCallbacks trackByComponent].
      assert (∀ m1 m2, activeUrls m1 = activeUrls m2 → cleanupCallbacks m1 = cleanupCallbacks m2 →
                urlsByComponent m1 = urlsByComponent m2 → m1 = m2) as Hext.
      { intros [a1 i1 c1] [a2 i2 c2]. simpl. by intros -> -> ->. }
      apply Hext.
      + unfold untrackByComponent. cbn [urlsByComponent activeUrls].
        match goal with |- activeUrls (match ?x with _ => _ end) = _ => destruct x end;
          cbn [activeUrls trackUrl]; by rewrite set_set, delete_set_absent.
      + unfold untrackByComponent. cbn [urlsByComponent cleanupCallbacks].
        match goal with |- cleanupCallbacks (match ?x with _ => _ end) = _ => destruct x end;
          done.
      + cbn [urlsByComponent].
        pose proof (untrack_tracked owner url (manager w)) as Hback.
        unfold trackByComponent, untrackByComponent in *. cbn [urlsByComponent trackUrl] in *.
        etrans; [|apply Hback].
        * match goal with |- urlsByComponent (match ?x with _ => _ end) = _ => destruct x end;
            done.
        * intros s Hs. split; [by apply (Hsets owner s) | by apply (Hfresh owner s)].
    - intros t [_ [->|[->|Hin]%elem_of_insertTimer_iff]%elem_of_insertTimer_iff]%list_elem_of_filter.
      + by left.
      + right. by eexists.
      + right. unfold noReleasePending in Hquiet. rewrite forallb_forall in Hquiet.
        specialize (Hquiet t). apply list_elem_of_In in Hin. specialize (Hquiet Hin).
        destruct (task t) as [u|u o']; [by eexists | done]. }
  rewrite Hm. cbn [activeUrls urlsByComponent cleanupCallbacks].
  split; [done|]. split; [done|]. split; [done|].
  apply getStats_tables; by rewrite Hm.
Qed.

Lemma create_revoke_round_trip_witness :
  let w := history [CreateBlobUrl (Some wavBlob) (Some "comp1") noMetadata] in
  let w' := exec (advance 50) (exec (revokeBlobUrl (Some "blob:1"))
                                 (exec (createBlobUrl (Some wavBlob) (Some "comp1") noMetadata) w)) in
  activeUrls (manager w') = activeUrls (manager w) ∧
  urlsByComponent (manager w') = urlsByComponent (manager w) ∧
  getStats w' = getStats w.
Proof.
  destruct (create_revoke_round_trip
              [CreateBlobUrl (Some wavBlob) (Some "comp1") noMetadata]
              wavBlob 1024 (Some "comp1") noMetadata 50)
    as (Hentries & Hindex & _ & Hstats);
    [reflexivity | lia | reflexivity | reflexivity | reflexivity | lia | reflexivity |].
  exact (conj Hentries (conj Hindex Hstats)).
Defined.

(** ** A URL created under another name *)

Lemma untrackByComponent_other owner url m c :
  c ≠ owner →
  JsMap.get c (urlsByComponent (untrackByComponent owner url m)) = JsMap.get c (urlsByComponent m).
Proof.
  intros Hne. unfold untrackByComponent.
  destruct (JsMap.get owner (urlsByComponent m)) as [s|]; simpl; [|done].
  destruct (decide (JsSet.size (JsSet.delete url s) = 0%nat));
    [by rewrite get_delete_ne | by rewrite get_set_ne].
Qed.

(** A timer function that is not the release of [x] for the component [A]
    leaves [x] in the set of [A]. *)
Lemma fireTask_keeps_indexed k x A w :
  (∀ u o, k = ReleaseTask u o → u ≠ x ∨ o ≠ A) →
  x ∈ getComponentUrls A w → x ∈ getComponentUrls A (exec (fireTask k) w).
Proof.
  intros Hk Hx. unfold exec, getComponentUrls in *. rewrite fireTask_eq. cbn [snd manager].
  destruct k as [u|u o]; [done|]. cbn [taskManager].
  destruct (Hk u o eq_refl) as [Hu|Ho].
  - apply untrackByComponent_elem; done.
  - by rewrite untrackByComponent_other.
Qed.

Lemma fireAll_keeps_indexed l x A w :
  (∀ t u o, t ∈ l → task t = ReleaseTask u o → u ≠ x ∨ o ≠ A) →
  x ∈ getComponentUrls A w → x ∈ getComponentUrls A (fireAll l w).
Proof.
  revert w. induction l as [|t l IH]; intros w Hl Hx; [done|].
  unfold fireAll in *. simpl. apply IH.
  - intros t' u o Hin. apply Hl. by apply list_elem_of_further.
  - apply fireTask_keeps_indexed; [|done]. intros u o Htask.
    eapply Hl; [apply list_elem_of_here | done].
Qed.

(** A timer that is pending after a wait is due later than its end; it was
    pending before, or it is the release of a URL that was tracked, carrying
    the component of its entry. *)
Lemma advance_timers_late dt w t :
  t ∈ timers (exec (advance dt) w) →
  clock w + Z.of_N dt < due t ∧
  (t ∈ timers w ∨
   ∃ u md, task t = ReleaseTask u (componentId md) ∧ getUrlMetadata u w = Some md).
Proof.
  intros Hin. split.
  - unfold exec in Hin. rewrite advance_eq in Hin. cbn [snd] in Hin.
    rewrite fireAll_timers in Hin. cbn [timers] in Hin.
    by apply list_elem_of_filter in Hin as [Hlate _].
  - revert t Hin.
    enough ((∀ u md', getUrlMetadata u (exec (advance dt) w) = Some md' →
               ∃ md, getUrlMetadata u w = Some md ∧ componentId md' = componentId md) ∧
            ∀ t, t ∈ timers (exec (advance dt) w) → t ∈ timers w ∨
               ∃ u md, task t = ReleaseTask u (componentId md) ∧ getUrlMetadata u w = Some md)
      as [_ H]; [exact H|].
    apply (advance_steps (λ w1, (∀ u md', getUrlMetadata u w1 = Some md' →
                                   ∃ md, getUrlMetadata u w = Some md ∧
                                         componentId md' = componentId md) ∧
                                ∀ t, t ∈ timers w1 → t ∈ timers w ∨
             ∃ u md, task t = ReleaseTask u (componentId md) ∧ getUrlMetadata u w = Some md)).
    + intros w1 now [He HP]. split.
      * intros u md' Hget. destruct (runTimers_shrinks now w1) as (_ & Hback & _).
        destruct (Hback u md' Hget) as (md1 & Hget1 & Hc1).
        destruct (He u md1 Hget1) as (md & Hget0 & Hc). exists md. split; [done | congruence].
      * intros t. unfold exec. rewrite runTimers_eq. cbn [snd].
        rewrite fireAll_timers. cbn [timers]. intros [_ Hin]%list_elem_of_filter. by apply HP.
    + intros w1 now _ HP. exact HP.
    + intros w1 [He HP]. split.
      * intros u md' Hget. destruct (cleanupOldUrls_shrinks None w1) as (_ & Hback & _).
        destruct (Hback u md' Hget) as (md1 & Hget1 & Hc1).
        destruct (He u md1 Hget1) as (md & Hget0 & Hc). exists md. split; [done | congruence].
      * intros t. destruct (cleanupOldUrls_state None w1) as (_ & Ht & _). rewrite Ht.
        match goal with |- context [revokeAll ?l w1] =>
          destruct (revokeAll_touches l w1) as (_ & _ & _ & _ & Hnew) end.
        intros [Hold|(u & md1 & Htask & Hget1)]%Hnew; [by apply HP|].
        right. destruct (He u md1 Hget1) as (md & Hget0 & Hc). exists u, md.
        split; [by rewrite <- Hc | done].
    + intros w1 s HP. exact HP.
    + split; [intros u md' Hget; by exists md' | intros t Hin; by left].
Qed.

(** A URL stays in the set of a component through a wait when no pending
    release would take it out and its entry, if any, names another
    component: the releases a sweep sets carry the component of the entry. *)
Lemma advance_keeps_indexed dt x A w :
  x ∈ getComponentUrls A w →
  (∀ t u o, t ∈ timers w → task t = ReleaseTask u o → u ≠ x ∨ o ≠ A) →
  (∀ md, getUrlMetadata x w = Some md → componentId md ≠ A) →
  x ∈ getComponentUrls A (exec (advance dt) w).
Proof.
  intros Hx Htimers Hentry.
  enough (x ∈ getComponentUrls A (exec (advance dt) w) ∧
          (∀ t u o, t ∈ timers (exec (advance dt) w) → task t = ReleaseTask u o → u ≠ x ∨ o ≠ A) ∧
          (∀ md, getUrlMetadata x (exec (advance dt) w) = Some md → componentId md ≠ A))
    as (H & _); [exact H|].
  apply (advance_steps
           (λ w1, x ∈ getComponentUrls A w1 ∧
                  (∀ t u o, t ∈ timers w1 → task t = ReleaseTask u o → u ≠ x ∨ o ≠ A) ∧
                  (∀ md, getUrlMetadata x w1 = Some md → componentId md ≠ A)));
    [| | | |done].
  - intros w1 now (Hx1 & Ht1 & He1). split; [|split].
    + unfold exec. rewrite runTimers_eq. cbn [snd]. apply fireAll_keeps_indexed; [|done].
      intros t u o [_ Hin]%list_elem_of_filter. by apply Ht1.
    + intros t u o. unfold exec. rewrite runTimers_eq. cbn [snd].
      rewrite fireAll_timers. cbn [timers]. intros [_ Hin]%list_elem_of_filter. by apply Ht1.
    + intros md Hget. destruct (runTimers_shrinks now w1) as (_ & Hback & _).
      destruct (Hback x md Hget) as (md1 & Hget1 & ->). by apply He1.
  - intros w1 now _ HP. exact HP.
  - intros w1 (Hx1 & Ht1 & He1).
    destruct (cleanupOldUrls_touches None w1) as (Hi & _ & Hback & _ & Hnew).
    split; [|split].
    + unfold getComponentUrls in *. by rewrite Hi.
    + intros t u o [Hold|(u' & md' & Htask' & Hget')]%Hnew Htask; [by eapply Ht1|].
      rewrite Htask in Htask'. simplify_eq.
      destruct (decide (u' = x)) as [->|Hne]; [right; by apply He1 | by left].
    + intros md Hget. destruct (Hback x md Hget) as (md1 & Hget1 & ->). by apply He1.
  - intros w1 s HP. exact HP.
Qed.

(** A creation whose [metadata] names another component than the one the
    URL is created for leaves a stale index entry behind.  Whatever the page
    has called before: after the URL is revoked and released it is no longer
    tracked, yet it stays in the set of the component it was created for, and
    a later [revokeComponentUrls] of that component does not remove it
    either, however much time passes. *)
Theorem componentId_override_leaks_index_entry
    (cs : list Call) (b : BlobLike) (sz : Z) (o : option string) (md : Metadata)
    (B : string) (dt dt' : N) :
  blob_size b = Some sz → sz ≠ 0 → is_blob b = true →
  m_componentId md = Some B → B ≠ default "unknown" o → (50 ≤ dt)%N →
  let w := history cs in
  let url := objectUrl (nextObjectUrl w) in
  let owner := default "unknown" o in
  let w' := exec (advance dt) (exec (revokeBlobUrl (Some url))
                                 (exec (createBlobUrl (Some b) o md) w)) in
  let w'' := exec (advance dt') (exec (revokeComponentUrls owner) w') in
  isUrlActive url w' = false ∧
  url ∈ getComponentUrls owner w' ∧
  url ∈ getComponentUrls owner w''.
Proof.
  intros Hsz Hnz Hb Hover Hne Hdt w url owner w' w''.
  destruct (history_tables cs) as (Hminted & [_ Hpending] & _). fold w in Hminted, Hpending.
  destruct (next_url_fresh w Hminted) as [Hnone _]. fold url in Hnone.
  assert (∀ t u o', t ∈ timers w → task t = ReleaseTask u o' → u ≠ url) as Hold.
  { intros t u o' Hin Htask ->.
    destruct (Hpending t _ _ Hin Htask) as (k & Hk & Heq%objectUrl_inj). lia. }
  set (md0 := trackedMetadata (newBlobOf b) b owner (clock w) (clock w) sz md).
  assert (componentId md0 = B) as Hmine by (subst md0; simpl; by rewrite Hover).
  set (w1 := exec (createBlobUrl (Some b) o md) w) in *.
  set (w2 := exec (revokeBlobUrl (Some url)) w1) in *.
  assert (getUrlMetadata url w1 = Some md0 ∧ url ∈ getComponentUrls owner w1 ∧
          clock w1 = clock w ∧
          ∀ t, t ∈ timers w1 → t ∈ timers w ∨ ∃ u, task t = ValidateTask u) as (Hget1 & Hin1 & Hc1 & Ht1).
  { subst w1. unfold exec, getUrlMetadata, getComponentUrls.
    rewrite (createBlobUrl_accepted b sz) by done. cbn [snd manager timers clock].
    fold w url owner md0. split; [|split; [|split; [done|]]].
    - unfold trackByComponent, trackUrl. simpl. apply get_set_eq.
    - rewrite trackByComponent_get, decide_True by done. simpl. apply set_add_elem.
    - intros t [->|Hin]%elem_of_insertTimer_iff; [right; by eexists | by left]. }
  assert (timers w2 = insertTimer (mkTimer (clock w + 50) (ReleaseTask url B)) (timers w1) ∧
          urlsByComponent (manager w2) = urlsByComponent (manager w1) ∧ clock w2 = clock w ∧
          getUrlMetadata url w2 = Some (deactivated md0))
    as (Ht2 & Hi2 & Hc2 & Hget2).
  { subst w2. unfold exec. rewrite (revokeBlobUrl_tracked url md0);
      [|apply objectUrl_prefix | done]. cbn [snd manager timers clock urlsByComponent].
    rewrite Hmine, Hc1. split; [done|]. split; [done|]. split; [done|].
    unfold getUrlMetadata. simpl. apply get_set_eq. }
  assert (∀ t u o', t ∈ timers w2 → task t = ReleaseTask u o' → u ≠ url ∨ o' ≠ owner) as Ht2'.
  { intros t u o' Hin Htask. rewrite Ht2 in Hin.
    apply elem_of_insertTimer_iff in Hin as [->|Hin].
    - simpl in Htask. simplify_eq. by right.
    - left. destruct (Ht1 t Hin) as [Hw|[u' Hv]]; [by eapply Hold | congruence]. }
  assert (getUrlMetadata url w' = None ∧ url ∈ getComponentUrls owner w') as [Hgone Hin'].
  { subst w'. split.
    - destruct (advance_removes dt url B w2) as [Hgone _]; [|done].
      left. exists (mkTimer (clock w + 50) (ReleaseTask url B)).
      split; [rewrite Ht2; apply elem_of_insertTimer|]. split; [done|].
      rewrite Hc2. simpl. lia.
    - apply advance_keeps_indexed; [|done|].
      + unfold getComponentUrls in *. by rewrite Hi2.
      + intros md'. rewrite Hget2. intros [= <-]. change (componentId md0 ≠ owner).
        by rewrite Hmine. }
  split; [by apply has_false|]. split; [done|].
  (* the later teardown of the component *)
  pose proof (perform_touches (RevokeComponentUrls owner) w') as (Hi3 & _ & Hb3 & _ & Ht3).
  cbn [perform] in Hi3, Hb3, Ht3.
  subst w''. apply advance_keeps_indexed.
  - unfold getComponentUrls in *. by rewrite Hi3.
  - intros t u o' Hin Htask.
    apply Ht3 in Hin as [Hin|(u' & md' & Htask' & Hget')].
    + subst w'. apply advance_timers_late in Hin as [_ [Hin|(u' & md' & Htask' & Hget')]].
      * by eapply Ht2'.
      * rewrite Htask in Htask'. injection Htask' as -> ->.
        destruct (decide (u' = url)) as [->|Hneq]; [|by left].
        right. rewrite Hget2 in Hget'. injection Hget' as <-.
        change (componentId md0 ≠ owner). by rewrite Hmine.
    + rewrite Htask in Htask'. simplify_eq. left. intros ->. congruence.
  - intros md' Hget'. destruct (Hb3 url md' Hget') as (md1 & Hget1' & _). congruence.
Qed.

Lemma componentId_override_leaks_index_entry_witness :
  let md := mkMetadata (Some "player") None None None None None None [] in
  let w' := exec (advance 50) (exec (revokeBlobUrl (Some "blob:0"))
                                 (exec (createBlobUrl (Some wavBlob) (Some "comp1") md)
                                    (history []))) in
  isUrlActive "blob:0" w' = false ∧
  "blob:0" ∈ getComponentUrls "comp1" w' ∧
  "blob:0" ∈ getComponentUrls "comp1"
               (exec (advance 1000) (exec (revokeComponentUrls "comp1") w')).
Proof.
  apply (componentId_override_leaks_index_entry [] wavBlob 1024 (Some "comp1")
           (mkMetadata (Some "player") None None None None None None []) "player" 50 1000);
    [reflexivity | lia | reflexivity | reflexivity | discriminate | lia].
Defined.

(** ** What the sweep of old URLs does *)

Lemma elem_of_oldUrls maxAge now (entries : JsMapOf UrlMetadata) u :
  u ∈ oldUrls maxAge now entries ↔ ∃ md, (u, md) ∈ entries ∧ maxAge < now - createdAt md.
Proof.
  unfold oldUrls. rewrite list_elem_of_fmap. split.
  - intros ([u' md] & -> & [Hold Hin]%list_elem_of_filter). by exists md.
  - intros (md & Hin & Hold). exists (u, md). split; [done|]. by apply list_elem_of_filter.
Qed.

Lemma cleanupOldUrls_sweeps (cs : list Call) (maxAge : option Z) :
  let w := history cs in
  let age := default (60 * 60 * 1000) maxAge in
  let w' := exec (cleanupOldUrls maxAge) w in
  urlsByComponent (manager w') = urlsByComponent (manager w) ∧
  (∀ u md, getUrlMetadata u w = Some md → clock w - createdAt md ≤ age →
     getUrlMetadata u w' = Some md ∧
     JsMap.get u (cleanupCallbacks (manager w')) = JsMap.get u (cleanupCallbacks (manager w))) ∧
  (∀ u md, getUrlMetadata u w = Some md → age < clock w - createdAt md →
     getUrlMetadata u w' = Some (deactivated md) ∧
     mkTimer (clock w + 50) (ReleaseTask u (componentId md)) ∈ timers w' ∧
     ∀ dt : N, (50 ≤ dt)%N → isUrlActive u (exec (advance dt) w') = false).
Proof.
  intros w age w'. pose proof (history_entries_distinct cs) as Hdistinct.
  destruct (history_tables cs) as ([Hminted _] & _). fold w in Hdistinct, Hminted.
  destruct (cleanupOldUrls_state maxAge w) as (Hm & Ht & Hc & _). fold w' age in Hm, Ht, Hc.
  set (l := oldUrls age (clock w) (activeUrls (manager w))) in *.
  destruct (revokeAll_frame l w) as (Hidx & Hclock & _ & _ & _ & Hframe).
  unfold getUrlMetadata in *. rewrite Hm. split; [done|]. split.
  - intros u md Hget Hyoung. rewrite <- Hget. apply Hframe.
    intros (md' & Hin & Hold)%elem_of_oldUrls.
    rewrite (elem_get _ _ _ Hdistinct Hin) in Hget. simplify_eq. lia.
  - intros u md Hget Hold.
    destruct (Hminted u md Hget) as (k & _ & ->).
    destruct (revokeAll_revokes l w (objectUrl k) md) as [Hdead Htimer];
      [|apply objectUrl_prefix | done |].
    { apply elem_of_oldUrls. exists md. split; [by apply get_Some_elem | done]. }
    rewrite Ht. split; [done|]. split; [done|].
    intros dt Hdt.
    apply (advance_releases dt (mkTimer (clock w + 50) (ReleaseTask (objectUrl k) (componentId md)))
             (objectUrl k) (componentId md)); [by rewrite Ht | done |].
    rewrite Hc, Hclock. simpl. lia.
Qed.


(** ** What [cleanup] leaves undone *)

Lemma runsOf_releases id urls : runsOf id (RevokeObjectURL <$> urls) = 0%nat.
Proof.
  apply runsOf_none. intros i (u & Heq & _)%list_elem_of_fmap. discriminate Heq.
Qed.

(** [cleanup] drops the cleanup callbacks without running any of them,
    now or later, and it leaves the timers in the queue: a release that was
    pending still fires and calls [URL.revokeObjectURL] on its URL once
    more. *)
Theorem cleanup_runs_no_callback (w : Browser) (id : nat) (dt : N) :
  let w' := exec cleanup w in
  runsOf id (trace w') = runsOf id (trace w) ∧
  runsOf id (trace (exec (advance dt) w')) = runsOf id (trace w) ∧
  (∀ url, JsMap.get url (cleanupCallbacks (manager (exec (advance dt) w'))) = None) ∧
  ∃ later : list Event,
    trace (exec (advance dt) w') = trace w' ++ later ∧
    ∀ t u o, t ∈ timers w → task t = ReleaseTask u o → due t ≤ clock w + Z.of_N dt →
             RevokeObjectURL u ∈ later.
Proof.
  intros w'.
  assert (manager w' = newBlobUrlManager ∧ timers w' = timers w ∧ clock w' = clock w ∧
          trace w' = trace w ++ (RevokeObjectURL <$> JsMap.keys (activeUrls (manager w))) ++
                     (if decide (0 < JsMap.size (activeUrls (manager w)))%nat
                      then [Console LogLevel "Cleaned up URLs on shutdown"] else []))
    as (Hm' & Ht' & Hc' & Htr').
  { subst w'. unfold exec. by rewrite cleanup_eq. }
  assert (runsOf id (trace w') = runsOf id (trace w)) as Hsame.
  { rewrite Htr', !runsOf_app, runsOf_releases.
    destruct (decide (0 < JsMap.size (activeUrls (manager w)))%nat); unfold runsOf; simpl; lia. }
  split; [done|].
  assert (∀ u cb, JsMap.get u (cleanupCallbacks (manager w')) = Some cb → cb_id cb ≠ id) as Hnone
    by (intros u cb; by rewrite Hm').
  split; [by rewrite (advance_runs id dt w' Hnone)|]. split.
  - intros url.
    destruct (JsMap.get url (cleanupCallbacks (manager (exec (advance dt) w')))) as [cb|] eqn:Hcb;
      [|done].
    apply advance_callbacks in Hcb. by rewrite Hm' in Hcb.
  - destruct (advance_trace dt w') as (later & Htr & Hrel). exists later. split; [done|].
    intros t u o Hin Htask Hdue. apply (Hrel t u o); [by rewrite Ht' | done | by rewrite Hc'].
Qed.

(** ** What a creation adds to the statistics *)


Lemma getStats_spec w :
  totalUrls (getStats w) = length (activeUrls (manager w)) ∧
  totalComponents (getStats w) = length (urlsByComponent (manager w)) ∧
  totalSize (getStats w) = sumSizes (activeUrls (manager w)) ∧
  byComponent (getStats w) = tallyAll componentId ∅ (activeUrls (manager w)) ∧
  byType (getStats w) = tallyAll (λ md, orUnknown (type md)) ∅ (activeUrls (manager w)).
Proof.
  unfold getStats.
  match goal with |- context [foldl countEntry ?st ?l] =>
    destruct (getStats_fold l st) as (H1 & H2 & H3 & H4 & H5) end.
  rewrite H1, H2, H3, H4, H5. simpl. by repeat split.
Qed.




(** ** Revoking what is gone *)

(** Whatever the page has called: once [URL.revokeObjectURL] has been
    called on a URL, another [revokeBlobUrl] of it only logs a warning; the
    tables, the callbacks and the timers stay as they are. *)
Theorem revoke_after_release_only_warns (cs : list Call) (u : string) :
  RevokeObjectURL u ∈ trace (history cs) →
  let w := history cs in
  revokeBlobUrl (Some u) w =
    (Normal tt,
     mkBrowser (manager w) (timers w) (clock w) (nextObjectUrl w)
       (trace w ++ [Console WarnLevel "Attempted to revoke unknown URL"]) (nextSweep w)).
Proof.
  intros Hin w. destruct (history_tables cs) as (_ & [Htrace _] & _).
  destruct (Htrace u Hin) as [Hnone (k & _ & ->)].
  apply revokeBlobUrl_untracked; [apply objectUrl_prefix | done].
Qed.

Lemma revoke_after_release_only_warns_witness :
  let w := history [CreateBlobUrl (Some wavBlob) (Some "comp1") noMetadata;
                    RevokeBlobUrl (Some "blob:0"); Advance 50] in
  revokeBlobUrl (Some "blob:0") w =
    (Normal tt,
     mkBrowser (manager w) (timers w) (clock w) (nextObjectUrl w)
       (trace w ++ [Console WarnLevel "Attempted to revoke unknown URL"]) (nextSweep w)).
Proof.
  apply (revoke_after_release_only_warns
           [CreateBlobUrl (Some wavBlob) (Some "comp1") noMetadata;
            RevokeBlobUrl (Some "blob:0"); Advance 50] "blob:0").
  refine (bool_decide_unpack _ _). vm_compute. exact I.
Defined.

(** ** The [isActive] flag *)

Lemma releasePending_spec u w :
  releasePending u w = true ↔ ∃ t o, t ∈ timers w ∧ task t = ReleaseTask u o.
Proof.
  unfold releasePending. rewrite existsb_exists. split.
  - intros (t & Hin%list_elem_of_In & Hrel). destruct (task t) as [u'|u' o] eqn:Htask; [done|].
    simpl in Hrel. apply bool_decide_eq_true in Hrel as ->. by exists t, o.
  - intros (t & o & Hin & Htask). exists t. split; [by apply list_elem_of_In|].
    rewrite Htask. simpl. by apply bool_decide_eq_true.
Qed.

(** [releasePending] depends on the release timers only. *)
Lemma releasePending_ext u w w' :
  (∀ t o, task t = ReleaseTask u o → t ∈ timers w' ↔ t ∈ timers w) →
  releasePending u w' = releasePending u w.
Proof.
  intros Hsame. apply eq_true_iff_eq. rewrite !releasePending_spec.
  split; intros (t & o & Hin & Htask); exists t, o; (split; [|done]); by eapply Hsame.
Qed.

Lemma revokeBlobUrl_flagSound url w : flagSound w → flagSound (exec (revokeBlobUrl url) w).
Proof.
  intros [Hflag Hdue]. destruct url as [url|]; [|done]. unfold exec.
  destruct (revokeBlobUrl_cases url w) as [Hf|[[Hpre Hget]|[Hpre [md Hget]]]].
  - by rewrite revokeBlobUrl_foreign.
  - rewrite revokeBlobUrl_untracked by done. exact (conj Hflag Hdue).
  - rewrite (revokeBlobUrl_tracked url md) by done. cbn [snd]. split.
    + intros u md'. unfold getUrlMetadata. cbn [manager activeUrls].
      destruct (decide (url = u)) as [<-|Hne].
      * rewrite get_set_eq. intros [= <-]. split; [|done]. intros _.
        apply releasePending_spec.
        exists (mkTimer (clock w + 50) (ReleaseTask url (componentId md))), (componentId md).
        split; [apply elem_of_insertTimer | done].
      * rewrite get_set_ne by done. intros Hold. rewrite (Hflag u md' Hold).
        match goal with |- _ ↔ releasePending u ?w1 = true =>
          rewrite (releasePending_ext u w w1); [done|] end.
        intros t o Htask. cbn [timers]. rewrite elem_of_insertTimer_iff.
        split; [|by right]. intros [->|Hin]; [|done]. simpl in Htask. congruence.
    + intros t u o [->|Hin]%elem_of_insertTimer_iff Htask; [simpl; lia | by eapply Hdue].
Qed.

Lemma revokeAll_flagSound l w : flagSound w → flagSound (revokeAll l w).
Proof.
  revert w. induction l as [|url l IH]; intros w Hs; [done|].
  unfold revokeAll in *. simpl. by apply IH, (revokeBlobUrl_flagSound (Some url)).
Qed.

Lemma cleanupOldUrls_flagSound maxAge w :
  flagSound w → flagSound (exec (cleanupOldUrls maxAge) w).
Proof.
  intros Hs. unfold exec. rewrite cleanupOldUrls_eq. cbn [snd].
  match goal with |- context [revokeAll ?l w] =>
    pose proof (revokeAll_flagSound l w Hs) as Hs' end.
  destruct (decide (0 < length _)%nat); exact Hs'.
Qed.

Lemma runTimers_flagSound now w : flagSound w → flagSound (exec (runTimers now) w).
Proof.
  intros [Hflag Hdue]. unfold exec. rewrite runTimers_eq. cbn [snd]. split.
  - intros u md Hget. pose proof (fireAll_entry _ _ _ _ Hget) as Hget0.
    rewrite (Hflag u md Hget0).
    match goal with |- _ ↔ releasePending u ?w1 = true =>
      rewrite (releasePending_ext u w w1); [done|] end.
    intros t o Htask. rewrite fireAll_timers. cbn [timers].
    rewrite list_elem_of_filter. split; [by intros [_ ?]|]. intros Hin. split; [|done].
    destruct (decide (now < due t)) as [|Hdue']; [done|]. exfalso.
    match type of Hget with getUrlMetadata u (fireAll ?l ?w0) = _ =>
      destruct (fireAll_removes l u o w0) as [Hgone _] end.
    + left. exists t. split; [|done]. apply list_elem_of_filter. split; [lia | done].
    + congruence.
  - intros t u o. rewrite fireAll_timers. cbn [timers].
    intros [_ Hin]%list_elem_of_filter Htask.
    rewrite fireAll_clock. cbn [clock]. by apply (Hdue t u o).
Qed.

Lemma advance_flagSound dt w : flagSound w → flagSound (exec (advance dt) w).
Proof.
  intros Hs. apply (advance_steps flagSound); [| | | |done].
  - intros w1 now. apply runTimers_flagSound.
  - intros w1 now Hnow [Hflag Hdue]. split; [exact Hflag|].
    intros t u o Hin Htask. specialize (Hdue t u o Hin Htask). cbn [atTime clock]. lia.
  - intros w1. apply cleanupOldUrls_flagSound.
  - intros w1 s HP. exact HP.
Qed.

Lemma advance_timers_quiet dt w :
  clock w + Z.of_N dt < nextSweep w →
  timers (exec (advance dt) w) = filter (λ t, clock w + Z.of_N dt < due t) (timers w).
Proof.
  intros Hq. unfold exec. rewrite (advance_quiet dt w Hq). cbn [snd]. by rewrite fireAll_timers.
Qed.

Lemma perform_flagSound c w :
  keepsFlag c = true → urlsMinted w → releasedUntracked w →
  flagSound w → flagSound (exec (perform c) w).
Proof.
  intros Hkeeps Hminted [_ Hpending] Hs. pose proof Hs as [Hflag Hdue].
  destruct c as [blob o md|url|url|o|url cb| |maxAge|dt|lvl msg|cb0]; simpl.
  - unfold exec, bind, ret. destruct (refusal blob) as [e|] eqn:Href.
    + rewrite (createBlobUrl_refused _ _ _ _ e Href). exact Hs.
    + apply refusal_None in Href as (b & sz & -> & Hsz & Hnz & Hb).
      rewrite (createBlobUrl_accepted b sz) by done. cbn [snd].
      destruct (next_url_fresh w Hminted) as [Hnone _].
      set (url := objectUrl (nextObjectUrl w)) in *.
      assert (∀ u, releasePending u
                (mkBrowser
                   (trackByComponent (default "unknown" o) url
                      (trackUrl url
                         (trackedMetadata (newBlobOf b) b (default "unknown" o)
                            (clock w) (clock w) sz md) (manager w)))
                   (insertTimer (mkTimer (clock w + 100) (ValidateTask url)) (timers w))
                   (clock w) (N.succ (nextObjectUrl w))
                   (trace w ++ [CreateObjectURL url; Console LogLevel "Created URL"]) (nextSweep w))
                = releasePending u w) as Hsame.
      { intros u. apply releasePending_ext. intros t o' Htask. cbn [timers].
        rewrite elem_of_insertTimer_iff. split; [|by right].
        intros [->|Hin]; [|done]. simpl in Htask. congruence. }
      split.
      * intros u md'. rewrite Hsame. unfold getUrlMetadata, trackByComponent, trackUrl.
        cbn [manager activeUrls]. destruct (decide (url = u)) as [<-|Hne].
        -- rewrite get_set_eq. intros [= <-]. cbn [isActive trackedMetadata].
           simpl in Hkeeps. split.
           ++ destruct (m_isActive md) as [[]|]; done.
           ++ intros (t & o' & Hin & Htask)%releasePending_spec.
              destruct (Hpending t url o' Hin Htask) as (k & Hk & Heq%objectUrl_inj). lia.
        -- rewrite get_set_ne by done. apply Hflag.
      * intros t u o' [->|Hin]%elem_of_insertTimer_iff Htask; [done | by eapply Hdue].
  - unfold exec. destruct (getUrlMetadata url w) as [md|] eqn:Hget.
    + rewrite (markUrlAccessed_tracked url md) by done. cbn [snd]. split; [|exact Hdue].
      intros u md'. unfold getUrlMetadata, trackUrl. cbn [manager activeUrls].
      destruct (decide (url = u)) as [<-|Hne].
      * rewrite get_set_eq. intros [= <-]. apply (Hflag url md Hget).
      * rewrite get_set_ne by done. apply Hflag.
    + by rewrite markUrlAccessed_untracked.
  - by apply revokeBlobUrl_flagSound.
  - unfold exec. rewrite revokeComponentUrls_eq. cbn [snd].
    destruct (JsMap.get o (urlsByComponent (manager w))) as [s|]; [|done].
    exact (revokeAll_flagSound s w Hs).
  - destruct cb as [f|]; [|done]. unfold exec, registerCleanupCallback. run_js. exact Hs.
  - unfold exec. rewrite cleanup_eq. cbn [snd]. split; [done | exact Hdue].
  - by apply cleanupOldUrls_flagSound.
  - by apply advance_flagSound.
  - unfold exec. rewrite console_eq. exact Hs.
  - rewrite call_state. exact Hs.
Qed.

Lemma history_flagSound (cs : list Call) :
  forallb keepsFlag cs = true → flagSound (history cs).
Proof.
  unfold history.
  assert (∀ w, urlsMinted w → releasedUntracked w → flagSound w →
               forallb keepsFlag cs = true →
               flagSound (foldl (λ w c, exec (perform c) w) w cs)) as Hall.
  { induction cs as [|c cs IH]; intros w Hm Hr Hs Hk; [done|]. simpl.
    simpl in Hk. apply andb_true_iff in Hk as [Hc Hcs].
    apply IH; [by apply perform_minted | by apply perform_released
              | by apply perform_flagSound | done]. }
  apply Hall.
  - split; [intros ? ? Habs; discriminate Habs | intros c s x Hin; by apply elem_of_nil in Hin].
  - split; [intros x Hin | intros t x o Hin]; by apply elem_of_nil in Hin.
  - split; [done|]. intros t u o Hin. by apply elem_of_nil in Hin.
Qed.

(** When no creation stored its entry flagged inactive: in every state
    the page can bring the manager to, an entry is flagged inactive exactly
    while its release is pending, and such an entry is untracked 50 ms later.
    So once 50 ms have passed without a call and before the next periodic
    sweep, every tracked entry is flagged active and [totalUrls] counts the
    active URLs.  (A sweep deactivates the entries older than an hour, which
    stay tracked for another 50 ms.) *)
Theorem history_flag_follows_pending_release (cs : list Call) (dt : N) :
  forallb keepsFlag cs = true →
  let w := history cs in
  (∀ u md, getUrlMetadata u w = Some md →
     (isActive md = false ↔ releasePending u w = true)) ∧
  ((50 ≤ dt)%N →
   (∀ u md, getUrlMetadata u w = Some md → isActive md = false →
      isUrlActive u (exec (advance dt) w) = false) ∧
   (clock w + Z.of_N dt < nextSweep w →
    flaggedActive (exec (advance dt) w) = totalUrls (getStats (exec (advance dt) w)))).
Proof.
  intros Hkeeps w. destruct (history_flagSound cs Hkeeps) as [Hflag Hdue].
  fold w in Hflag, Hdue. split; [done|]. intros Hdt. split.
  - intros u md Hget Hoff.
    apply (Hflag u md Hget) in Hoff. apply releasePending_spec in Hoff as (t & o & Hin & Htask).
    apply (advance_releases dt t u o); [done | done |].
    specialize (Hdue t u o Hin Htask). lia.
  - intros Hquiet.
    assert (forallb keepsFlag (cs ++ [Advance dt]) = true) as Hkeeps'
      by (rewrite forallb_app, Hkeeps; done).
    destruct (history_flagSound _ Hkeeps') as [Hflag' Hdue'].
    pose proof (history_entries_distinct (cs ++ [Advance dt])) as Hdistinct.
    rewrite history_snoc in Hflag', Hdue', Hdistinct. cbn [perform] in *. fold w in Hflag', Hdue', Hdistinct.
    destruct (getStats_spec (exec (advance dt) w)) as (-> & _).
    unfold flaggedActive.
    assert (∀ e, e ∈ activeUrls (manager (exec (advance dt) w)) → isActive e.2 = true) as Hall.
    { intros [u md] Hin. simpl. destruct (isActive md) eqn:Hoff; [done|]. exfalso.
      pose proof (elem_get _ _ _ Hdistinct Hin) as Hget.
      apply (Hflag' u md Hget) in Hoff.
      apply releasePending_spec in Hoff as (t & o & Hin' & Htask).
      pose proof Hin' as Hlate. rewrite (advance_timers_quiet dt w Hquiet) in Hlate.
      apply list_elem_of_filter in Hlate as [Hlate Hin0].
      specialize (Hdue t u o Hin0 Htask). lia. }
    revert Hall. generalize (activeUrls (manager (exec (advance dt) w))). intros l Hall.
    induction l as [|e l IH]; [done|]. rewrite filter_cons.
    rewrite decide_True by (apply Hall, list_elem_of_here). simpl. f_equal.
    apply IH. intros e' He'. apply Hall. by apply list_elem_of_further.
Qed.

Lemma history_flag_follows_pending_release_witness :
  let w := history [CreateBlobUrl (Some wavBlob) (Some "comp1") noMetadata;
                    CreateBlobUrl (Some wavBlob) (Some "comp2") noMetadata;
                    RevokeBlobUrl (Some "blob:0")] in
  isUrlActive "blob:0" (exec (advance 50) w) = false ∧
  flaggedActive (exec (advance 50) w) = totalUrls (getStats (exec (advance 50) w)).
Proof.
  destruct (history_flag_follows_pending_release
              [CreateBlobUrl (Some wavBlob) (Some "comp1") noMetadata;
               CreateBlobUrl (Some wavBlob) (Some "comp2") noMetadata;
               RevokeBlobUrl (Some "blob:0")] 50) as [_ Hlater]; [reflexivity|].
  destruct Hlater as [Hgone Hall]; [lia|].
  split; [|apply Hall; reflexivity].
  apply (Hgone "blob:0" (deactivated wavMetadata)); reflexivity.
Defined.

(** ** A URL that is left alone *)

Lemma releasePending_subset u w w' :
  (∀ t o, t ∈ timers w' → task t = ReleaseTask u o → t ∈ timers w) →
  releasePending u w = false → releasePending u w' = false.
Proof.
  intros Hsub Hnone. destruct (releasePending u w') eqn:Hp; [|done].
  apply releasePending_spec in Hp as (t & o & Hin & Htask).
  destruct (releasePending_false u w t o Hnone); [by eapply Hsub | done].
Qed.

(** With no release of [u] pending, time leaves the entry of [u] alone
    until the next periodic sweep. *)
Lemma advance_keeps_quiet dt u w :
  clock w + Z.of_N dt < nextSweep w →
  releasePending u w = false →
  getUrlMetadata u (exec (advance dt) w) = getUrlMetadata u w.
Proof.
  intros Hsweep Hquiet. unfold exec. rewrite (advance_quiet dt w Hsweep). cbn [snd].
  match goal with |- context [fireAll ?l ?w0] =>
    destruct (fireAll_frame l u w0) as [Hsame _]; [|done] end.
  intros t o [_ Hin]%list_elem_of_filter. by apply (releasePending_false u w).
Qed.

(** With no release of [u] pending, time leaves the entry of [u] alone
    also through the periodic sweeps, as long as the entry is no older than
    an hour at the end of the wait. *)
Lemma advance_keeps_young dt u md w :
  NoDup (JsMap.keys (activeUrls (manager w))) →
  getUrlMetadata u w = Some md →
  releasePending u w = false →
  clock w + Z.of_N dt - createdAt md ≤ 60 * 60 * 1000 →
  getUrlMetadata u (exec (advance dt) w) = Some md.
Proof.
  intros Hnd Hget Hnone Hyoung. set (target := clock w + Z.of_N dt).
  enough (clock (exec (advance dt) w) ≤ target →
          NoDup (JsMap.keys (activeUrls (manager (exec (advance dt) w)))) ∧
          getUrlMetadata u (exec (advance dt) w) = Some md ∧
          releasePending u (exec (advance dt) w) = false) as Hend.
  { destruct Hend as (_ & H & _); [rewrite advance_clock; subst target; lia | exact H]. }
  apply (advance_steps
           (λ w1, clock w1 ≤ target →
                  NoDup (JsMap.keys (activeUrls (manager w1))) ∧
                  getUrlMetadata u w1 = Some md ∧ releasePending u w1 = false));
    [| | | |done].
  - intros w1 now HP. rewrite runTimers_clock. intros Hc.
    destruct (HP Hc) as (Hnd1 & Hget1 & Hnone1).
    unfold exec. rewrite runTimers_eq. cbn [snd].
    split; [by apply fireAll_distinct|]. split.
    + match goal with |- context [fireAll ?l ?w0] =>
        destruct (fireAll_frame l u w0) as [Hsame _] end.
      * intros t o [_ Hin]%list_elem_of_filter. by apply (releasePending_false u w1).
      * by rewrite Hsame.
    + apply (releasePending_subset u w1); [|done].
      intros t o. rewrite fireAll_timers. cbn [timers]. by intros [_ Hin]%list_elem_of_filter.
  - intros w1 now Hnow HP Hc. cbn [atTime clock] in Hc. apply HP. lia.
  - intros w1 HP. rewrite cleanupOldUrls_clock. intros Hc.
    destruct (HP Hc) as (Hnd1 & Hget1 & Hnone1).
    split; [by apply cleanupOldUrls_distinct|].
    destruct (cleanupOldUrls_state None w1) as (Hm & Ht & _).
    match type of Hm with _ = manager (revokeAll ?l w1) =>
      destruct (revokeAll_frame l w1) as (_ & _ & _ & Hnew & _ & Hframe);
      assert (u ∉ l) as Hout end.
    { intros (md' & Hin & Hold)%elem_of_oldUrls.
      pose proof (elem_get _ _ _ Hnd1 Hin) as Hget'. unfold getUrlMetadata in Hget1.
      rewrite Hget1 in Hget'. injection Hget' as <-. cbn [default] in Hold. lia. }
    split.
    + destruct (Hframe u Hout) as [Hsame _]. unfold getUrlMetadata in *. by rewrite Hm, Hsame.
    + apply (releasePending_subset u w1); [|done].
      intros t o. rewrite Ht. intros [Hin|(u' & o' & Hu' & Htask')]%Hnew Htask; [done|].
      rewrite Htask in Htask'. by injection Htask' as -> _.
  - intros w1 s HP. exact HP.
Qed.

(** Whatever the page has called before, also a [cleanup]: a URL created
    now stays tracked while time passes, up to the next periodic sweep and
    beyond it as long as its entry is no older than an hour.  The check set
    100 ms ahead removes nothing, and the releases still pending are
    releases of older URLs.  (The sweep revokes an entry that is older than
    an hour; the age counts from [createdAt], which [metadata] can set.) *)
Theorem history_created_url_stays_tracked
    (cs : list Call) (b : BlobLike) (sz : Z) (o : option string) (md : Metadata) (dt : N) :
  blob_size b = Some sz → sz ≠ 0 → is_blob b = true →
  let w := history cs in
  let url := objectUrl (nextObjectUrl w) in
  result (createBlobUrl (Some b) o md) w = Normal (Some url) ∧
  (clock w + Z.of_N dt < nextSweep w ∨
   clock w + Z.of_N dt - default (clock w) (m_createdAt md) ≤ 60 * 60 * 1000 →
   isUrlActive url (exec (advance dt) (exec (createBlobUrl (Some b) o md) w)) = true).
Proof.
  intros Hsz Hnz Hb w url. subst url.
  destruct (history_invariants cs) as [_ [_ Htimers]]. fold w in Htimers.
  pose proof (history_entries_distinct cs) as Hnd. fold w in Hnd.
  unfold result, exec. rewrite (createBlobUrl_accepted b sz) by done. cbn [fst snd].
  split; [done|].
  set (url := objectUrl (nextObjectUrl w)).
  set (entry := trackedMetadata (newBlobOf b) b (default "unknown" o) (clock w) (clock w) sz md).
  match goal with |- _ → isUrlActive url (advance dt ?w0).2 = true => set (w1 := w0) end.
  assert (getUrlMetadata url w1 = Some entry) as Hget.
  { unfold getUrlMetadata, trackByComponent, trackUrl. simpl. apply get_set_eq. }
  assert (releasePending url w1 = false) as Hnone.
  { destruct (releasePending url w1) eqn:Hp; [|done].
    apply releasePending_spec in Hp as (t & o' & Hin & Htask). cbn [w1 timers] in Hin.
    apply elem_of_insertTimer_iff in Hin as [->|Hin]; [done|].
    destruct (Htimers t _ _ Hin Htask) as (k & Hk & Heq%objectUrl_inj). lia. }
  intros Hwait. apply has_true. exists entry.
  change (getUrlMetadata url (exec (advance dt) w1) = Some entry).
  destruct Hwait as [Hquiet|Hyoung].
  - rewrite <- Hget. by apply advance_keeps_quiet.
  - apply advance_keeps_young; [|done|done|done].
    unfold trackByComponent, trackUrl. simpl. by apply NoDup_keys_set.
Qed.

Lemma history_created_url_stays_tracked_witness :
  let w := history [CreateBlobUrl (Some wavBlob) (Some "comp1") noMetadata; Cleanup] in
  result (createBlobUrl (Some wavBlob) (Some "comp2") noMetadata) w = Normal (Some "blob:1") ∧
  isUrlActive "blob:1"
    (exec (advance 3600000) (exec (createBlobUrl (Some wavBlob) (Some "comp2") noMetadata) w))
  = true.
Proof.
  destruct (history_created_url_stays_tracked
              [CreateBlobUrl (Some wavBlob) (Some "comp1") noMetadata; Cleanup]
              wavBlob 1024 (Some "comp2") noMetadata 3600000) as [Hurl Hkept];
    [reflexivity | lia | reflexivity |].
  split; [exact Hurl|]. apply Hkept. right. vm_compute. discriminate.
Defined.

(** ** The hook [useBlobUrl] *)

Lemma revokeBlobUrl_pair url w : revokeBlobUrl url w = (Normal tt, exec (revokeBlobUrl url) w).
Proof.
  pose proof (revokeBlobUrl_returns url w) as Hret. unfold result, exec in *.
  destruct (revokeBlobUrl url w) as [r w']. simpl in *. by subst r.
Qed.

Lemma truthy_objectUrl n : truthy (Some (objectUrl n)) = true.
Proof.
  unfold truthy. apply negb_true_iff, bool_decide_eq_false.
  apply prefix_blob_nonempty, objectUrl_prefix.
Qed.

(** The browser on which [createUrl] calls [createBlobUrl]: the handle the
    hook held has been revoked. *)
Lemma createUrl_accepted opts b sz p :
  blob_size b = Some sz → sz ≠ 0 → is_blob b = true →
  let h := UseBlobUrl.hook p in
  let current := UseBlobUrl.currentUrlRef h in
  let w1 := if truthy current then exec (revokeBlobUrl current) (UseBlobUrl.browser p)
            else UseBlobUrl.browser p in
  let new := objectUrl (nextObjectUrl w1) in
  UseBlobUrl.createUrl opts (Some b) p =
    (Normal tt,
     UseBlobUrl.mkPage
       (exec (createBlobUrl (Some b) (Some (UseBlobUrl.componentIdRef h))
                (UseBlobUrl.metadata opts)) w1)
       (UseBlobUrl.mkHook (Some new) false None (Some new) (UseBlobUrl.componentIdRef h))).
Proof.
  intros Hsz Hnz Hb h current w1 new. subst h current w1 new.
  unfold UseBlobUrl.createUrl, try_finally, UseBlobUrl.withHook, UseBlobUrl.inBrowser.
  run_js. destruct p as [w h]. simpl.
  destruct (truthy (UseBlobUrl.currentUrlRef h)) eqn:Hcur; run_js.
  - rewrite revokeBlobUrl_pair. simpl. unfold exec at 2.
    rewrite (createBlobUrl_accepted b sz) by done. reflexivity.
  - rewrite (createBlobUrl_accepted b sz) by done. simpl. unfold exec.
    rewrite (createBlobUrl_accepted b sz) by done. reflexivity.
Qed.

Lemma createUrl_refused opts b e p :
  refusal (Some b) = Some e →
  let h := UseBlobUrl.hook p in
  let current := UseBlobUrl.currentUrlRef h in
  let w1 := if truthy current then exec (revokeBlobUrl current) (UseBlobUrl.browser p)
            else UseBlobUrl.browser p in
  let logged := [e; Console ErrorLevel "useBlobUrl: Error creating blob URL"] ++
                match UseBlobUrl.onError opts with
                | Some f => [CallbackRun (cb_id f)]
                | None => []
                end in
  UseBlobUrl.createUrl opts (Some b) p =
    (match UseBlobUrl.onError opts with
     | Some f => if cb_throws f then Throw (CallbackThrew (cb_id f)) else Normal tt
     | None => Normal tt
     end,
     UseBlobUrl.mkPage
       (mkBrowser (manager w1) (timers w1) (clock w1) (nextObjectUrl w1) (trace w1 ++ logged) (nextSweep w1))
       (UseBlobUrl.mkHook (UseBlobUrl.url h) false (Some "Failed to create blob URL")
          (if truthy current then None else current) (UseBlobUrl.componentIdRef h))).
Proof.
  intros Href h current w1 logged. subst h current w1 logged.
  unfold UseBlobUrl.createUrl, try_finally, UseBlobUrl.withHook, UseBlobUrl.inBrowser,
    UseBlobUrl.callOnError.
  run_js. destruct p as [w h]. simpl.
  destruct (truthy (UseBlobUrl.currentUrlRef h)) eqn:Hcur; run_js.
  - rewrite revokeBlobUrl_pair. simpl.
    rewrite (createBlobUrl_refused _ _ _ _ e Href). simpl.
    destruct (UseBlobUrl.onError opts) as [f|]; simpl.
    + unfold UseBlobUrl.inBrowser, call. run_js. rewrite <- !app_assoc.
      by destruct (cb_throws f).
    + by rewrite <- !app_assoc.
  - rewrite (createBlobUrl_refused _ _ _ _ e Href). simpl.
    destruct (UseBlobUrl.onError opts) as [f|]; simpl.
    + unfold UseBlobUrl.inBrowser, call. run_js. rewrite <- !app_assoc.
      by destruct (cb_throws f).
    + by rewrite <- !app_assoc.
Qed.

(** What happens to the handle the hook held when [createUrl] is called
    with a blob: it is revoked before the new URL is created. *)
Lemma createUrl_revokes_held opts b p old md :
  UseBlobUrl.currentUrlRef (UseBlobUrl.hook p) = Some old →
  minted (UseBlobUrl.browser p) old = true →
  getUrlMetadata old (UseBlobUrl.browser p) = Some md →
  let p' := exec (UseBlobUrl.createUrl opts (Some b)) p in
  getUrlMetadata old (UseBlobUrl.browser p') = Some (deactivated md) ∧
  mkTimer (clock (UseBlobUrl.browser p) + 50) (ReleaseTask old (componentId md))
    ∈ timers (UseBlobUrl.browser p').
Proof.
  intros Hcur (k & Hk & ->)%minted_spec Hget p'.
  pose proof (revokeBlobUrl_entry (objectUrl k) md (UseBlobUrl.browser p) Hget) as Hent.
  rewrite objectUrl_prefix in Hent. destruct Hent as [Hdead Htimer].
  destruct (revokeBlobUrl_frame (objectUrl k) (UseBlobUrl.browser p)) as (_ & _ & Hn & _).
  set (w1 := exec (revokeBlobUrl (Some (objectUrl k))) (UseBlobUrl.browser p)) in *.
  destruct (refusal (Some b)) as [e|] eqn:Href.
  - assert (UseBlobUrl.browser p' =
            mkBrowser (manager w1) (timers w1) (clock w1) (nextObjectUrl w1)
              (trace w1 ++ [e; Console ErrorLevel "useBlobUrl: Error creating blob URL"] ++
               match UseBlobUrl.onError opts with
               | Some f => [CallbackRun (cb_id f)]
               | None => []
               end) (nextSweep w1)) as ->.
    { subst p'. unfold exec. rewrite (createUrl_refused opts b e p Href).
      cbn [snd UseBlobUrl.browser]. by rewrite Hcur, truthy_objectUrl. }
    done.
  - apply refusal_None in Href as (b' & sz & [= <-] & Hsz & Hnz & Hb).
    assert (UseBlobUrl.browser p' =
            exec (createBlobUrl (Some b) (Some (UseBlobUrl.componentIdRef (UseBlobUrl.hook p)))
                    (UseBlobUrl.metadata opts)) w1) as ->.
    { subst p'. unfold exec at 1. rewrite (createUrl_accepted opts b sz p) by done.
      cbn [snd UseBlobUrl.browser]. by rewrite Hcur, truthy_objectUrl. }
    destruct (createBlobUrl_step (Some b)
                (Some (UseBlobUrl.componentIdRef (UseBlobUrl.hook p)))
                (UseBlobUrl.metadata opts) w1) as [_ [(_ & Hm & _ & Ht)|(_ & _ & _ & Ht & Hf)]].
    + unfold getUrlMetadata in *. by rewrite Hm, Ht.
    + split; [|by apply Ht]. rewrite Hf; [done|]. intros Heq%objectUrl_inj. lia.
Qed.

(** [createUrl] with a blob the manager accepts.  The call returns
    normally; the handle the hook held is revoked first (its entry is
    deactivated and its release is pending); the next URL of the browser
    becomes both the exposed [url] and the handle the hook holds; [error] is
    [null], [isLoading] is [false] and [isActive] is [true]. *)
Theorem useBlobUrl_createUrl_replaces_handle
    (opts : UseBlobUrl.Options) (b : BlobLike) (sz : Z) (p : UseBlobUrl.Page) :
  blob_size b = Some sz → sz ≠ 0 → is_blob b = true →
  let p' := exec (UseBlobUrl.createUrl opts (Some b)) p in
  let new := objectUrl (nextObjectUrl (UseBlobUrl.browser p)) in
  result (UseBlobUrl.createUrl opts (Some b)) p = Normal tt ∧
  UseBlobUrl.hook p' =
    UseBlobUrl.mkHook (Some new) false None (Some new)
      (UseBlobUrl.componentIdRef (UseBlobUrl.hook p)) ∧
  UseBlobUrl.isActive p' = true ∧
  (∀ old md,
     UseBlobUrl.currentUrlRef (UseBlobUrl.hook p) = Some old →
     minted (UseBlobUrl.browser p) old = true →
     getUrlMetadata old (UseBlobUrl.browser p) = Some md →
     new ≠ old ∧
     getUrlMetadata old (UseBlobUrl.browser p') = Some (deactivated md) ∧
     mkTimer (clock (UseBlobUrl.browser p) + 50) (ReleaseTask old (componentId md))
       ∈ timers (UseBlobUrl.browser p')).
Proof.
  intros Hsz Hnz Hb p' new.
  assert (∀ cur, nextObjectUrl (if truthy cur then exec (revokeBlobUrl cur) (UseBlobUrl.browser p)
                                else UseBlobUrl.browser p)
                 = nextObjectUrl (UseBlobUrl.browser p)) as Hnext.
  { intros cur. destruct (truthy cur); [|done].
    by destruct (revokeBlobUrl_shrinks cur (UseBlobUrl.browser p)) as (Hn & _). }
  pose proof (createUrl_accepted opts b sz p Hsz Hnz Hb) as Heq. cbn zeta in Heq.
  rewrite Hnext in Heq. fold new in Heq.
  split; [unfold result; by rewrite Heq|].
  split; [subst p'; unfold exec; by rewrite Heq|]. split.
  - subst p'. unfold exec at 1. rewrite Heq. cbn [snd]. unfold UseBlobUrl.isActive.
    cbn [UseBlobUrl.hook UseBlobUrl.currentUrlRef UseBlobUrl.browser default].
    subst new. rewrite truthy_objectUrl.
    match goal with |- isUrlActive _ (exec ?m ?w1) = true =>
      destruct (createBlobUrl_step (Some b)
                  (Some (UseBlobUrl.componentIdRef (UseBlobUrl.hook p)))
                  (UseBlobUrl.metadata opts) w1) as [_ [(Habs & _)|(_ & _ & Htracked & _)]] end.
    + unfold result in Habs. rewrite (createBlobUrl_accepted b sz) in Habs by done.
      discriminate Habs.
    + rewrite Hnext in Htracked. by apply has_true.
  - intros old md Hcur Hminted Hget. split.
    + apply minted_spec in Hminted as (k & Hk & ->). subst new.
      intros Heq'%objectUrl_inj. lia.
    + by apply createUrl_revokes_held.
Qed.

Lemma useBlobUrl_createUrl_replaces_handle_witness :
  let p := UseBlobUrl.mkPage oneUrlBrowser
             (UseBlobUrl.mkHook (Some "blob:0") false None (Some "blob:0") "comp1") in
  let p' := exec (UseBlobUrl.createUrl UseBlobUrl.defaultOptions (Some wavBlob)) p in
  UseBlobUrl.url (UseBlobUrl.hook p') = Some "blob:1" ∧
  UseBlobUrl.isActive p' = true ∧
  getUrlMetadata "blob:0" (UseBlobUrl.browser p') = Some (deactivated wavMetadata).
Proof.
  destruct (useBlobUrl_createUrl_replaces_handle UseBlobUrl.defaultOptions wavBlob 1024
              (UseBlobUrl.mkPage oneUrlBrowser
                 (UseBlobUrl.mkHook (Some "blob:0") false None (Some "blob:0") "comp1")))
    as (_ & Hhook & Hactive & Hold); [reflexivity | lia | reflexivity |].
  destruct (Hold "blob:0" wavMetadata) as (_ & Hdead & _); [reflexivity ..|].
  split; [by rewrite Hhook|]. exact (conj Hactive Hdead).
Defined.

(** [createUrl] with a blob the manager refuses (no size, empty, or not a
    blob).  The handle the hook held is revoked all the same and the hook
    holds no handle afterwards, so [isActive] is [false]; but the exposed
    [url] is left as it was, so it still shows the revoked handle.  [error]
    is the message of the hook's own [Error] and [isLoading] is back to
    [false], also when [onError] throws, which is the only way the call can
    end abnormally. *)
Theorem useBlobUrl_failed_createUrl_keeps_stale_url
    (opts : UseBlobUrl.Options) (b : BlobLike) (e : Event) (p : UseBlobUrl.Page) :
  refusal (Some b) = Some e →
  let p' := exec (UseBlobUrl.createUrl opts (Some b)) p in
  result (UseBlobUrl.createUrl opts (Some b)) p =
    match UseBlobUrl.onError opts with
    | Some f => if cb_throws f then Throw (CallbackThrew (cb_id f)) else Normal tt
    | None => Normal tt
    end ∧
  UseBlobUrl.url (UseBlobUrl.hook p') = UseBlobUrl.url (UseBlobUrl.hook p) ∧
  UseBlobUrl.error (UseBlobUrl.hook p') = Some "Failed to create blob URL" ∧
  UseBlobUrl.isLoading (UseBlobUrl.hook p') = false ∧
  truthy (UseBlobUrl.currentUrlRef (UseBlobUrl.hook p')) = false ∧
  UseBlobUrl.isActive p' = false ∧
  nextObjectUrl (UseBlobUrl.browser p') = nextObjectUrl (UseBlobUrl.browser p) ∧
  (∀ old md,
     UseBlobUrl.currentUrlRef (UseBlobUrl.hook p) = Some old →
     minted (UseBlobUrl.browser p) old = true →
     getUrlMetadata old (UseBlobUrl.browser p) = Some md →
     getUrlMetadata old (UseBlobUrl.browser p') = Some (deactivated md) ∧
     mkTimer (clock (UseBlobUrl.browser p) + 50) (ReleaseTask old (componentId md))
       ∈ timers (UseBlobUrl.browser p')).
Proof.
  intros Href p'. pose proof (createUrl_refused opts b e p Href) as Heq. cbn zeta in Heq.
  split; [unfold result; by rewrite Heq|].
  assert (truthy (if truthy (UseBlobUrl.currentUrlRef (UseBlobUrl.hook p)) then None
                  else UseBlobUrl.currentUrlRef (UseBlobUrl.hook p)) = false) as Hfalsy.
  { by destruct (truthy (UseBlobUrl.currentUrlRef (UseBlobUrl.hook p))) eqn:Hcur. }
  split; [subst p'; unfold exec; by rewrite Heq|].
  split; [subst p'; unfold exec; by rewrite Heq|].
  split; [subst p'; unfold exec; by rewrite Heq|].
  split; [subst p'; unfold exec; by rewrite Heq|].
  split; [subst p'; unfold exec, UseBlobUrl.isActive; rewrite Heq; cbn [snd UseBlobUrl.hook
            UseBlobUrl.currentUrlRef]; by rewrite Hfalsy|].
  split.
  - subst p'. unfold exec at 1. rewrite Heq. cbn [snd UseBlobUrl.browser nextObjectUrl].
    destruct (truthy (UseBlobUrl.currentUrlRef (UseBlobUrl.hook p))); [|done].
    by destruct (revokeBlobUrl_shrinks (UseBlobUrl.currentUrlRef (UseBlobUrl.hook p))
                   (UseBlobUrl.browser p)) as (Hn & _).
  - intros old md Hcur Hminted Hget. by apply createUrl_revokes_held.
Qed.

Lemma useBlobUrl_failed_createUrl_keeps_stale_url_witness :
  let p := UseBlobUrl.mkPage oneUrlBrowser
             (UseBlobUrl.mkHook (Some "blob:0") false None (Some "blob:0") "comp1") in
  let p' := exec (UseBlobUrl.createUrl UseBlobUrl.defaultOptions
                    (Some (mkBlob (Some 0) "audio/wav" true))) p in
  UseBlobUrl.url (UseBlobUrl.hook p') = Some "blob:0" ∧
  UseBlobUrl.isActive p' = false ∧
  getUrlMetadata "blob:0" (UseBlobUrl.browser p') = Some (deactivated wavMetadata).
Proof.
  destruct (useBlobUrl_failed_createUrl_keeps_stale_url UseBlobUrl.defaultOptions
              (mkBlob (Some 0) "audio/wav" true) (Console WarnLevel "Empty blob provided")
              (UseBlobUrl.mkPage oneUrlBrowser
                 (UseBlobUrl.mkHook (Some "blob:0") false None (Some "blob:0") "comp1")))
    as (_ & Hurl & _ & _ & _ & Hactive & _ & Hold); [reflexivity|].
  destruct (Hold "blob:0" wavMetadata) as (Hdead & _); [reflexivity ..|].
  exact (conj Hurl (conj Hactive Hdead)).
Defined.

(** *** One live handle per hook *)

Lemma exec_detached {S} (m : Js S unit) s : exec (detached m) s = exec m s.
Proof. unfold exec, detached, try_catch. by destruct (m s) as [[[]|e] s']. Qed.

Lemma result_detached {S} (m : Js S unit) s : result (detached m) s = Normal tt.
Proof. unfold result, detached, try_catch. by destruct (m s) as [[[]|e] s']. Qed.

Lemma holdsOne_truthy n0 p :
  holdsOne n0 p →
  truthy (UseBlobUrl.currentUrlRef (UseBlobUrl.hook p)) = false →
  UseBlobUrl.currentUrlRef (UseBlobUrl.hook p) = None.
Proof.
  intros (_ & _ & Href & _) Hfalsy.
  destruct (UseBlobUrl.currentUrlRef (UseBlobUrl.hook p)) as [u|] eqn:Hcur; [|done].
  destruct (Href u eq_refl) as (k & _ & ->). by rewrite truthy_objectUrl in Hfalsy.
Qed.

(** After the handle the hook held is revoked, every tracked URL of the
    hook has its release pending. *)
Lemma holdsOne_revoked n0 p :
  holdsOne n0 p →
  let cur := UseBlobUrl.currentUrlRef (UseBlobUrl.hook p) in
  let w1 := if truthy cur then exec (revokeBlobUrl cur) (UseBlobUrl.browser p)
            else UseBlobUrl.browser p in
  urlsMinted w1 ∧
  nextObjectUrl w1 = nextObjectUrl (UseBlobUrl.browser p) ∧
  clock w1 = clock (UseBlobUrl.browser p) ∧
  (if truthy cur then None else cur) = None ∧
  (∀ k md, (n0 ≤ k)%N → getUrlMetadata (objectUrl k) w1 = Some md →
           releasePending (objectUrl k) w1 = true) ∧
  (∀ t k o, (n0 ≤ k)%N → t ∈ timers w1 → task t = ReleaseTask (objectUrl k) o →
            due t ≤ clock w1 + 50).
Proof.
  intros Hinv cur w1. pose proof Hinv as (Hminted & Hn0 & Href & Htracked & Hdue).
  destruct (truthy cur) eqn:Hcur; subst w1.
  - destruct cur as [u|] eqn:Hu; [|done]. subst cur.
    destruct (revokeBlobUrl_frame u (UseBlobUrl.browser p)) as (_ & Hc & Hn & Hnew & Hkept & _).
    pose proof (revokeBlobUrl_shrinks (Some u) (UseBlobUrl.browser p)) as Hshrinks.
    split; [by apply (shrinks_minted (UseBlobUrl.browser p))|].
    split; [done|]. split; [done|]. split; [done|]. split.
    + intros k md Hk Hget. destruct Hshrinks as (_ & Hold & _).
      destruct (Hold _ _ Hget) as (md0 & Hget0 & _).
      destruct (Htracked k md0 Hk Hget0) as [Hmine|Hpending].
      * rewrite Hu in Hmine. simplify_eq.
        pose proof (revokeBlobUrl_entry (objectUrl k) md0 (UseBlobUrl.browser p) Hget0) as Hent.
        rewrite objectUrl_prefix in Hent. destruct Hent as [_ Htimer].
        apply releasePending_spec. eexists (mkTimer _ _), _. split; [exact Htimer | done].
      * apply releasePending_spec in Hpending as (t & o & Hin & Htask).
        apply releasePending_spec. exists t, o. split; [by apply Hkept | done].
    + intros t k o Hk [Hin|[o' ->]]%Hnew Htask.
      * rewrite Hc. by eapply Hdue.
      * rewrite Hc. simpl. lia.
  - pose proof (holdsOne_truthy n0 p Hinv Hcur) as Hnone. fold cur in Hnone.
    split; [done|]. split; [done|]. split; [done|]. split; [done|]. split; [|done].
    intros k md Hk Hget. destruct (Htracked k md Hk Hget) as [Hmine|Hpending]; [|done].
    fold cur in Hmine. congruence.
Qed.

Lemma createUrl_holdsOne n0 opts blob p :
  holdsOne n0 p → holdsOne n0 (exec (UseBlobUrl.createUrl opts blob) p).
Proof.
  intros Hinv. destruct blob as [b|].
  { (* a blob *)
    destruct (holdsOne_revoked n0 p Hinv) as (Hminted1 & Hn1 & Hc1 & Href1 & Hpending1 & Hdue1).
    pose proof Hinv as (_ & Hn0 & _).
    destruct (refusal (Some b)) as [e|] eqn:Hrefusal.
    - unfold exec. rewrite (createUrl_refused opts b e p Hrefusal). cbn [snd].
      rewrite Href1. unfold holdsOne.
      cbn [UseBlobUrl.browser UseBlobUrl.hook UseBlobUrl.currentUrlRef].
      split; [exact Hminted1|]. split; [cbn [nextObjectUrl]; lia|].
      split; [done|]. split.
      + intros k md Hk Hget. right. by eapply Hpending1.
      + exact Hdue1.
    - apply refusal_None in Hrefusal as (b' & sz & [= <-] & Hsz & Hnz & Hb).
      unfold exec at 1. rewrite (createUrl_accepted opts b sz p) by done. cbn [snd].
      match goal with |- holdsOne _ (UseBlobUrl.mkPage (exec ?m ?w1) _) =>
        set (w1' := w1) in *;
        pose proof (createBlobUrl_minted (Some b)
                      (Some (UseBlobUrl.componentIdRef (UseBlobUrl.hook p)))
                      (UseBlobUrl.metadata opts) w1' Hminted1) as Hminted2;
        pose proof (createBlobUrl_step (Some b)
                      (Some (UseBlobUrl.componentIdRef (UseBlobUrl.hook p)))
                      (UseBlobUrl.metadata opts) w1') as [Hc2 Hstep] end.
      destruct Hstep as [(Habs & _)|(_ & Hn2 & _ & Hkept & Hframe)].
      { unfold result in Habs. rewrite (createBlobUrl_accepted b sz) in Habs by done.
        discriminate Habs. }
      assert (∀ t, t ∈ timers (exec (createBlobUrl (Some b)
                      (Some (UseBlobUrl.componentIdRef (UseBlobUrl.hook p)))
                      (UseBlobUrl.metadata opts)) w1') →
                   t ∈ timers w1' ∨ ∃ u, task t = ValidateTask u) as Hnew.
      { unfold exec. rewrite (createBlobUrl_accepted b sz) by done. cbn [snd timers].
        intros t [->|Hin]%elem_of_insertTimer_iff; [right; by eexists | by left]. }
      unfold holdsOne. cbn [UseBlobUrl.browser UseBlobUrl.hook UseBlobUrl.currentUrlRef].
      split; [exact Hminted2|]. split; [lia|]. split; [|split].
      + intros u [= <-]. exists (nextObjectUrl w1'). split; [lia | done].
      + intros k md Hk Hget. destruct (decide (k = nextObjectUrl w1')) as [->|Hne]; [by left|].
        right. rewrite Hframe in Hget by (intros Heq%objectUrl_inj; done).
        specialize (Hpending1 k md Hk Hget).
        apply releasePending_spec in Hpending1 as (t & o & Hin & Htask).
        apply releasePending_spec. exists t, o. split; [by apply Hkept | done].
      + intros t k o Hk [Hin|[u Hv]]%Hnew Htask; [|congruence].
        rewrite Hc2. by eapply Hdue1. }
  (* no blob *)
  destruct Hinv as (Hminted & Hn0 & Href & Htracked & Hdue). split; [done|]. by split.
Qed.

(** A release that was pending before a wait is still pending after it,
    or its URL is gone. *)
Lemma advance_pending dt t u o w :
  t ∈ timers w → task t = ReleaseTask u o →
  t ∈ timers (exec (advance dt) w) ∨ getUrlMetadata u (exec (advance dt) w) = None.
Proof.
  intros Hin Htask.
  apply (advance_steps (λ w1, t ∈ timers w1 ∨ getUrlMetadata u w1 = None)); [| | | |by left].
  - intros w1 now [Hin1|Hnone].
    + unfold exec. rewrite runTimers_eq. cbn [snd]. rewrite fireAll_timers. cbn [timers].
      destruct (decide (now < due t)) as [Hlate|Hfire].
      * left. by apply list_elem_of_filter.
      * right. match goal with |- context [fireAll ?l ?w0] =>
          destruct (fireAll_removes l u o w0) as [Hgone _]; [|done] end.
        left. exists t. split; [|done]. apply list_elem_of_filter. split; [lia | done].
    + right. by apply (shrinks_untracked w1); [apply runTimers_shrinks|].
  - intros w1 now _ HP. exact HP.
  - intros w1 [Hin1|Hnone].
    + left. by apply cleanupOldUrls_keeps_timers.
    + right. by apply (shrinks_untracked w1); [apply cleanupOldUrls_shrinks|].
  - intros w1 s HP. exact HP.
Qed.

Lemma revokeAll_due l w t :
  t ∈ timers (revokeAll l w) → t ∈ timers w ∨ due t = clock w + 50.
Proof.
  revert w. induction l as [|url l IH]; intros w; [by left|].
  unfold revokeAll in *. simpl. intros [Hin|Hdue]%IH.
  - destruct (revokeBlobUrl_frame url w) as (_ & _ & _ & Hnew & _).
    destruct (Hnew t Hin) as [Hold|[o ->]]; [by left | by right].
  - right. destruct (revokeBlobUrl_frame url w) as (_ & Hc & _). by rewrite Hdue, Hc.
Qed.

(** Timers that are due within 50 ms before a wait are so after it: a
    sweep sets its releases 50 ms ahead. *)
Lemma advance_due (Q : Timer → Prop) dt w :
  (∀ t, t ∈ timers w → Q t → due t ≤ clock w + 50) →
  ∀ t, t ∈ timers (exec (advance dt) w) → Q t → due t ≤ clock (exec (advance dt) w) + 50.
Proof.
  intros Hdue.
  apply (advance_steps (λ w1, ∀ t, t ∈ timers w1 → Q t → due t ≤ clock w1 + 50)); [| | | |done].
  - intros w1 now HP t. rewrite runTimers_clock. unfold exec. rewrite runTimers_eq. cbn [snd].
    rewrite fireAll_timers. cbn [timers]. intros [_ Hin]%list_elem_of_filter. by apply HP.
  - intros w1 now Hnow HP t Hin HQ. specialize (HP t Hin HQ). cbn [atTime clock]. lia.
  - intros w1 HP t. rewrite cleanupOldUrls_clock.
    destruct (cleanupOldUrls_state None w1) as (_ & Ht & _). rewrite Ht.
    intros [Hin|Hnew]%revokeAll_due HQ; [by apply HP | lia].
  - intros w1 s HP. exact HP.
Qed.

Lemma advance_holdsOne n0 dt p :
  holdsOne n0 p → holdsOne n0 (exec (UseBlobUrl.inBrowser (advance dt)) p).
Proof.
  intros (Hminted & Hn0 & Href & Htracked & Hdue).
  assert (exec (UseBlobUrl.inBrowser (advance dt)) p
          = UseBlobUrl.mkPage (exec (advance dt) (UseBlobUrl.browser p)) (UseBlobUrl.hook p))
    as -> by done.
  pose proof (perform_minted (Advance dt) _ Hminted) as Hminted'.
  pose proof (perform_shrinks (Advance dt) (UseBlobUrl.browser p)) as (Hn & _ & _);
    [by intros|]. cbn [perform] in Hminted', Hn.
  unfold holdsOne. cbn [UseBlobUrl.browser UseBlobUrl.hook]. rewrite Hn.
  split; [done|]. split; [done|]. split; [done|]. split.
  - intros k md Hk Hget. destruct (advance_entry _ _ _ _ Hget) as (md0 & Hget0 & _).
    destruct (Htracked k md0 Hk Hget0) as [Hmine|Hpending]; [by left|]. right.
    apply releasePending_spec in Hpending as (t & o & Hin & Htask).
    apply releasePending_spec. exists t, o. split; [|done].
    destruct (advance_pending dt t (objectUrl k) o (UseBlobUrl.browser p) Hin Htask)
      as [Hstill|Hgone]; [done | congruence].
  - intros t k o Hk Hin Htask.
    apply (advance_due (λ t, ∃ k o, (n0 ≤ k)%N ∧ task t = ReleaseTask (objectUrl k) o)
             dt (UseBlobUrl.browser p)); [|done|by exists k, o].
    intros t' Hin' (k' & o' & Hk' & Htask'). by apply (Hdue t' k' o').
Qed.

Lemma performHook_holdsOne n0 opts c p :
  holdsOne n0 p → holdsOne n0 (exec (UseBlobUrl.performHook opts c) p).
Proof.
  intros Hinv. destruct c as [blob|blob|dt]; cbn [UseBlobUrl.performHook].
  - unfold UseBlobUrl.blobEffect. rewrite exec_detached. by apply createUrl_holdsOne.
  - unfold UseBlobUrl.refresh. destruct blob as [b|]; [|done].
    rewrite exec_detached. by apply createUrl_holdsOne.
  - by apply advance_holdsOne.
Qed.

Lemma mounted_holdsOne opts componentId cs0 cs :
  holdsOne (nextObjectUrl (history cs0)) (UseBlobUrl.mounted opts componentId (history cs0) cs).
Proof.
  unfold UseBlobUrl.mounted.
  assert (∀ p, holdsOne (nextObjectUrl (history cs0)) p →
               holdsOne (nextObjectUrl (history cs0))
                 (foldl (λ p c, exec (UseBlobUrl.performHook opts c) p) p cs)) as Hall.
  { induction cs as [|c cs IH]; intros p Hinv; [done|]. simpl.
    by apply IH, performHook_holdsOne. }
  apply Hall. destruct (history_tables cs0) as (Hminted & [_ Hpending] & _).
  unfold holdsOne. cbn [UseBlobUrl.browser UseBlobUrl.hook UseBlobUrl.mount
                         UseBlobUrl.currentUrlRef].
  split; [done|]. split; [lia|]. split; [done|]. split.
  - intros k md Hk Hget. destruct Hminted as [Htracked _].
    destruct (Htracked _ _ Hget) as (k' & Hk' & Heq%objectUrl_inj). lia.
  - intros t k o Hk Hin Htask.
    destruct (Hpending t _ _ Hin Htask) as (k' & Hk' & Heq%objectUrl_inj). lia.
Qed.

(** A mounted [useBlobUrl] holds one live handle at most.  The hook is
    mounted on a page that has used the manager in any way before; the
    component is then rendered with blobs, calls [refresh] and lets time
    pass, in any order.  Of the URLs created since the mount, every one that
    is still tracked is the handle the hook holds or has its release pending;
    and once 50 ms have passed without a call, the only one still tracked is
    the handle the hook holds. *)
Theorem useBlobUrl_holds_one_live_handle
    (opts : UseBlobUrl.Options) (componentId : option string)
    (cs0 : list Call) (cs : list UseBlobUrl.HookCall) (k : N) (dt : N) :
  (nextObjectUrl (history cs0) ≤ k)%N →
  let p := UseBlobUrl.mounted opts componentId (history cs0) cs in
  let p' := UseBlobUrl.mounted opts componentId (history cs0) (cs ++ [UseBlobUrl.Tick dt]) in
  (isUrlActive (objectUrl k) (UseBlobUrl.browser p) = true →
   UseBlobUrl.currentUrlRef (UseBlobUrl.hook p) = Some (objectUrl k) ∨
   releasePending (objectUrl k) (UseBlobUrl.browser p) = true) ∧
  ((50 ≤ dt)%N → isUrlActive (objectUrl k) (UseBlobUrl.browser p') = true →
   UseBlobUrl.currentUrlRef (UseBlobUrl.hook p') = Some (objectUrl k)).
Proof.
  intros Hk p p'. split.
  - intros [md Hget]%has_true.
    destruct (mounted_holdsOne opts componentId cs0 cs) as (_ & _ & _ & Htracked & _).
    by eapply Htracked.
  - intros Hdt [md Hget]%has_true.
    destruct (mounted_holdsOne opts componentId cs0 cs) as (_ & _ & _ & Htracked & Hdue).
    fold p in Htracked, Hdue.
    assert (UseBlobUrl.browser p' = exec (advance dt) (UseBlobUrl.browser p) ∧
            UseBlobUrl.hook p' = UseBlobUrl.hook p) as [Hb Hh].
    { subst p p'. unfold UseBlobUrl.mounted. by rewrite foldl_app. }
    rewrite Hb in Hget. rewrite Hh.
    destruct (advance_entry _ _ _ _ Hget) as (md0 & Hget0 & _).
    destruct (Htracked k md0 Hk Hget0) as [Hmine|Hpending]; [done|]. exfalso.
    apply releasePending_spec in Hpending as (t & o & Hin & Htask).
    destruct (advance_removes dt (objectUrl k) o (UseBlobUrl.browser p)) as [Hgone _];
      [|unfold getUrlMetadata in *; congruence].
    left. exists t. split; [done|]. split; [done|].
    specialize (Hdue t k o Hk Hin Htask). lia.
Qed.

Lemma useBlobUrl_holds_one_live_handle_witness :
  let p' := UseBlobUrl.mounted UseBlobUrl.defaultOptions (Some "comp1") (history [])
              [UseBlobUrl.Render (Some wavBlob); UseBlobUrl.Refresh (Some wavBlob);
               UseBlobUrl.Tick 50] in
  UseBlobUrl.currentUrlRef (UseBlobUrl.hook p') = Some "blob:1".
Proof.
  destruct (useBlobUrl_holds_one_live_handle UseBlobUrl.defaultOptions (Some "comp1") []
              [UseBlobUrl.Render (Some wavBlob); UseBlobUrl.Refresh (Some wavBlob)] 1 50)
    as [_ Hlater]; [vm_compute; discriminate|].
  apply Hlater; [lia | reflexivity].
Defined.

(** *** The handle outlives a [null] blob, and goes with the unmount *)

(** [createUrl(null)] clears the exposed [url] and [error] and nothing
    else: the handle the hook holds is not revoked.  It stays in
    [currentUrlRef] and, with no release of it pending, it stays tracked
    while time passes, up to the next periodic sweep (which revokes it once
    it is older than an hour). *)
Theorem useBlobUrl_null_blob_keeps_handle
    (opts : UseBlobUrl.Options) (p : UseBlobUrl.Page) (u : string) (md : UrlMetadata) (dt : N) :
  UseBlobUrl.currentUrlRef (UseBlobUrl.hook p) = Some u →
  getUrlMetadata u (UseBlobUrl.browser p) = Some md →
  releasePending u (UseBlobUrl.browser p) = false →
  let p' := exec (UseBlobUrl.createUrl opts None) p in
  result (UseBlobUrl.createUrl opts None) p = Normal tt ∧
  UseBlobUrl.url (UseBlobUrl.hook p') = None ∧
  UseBlobUrl.error (UseBlobUrl.hook p') = None ∧
  UseBlobUrl.currentUrlRef (UseBlobUrl.hook p') = Some u ∧
  UseBlobUrl.browser p' = UseBlobUrl.browser p ∧
  (clock (UseBlobUrl.browser p) + Z.of_N dt < nextSweep (UseBlobUrl.browser p) →
   getUrlMetadata u (exec (advance dt) (UseBlobUrl.browser p')) = Some md).
Proof.
  intros Hcur Hget Hquiet p'. subst p'.
  split; [done|]. split; [done|]. split; [done|]. split; [done|]. split; [done|].
  intros Hsweep. cbn [exec UseBlobUrl.createUrl]. rewrite <- Hget. by apply advance_keeps_quiet.
Qed.

Lemma useBlobUrl_null_blob_keeps_handle_witness :
  let p := UseBlobUrl.mkPage oneUrlBrowser
             (UseBlobUrl.mkHook (Some "blob:0") false None (Some "blob:0") "comp1") in
  let p' := exec (UseBlobUrl.createUrl UseBlobUrl.defaultOptions None) p in
  UseBlobUrl.url (UseBlobUrl.hook p') = None ∧
  getUrlMetadata "blob:0" (exec (advance 1000) (UseBlobUrl.browser p')) = Some wavMetadata.
Proof.
  destruct (useBlobUrl_null_blob_keeps_handle UseBlobUrl.defaultOptions
              (UseBlobUrl.mkPage oneUrlBrowser
                 (UseBlobUrl.mkHook (Some "blob:0") false None (Some "blob:0") "comp1"))
              "blob:0" wavMetadata 1000)
    as (_ & Hurl & _ & _ & _ & Hkept); [reflexivity ..|].
  exact (conj Hurl (Hkept eq_refl)).
Defined.

(** The unmount.  With [autoCleanup] (the default) the handle the hook
    holds is revoked and is untracked 50 ms later; without it the unmount
    touches nothing, so with no release pending the handle stays tracked
    while time passes, up to the next periodic sweep. *)
Theorem useBlobUrl_unmount_releases_handle
    (opts : UseBlobUrl.Options) (p : UseBlobUrl.Page) (u : string) (md : UrlMetadata) (dt : N) :
  UseBlobUrl.currentUrlRef (UseBlobUrl.hook p) = Some u →
  minted (UseBlobUrl.browser p) u = true →
  getUrlMetadata u (UseBlobUrl.browser p) = Some md →
  let p' := exec (UseBlobUrl.unmount opts) p in
  result (UseBlobUrl.unmount opts) p = Normal tt ∧
  (UseBlobUrl.autoCleanup opts = true →
   getUrlMetadata u (UseBlobUrl.browser p') = Some (deactivated md) ∧
   ((50 ≤ dt)%N → isUrlActive u (exec (advance dt) (UseBlobUrl.browser p')) = false)) ∧
  (UseBlobUrl.autoCleanup opts = false →
   UseBlobUrl.browser p' = UseBlobUrl.browser p ∧
   (releasePending u (UseBlobUrl.browser p) = false →
    clock (UseBlobUrl.browser p) + Z.of_N dt < nextSweep (UseBlobUrl.browser p) →
    getUrlMetadata u (exec (advance dt) (UseBlobUrl.browser p')) = Some md)).
Proof.
  intros Hcur (k & Hk & ->)%minted_spec Hget p'.
  assert (UseBlobUrl.unmount opts p =
          if UseBlobUrl.autoCleanup opts
          then (Normal tt,
                UseBlobUrl.mkPage (exec (revokeBlobUrl (Some (objectUrl k))) (UseBlobUrl.browser p))
                  (UseBlobUrl.hook p))
          else (Normal tt, p)) as Heq.
  { unfold UseBlobUrl.unmount, UseBlobUrl.inBrowser. run_js. rewrite Hcur, truthy_objectUrl.
    destruct (UseBlobUrl.autoCleanup opts); simpl; [|done]. by rewrite revokeBlobUrl_pair. }
  split; [unfold result; rewrite Heq; by destruct (UseBlobUrl.autoCleanup opts)|]. split.
  - intros Hauto. subst p'. unfold exec at 1 3. rewrite Heq, Hauto. cbn [snd UseBlobUrl.browser].
    pose proof (revokeBlobUrl_entry (objectUrl k) md (UseBlobUrl.browser p) Hget) as Hent.
    rewrite objectUrl_prefix in Hent. destruct Hent as [Hdead Htimer].
    split; [done|]. intros Hdt.
    destruct (revokeBlobUrl_frame (objectUrl k) (UseBlobUrl.browser p)) as (_ & Hc & _).
    eapply advance_releases; [exact Htimer | done |]. rewrite Hc. simpl. lia.
  - intros Hauto. subst p'. unfold exec at 1 3. rewrite Heq, Hauto. cbn [snd].
    split; [done|]. intros Hquiet Hsweep. rewrite <- Hget. by apply advance_keeps_quiet.
Qed.

Lemma useBlobUrl_unmount_releases_handle_witness :
  let p := UseBlobUrl.mkPage oneUrlBrowser
             (UseBlobUrl.mkHook (Some "blob:0") false None (Some "blob:0") "comp1") in
  let p' := exec (UseBlobUrl.unmount UseBlobUrl.defaultOptions) p in
  isUrlActive "blob:0" (exec (advance 50) (UseBlobUrl.browser p')) = false.
Proof.
  destruct (useBlobUrl_unmount_releases_handle UseBlobUrl.defaultOptions
              (UseBlobUrl.mkPage oneUrlBrowser
                 (UseBlobUrl.mkHook (Some "blob:0") false None (Some "blob:0") "comp1"))
              "blob:0" wavMetadata 50)
    as (_ & Hauto & _); [reflexivity ..|].
  destruct Hauto as [_ Hgone]; [reflexivity|]. apply Hgone. lia.
Defined.

(** ** [addBlob] and [removeBlob] of [useMultipleBlobUrls] *)

Lemma addBlob_creatable onError bd p :
  creatable bd = true →
  let new := objectUrl (nextObjectUrl (browser p)) in
  let h := hook p in
  addBlob onError (Some bd) p =
    (Normal tt,
     mkPage
       (exec (createBlobUrl (bd_blob bd) (Some (componentIdRef h))
                (withBlobId (bd_metadata bd) (bd_id bd))) (browser p))
       (mkHook (JsMap.set (bd_id bd) new (urls h)) (isLoading h)
          (JsMap.delete (bd_id bd) (errors h)) (componentIdRef h)
          (JsMap.set (bd_id bd) new (urlsRef h)))).
Proof.
  intros Hok new h. subst new h. unfold creatable in Hok.
  apply andb_true_iff in Hok as [Hskip Hr].
  apply negb_true_iff in Hskip.
  destruct (refusal (bd_blob bd)) as [|] eqn:Href; [done|].
  apply refusal_None in Href as (b & sz & Hb & Hsz & Hnz & Hblob).
  unfold addBlob. rewrite Hskip. unfold inBrowser, withHook. run_js.
  rewrite Hb. rewrite (createBlobUrl_accepted b sz) by done. simpl.
  unfold exec. rewrite (createBlobUrl_accepted b sz) by done. reflexivity.
Qed.

(** [addBlob] for an item the manager accepts.  The next URL of the
    browser is created and bound to the item in [urls] and in the item map,
    and the item's error is cleared; the other items are left alone.  A
    handle the item was bound to before is not revoked: its entry is as it
    was and no release is scheduled for it, while the item map no longer
    leads to it. *)
Theorem addBlob_rebinds_without_revoking
    (onError : option Callback) (bd : BlobData) (p : Page) :
  creatable bd = true →
  let p' := exec (addBlob onError (Some bd)) p in
  let new := objectUrl (nextObjectUrl (browser p)) in
  result (addBlob onError (Some bd)) p = Normal tt ∧
  JsMap.get (bd_id bd) (urlsRef (hook p')) = Some new ∧
  JsMap.get (bd_id bd) (urls (hook p')) = Some new ∧
  JsMap.get (bd_id bd) (errors (hook p')) = None ∧
  isUrlActive new (browser p') = true ∧
  (∀ id, id ≠ bd_id bd →
     JsMap.get id (urlsRef (hook p')) = JsMap.get id (urlsRef (hook p)) ∧
     JsMap.get id (urls (hook p')) = JsMap.get id (urls (hook p)) ∧
     JsMap.get id (errors (hook p')) = JsMap.get id (errors (hook p))) ∧
  (∀ old md,
     JsMap.get (bd_id bd) (urlsRef (hook p)) = Some old →
     minted (browser p) old = true →
     getUrlMetadata old (browser p) = Some md →
     getUrlMetadata old (browser p') = Some md ∧
     releasePending old (browser p') = releasePending old (browser p) ∧
     JsMap.get (bd_id bd) (urlsRef (hook p')) ≠ Some old).
Proof.
  intros Hok p' new. pose proof (addBlob_creatable onError bd p Hok) as Heq. cbn zeta in Heq.
  fold new in Heq.
  assert (creatable bd = true) as Hok' by done.
  unfold creatable in Hok'. apply andb_true_iff in Hok' as [_ Hr].
  destruct (refusal (bd_blob bd)) as [|] eqn:Href; [done|].
  apply refusal_None in Href as (b & sz & Hb & Hsz & Hnz & Hblob).
  assert (browser p' =
          exec (createBlobUrl (Some b) (Some (componentIdRef (hook p)))
                  (withBlobId (bd_metadata bd) (bd_id bd))) (browser p)) as Hbrowser.
  { subst p'. unfold exec at 1. rewrite Heq, Hb. done. }
  destruct (createBlobUrl_step (Some b) (Some (componentIdRef (hook p)))
              (withBlobId (bd_metadata bd) (bd_id bd)) (browser p))
    as [_ [(Habs & _)|(_ & _ & Htracked & _ & Hframe)]].
  { unfold result in Habs. rewrite (createBlobUrl_accepted b sz) in Habs by done.
    discriminate Habs. }
  rewrite <- Hbrowser in Htracked, Hframe. fold new in Htracked, Hframe.
  split; [unfold result; by rewrite Heq|].
  split; [subst p'; unfold exec; rewrite Heq; simpl; apply get_set_eq|].
  split; [subst p'; unfold exec; rewrite Heq; simpl; apply get_set_eq|].
  split; [subst p'; unfold exec; rewrite Heq; simpl; apply get_delete_eq|].
  split; [by apply has_true|]. split.
  - intros id Hne. subst p'. unfold exec. rewrite Heq. simpl.
    by rewrite !get_set_ne, get_delete_ne.
  - intros old md Hbound (k & Hk & ->)%minted_spec Hget.
    assert (new ≠ objectUrl k) as Hfresh by (subst new; intros Heq'%objectUrl_inj; lia).
    split; [rewrite Hframe; done|]. split.
    + apply releasePending_ext. intros t o Htask. rewrite Hbrowser. unfold exec.
      rewrite (createBlobUrl_accepted b sz) by done. cbn [snd timers].
      rewrite elem_of_insertTimer_iff. split; [|by right].
      intros [->|Hin]; [|done]. simpl in Htask. congruence.
    + subst p'. unfold exec. rewrite Heq. simpl. rewrite get_set_eq. congruence.
Qed.

Lemma addBlob_rebinds_without_revoking_witness :
  let p' := exec (addBlob None itemA) pageWithA in
  JsMap.get "a" (urlsRef (hook p')) = Some "blob:1" ∧
  isUrlActive "blob:1" (browser p') = true ∧
  releasePending "blob:0" (browser p') = false.
Proof.
  destruct (addBlob_rebinds_without_revoking None (mkBlobData (Some wavBlob) "a" noMetadata)
              pageWithA)
    as (_ & Href & _ & _ & Hactive & _ & Hold); [reflexivity|].
  destruct (Hold "blob:0" (trackedMetadata (newBlobOf wavBlob) wavBlob "gallery" 0 0 1024
                             (withBlobId noMetadata "a")))
    as (_ & Hpending & _); [reflexivity ..|].
  split; [exact Href|]. split; [exact Hactive|]. etrans; [exact Hpending | reflexivity].
Defined.

Lemma removeBlob_eq blobId p :
  removeBlob blobId p =
    let h := hook p in
    let url := JsMap.get blobId (urlsRef h) in
    (Normal tt,
     mkPage
       (if truthy url then exec (revokeBlobUrl url) (browser p) else browser p)
       (mkHook (JsMap.delete blobId (urls h)) (isLoading h)
          (JsMap.delete blobId (errors h)) (componentIdRef h)
          (if truthy url then JsMap.delete blobId (urlsRef h) else urlsRef h))).
Proof.
  unfold removeBlob, inBrowser, withHook. run_js.
  destruct (truthy (JsMap.get blobId (urlsRef (hook p)))); run_js; [|done].
  by rewrite revokeBlobUrl_pair.
Qed.

(** [removeBlob id] never throws.  The item loses its [urls] and
    [errors] entries and the other items keep theirs.  For an item that is
    not bound the manager is not called.  For an item bound to a tracked
    handle the handle is revoked and the binding is deleted: the entry is
    deactivated, and 50 ms later the handle is untracked. *)
Theorem removeBlob_revokes_and_forgets (blobId : string) (p : Page) :
  let p' := exec (removeBlob blobId) p in
  result (removeBlob blobId) p = Normal tt ∧
  JsMap.get blobId (urls (hook p')) = None ∧
  JsMap.get blobId (errors (hook p')) = None ∧
  (∀ id, id ≠ blobId →
     JsMap.get id (urlsRef (hook p')) = JsMap.get id (urlsRef (hook p)) ∧
     JsMap.get id (urls (hook p')) = JsMap.get id (urls (hook p)) ∧
     JsMap.get id (errors (hook p')) = JsMap.get id (errors (hook p))) ∧
  (JsMap.get blobId (urlsRef (hook p)) = None →
   browser p' = browser p ∧ urlsRef (hook p') = urlsRef (hook p)) ∧
  (∀ u md,
     JsMap.get blobId (urlsRef (hook p)) = Some u →
     minted (browser p) u = true →
     getUrlMetadata u (browser p) = Some md →
     JsMap.get blobId (urlsRef (hook p')) = None ∧
     getUrlMetadata u (browser p') = Some (deactivated md) ∧
     ∀ dt : N, (50 ≤ dt)%N → isUrlActive u (exec (advance dt) (browser p')) = false).
Proof.
  intros p'. pose proof (removeBlob_eq blobId p) as Heq. cbn zeta in Heq.
  split; [unfold result; by rewrite Heq|].
  split; [subst p'; unfold exec; rewrite Heq; simpl; apply get_delete_eq|].
  split; [subst p'; unfold exec; rewrite Heq; simpl; apply get_delete_eq|].
  split; [|split].
  - intros id Hne. subst p'. unfold exec. rewrite Heq. simpl.
    rewrite !get_delete_ne by done. split; [|done].
    destruct (truthy _); [by rewrite get_delete_ne | done].
  - intros Hnone. subst p'. unfold exec. rewrite Heq, Hnone. done.
  - intros u md Hbound (k & Hk & ->)%minted_spec Hget.
    subst p'. unfold exec at 1 2 4. rewrite Heq, Hbound, truthy_objectUrl. cbn [snd browser hook urlsRef].
    pose proof (revokeBlobUrl_entry (objectUrl k) md (browser p) Hget) as Hent.
    rewrite objectUrl_prefix in Hent. destruct Hent as [Hdead Htimer].
    destruct (revokeBlobUrl_frame (objectUrl k) (browser p)) as (_ & Hc & _).
    split; [apply get_delete_eq|]. split; [done|]. intros dt Hdt.
    eapply advance_releases; [exact Htimer | done |]. rewrite Hc. simpl. lia.
Qed.

(** ** Quiet calls *)

Lemma history_app cs cs' : history (cs ++ cs') = performAll cs' (history cs).
Proof. unfold history, performAll. by rewrite foldl_app. Qed.

Lemma performAll_app cs cs' w : performAll (cs ++ cs') w = performAll cs' (performAll cs w).
Proof. unfold performAll. by rewrite foldl_app. Qed.

Lemma performAll_cons c cs w : performAll (c :: cs) w = performAll cs (exec (perform c) w).
Proof. done. Qed.

Lemma quiet_plain c : quiet c = true → plain c = true.
Proof. by destruct c. Qed.

Lemma quiet_all_plain cs : forallb quiet cs = true → forallb plain cs = true.
Proof.
  induction cs as [|c cs IH]; [done|]. simpl. intros [Hc Hcs]%andb_true_iff.
  by rewrite (quiet_plain c Hc), IH.
Qed.

(** One quiet call: the clock stands, the pending timers stay pending. *)
Lemma quiet_call c w :
  quiet c = true →
  let w' := exec (perform c) w in
  touches w w' ∧ shrinks w w' ∧ clock w' = clock w ∧ (∀ t, t ∈ timers w → t ∈ timers w').
Proof.
  intros Hq w'. pose proof (perform_touches c w) as Ht.
  assert (shrinks w w') as Hs by (apply perform_shrinks; intros ? ? ? ->; done).
  subst w'. destruct c as [blob o md|url|url|o|url cb| |maxAge|dt|lvl msg|cb0]; try done;
    (split; [exact Ht|]; split; [exact Hs|]); cbn [perform].
  - unfold exec. destruct (getUrlMetadata url w) as [md|] eqn:Hget.
    + by rewrite (markUrlAccessed_tracked url md).
    + by rewrite markUrlAccessed_untracked.
  - destruct url as [url|]; [|done].
    by destruct (revokeBlobUrl_frame url w) as (_ & Hc & _ & _ & Hk & _).
  - unfold exec. rewrite revokeComponentUrls_eq. cbn [snd].
    destruct (JsMap.get o (urlsByComponent (manager w))) as [s|]; [|done].
    by destruct (revokeAll_frame s w) as (_ & Hc & _ & _ & Hk & _).
  - destruct cb as [f|]; [|done]. unfold exec, registerCleanupCallback. by run_js.
  - unfold exec. rewrite cleanupOldUrls_eq. cbn [snd].
    match goal with |- context [revokeAll ?l w] =>
      destruct (revokeAll_frame l w) as (_ & Hc & _ & _ & Hk & _) end.
    by destruct (decide (0 < length _)%nat).
  - by rewrite call_state.
Qed.

Lemma quiet_calls cs w :
  forallb quiet cs = true →
  let w' := performAll cs w in
  touches w w' ∧ shrinks w w' ∧ clock w' = clock w ∧ (∀ t, t ∈ timers w → t ∈ timers w').
Proof.
  revert w. induction cs as [|c cs IH]; intros w Hq.
  - split; [apply touches_refl|]. split; [apply shrinks_refl | done].
  - simpl in Hq. apply andb_true_iff in Hq as [Hc Hcs].
    destruct (quiet_call c w Hc) as (Ht & Hs & Hclock & Hk).
    destruct (IH (exec (perform c) w) Hcs) as (Ht' & Hs' & Hclock' & Hk').
    unfold performAll in *. cbn [foldl].
    split; [by eapply touches_trans|]. split; [by eapply shrinks_trans|].
    split; [congruence|]. intros t Hin. by apply Hk', Hk.
Qed.

(** ** A component that is torn down, with quiet calls around *)

Lemma component_forgotten (cs pre post : list Call) (c : string) (dt : N) :
  forallb plain cs = true → forallb quiet pre = true → forallb quiet post = true →
  (50 ≤ dt)%N →
  let w := history cs in
  let w' := exec (advance dt) (performAll (pre ++ [RevokeComponentUrls c] ++ post) w) in
  getComponentUrls c w' = [] ∧
  JsMap.has c (urlsByComponent (manager w')) = false ∧
  (∀ u md, getUrlMetadata u w' = Some md → componentId md ≠ c) ∧
  byComponent (getStats w') !! c = None ∧
  (∀ u, u ∈ getComponentUrls c w →
        isUrlActive u w' = false ∧ RevokeObjectURL u ∈ trace w').
Proof.
  intros Hplain Hpre Hpost Hdt w w'.
  set (all := cs ++ (pre ++ [RevokeComponentUrls c] ++ post) ++ [Advance dt]).
  assert (w' = history all) as Hw'.
  { subst all w'. by rewrite (app_assoc cs _ [Advance dt]), history_snoc, history_app. }
  assert (forallb plain all = true) as Hplain'.
  { subst all. rewrite !forallb_app, Hplain, (quiet_all_plain pre Hpre),
      (quiet_all_plain post Hpost). done. }
  destruct (history_tables cs) as ([Hminted _] & _ & (Hkeys & _) & Hsound).
  destruct (Hsound Hplain) as (Hagree & Hindexed & Htracked & _).
  pose proof (history_entries_distinct all) as Hdistinct'.
  destruct (history_tables all) as (_ & _ & (Hkeys' & Hsets' & _) & Hsound').
  destruct (Hsound' Hplain') as (_ & _ & Htracked' & _).
  rewrite <- Hw' in Hdistinct', Hkeys', Hsets', Htracked'. clear Hsound Hsound' Hw' Hplain'.
  fold w in Hminted, Hkeys, Hagree, Hindexed, Htracked.
  (* the states in between *)
  set (wa := performAll pre w).
  set (wb := exec (revokeComponentUrls c) wa).
  set (wc := performAll post wb).
  assert (w' = exec (advance dt) wc) as Hw'.
  { subst w' wc wb wa. by rewrite !performAll_app. }
  destruct (quiet_calls pre w Hpre) as ((Hidx_a & _ & _ & Hfwd_a & _) & Hs_a & Hc_a & _).
  destruct (quiet_calls post wb Hpost) as (_ & Hs_c & Hc_c & Hk_c).
  fold wa in Hidx_a, Hfwd_a, Hs_a, Hc_a. fold wc in Hs_c, Hc_c, Hk_c.
  destruct (revokeComponentUrls_sync c wa) as (_ & Hc_b & _ & _ & Hrevoked).
  fold wb in Hc_b, Hrevoked.
  assert (shrinks w w') as (_ & _ & Hsub).
  { rewrite Hw'. eapply shrinks_trans; [exact Hs_a|].
    eapply shrinks_trans; [apply (perform_shrinks (RevokeComponentUrls c)); by intros|].
    eapply shrinks_trans; [exact Hs_c|].
    apply (perform_shrinks (Advance dt)). by intros. }
  (* every URL of the component is released *)
  assert (∀ u, u ∈ getComponentUrls c w →
               getUrlMetadata u w' = None ∧ (u ∉ getComponentUrls c w') ∧
               RevokeObjectURL u ∈ trace w') as Hreleased.
  { intros u Hu. pose proof Hu as (s & Hin & Hus)%getComponentUrls_elem.
    destruct (Hindexed c s u Hin Hus) as [md Hget].
    assert (componentId md = c) as Hc by (by eapply Hagree).
    destruct (Hminted u md Hget) as (k & _ & ->).
    destruct (Hfwd_a _ _ Hget) as (md_a & Hget_a & Hc_md).
    assert (objectUrl k ∈ getComponentUrls c wa) as Hu_a.
    { unfold getComponentUrls in *. by rewrite Hidx_a. }
    destruct (Hrevoked _ md_a Hu_a (objectUrl_prefix k) Hget_a) as [_ Htimer].
    rewrite Hc_md, Hc in Htimer. apply Hk_c in Htimer.
    rewrite Hw'.
    assert (due (mkTimer (clock wa + 50) (ReleaseTask (objectUrl k) c)) ≤ clock wc + Z.of_N dt)
      as Hdue by (rewrite Hc_c, Hc_b; simpl; lia).
    destruct (advance_removes dt (objectUrl k) c wc) as [Hgone Hout].
    { left. by exists (mkTimer (clock wa + 50) (ReleaseTask (objectUrl k) c)). }
    destruct (advance_trace dt wc) as (later & Htr & Hrel).
    split; [done|]. split; [done|]. rewrite Htr. apply elem_of_app. right.
    by apply (Hrel (mkTimer (clock wa + 50) (ReleaseTask (objectUrl k) c)) (objectUrl k) c). }
  assert (getComponentUrls c w' = []) as Hempty.
  { apply list_no_elem. intros x Hx. pose proof Hx as (s' & Hin' & Hx')%getComponentUrls_elem.
    destruct (Hsub c s' Hin') as (s & Hin & Hincl).
    assert (x ∈ getComponentUrls c w) as Hold.
    { rewrite (getComponentUrls_listed c s w Hkeys Hin). by apply Hincl. }
    by destruct (Hreleased x Hold) as (_ & Hout & _). }
  assert (∀ u md, getUrlMetadata u w' = Some md → componentId md ≠ c) as Hnone.
  { intros u md Hget Hc. apply Htracked' in Hget. rewrite Hc, Hempty in Hget.
    by apply elem_of_nil in Hget. }
  split; [done|]. split; [|split; [done|split]].
  - apply has_false. destruct (JsMap.get c (urlsByComponent (manager w'))) as [s|] eqn:Hs; [|done].
    unfold getComponentUrls in Hempty. rewrite Hs in Hempty. simpl in Hempty.
    apply get_Some_elem in Hs. by destruct (Hsets' c s Hs).
  - destruct (getStats_spec w') as (_ & _ & _ & -> & _). rewrite bucketOf_from_empty.
    assert (filedUnder componentId c (activeUrls (manager w')) = []) as ->;
      [|unfold bucketOf; by destruct (inherited c)].
    apply filedUnder_nil. intros [u md] Hin. simpl. apply (Hnone u). by apply elem_get.
  - intros u Hu. destruct (Hreleased u Hu) as (Hgone & _ & Htrace).
    split; [by apply has_false | done].
Qed.

(** Scenario B of the design notes, for every number of URLs and every
    earlier use of the manager that left [componentId] alone: 50 ms after
    [revokeComponentUrls c], the component has no URL and no set in the owner
    index, no tracked entry names it, the statistics have no bucket for it,
    and [URL.revokeObjectURL] has been called on every URL it had. *)
Theorem revoked_component_is_forgotten (cs : list Call) (c : string) (dt : N) :
  forallb plain cs = true → (50 ≤ dt)%N →
  let w' := exec (advance dt) (exec (revokeComponentUrls c) (history cs)) in
  getComponentUrls c w' = [] ∧
  JsMap.has c (urlsByComponent (manager w')) = false ∧
  (∀ u md, getUrlMetadata u w' = Some md → componentId md ≠ c) ∧
  byComponent (getStats w') !! c = None ∧
  (∀ u, u ∈ getComponentUrls c (history cs) →
        isUrlActive u w' = false ∧ RevokeObjectURL u ∈ trace w').
Proof.
  intros Hplain Hdt. by apply (component_forgotten cs [] [] c dt).
Qed.

Lemma revoked_component_is_forgotten_witness :
  let w := history [CreateBlobUrl (Some wavBlob) (Some "comp1") noMetadata;
                    CreateBlobUrl (Some wavBlob) (Some "comp2") noMetadata;
                    CreateBlobUrl (Some wavBlob) (Some "comp1") noMetadata] in
  let w' := exec (advance 50) (exec (revokeComponentUrls "comp1") w) in
  getComponentUrls "comp1" w' = [] ∧
  JsMap.has "comp1" (urlsByComponent (manager w')) = false ∧
  byComponent (getStats w') !! "comp1" = None.
Proof.
  destruct (revoked_component_is_forgotten
              [CreateBlobUrl (Some wavBlob) (Some "comp1") noMetadata;
               CreateBlobUrl (Some wavBlob) (Some "comp2") noMetadata;
               CreateBlobUrl (Some wavBlob) (Some "comp1") noMetadata] "comp1" 50)
    as (Hempty & Hpruned & _ & Hstats & _); [reflexivity | lia |].
  exact (conj Hempty (conj Hpruned Hstats)).
Defined.

(** ** The error boundary *)

Lemma revokeComponentUrls_pair A w :
  revokeComponentUrls A w = (Normal tt, exec (revokeComponentUrls A) w).
Proof. unfold exec. by rewrite revokeComponentUrls_eq. Qed.

Lemma cleanup_pair w : cleanup w = (Normal tt, exec cleanup w).
Proof. unfold exec. by rewrite cleanup_eq. Qed.

Lemma callProp_eq f p :
  ErrorBoundary.callProp f p =
    (outcome f,
     ErrorBoundary.mkPage (performAll (ErrorBoundary.propCalls f) (ErrorBoundary.browser p))
       (ErrorBoundary.state p)).
Proof.
  destruct f as [f|]; simpl; [|by destruct p].
  unfold ErrorBoundary.inBrowser, performAll. simpl. rewrite call_state.
  unfold call. run_js. by destruct (cb_throws f).
Qed.

(** The recovery is a list of manager calls, and it never throws. *)
Lemma handleBlobUrlError_eq props p :
  ErrorBoundary.handleBlobUrlError props p =
    (Normal tt,
     ErrorBoundary.mkPage
       (performAll (ErrorBoundary.recoveryCalls props) (ErrorBoundary.browser p))
       (ErrorBoundary.state p)).
Proof.
  unfold ErrorBoundary.handleBlobUrlError, ErrorBoundary.recoveryCalls, ErrorBoundary.inBrowser.
  unfold bind at 1. rewrite console_eq. cbn [fst snd ErrorBoundary.browser ErrorBoundary.state].
  destruct (truthy (ErrorBoundary.componentId props)).
  - unfold bind. cbn [fst snd ErrorBoundary.browser ErrorBoundary.state].
    rewrite revokeComponentUrls_pair. cbn [fst snd ErrorBoundary.browser ErrorBoundary.state].
    rewrite cleanupOldUrls_pair. cbn [fst snd ErrorBoundary.browser ErrorBoundary.state].
    unfold gets. cbn [fst snd ErrorBoundary.browser ErrorBoundary.state].
    rewrite console_eq. reflexivity.
  - unfold bind, ret. cbn [fst snd ErrorBoundary.browser ErrorBoundary.state].
    rewrite cleanupOldUrls_pair. cbn [fst snd ErrorBoundary.browser ErrorBoundary.state].
    unfold gets. cbn [fst snd ErrorBoundary.browser ErrorBoundary.state].
    rewrite console_eq. reflexivity.
Qed.

Lemma componentDidCatch_eq props e info p :
  ErrorBoundary.componentDidCatch props e info p =
    let st := ErrorBoundary.state p in
    (outcome (ErrorBoundary.onError props),
     ErrorBoundary.mkPage
       (performAll (ErrorBoundary.catchCalls props (ErrorBoundary.isBlobError st))
          (ErrorBoundary.browser p))
       (ErrorBoundary.mkState (ErrorBoundary.hasError st) (Some e) (Some info)
          (ErrorBoundary.retryCount st) (ErrorBoundary.isBlobError st))).
Proof.
  unfold ErrorBoundary.componentDidCatch, ErrorBoundary.catchCalls.
  unfold bind at 1. unfold ErrorBoundary.inBrowser at 1. rewrite console_eq.
  cbn [fst snd ErrorBoundary.browser ErrorBoundary.state].
  unfold bind at 1, ErrorBoundary.setState, modify.
  cbn [fst snd ErrorBoundary.browser ErrorBoundary.state].
  unfold bind at 1, gets. cbn [fst snd ErrorBoundary.browser ErrorBoundary.state
                                 ErrorBoundary.isBlobError].
  destruct (ErrorBoundary.isBlobError (ErrorBoundary.state p)).
  - unfold bind. rewrite handleBlobUrlError_eq. rewrite callProp_eq.
    cbn [fst snd ErrorBoundary.browser ErrorBoundary.state].
    by rewrite app_nil_r || rewrite !performAll_app.
  - unfold bind, ret. rewrite callProp_eq.
    cbn [fst snd ErrorBoundary.browser ErrorBoundary.state]. reflexivity.
Qed.

Lemma handleRetry_eq props p :
  ErrorBoundary.handleRetry props p =
    let st := ErrorBoundary.state p in
    (outcome (ErrorBoundary.onRetry props),
     ErrorBoundary.mkPage
       (performAll (ErrorBoundary.recoveryCalls props ++
                    ErrorBoundary.propCalls (ErrorBoundary.onRetry props))
          (ErrorBoundary.browser p))
       (ErrorBoundary.mkState false None None (S (ErrorBoundary.retryCount st))
          (ErrorBoundary.isBlobError st))).
Proof.
  unfold ErrorBoundary.handleRetry. unfold bind at 1, ErrorBoundary.setState, modify.
  cbn [fst snd]. unfold bind. rewrite handleBlobUrlError_eq, callProp_eq.
  cbn [fst snd ErrorBoundary.browser ErrorBoundary.state]. by rewrite performAll_app.
Qed.

Lemma handleReset_eq props p :
  ErrorBoundary.handleReset props p =
    let st := ErrorBoundary.state p in
    (outcome (ErrorBoundary.onReset props),
     ErrorBoundary.mkPage
       (performAll (Cleanup :: ErrorBoundary.propCalls (ErrorBoundary.onReset props))
          (ErrorBoundary.browser p))
       (ErrorBoundary.mkState false None None 0 (ErrorBoundary.isBlobError st))).
Proof.
  unfold ErrorBoundary.handleReset. unfold bind at 1, ErrorBoundary.inBrowser at 1.
  rewrite cleanup_pair. cbn [fst snd].
  unfold bind at 1, ErrorBoundary.setState, modify. cbn [fst snd].
  rewrite callProp_eq. cbn [fst snd ErrorBoundary.browser ErrorBoundary.state]. reflexivity.
Qed.

(** [includes] finds a string wherever it occurs. *)
Lemma includes_app sub pre post : includes sub (pre +:+ sub +:+ post) = true.
Proof.
  unfold includes.
  assert (String.prefix sub (sub +:+ post) = true) as Hpre.
  { induction sub as [|a sub IH]; simpl; [by destruct post|].
    destruct (Ascii.ascii_dec a a); [exact IH | done]. }
  assert (is_Some (String.index 0 sub (sub +:+ post))) as Hhere.
  { destruct (sub +:+ post) as [|a rest] eqn:Hs.
    - destruct sub; [by eexists | discriminate Hs].
    - simpl. simpl in Hpre. rewrite Hpre. by eexists. }
  assert (is_Some (String.index 0 sub (pre +:+ sub +:+ post))) as [n ->]; [|done].
  induction pre as [|a pre [n IH]].
  - exact Hhere.
  - change (String a pre +:+ sub +:+ post) with (String a (pre +:+ sub +:+ post)).
    cbn [String.index]. rewrite IH.
    destruct (String.prefix sub (String a (pre +:+ sub +:+ post))); by eexists.
Qed.

(** How the boundary classifies what it catches.  An error whose message
    quotes a URL of the browser, or mentions [ERR_FILE_NOT_FOUND] or [Failed
    to fetch], or whose stack mentions [blob:], is a blob error; an error with
    neither message nor stack is not.  Either way [hasError] is set and the
    retry count, the stored error and its info are left as they were. *)
Theorem errorBoundary_classifies_blob_errors
    (e : ErrorBoundary.ErrorValue) (st : ErrorBoundary.State) (pre post : string) (n : N) :
  ErrorBoundary.message e = Some (pre +:+ objectUrl n +:+ post) ∨
  ErrorBoundary.message e = Some (pre +:+ "ERR_FILE_NOT_FOUND" +:+ post) ∨
  ErrorBoundary.message e = Some (pre +:+ "Failed to fetch" +:+ post) ∨
  ErrorBoundary.stack e = Some (pre +:+ "blob:" +:+ post) →
  let st' := ErrorBoundary.getDerivedStateFromError e st in
  ErrorBoundary.isBlobError st' = true ∧
  ErrorBoundary.hasError st' = true ∧
  ErrorBoundary.retryCount st' = ErrorBoundary.retryCount st ∧
  ErrorBoundary.error st' = ErrorBoundary.error st ∧
  ErrorBoundary.isBlobError
    (ErrorBoundary.getDerivedStateFromError (ErrorBoundary.mkError None None) st) = false.
Proof.
  intros Hcase st'. split; [|done].
  unfold st', ErrorBoundary.getDerivedStateFromError, ErrorBoundary.blobError. simpl.
  destruct Hcase as [H|[H|[H|H]]]; rewrite H; unfold ErrorBoundary.mentions.
  - assert (includes "blob:" (pre +:+ objectUrl n +:+ post) = true) as ->; [|done].
    unfold objectUrl.
    assert (∀ a b c : string, (a +:+ b) +:+ c = a +:+ (b +:+ c)) as Hassoc.
    { intros a b c. induction a as [|x a IH]; [done|].
      change ((String x a +:+ b) +:+ c) with (String x ((a +:+ b) +:+ c)).
      change (String x a +:+ (b +:+ c)) with (String x (a +:+ (b +:+ c))). by rewrite IH. }
    rewrite Hassoc. apply includes_app.
  - rewrite (includes_app "ERR_FILE_NOT_FOUND"). by rewrite orb_true_r.
  - rewrite (includes_app "Failed to fetch"). by rewrite !orb_true_r.
  - rewrite (includes_app "blob:"). by rewrite !orb_true_r.
Qed.

Lemma errorBoundary_classifies_blob_errors_witness :
  ErrorBoundary.isBlobError
    (ErrorBoundary.getDerivedStateFromError
       (ErrorBoundary.mkError (Some "GET blob:7 net::ERR_FILE_NOT_FOUND") None)
       ErrorBoundary.initialState) = true.
Proof.
  destruct (errorBoundary_classifies_blob_errors
              (ErrorBoundary.mkError (Some "GET blob:7 net::ERR_FILE_NOT_FOUND") None)
              ErrorBoundary.initialState "GET " " net::ERR_FILE_NOT_FOUND" 7)
    as (Hblob & _); [left; reflexivity|].
  exact Hblob.
Defined.

(** For an error that is not a blob error, [componentDidCatch] leaves the
    manager alone: it logs, stores the error and calls [onError]; the tables,
    the timers and the clock are what they were, and the call ends as
    [onError] ends. *)
Theorem errorBoundary_generic_error_leaves_manager
    (props : ErrorBoundary.Props) (e : ErrorBoundary.ErrorValue) (info : string)
    (p : ErrorBoundary.Page) :
  ErrorBoundary.isBlobError (ErrorBoundary.state p) = false →
  let p' := exec (ErrorBoundary.componentDidCatch props e info) p in
  let st := ErrorBoundary.state p in
  result (ErrorBoundary.componentDidCatch props e info) p
    = outcome (ErrorBoundary.onError props) ∧
  manager (ErrorBoundary.browser p') = manager (ErrorBoundary.browser p) ∧
  timers (ErrorBoundary.browser p') = timers (ErrorBoundary.browser p) ∧
  clock (ErrorBoundary.browser p') = clock (ErrorBoundary.browser p) ∧
  trace (ErrorBoundary.browser p') =
    trace (ErrorBoundary.browser p) ++
    Console ErrorLevel "BlobUrlErrorBoundary caught an error" ::
    match ErrorBoundary.onError props with
    | Some f => [CallbackRun (cb_id f)]
    | None => []
    end ∧
  ErrorBoundary.state p' =
    ErrorBoundary.mkState (ErrorBoundary.hasError st) (Some e) (Some info)
      (ErrorBoundary.retryCount st) false.
Proof.
  intros Hgeneric p' st. pose proof (componentDidCatch_eq props e info p) as Heq.
  cbn zeta in Heq. rewrite Hgeneric in Heq.
  split; [unfold result; by rewrite Heq|].
  subst p'. unfold exec. rewrite Heq. cbn [snd ErrorBoundary.browser ErrorBoundary.state].
  unfold ErrorBoundary.catchCalls, performAll. cbn [app foldl perform].
  destruct (ErrorBoundary.onError props) as [f|]; cbn [ErrorBoundary.propCalls foldl perform].
  - rewrite call_state. unfold exec. rewrite console_eq. cbn [snd manager timers clock trace].
    by rewrite <- app_assoc.
  - unfold exec. rewrite console_eq. done.
Qed.

Lemma errorBoundary_generic_error_leaves_manager_witness :
  let p := ErrorBoundary.mkPage oneUrlBrowser (ErrorBoundary.mkState true None None 0 false) in
  let p' := exec (ErrorBoundary.componentDidCatch (ErrorBoundary.mkProps (Some "comp1") None None None)
                    (ErrorBoundary.mkError (Some "x is not a function") None) "in Player") p in
  manager (ErrorBoundary.browser p') = manager oneUrlBrowser ∧
  timers (ErrorBoundary.browser p') = timers oneUrlBrowser.
Proof.
  destruct (errorBoundary_generic_error_leaves_manager
              (ErrorBoundary.mkProps (Some "comp1") None None None)
              (ErrorBoundary.mkError (Some "x is not a function") None) "in Player"
              (ErrorBoundary.mkPage oneUrlBrowser (ErrorBoundary.mkState true None None 0 false)))
    as (_ & Hm & Ht & _); [reflexivity|].
  exact (conj Hm Ht).
Defined.

Lemma iter_retry props n p :
  let p' := Nat.iter n (exec (ErrorBoundary.handleRetry props)) p in
  ErrorBoundary.retryCount (ErrorBoundary.state p')
    = (n + ErrorBoundary.retryCount (ErrorBoundary.state p))%nat ∧
  ErrorBoundary.isBlobError (ErrorBoundary.state p')
    = ErrorBoundary.isBlobError (ErrorBoundary.state p).
Proof.
  induction n as [|n [IHn IHb]]; [done|]. rewrite Nat.iter_succ.
  set (q := Nat.iter n (exec (ErrorBoundary.handleRetry props)) p) in *.
  unfold exec. rewrite handleRetry_eq.
  cbn [snd ErrorBoundary.state ErrorBoundary.retryCount ErrorBoundary.isBlobError].
  rewrite IHn, IHb. split; [lia | done].
Qed.

(** [handleRetry] has no limit of its own: the bound of three is on the
    button of the default error view only.  After [n] retries the count is
    [n] higher, whatever it was; a retry in a state whose button is disabled
    still counts, clears the error and runs the recovery.  And the recovery
    runs whether or not the error was a blob error: for a boundary with a
    [componentId], every tracked URL of that component is deactivated by a
    retry. *)
Theorem errorBoundary_retry_is_unbounded
    (props : ErrorBoundary.Props) (p : ErrorBoundary.Page) (n : nat)
    (c u : string) (md : UrlMetadata) :
  ErrorBoundary.componentId props = Some c → c ≠ "" →
  u ∈ getComponentUrls c (ErrorBoundary.browser p) →
  String.prefix "blob:" u = true →
  getUrlMetadata u (ErrorBoundary.browser p) = Some md →
  let p' := exec (ErrorBoundary.handleRetry props) p in
  ErrorBoundary.retryCount
    (ErrorBoundary.state (Nat.iter n (exec (ErrorBoundary.handleRetry props)) p))
    = (n + ErrorBoundary.retryCount (ErrorBoundary.state p))%nat ∧
  result (ErrorBoundary.handleRetry props) p = outcome (ErrorBoundary.onRetry props) ∧
  ErrorBoundary.state p' =
    ErrorBoundary.mkState false None None (S (ErrorBoundary.retryCount (ErrorBoundary.state p)))
      (ErrorBoundary.isBlobError (ErrorBoundary.state p)) ∧
  isActive <$> getUrlMetadata u (ErrorBoundary.browser p') = Some false.
Proof.
  intros Hc Hne Hu Hpre Hget p'. pose proof (handleRetry_eq props p) as Heq. cbn zeta in Heq.
  split; [apply iter_retry|]. split; [unfold result; by rewrite Heq|].
  split; [subst p'; unfold exec; by rewrite Heq|].
  subst p'. unfold exec at 1. rewrite Heq. cbn [snd ErrorBoundary.browser].
  unfold ErrorBoundary.recoveryCalls. rewrite Hc.
  assert (truthy (Some c) = true) as -> by (by apply negb_true_iff, bool_decide_eq_false).
  cbn [default app]. change (id c) with c. rewrite !performAll_cons. cbn [perform].
  set (w := ErrorBoundary.browser p) in *.
  set (wa := exec (console LogLevel "Attempting to recover from blob URL error") w).
  assert (u ∈ getComponentUrls c wa ∧ getUrlMetadata u wa = Some md) as [Hu_a Hget_a] by done.
  destruct (revokeComponentUrls_sync c wa) as (_ & _ & _ & _ & Hrevoked).
  destruct (Hrevoked u md Hu_a Hpre Hget_a) as [Hdead _].
  set (wb := exec (revokeComponentUrls c) wa) in *.
  (* the sweep and the rest leave the flag down *)
  assert (∀ w1 md1, getUrlMetadata u w1 = Some md1 → isActive md1 = false →
            ∃ md2, getUrlMetadata u (exec (cleanupOldUrls (Some (5 * 60 * 1000))) w1) = Some md2 ∧
                   isActive md2 = false) as Hsweep.
  { intros w1 md1 Hget1 Hoff.
    destruct (cleanupOldUrls_state (Some (5 * 60 * 1000)) w1) as (Hm & _).
    unfold getUrlMetadata in *. rewrite Hm.
    match goal with |- context [revokeAll ?l w1] =>
      destruct (revokeAll_keeps l w1 u md1 Hget1) as [H|H] end;
      unfold getUrlMetadata in H; rewrite H; by eexists. }
  destruct (Hsweep wb (deactivated md) Hdead eq_refl) as (md2 & Hget2 & Hoff2).
  assert (getUrlMetadata u (exec (console LogLevel "Blob URL stats after cleanup")
                              (exec (cleanupOldUrls (Some (5 * 60 * 1000))) wb)) = Some md2)
    as Hget3 by done.
  match goal with |- context [performAll _ ?w1] =>
    assert (manager (performAll (ErrorBoundary.propCalls (ErrorBoundary.onRetry props)) w1)
            = manager w1) as Hm end.
  { destruct (ErrorBoundary.onRetry props) as [f|]; [|done].
    unfold performAll. cbn [ErrorBoundary.propCalls foldl perform]. by rewrite call_state. }
  unfold getUrlMetadata in *. rewrite Hm, Hget3. simpl. by rewrite Hoff2.
Qed.

Lemma errorBoundary_retry_is_unbounded_witness :
  let props := ErrorBoundary.mkProps (Some "comp1") None None None in
  let p := ErrorBoundary.mkPage oneUrlBrowser (ErrorBoundary.mkState true None None 3 false) in
  ErrorBoundary.retryDisabled (ErrorBoundary.state p) = true ∧
  ErrorBoundary.retryCount
    (ErrorBoundary.state (Nat.iter 2 (exec (ErrorBoundary.handleRetry props)) p)) = 5%nat ∧
  isActive <$> getUrlMetadata "blob:0"
                 (ErrorBoundary.browser (exec (ErrorBoundary.handleRetry props) p)) = Some false.
Proof.
  destruct (errorBoundary_retry_is_unbounded
              (ErrorBoundary.mkProps (Some "comp1") None None None)
              (ErrorBoundary.mkPage oneUrlBrowser (ErrorBoundary.mkState true None None 3 false))
              2 "comp1" "blob:0" wavMetadata)
    as (Hcount & _ & _ & Hoff);
    [reflexivity | done | refine (bool_decide_unpack _ _); vm_compute; exact I
    | reflexivity | reflexivity |].
  split; [reflexivity|]. exact (conj Hcount Hoff).
Defined.

(** [handleReset] empties the manager and sets the retry count back to
    zero; the pending timers stay.  No cleanup callback is run: the only
    callback that runs is [onReset], and the call ends as [onReset] ends. *)
Theorem errorBoundary_reset_empties_manager
    (props : ErrorBoundary.Props) (p : ErrorBoundary.Page) (id : nat) :
  let p' := exec (ErrorBoundary.handleReset props) p in
  result (ErrorBoundary.handleReset props) p = outcome (ErrorBoundary.onReset props) ∧
  manager (ErrorBoundary.browser p') = newBlobUrlManager ∧
  timers (ErrorBoundary.browser p') = timers (ErrorBoundary.browser p) ∧
  ErrorBoundary.state p' =
    ErrorBoundary.mkState false None None 0 (ErrorBoundary.isBlobError (ErrorBoundary.state p)) ∧
  runsOf id (trace (ErrorBoundary.browser p')) =
    (runsOf id (trace (ErrorBoundary.browser p)) +
     match ErrorBoundary.onReset props with
     | Some f => if decide (cb_id f = id) then 1 else 0
     | None => 0
     end)%nat.
Proof.
  intros p'. pose proof (handleReset_eq props p) as Heq. cbn zeta in Heq.
  split; [unfold result; by rewrite Heq|].
  set (w1 := exec cleanup (ErrorBoundary.browser p)).
  assert (manager w1 = newBlobUrlManager ∧ timers w1 = timers (ErrorBoundary.browser p) ∧
          runsOf id (trace w1) = runsOf id (trace (ErrorBoundary.browser p)))
    as (Hm & Ht & Hruns).
  { subst w1. unfold exec. rewrite cleanup_eq. cbn [snd manager timers trace].
    split; [done|]. split; [done|]. rewrite !runsOf_app, runsOf_releases.
    destruct (decide (0 < JsMap.size _)%nat); unfold runsOf; simpl; lia. }
  subst p'. unfold exec at 1 2 3 4. rewrite Heq.
  cbn [snd ErrorBoundary.browser ErrorBoundary.state]. rewrite performAll_cons.
  cbn [perform]. fold w1.
  destruct (ErrorBoundary.onReset props) as [f|]; cbn [ErrorBoundary.propCalls].
  - rewrite performAll_cons. cbn [perform]. rewrite call_state.
    unfold performAll. cbn [foldl manager timers trace].
    split; [done|]. split; [done|]. split; [done|]. rewrite runsOf_app, Hruns. f_equal.
    unfold runsOf. rewrite filter_cons, filter_nil. destruct (decide (cb_id f = id)) as [->|Hne].
    + by rewrite decide_True.
    + rewrite decide_False; [done|]. intros [= Heq']. done.
  - unfold performAll. cbn [foldl]. split; [done|]. split; [done|]. split; [done|].
    rewrite Hruns. lia.
Qed.

(** The recovery after a blob error, end to end.  The boundary of a
    component [c] catches a blob error on a page that has used the manager in
    any way (no creation overrode [componentId]).  Once [componentDidCatch]
    has run and 50 ms have passed, the manager has forgotten the component:
    [getComponentUrls c] is empty, every URL the component had is untracked,
    and no tracked entry names it; and every entry still tracked was at most
    five minutes old when the error was caught. *)
Theorem errorBoundary_recovery_forgets_component
    (props : ErrorBoundary.Props) (e : ErrorBoundary.ErrorValue) (info : string)
    (cs : list Call) (st : ErrorBoundary.State) (c : string) (dt : N) :
  forallb plain cs = true →
  ErrorBoundary.isBlobError st = true →
  ErrorBoundary.componentId props = Some c → c ≠ "" →
  (50 ≤ dt)%N →
  let p' := exec (ErrorBoundary.componentDidCatch props e info)
              (ErrorBoundary.mkPage (history cs) st) in
  let w' := exec (advance dt) (ErrorBoundary.browser p') in
  getComponentUrls c w' = [] ∧
  (∀ u, u ∈ getComponentUrls c (history cs) → isUrlActive u w' = false) ∧
  (∀ u md, getUrlMetadata u w' = Some md →
     componentId md ≠ c ∧ clock (history cs) - createdAt md ≤ 5 * 60 * 1000).
Proof.
  intros Hplain Hblob Hc Hne Hdt p' w'.
  set (pre := [ConsoleCall ErrorLevel "BlobUrlErrorBoundary caught an error";
               ConsoleCall LogLevel "Attempting to recover from blob URL error"]).
  set (tail := ConsoleCall LogLevel "Blob URL stats after cleanup"
               :: ErrorBoundary.propCalls (ErrorBoundary.onError props)).
  set (sweep := CleanupOldUrls (Some (5 * 60 * 1000))).
  assert (forallb quiet pre = true) as Hpre by done.
  assert (forallb quiet tail = true) as Htail.
  { subst tail. by destruct (ErrorBoundary.onError props). }
  assert (ErrorBoundary.browser p' =
            performAll (pre ++ [RevokeComponentUrls c] ++ sweep :: tail) (history cs)) as Hp'.
  { subst p'. unfold exec. rewrite componentDidCatch_eq.
    cbn [snd ErrorBoundary.browser ErrorBoundary.state]. rewrite Hblob.
    unfold ErrorBoundary.catchCalls, ErrorBoundary.recoveryCalls. rewrite Hc.
    assert (truthy (Some c) = true) as -> by (by destruct c).
    reflexivity. }
  destruct (component_forgotten cs pre (sweep :: tail) c dt Hplain Hpre)
    as (Hempty & _ & Hnone & _ & Hgone); [exact Htail | done |].
  rewrite <- Hp' in Hempty, Hnone, Hgone. fold w' in Hempty, Hnone, Hgone.
  split; [done|]. split; [intros u Hu; by destruct (Hgone u Hu)|].
  intros u md Hget. split; [by eapply Hnone|].
  (* the states in between *)
  set (csb := cs ++ pre ++ [RevokeComponentUrls c]).
  set (wb := history csb).
  set (ws := exec (cleanupOldUrls (Some (5 * 60 * 1000))) wb).
  set (wc := performAll tail ws).
  assert (ErrorBoundary.browser p' = wc) as Hwc.
  { rewrite Hp'. subst wc ws wb csb.
    rewrite (app_assoc pre), performAll_app, <- history_app.
    by rewrite performAll_cons. }
  assert (clock wb = clock (history cs)) as Hclock.
  { subst wb csb. rewrite history_app.
    by destruct (quiet_calls (pre ++ [RevokeComponentUrls c]) (history cs))
      as (_ & _ & ? & _); [by rewrite forallb_app, Hpre|]. }
  destruct (quiet_calls tail ws Htail) as (_ & _ & Hc_c & Hk_c). fold wc in Hc_c, Hk_c.
  destruct (quiet_call sweep wb eq_refl) as ((_ & _ & Hback & _) & _ & Hc_s & _).
  change (exec (perform sweep) wb) with ws in Hback, Hc_s.
  destruct (cleanupOldUrls_sweeps csb (Some (5 * 60 * 1000))) as (_ & Hyoung & Hold).
  fold wb in Hyoung, Hold. fold ws in Hyoung, Hold. cbn [default] in Hyoung, Hold.
  (* the entry as it was before the wait: a sweep in the wait may have
     cleared its flag *)
  assert (∃ md_c, getUrlMetadata u wc = Some md_c ∧ createdAt md = createdAt md_c)
    as (md_c & Hget_c & Hcreated).
  { subst w'. rewrite Hwc in Hget.
    destruct (advance_entry _ _ _ _ Hget) as (md_c & Hget_c & [-> | ->]); by exists md_c. }
  rewrite Hcreated.
  assert (getUrlMetadata u ws = Some md_c) as Hget_s.
  { assert (manager wc = manager ws) as Hm.
    { subst wc tail. rewrite performAll_cons.
      destruct (ErrorBoundary.onError props) as [f|];
        unfold performAll; cbn [ErrorBoundary.propCalls foldl perform];
        [rewrite call_state|]; unfold exec; rewrite console_eq; done. }
    unfold getUrlMetadata in *. by rewrite <- Hm. }
  destruct (Hback u md_c Hget_s) as (md_b & Hget_b & _).
  destruct (decide (clock wb - createdAt md_b ≤ 5 * 60 * 1000)) as [Hy|Ho].
  - destruct (Hyoung u md_b Hget_b Hy) as [Hsame _]. rewrite Hsame in Hget_s.
    injection Hget_s as <-. by rewrite <- Hclock.
  - assert (5 * 60 * 1000 < clock wb - createdAt md_b) as Ho' by lia.
    destruct (Hold u md_b Hget_b Ho') as (_ & Htimer & _).
    apply Hk_c in Htimer.
    assert (isUrlActive u w' = false) as Hoff.
    { subst w'. rewrite Hwc. eapply advance_releases; [exact Htimer | reflexivity |].
      simpl. rewrite Hc_c, Hc_s. lia. }
    apply has_false in Hoff. unfold getUrlMetadata in Hget. congruence.
Qed.

Lemma errorBoundary_recovery_forgets_component_witness :
  let cs := [CreateBlobUrl (Some wavBlob) (Some "comp1") noMetadata;
             CreateBlobUrl (Some wavBlob) (Some "comp2") noMetadata] in
  let p' := exec (ErrorBoundary.componentDidCatch
                    (ErrorBoundary.mkProps (Some "comp1") None None None)
                    (ErrorBoundary.mkError (Some "Failed to fetch") None) "in Player")
              (ErrorBoundary.mkPage (history cs) (ErrorBoundary.mkState true None None 0 true)) in
  let w' := exec (advance 50) (ErrorBoundary.browser p') in
  getComponentUrls "comp1" w' = [] ∧ isUrlActive "blob:0" w' = false.
Proof.
  destruct (errorBoundary_recovery_forgets_component
              (ErrorBoundary.mkProps (Some "comp1") None None None)
              (ErrorBoundary.mkError (Some "Failed to fetch") None) "in Player"
              [CreateBlobUrl (Some wavBlob) (Some "comp1") noMetadata;
               CreateBlobUrl (Some wavBlob) (Some "comp2") noMetadata]
              (ErrorBoundary.mkState true None None 0 true) "comp1" 50)
    as (Hempty & Hgone & _); [reflexivity | reflexivity | reflexivity | done | lia |].
  split; [exact Hempty|]. apply Hgone.
  refine (bool_decide_unpack _ _). vm_compute. exact I.
Defined.

(** *** The unmount of [useMultipleBlobUrls] *)

Lemma unmountMultipleBlobUrls_eq autoCleanup p :
  unmountMultipleBlobUrls autoCleanup p =
    (Normal tt,
     mkPage (if autoCleanup then exec (revokeComponentUrls (componentIdRef (hook p))) (browser p)
             else browser p) (hook p)).
Proof.
  unfold unmountMultipleBlobUrls. destruct autoCleanup; [|by destruct p].
  unfold inBrowser. run_js. by rewrite revokeComponentUrls_pair.
Qed.

(** The unmount of [useMultipleBlobUrls] releases by component, not by
    the item map.  On a page that has used the manager in any way (no
    creation overrode [componentId]), [addBlob] binds its item to a new
    handle; a handle [old] the component had before, which the item map may
    no longer lead to, stays tracked.  The unmount with [autoCleanup] revokes
    both: 50 ms later neither is tracked and the component has no URL left. *)
Theorem useMultipleBlobUrls_unmount_releases_rebound_handle
    (onError : option Callback) (bd : BlobData) (cs : list Call) (h : MultipleBlobUrls)
    (old : string) (dt : N) :
  forallb plain cs = true →
  creatable bd = true → m_componentId (bd_metadata bd) = None →
  old ∈ getComponentUrls (componentIdRef h) (history cs) →
  (50 ≤ dt)%N →
  let new := objectUrl (nextObjectUrl (history cs)) in
  let p1 := exec (addBlob onError (Some bd)) (mkPage (history cs) h) in
  let p2 := exec (unmountMultipleBlobUrls true) p1 in
  let w' := exec (advance dt) (browser p2) in
  JsMap.get (bd_id bd) (urlsRef (hook p1)) = Some new ∧ new ≠ old ∧
  is_Some (getUrlMetadata old (browser p1)) ∧
  result (unmountMultipleBlobUrls true) p1 = Normal tt ∧
  isUrlActive old w' = false ∧
  isUrlActive new w' = false ∧
  getComponentUrls (componentIdRef h) w' = [].
Proof.
  intros Hplain Hok Hmeta Hold Hdt new p1 p2 w'.
  set (c := componentIdRef h) in *.
  set (create := CreateBlobUrl (bd_blob bd) (Some c) (withBlobId (bd_metadata bd) (bd_id bd))).
  pose proof Hok as [_ Hr]%andb_true_iff.
  destruct (refusal (bd_blob bd)) as [|] eqn:Href; [done|].
  apply refusal_None in Href as (b & sz & Hb & Hsz & Hnz & Hblob). clear Hr.
  pose proof (addBlob_creatable onError bd (mkPage (history cs) h) Hok) as Hadd.
  cbn zeta in Hadd. cbn [browser hook] in Hadd. fold c in Hadd.
  assert (p1 = mkPage (history (cs ++ [create]))
                 (mkHook (JsMap.set (bd_id bd) new (urls h)) (isLoading h)
                    (JsMap.delete (bd_id bd) (errors h)) c
                    (JsMap.set (bd_id bd) new (urlsRef h)))) as Hp1.
  { subst p1. unfold exec at 1. rewrite Hadd. cbn [snd]. rewrite history_snoc.
    subst create. cbn [perform]. unfold exec, bind. rewrite Hb.
    by rewrite !(createBlobUrl_accepted b sz). }
  assert (forallb plain (cs ++ [create]) = true) as Hplain1.
  { apply plain_snoc; [done|]. subst create. cbn [plain withBlobId m_componentId].
    by rewrite Hmeta. }
  set (w1 := history (cs ++ [create])) in *.
  assert (browser p2 = performAll ([] ++ [RevokeComponentUrls c] ++ []) w1) as Hp2.
  { subst p2. unfold exec at 1. rewrite unmountMultipleBlobUrls_eq. cbn [snd browser].
    by rewrite Hp1. }
  destruct (component_forgotten (cs ++ [create]) [] [] c dt Hplain1 eq_refl eq_refl Hdt)
    as (Hempty & _ & _ & _ & Hgone).
  fold w1 in Hempty, Hgone. rewrite <- Hp2 in Hempty, Hgone. fold w' in Hempty, Hgone.
  (* the two handles in the state after [addBlob] *)
  destruct (history_tables cs) as (Hminted & _ & (Hkeys & _) & Hsound).
  destruct (Hsound Hplain) as (Hagree & Hindexed & _).
  destruct (history_tables (cs ++ [create])) as (_ & _ & _ & Hsound1).
  destruct (Hsound1 Hplain1) as (_ & _ & Htracked1 & _). fold w1 in Htracked1.
  destruct (next_url_fresh _ Hminted) as [Hfresh _]. fold new in Hfresh.
  assert (manager w1 =
            trackByComponent c new
              (trackUrl new (trackedMetadata (newBlobOf b) b c (clock (history cs))
                               (clock (history cs)) sz (withBlobId (bd_metadata bd) (bd_id bd)))
                 (manager (history cs)))) as Hm1.
  { subst w1 create. rewrite history_snoc, Hb. cbn [perform]. unfold exec, bind.
    by rewrite (createBlobUrl_accepted b sz). }
  pose proof Hold as (s & Hin & Hs)%getComponentUrls_elem.
  destruct (Hindexed c s old Hin Hs) as [md Hget].
  assert (componentId md = c) as Hc by (by eapply Hagree).
  assert (old ≠ new) as Hne by (intros ->; unfold getUrlMetadata in *; congruence).
  assert (getUrlMetadata old w1 = Some md) as Hget1.
  { unfold getUrlMetadata in *. rewrite Hm1. cbn [trackByComponent trackUrl activeUrls].
    by rewrite get_set_ne. }
  assert (∃ md', getUrlMetadata new w1 = Some md' ∧ componentId md' = c) as (md' & Hnew & Hc').
  { eexists. split.
    - unfold getUrlMetadata. rewrite Hm1. cbn [trackByComponent trackUrl activeUrls].
      apply get_set_eq.
    - cbn [trackedMetadata componentId withBlobId m_componentId]. by rewrite Hmeta. }
  split; [rewrite Hp1; apply get_set_eq|]. split; [done|].
  split; [rewrite Hp1; by eexists|].
  split; [unfold result; by rewrite unmountMultipleBlobUrls_eq|].
  split; [|split; [|done]].
  - apply Hgone. rewrite <- Hc. by eapply Htracked1.
  - apply Hgone. rewrite <- Hc'. by eapply Htracked1.
Qed.

Lemma useMultipleBlobUrls_unmount_releases_rebound_handle_witness :
  let cs := [CreateBlobUrl (Some wavBlob) (Some "gallery") (withBlobId noMetadata "a")] in
  let h := mkHook [("a", "blob:0")] false [] "gallery" [("a", "blob:0")] in
  let p1 := exec (addBlob None itemA) (mkPage (history cs) h) in
  let w' := exec (advance 50) (browser (exec (unmountMultipleBlobUrls true) p1)) in
  JsMap.get "a" (urlsRef (hook p1)) = Some "blob:1" ∧
  isUrlActive "blob:0" w' = false ∧ isUrlActive "blob:1" w' = false.
Proof.
  destruct (useMultipleBlobUrls_unmount_releases_rebound_handle None
              (mkBlobData (Some wavBlob) "a" noMetadata)
              [CreateBlobUrl (Some wavBlob) (Some "gallery") (withBlobId noMetadata "a")]
              (mkHook [("a", "blob:0")] false [] "gallery" [("a", "blob:0")]) "blob:0" 50)
    as (Hbound & _ & _ & _ & Hold & Hnew & _);
    [reflexivity | reflexivity | reflexivity
    | refine (bool_decide_unpack _ _); vm_compute; exact I | lia |].
  exact (conj Hbound (conj Hold Hnew)).
Defined.

